(* ===== verification/_CoqProject ===== *)
-Q . S2P
Prelude.v
Text.v
Types.v
Secret.v
External.v
Ids.v
Codecs.v
Shamir.v
PolicyTypes.v
F64.v
F64Valid.v
RateLimit.v
PolicySpec.v
StaticPolicy.v
RuleSetPolicy.v
RuleSetProofs.v
RuleSetProps.v
Signers.v
SignedDecision.v
Derivation.v
Attestation.v
Cose.v
NitroVerify.v
Rlp.v
EvmDecoder.v
QvmDecoder.v
HybridVerifier.v
MockEnclave.v
Nitro.v
Boot.v
Approval.v
Registry.v
ApprovalStore.v
Orchestrating.v
AuditLog.v
AuditPostgres.v
ChainAnchor.v
AuditAnchors.v
ShareStore.v
ShareFiles.v
ShareObjects.v
WalletService.v
WalletServiceProps.v
Notifiers.v
ApiSchemas.v
ApiHandlers.v
GrpcConvert.v
GrpcHandlers.v
GrpcClient.v
ApiProps.v
ApproverClient.v
ApproverClientProps.v
Daemon.v
RegistryPostgres.v
StorePostgres.v
Observability.v
Surfaces.v
ServerLog.v
Server.v
QuorumFlow.v
Life.v
