(* ===== verification/Prelude.v ===== *)
(** * Verification of qfc-server-wallet

    A custodial signing service.  A wallet's key exists only inside an enclave;
    at rest it is Shamir shares.  To sign, the service (crate
    [qfc-server-wallet]) asks a policy ([qfc-policy]) for a decision, collects a
    quorum of human or on-chain approvals when the decision demands one
    ([qfc-quorum]), fetches shares ([qfc-sss]), and calls the enclave
    ([qfc-enclave]), which re-verifies the signed decision, reconstructs the
    key, signs and attests.  Every step goes to a hash-chained audit log
    ([qfc-audit]) whose head is anchored on a chain.

    ** Files and the code they model (paths under src/crates/)

    - [Prelude], [Text]: [result], panics, options, lists, machine integers,
      big-endian bytes; the [str] operations of the standard library.
    - [Types], [Ids], [Secret]: qfc-wallet-types (ids.rs, scheme.rs, hd_path.rs,
      errors.rs, secret.rs).
    - [External], [Codecs]: the third-party crates the code calls, as classes of
      operations with the documented laws the proofs use (ulid, hex, vsss_rs,
      sha2/sha3/hmac, ed25519-dalek, k256, ml-dsa, bip32, bip39, time,
      primitive-types, serde_json; borsh, ciborium, coset, p384, x509-cert),
      and modules [Concrete] and [ConcreteCodecs], computable instances that
      satisfy the laws and on which witnesses run.
    - [Shamir], [ShareStore], [ShareFiles], [ShareObjects]: qfc-sss (shamir.rs,
      store.rs, stores/mock.rs, local_fs.rs and s3_kms.rs).  The class
      [SecretSharing] is the interface the enclave relies on.
    - [PolicyTypes], [F64], [F64Valid], [RateLimit], [PolicySpec],
      [StaticPolicy], [RuleSetPolicy], [RuleSetProofs], [RuleSetProps]: qfc-policy (request.rs,
      decision.rs, rules.rs, vm.rs, rate_limit.rs, static_policy.rs,
      rule_set_policy.rs).  [PolicyContract] is what a backend promises.
    - [SignedDecision]: signed_decision.rs, policy_service_signer.rs.
    - [Rlp], [EvmDecoder], [QvmDecoder]: decoders/evm.rs over the RLP format and
      decoders/qvm.rs.
    - [Signers], [Derivation], [Attestation], [Cose], [NitroVerify],
      [HybridVerifier], [MockEnclave], [Nitro], [Boot]: qfc-enclave (signer.rs,
      signers/, derivation.rs, attestation.rs, cose.rs, verify_attestation.rs,
      hybrid_verifier.rs, enclave.rs, enclaves/mock.rs and nitro.rs) and the
      enclave image (src/enclave/src/main.rs).
    - [Approval], [Registry], [RegistryPostgres], [ApprovalStore],
      [StorePostgres], [Orchestrating], [Notifiers]: qfc-quorum (identity.rs,
      approval.rs, approver.rs, registry/, store/, approvers/, mock.rs).
    - [AuditLog], [AuditPostgres], [ChainAnchor], [AuditAnchors]: qfc-audit
      (event.rs, sink.rs, file.rs; postgres.rs, anchor.rs; chain_anchor.rs).
    - [WalletService], [WalletServiceProps]: qfc-server-wallet (wallet.rs,
      service.rs).
    - [ApiSchemas], [ApiHandlers], [GrpcConvert], [GrpcHandlers], [ApiProps]:
      the HTTP and gRPC surfaces (api/, grpc/); [Surfaces] makes a transition
      system of their requests and [ServerLog] runs it over the audit file.
    - [QuorumFlow]: the orchestrating approver behind the service while other
      requests run.
    - [Life]: the transition system of [Surfaces] labelled with the signatures
      that leave, over a server whose policy is a rule set.
    - [Observability], [Server]: observability.rs and main.rs.
    - [GrpcClient], [ApproverClient], [ApproverClientProps], [Daemon]: the
      clients (src/clients/wallet-grpc-rs, src/clients/approver-rs).

    ** How the code is rendered

    Functions keep the names and the order of checks of the source.  A fallible
    function returns [result E A] with the source's error type, a function that
    can panic returns [panics], and [x ← c; k] is [let x = c?; k].  Integers
    are [Z] with the wrap-around, saturation or range check of the code written
    out; [f64] is the executable IEEE specification; bytes are lists of [byte];
    hash maps are [gmap]s whose iteration order is an arbitrary permutation
    ([HashOrder]).  Clock readings, random draws, fresh identifiers and the
    outcome of I/O are arguments ([Entropy], [Draws], [IoOutcome]), so a
    theorem over them covers every environment.  Stateful handlers pass state
    explicitly: the limiter's buckets, the registry's tables, the log file with
    its chain head, the table of rows, and in [WalletService] the world behind
    the service's shared pointers, under a monad ([Svc]) that keeps the effects
    made before an early return.  Trait objects are classes or records of
    operations ([Policy], [ShareStore], [ApprovalStore], [AuditSink],
    [Enclave], [Quorum]), and clients are proved against them.

    ** What the theorems show

    - Custody: any [threshold] shares rebuild the secret
      ([split_combine_round_trip]); a generated wallet signs with any of its
      share selections ([generated_wallet_signs]); a wallet created through the
      service signs through it ([created_wallet_signs]) and through the
      HTTP surface ([http_created_wallet_signs]); the file store refines the
      in-memory one ([file_store_refines]); the enclave image signs like the
      in-process enclave ([boot_signs_like_mock]).
    - Authorisation: what a successful [sign] implies ([sign_authorised],
      [denied_request_stops]), what acceptance by the enclave implies
      ([enclave_signs_only_verified], [hybrid_verify_sound],
      [hard_ceilings_exact], [boot_quorum_binds_message]) and what every
      signature the enclave image ever sends implies
      ([image_signs_authorised]), and that signer and
      verifier, and the two copies of the approval check, agree
      ([signer_verifier_agree], [enclave_agrees_with_quorum]); what the
      signatures bind ([preimage_binds_fields], [approval_preimage_binds]);
      what the attestation verifier accepts ([anchored_verification_exact],
      [decoded_payload_exact]).
    - Over the life of a server, whatever requests it serves on either surface:
      every signature released obeys the rule set ([signatures_obey_rules]), was
      logged as a success first ([signatures_logged]), and a budget that does
      not refill bounds how many there ever are ([signatures_within_budget]).
    - Policy: evaluation refines a declarative precedence table
      ([evaluate_precedence], [static_policy_precedence]), charges the limiter
      only when due, and the limiter grants exactly its budget per key
      ([limiter_budget_exact]) and at one instant never more than its capacity,
      whatever the history ([burst_bounded]); interleaved calls are a history of the atomic
      limiter ([interleaving_is_history]).
    - Quorum: collection ends and is sound ([collect_decides],
      [collect_sound]); listings under concurrent submissions are exact and
      replays are refused; the registry's invariant and the exact condition
      under which a set is created; the Postgres registry refines the in-memory
      one ([postgres_registry_refines]); a signature under a quorum was vouched
      for by distinct approvers whose submissions were checked
      ([quorum_signature_vouched]).
    - Audit: emitted logs replay and reopen, equal heads mean equal histories,
      every signing leaves its full trail ([sign_audit_trail]), the Postgres
      table replays ([postgres_log_replays]), and what is anchored commits to
      the log ([published_anchor_commits]).
    - Surfaces and process: a started server answers no protected call without
      a configured key ([started_server_gated]); its audit file replays after
      any requests ([server_log_replays]); both surfaces sign alike
      ([surfaces_sign_alike]); each [sign] counts one outcome
      ([sign_outcome_counted]); what the approver daemon submits verifies
      ([client_submission_verifies]).
    - Formats: transactions of all four EVM envelope types and of the QVM decode
      to what was encoded ([evm_decode_envelope], [qvm_decode_exact]),
      derivation paths and identifiers round-trip ([id_text_round_trip]), a
      mnemonic gives a seed from which keys derive ([mnemonic_derives]), every
      scheme's signatures verify ([signer_sign_verify]).
    - Limits of the code, proved as such: [signed_quorum_never_signs],
      [enclave_message_unbound], [repeated_approval_meets_quorum],
      [failed_sync_breaks_log], [postgres_stuck_after_policy_decision],
      [server_webhook_unreadable], [restarted_log_needs_both_keys],
      [overtaken_call_refills_twice], and the theorems
      [unsigned_fields_tamperable], [same_millisecond_forks],
      [nested_pair_blocks_reuse], [submission_binding_unchecked],
      [same_scope_limits_share_bucket], [caps_vacuous_when_undecoded],
      [allow_method_without_decoder_denies], [unsigned_1559_undecoded],
      [combine_shares_panics], [newline_only_log_panics].

    ** Fuel and bounds

    [pad_loop] runs at most one chunk; [walk_fuel] is two more than the number
    of approver records, enough because every wallet popped is the start or
    named by a record and a second visit ends the walk ([create_set_exact] shows
    it always answers); [collect_approvals] takes the number of polls, and
    [collect_decides] shows that any number reaching the deadline decides;
    [show_dec_aux] and the RLP splitter recurse on the length of their input.
    Sharing parameters are bounded by the [u8] total (255), secrets by the
    [u32] length header, log counters wrap at [2^64].

    ** Not modelled

    Sockets, TLS and signals, and the accept loops of the servers (a connection
    is its requests, and a step of [served] or [life] is one request handled to
    its response; what interleaves inside a request is modelled where the code
    shares state in it: the limiter, the approval store and the wait for a
    quorum, in [RateLimit], [ApprovalStore] and [QuorumFlow]; the accept loop of
    the enclave image is in [Boot]);
    the set-up of database pools and the migrations, which are calls of sqlx;
    the generated OpenAPI document and gRPC reflection; tracing spans and the
    HTTP trace layer; zeroising of secrets on drop; the examples of the client library and the tool that
    writes golden vectors.  Random draws are arguments, so no theorem speaks of
    their distribution.  Cryptographic strength is not stated: signature schemes
    enter through correctness laws, and collision freedom appears only as an
    explicit alternative about the bytes that were hashed ([collide]). *)

From stdpp Require Export base tactics numbers list gmap strings sorting.
From Stdlib Require Export Strings.Byte.
From Stdlib Require Export ZArith Lia.

Declare Scope wallet_scope.
Delimit Scope wallet_scope with wallet.
#[global] Open Scope Z_scope.

(** ** Results

    [result E A] is Rust's [Result<A, E>].  It is a monad through stdpp's
    [MRet]/[MBind] classes, so that [x ← c; k] reads like [let x = c?; k]. *)

Inductive result (E A : Type) : Type :=
  | Ok (a : A)
  | Err (e : E).
Arguments Ok {E A} a.
Arguments Err {E A} e.

#[export] Instance result_ret E : MRet (result E) := λ A a, Ok a.
#[export] Instance result_bind E : MBind (result E) :=
  λ A B f r, match r with Ok a => f a | Err e => Err e end.

(** [Option::ok_or]. *)
Definition ok_or {E A} (o : option A) (e : E) : result E A :=
  match o with Some a => Ok a | None => Err e end.

(** [Result::map_err]. *)
Definition map_err {E F A} (f : E → F) (r : result E A) : result F A :=
  match r with Ok a => Ok a | Err e => Err (f e) end.

(** [Result::ok]. *)
Definition result_ok {E A} (r : result E A) : option A :=
  match r with Ok a => Some a | Err _ => None end.

(** [if c { return Err(e) }]. *)
Definition ensure {E} (b : bool) (e : E) : result E () :=
  if b then Ok () else Err e.

(** A [for] loop whose body may return early with an error. *)
Fixpoint iter_result {E A} (f : A → result E ()) (l : list A) : result E () :=
  match l with
  | [] => Ok ()
  | a :: l => match f a with Ok _ => iter_result f l | Err e => Err e end
  end.

(** A [for] loop that pushes the value of a fallible body. *)
Fixpoint map_result {E A B} (f : A → result E B) (l : list A) : result E (list B) :=
  match l with
  | [] => Ok []
  | a :: l => b ← f a; bs ← map_result f l; mret (b :: bs)
  end.

(** A [for] loop that updates its state and may return early with an error. *)
Fixpoint fold_result {E A S} (f : S → A → result E S) (s : S) (l : list A) : result E S :=
  match l with
  | [] => Ok s
  | a :: l => s ← f s a; fold_result f s l
  end.

(** [Iterator::any], [Iterator::all] on slices. *)
Definition any {A} (f : A → bool) (l : list A) : bool := existsb f l.

(** [<[T]>::contains]. *)
Definition contains {A} `{EqDecision A} (l : list A) (x : A) : bool :=
  bool_decide (x ∈ l).

(** [Option::is_some_and]. *)
Definition is_some_and {A} (o : option A) (f : A → bool) : bool :=
  match o with Some a => f a | None => false end.

(** [Iterator::find]. *)
Definition find {A} (f : A → bool) (l : list A) : option A := List.find f l.

(** Code that may panic (an out-of-range slice, a failed [expect]). *)
Inductive panics (A : Type) : Type :=
  | Returns (a : A)
  | Panics (why : string).
Arguments Returns {A} a.
Arguments Panics {A} why.

#[export] Instance panics_ret : MRet panics := λ A a, Returns a.
#[export] Instance panics_bind : MBind panics :=
  λ A B f r, match r with Returns a => f a | Panics w => Panics w end.

(** ** Tactics and hints *)

Create HintDb wallet.
Create Rewrite HintDb wallet.

(** Case analysis on every [match] of the goal and of the hypotheses. *)
Ltac case_all :=
  repeat (case_match; simplify_eq/=; try done).

(** Unfold the boolean tests the code makes into propositions. *)
Ltac bool_norm :=
  rewrite ?andb_true_iff, ?andb_false_iff, ?orb_true_iff, ?orb_false_iff,
    ?negb_true_iff, ?negb_false_iff, ?bool_decide_eq_true, ?bool_decide_eq_false in *.

(** ** Generic lemmas *)

Lemma result_bind_ok {E A B} (r : result E A) (f : A → result E B) b :
  r ≫= f = Ok b ↔ ∃ a, r = Ok a ∧ f a = Ok b.
Proof. destruct r; cbn; naive_solver. Qed.

Lemma ok_or_ok {E A} (o : option A) (e : E) a : ok_or o e = Ok a ↔ o = Some a.
Proof. destruct o; cbn; naive_solver. Qed.

Lemma map_err_ok {E F A} (f : E → F) (r : result E A) a :
  map_err f r = Ok a ↔ r = Ok a.
Proof. destruct r; cbn; naive_solver. Qed.

Lemma ensure_ok {E} b (e : E) u : ensure b e = Ok u ↔ b = true.
Proof. destruct b, u; cbn; naive_solver. Qed.

Lemma ensure_bind_ok {E A} b (e : E) (k : result E A) a :
  (_ ← ensure b e; k) = Ok a ↔ b = true ∧ k = Ok a.
Proof. destruct b; cbn; naive_solver. Qed.

Lemma iter_result_ok {E A} (f : A → result E ()) l u :
  iter_result f l = Ok u ↔ Forall (λ a, f a = Ok ()) l.
Proof.
  destruct u. induction l as [|a l IH]; cbn; [by split|].
  rewrite Forall_cons. destruct (f a) as [[]|]; naive_solver.
Qed.

Lemma map_result_ok {E A B} (f : A → result E B) l bs :
  map_result f l = Ok bs ↔ Forall2 (λ a b, f a = Ok b) l bs.
Proof.
  revert bs. induction l as [|a l IH]; intros bs; cbn.
  - split; [by intros [= <-]|]. by intros ->%Forall2_nil_inv_l.
  - rewrite result_bind_ok. setoid_rewrite result_bind_ok. split.
    + intros (b & Hb & bs' & Hbs & [= <-]). constructor; [done|]. by apply IH.
    + intros (b & bs' & Hb & Hbs & ->)%Forall2_cons_inv_l.
      exists b. split; [done|]. exists bs'. by rewrite IH.
Qed.

(** What every step of a loop preserves holds of its result. *)
Lemma fold_result_invariant {E A S} (f : S → A → result E S) (P : S → Prop) l s s' :
  (∀ s a s', P s → f s a = Ok s' → P s') → P s → fold_result f s l = Ok s' → P s'.
Proof.
  intros Hf. revert s. induction l as [|a l IH]; intros s Hs; cbn; [by intros [= <-]|].
  intros (s1 & H1 & H2)%result_bind_ok. eauto.
Qed.

Lemma contains_true {A} `{EqDecision A} (l : list A) x :
  contains l x = true ↔ x ∈ l.
Proof. apply bool_decide_eq_true. Qed.

Lemma contains_false {A} `{EqDecision A} (l : list A) x :
  contains l x = false ↔ x ∉ l.
Proof. apply bool_decide_eq_false. Qed.

Lemma any_true {A} (f : A → bool) l : any f l = true ↔ ∃ x, x ∈ l ∧ f x = true.
Proof.
  unfold any. rewrite existsb_exists. by setoid_rewrite list_elem_of_In.
Qed.

Lemma any_false {A} (f : A → bool) l : any f l = false ↔ ∀ x, x ∈ l → f x = false.
Proof.
  rewrite <-not_true_iff_false, any_true. split.
  - intros H x Hx. apply not_true_iff_false. eauto.
  - intros H (x & Hx & Hf). rewrite H in Hf; done.
Qed.

Lemma any_perm {A} (f : A → bool) l k : l ≡ₚ k → any f l = any f k.
Proof.
  intros Hp. apply eq_true_iff_eq. rewrite !any_true. by setoid_rewrite Hp.
Qed.

Lemma is_some_and_true {A} (o : option A) f :
  is_some_and o f = true ↔ ∃ a, o = Some a ∧ f a = true.
Proof. destruct o; cbn; naive_solver. Qed.

#[export] Hint Rewrite @result_bind_ok @ok_or_ok @map_err_ok @ensure_ok
  @iter_result_ok @contains_true @any_true @is_some_and_true : wallet.

(** ** Sorting and deduplication *)

(** [Vec::dedup]: drop consecutive repetitions. *)
Fixpoint dedup {A} `{EqDecision A} (l : list A) : list A :=
  match l with
  | x :: l' =>
      match l' with
      | y :: _ => if decide (x = y) then dedup l' else x :: dedup l'
      | [] => [x]
      end
  | [] => []
  end.

Lemma dedup_cons2 {A} `{EqDecision A} (x y : A) l :
  dedup (x :: y :: l) = if decide (x = y) then dedup (y :: l) else x :: dedup (y :: l).
Proof. done. Qed.

Lemma dedup_length_le {A} `{EqDecision A} (l : list A) :
  (length (dedup l) ≤ length l)%nat.
Proof.
  induction l as [|x [|y l] IH]; try done.
  rewrite dedup_cons2. case_decide; cbn [length] in *; lia.
Qed.

Lemma dedup_NoDup {A} `{EqDecision A} (l : list A) : NoDup l → dedup l = l.
Proof.
  induction l as [|x [|y l] IH]; intros Hl; try done.
  apply NoDup_cons in Hl as [Hx Hl]. rewrite dedup_cons2, decide_False by set_solver.
  f_equal. by apply IH.
Qed.

Lemma dedup_length_sorted (l : list Z) :
  StronglySorted Z.le l → length (dedup l) = length l → NoDup l.
Proof.
  induction 1 as [|x l Hl IH Hx]; [by constructor|].
  destruct l as [|y l]; [intros; apply NoDup_singleton|]. rewrite dedup_cons2.
  pose proof (dedup_length_le (y :: l)) as Hle. case_decide as Hxy.
  - intros Heq. cbn [length] in *. lia.
  - intros [= Heq]. specialize (IH Heq). constructor; [|done].
    intros Hin. apply Forall_cons in Hx as [Hxy' _].
    inv Hl. rewrite Forall_forall in *.
    apply elem_of_cons in Hin as [->|Hin]; [done|].
    match goal with H : ∀ _, _ → y ≤ _ |- _ => specialize (H x Hin) end. lia.
Qed.

(** Counting the distinct elements by [sort] then [dedup]. *)
Lemma dedup_sort_length (l : list Z) :
  length (dedup (merge_sort Z.le l)) = length l ↔ NoDup l.
Proof.
  pose proof (merge_sort_Permutation Z.le l) as Hp. split; intros H.
  - rewrite <-Hp. apply dedup_length_sorted.
    + apply (StronglySorted_merge_sort Z.le).
    + by rewrite H, Hp.
  - rewrite dedup_NoDup by (by rewrite Hp). by rewrite Hp.
Qed.

(** ** Slices *)

(** [&l[start..start+n]], for a range known to be in bounds. *)
Definition slice {A} (start n : nat) (l : list A) : list A := take n (drop start l).

(** The elements at the given positions; positions out of range are skipped. *)
Definition pick {A} (l : list A) (sel : list nat) : list A := omap (l !!.) sel.

Lemma pick_length {A} (l : list A) sel :
  Forall (λ i, (i < length l)%nat) sel → length (pick l sel) = length sel.
Proof.
  induction 1 as [|i sel Hi _ IH]; [done|]. unfold pick in *; cbn.
  destruct (lookup_lt_is_Some_2 _ _ Hi) as [x ->]. cbn. by rewrite IH.
Qed.

Lemma pick_elem {A} (l : list A) sel x : x ∈ pick l sel → x ∈ l.
Proof.
  unfold pick. rewrite list_elem_of_omap. intros (i & _ & H). by eapply list_elem_of_lookup_2.
Qed.

(** A duplicate-free list of elements of [l] is a selection of positions of [l]. *)
Lemma pick_of_sublist {A} (l sub : list A) :
  NoDup sub → Forall (.∈ l) sub →
  ∃ sel, NoDup sel ∧ Forall (λ i, (i < length l)%nat) sel ∧ pick l sel = sub.
Proof.
  induction 1 as [|x sub Hx Hnd IH]; intros Hin; [by exists []; split_and!; [constructor..|done]|].
  apply Forall_cons in Hin as [[i Hi]%list_elem_of_lookup_1 Hin]. destruct (IH Hin) as (sel & Hs & Hb & <-).
  exists (i :: sel). split_and!.
  - constructor; [|done]. intros Hmem. apply Hx. unfold pick. apply list_elem_of_omap. eauto.
  - constructor; [by eapply lookup_lt_Some|done].
  - unfold pick. cbn. by rewrite Hi.
Qed.

Lemma pick_fmap {A B} (f : A → B) (l : list A) sel : f <$> pick l sel = pick (f <$> l) sel.
Proof.
  unfold pick. induction sel as [|i sel IH]; [done|]. cbn.
  rewrite list_lookup_fmap. destruct (l !! i); cbn; by rewrite IH.
Qed.

Lemma take_app_exact {A} n (a b : list A) : length a = n → take n (a ++ b) = a.
Proof. intros <-. rewrite take_app_le, firstn_all2 by lia. done. Qed.

Lemma slice_middle {A} n m (a b c : list A) :
  length a = n → length b = m → slice n m (a ++ b ++ c) = b.
Proof.
  intros <- <-. unfold slice. rewrite drop_app_ge, Nat.sub_diag by lia.
  by apply take_app_exact.
Qed.

Lemma slice_prefix {A} n (a b : list A) : length a = n → slice 0 n (a ++ b) = a.
Proof. by apply (slice_middle 0 n []). Qed.

Lemma concat_length_const {A} n (ls : list (list A)) :
  Forall (λ l, length l = n) ls → length (concat ls) = (length ls * n)%nat.
Proof. induction 1 as [|l ls Hl _ IH]; cbn; [done|]. rewrite length_app. lia. Qed.

Lemma slice_concat {A} n (ls : list (list A)) i l :
  Forall (λ l, length l = n) ls → ls !! i = Some l →
  slice (i * n) n (concat ls) = l.
Proof.
  unfold slice. intros Hls. revert i. induction Hls as [|k ls Hk _ IH]; intros i; [done|].
  destruct i as [|i]; cbn [lookup list_lookup concat].
  - intros [= ->]. rewrite drop_0, take_app_le, firstn_all2 by lia. done.
  - intros Hi. rewrite drop_app_ge by lia.
    replace (S i * n - length k)%nat with (i * n)%nat by lia. by apply IH.
Qed.

Lemma concat_slices {A} n m (l : list A) :
  length l = (m * n)%nat →
  concat ((λ i, slice (i * n) n l) <$> seq 0 m) = l.
Proof.
  revert l. induction m as [|m IH]; intros l Hl; cbn.
  { symmetry. apply nil_length_inv. done. }
  unfold slice at 1. rewrite drop_0, <-fmap_S_seq, <-list_fmap_compose.
  rewrite (list_fmap_ext _ (λ i, slice (i * n) n (drop n l))).
  - rewrite IH by (rewrite length_drop; lia). apply take_drop.
  - intros i x _. unfold compose, slice. rewrite drop_drop. do 2 f_equal.
Qed.

(** ** Bytes and fixed-width integers *)

Abbreviation bytes := (list byte).

#[export] Instance byte_eq_decision : EqDecision byte := Byte.byte_eq_dec.
#[export] Program Instance byte_countable : Countable byte :=
  inj_countable Byte.to_N Byte.of_N _.
Next Obligation. apply Byte.of_to_N. Qed.

Definition byte_val (b : byte) : Z := Z.of_N (Byte.to_N b).

(** Truncating cast to [u8]. *)
Definition byte_of_Z (z : Z) : byte :=
  match Byte.of_N (Z.to_N (z mod 256)) with Some b => b | None => x00 end.

Lemma byte_val_range b : 0 ≤ byte_val b < 256.
Proof.
  unfold byte_val. pose proof (Byte.to_N_bounded b). lia.
Qed.
#[export] Hint Resolve byte_val_range : wallet.

Lemma byte_val_of_Z z : byte_val (byte_of_Z z) = z mod 256.
Proof.
  unfold byte_of_Z, byte_val. pose proof (Z.mod_pos_bound z 256).
  destruct (Byte.of_N (Z.to_N (z mod 256))) as [b|] eqn:Hb.
  - apply Byte.to_of_N in Hb. rewrite Hb. lia.
  - apply Byte.of_N_None_iff in Hb. lia.
Qed.

Lemma byte_of_Z_val b : byte_of_Z (byte_val b) = b.
Proof.
  unfold byte_of_Z. rewrite Z.mod_small by apply byte_val_range.
  unfold byte_val. by rewrite N2Z.id, Byte.of_to_N.
Qed.

Lemma byte_val_inj a b : byte_val a = byte_val b → a = b.
Proof. intros H. by rewrite <-(byte_of_Z_val a), <-(byte_of_Z_val b), H. Qed.

(** [to_le_bytes] at width [n] bytes, and the value of a little-endian buffer. *)
Fixpoint le_bytes (n : nat) (z : Z) : bytes :=
  match n with O => [] | S n => byte_of_Z z :: le_bytes n (z / 256) end.

Fixpoint le_value (bs : bytes) : Z :=
  match bs with [] => 0 | b :: bs => byte_val b + 256 * le_value bs end.

(** [to_be_bytes] / [from_be_bytes]. *)
Definition be_bytes (n : nat) (z : Z) : bytes := rev (le_bytes n z).
Definition be_value (bs : bytes) : Z := le_value (rev bs).

Lemma length_le_bytes n z : length (le_bytes n z) = n.
Proof. revert z; induction n; intros z; cbn; auto. Qed.

Lemma length_be_bytes n z : length (be_bytes n z) = n.
Proof. unfold be_bytes. by rewrite length_rev, length_le_bytes. Qed.

Lemma le_value_bound bs : 0 ≤ le_value bs < 256 ^ Z.of_nat (length bs).
Proof.
  induction bs as [|b bs IH]; cbn [le_value length]; [lia|].
  rewrite Nat2Z.inj_succ, Z.pow_succ_r by lia.
  pose proof (byte_val_range b). lia.
Qed.

Lemma le_value_bytes n z : le_value (le_bytes n z) = z mod 256 ^ Z.of_nat n.
Proof.
  revert z; induction n as [|n IH]; intros z; cbn [le_bytes le_value].
  { by rewrite Z.mod_1_r. }
  rewrite IH, byte_val_of_Z, Nat2Z.inj_succ, Z.pow_succ_r by lia.
  rewrite Z.rem_mul_r by lia. lia.
Qed.

Lemma le_bytes_value bs : le_bytes (length bs) (le_value bs) = bs.
Proof.
  induction bs as [|b bs IH]; cbn [le_bytes le_value length]; [done|].
  pose proof (byte_val_range b). f_equal.
  - apply byte_val_inj. rewrite byte_val_of_Z.
    rewrite Z.mul_comm, Z_mod_plus_full. by apply Z.mod_small.
  - rewrite Z.mul_comm, Z_div_plus_full, Z.div_small by lia. done.
Qed.

Lemma be_value_bound bs : 0 ≤ be_value bs < 256 ^ Z.of_nat (length bs).
Proof. unfold be_value. rewrite <-(length_rev bs). apply le_value_bound. Qed.

Lemma be_value_bytes n z : be_value (be_bytes n z) = z mod 256 ^ Z.of_nat n.
Proof. unfold be_value, be_bytes. by rewrite rev_involutive, le_value_bytes. Qed.

Lemma be_value_bytes_small n z :
  0 ≤ z < 256 ^ Z.of_nat n → be_value (be_bytes n z) = z.
Proof. intros. by rewrite be_value_bytes, Z.mod_small. Qed.

Lemma be_bytes_value bs : be_bytes (length bs) (be_value bs) = bs.
Proof.
  unfold be_value, be_bytes. rewrite <-(length_rev bs), le_bytes_value.
  apply rev_involutive.
Qed.

Lemma le_value_snoc bs b :
  le_value (bs ++ [b]) = le_value bs + 256 ^ Z.of_nat (length bs) * byte_val b.
Proof.
  induction bs as [|c bs IH]; cbn [le_value app length]; [lia|].
  rewrite IH, Nat2Z.inj_succ, Z.pow_succ_r by lia. lia.
Qed.

Lemma be_value_cons b bs :
  be_value (b :: bs) = byte_val b * 256 ^ Z.of_nat (length bs) + be_value bs.
Proof. unfold be_value. cbn [rev]. rewrite le_value_snoc, length_rev. lia. Qed.

(** Widths of the machine integers the code uses. *)
Definition u8_max : Z := 2 ^ 8 - 1.
Definition u32_max : Z := 2 ^ 32 - 1.
Definition u64_max : Z := 2 ^ 64 - 1.
Definition u128_max : Z := 2 ^ 128 - 1.
Definition i64_min : Z := - 2 ^ 63.
Definition i64_max : Z := 2 ^ 63 - 1.

(** [i64::saturating_sub]. *)
Definition i64_saturating_sub (a b : Z) : Z :=
  Z.max i64_min (Z.min i64_max (a - b)).

(** The two's-complement wrap-around of [i64] arithmetic. *)
Definition i64_wrap (z : Z) : Z := (z + 2 ^ 63) mod 2 ^ 64 - 2 ^ 63.

Lemma i64_wrap_id z : i64_min ≤ z ≤ i64_max → i64_wrap z = z.
Proof. unfold i64_wrap, i64_min, i64_max. intros. rewrite Z.mod_small; lia. Qed.

Definition is_i64 (z : Z) : Prop := i64_min ≤ z ≤ i64_max.

(** The eight bytes of an [i64] determine it, negative values included. *)
Lemma be_bytes_i64_inj a b : is_i64 a → is_i64 b → be_bytes 8 a = be_bytes 8 b → a = b.
Proof.
  unfold is_i64, i64_min, i64_max. intros Ha Hb H.
  apply (f_equal be_value) in H. rewrite !be_value_bytes in H.
  change (256 ^ Z.of_nat 8) with (2 ^ 64) in H.
  pose proof (Z.div_mod a (2 ^ 64)). pose proof (Z.div_mod b (2 ^ 64)). nia.
Qed.

(** [/] on signed integers truncates toward zero. *)
Definition i64_div (a b : Z) : Z := Z.quot a b.

(** ** Strings

    A Rust [String] is its UTF-8 bytes, one [ascii] per byte. *)

Definition string_bytes (s : string) : bytes := String.list_byte_of_string s.

Lemma string_bytes_inj s t : string_bytes s = string_bytes t → s = t.
Proof.
  unfold string_bytes. intros H.
  by rewrite <-(String.string_of_list_byte_of_string s), H,
    String.string_of_list_byte_of_string.
Qed.

Lemma length_string_bytes s : length (string_bytes s) = String.length s.
Proof. induction s as [|a s IH]; cbn; [done|]. f_equal. exact IH. Qed.

Lemma append_nil_l (t : string) : "" +:+ t = t.
Proof. done. Qed.

Lemma append_cons a (s t : string) : String a s +:+ t = String a (s +:+ t).
Proof. done. Qed.

Lemma append_nil_r (s : string) : s +:+ "" = s.
Proof. induction s as [|a s IH]; [done|]. by rewrite append_cons, IH. Qed.

Lemma string_bytes_app s t : string_bytes (s +:+ t) = string_bytes s ++ string_bytes t.
Proof.
  induction s as [|a s IH]; [done|].
  rewrite append_cons.
  change (Ascii.byte_of_ascii a :: string_bytes (s +:+ t)
          = Ascii.byte_of_ascii a :: string_bytes s ++ string_bytes t).
  by rewrite IH.
Qed.
