(* ===== verification/Text.v ===== *)
(** * Text: the [str] operations of the Rust standard library the code uses

    Decimal [Display] and [FromStr] of the unsigned integers, [split],
    [strip_prefix], [strip_suffix], [trim], ASCII case folding and the
    hexadecimal [{:02x}] printer.  Text is the UTF-8 byte string of the
    source, one [ascii] per byte. *)

From S2P Require Import Prelude.
From Stdlib Require Import Ascii.
#[local] Open Scope string_scope.
#[local] Open Scope list_scope.
#[local] Open Scope Z_scope.

(** ** Characters *)

Definition char_val (c : ascii) : Z := Z.of_N (N_of_ascii c).
Definition char_of_Z (z : Z) : ascii := ascii_of_N (Z.to_N (z mod 256)).

Lemma char_val_of_Z z : 0 ≤ z < 256 → char_val (char_of_Z z) = z.
Proof.
  intros Hz. unfold char_val, char_of_Z. rewrite Z.mod_small by lia.
  rewrite N_ascii_embedding; lia.
Qed.

Lemma char_val_inj a b : char_val a = char_val b → a = b.
Proof.
  unfold char_val. intros H%N2Z.inj.
  by rewrite <-(ascii_N_embedding a), H, ascii_N_embedding.
Qed.

(** [char::is_ascii_hexdigit]. *)
Definition is_ascii_hexdigit (c : ascii) : bool :=
  let z := char_val c in
  ((48 <=? z) && (z <=? 57)) || ((65 <=? z) && (z <=? 70)) || ((97 <=? z) && (z <=? 102)).

(** [to_ascii_lowercase] of one character. *)
Definition ascii_lower (c : ascii) : ascii :=
  let z := char_val c in
  if (65 <=? z) && (z <=? 90) then char_of_Z (z + 32) else c.

Fixpoint to_ascii_lowercase (s : string) : string :=
  match s with
  | EmptyString => EmptyString
  | String c s => String (ascii_lower c) (to_ascii_lowercase s)
  end.

Fixpoint chars_all (f : ascii → bool) (s : string) : bool :=
  match s with EmptyString => true | String c s => f c && chars_all f s end.

(** ** Splitting and trimming *)

(** [str::split(c)]: always at least one part. *)
Fixpoint split_char (c : ascii) (s : string) : list string :=
  match s with
  | EmptyString => [""]
  | String a s' =>
      if decide (a = c) then "" :: split_char c s'
      else match split_char c s' with
           | h :: t => String a h :: t
           | [] => [String a ""]
           end
  end.

(** [str::strip_prefix(&str)]. *)
Fixpoint strip_prefix (p s : string) : option string :=
  match p, s with
  | EmptyString, _ => Some s
  | String a p', String b s' => if decide (a = b) then strip_prefix p' s' else None
  | String _ _, EmptyString => None
  end.

(** [str::strip_suffix(char)]. *)
Fixpoint strip_suffix_char (c : ascii) (s : string) : option string :=
  match s with
  | EmptyString => None
  | String a EmptyString => if decide (a = c) then Some "" else None
  | String a s' => String a <$> strip_suffix_char c s'
  end.

(** [str::strip_suffix(&str)]. *)
Fixpoint strip_suffix (suf s : string) : option string :=
  if String.eqb s suf then Some ""
  else match s with EmptyString => None | String c s' => String c <$> strip_suffix suf s' end.

(** [str::trim_end_matches(char)]. *)
Fixpoint trim_end_matches (c : ascii) (s : string) : string :=
  match s with
  | EmptyString => EmptyString
  | String a s' =>
      match trim_end_matches c s' with
      | EmptyString => if decide (a = c) then EmptyString else String a EmptyString
      | t => String a t
      end
  end.

(** [str::starts_with(&str)]. *)
Definition starts_with (p s : string) : bool :=
  match strip_prefix p s with Some _ => true | None => false end.

(** [s.rsplit(c).next()]: what follows the last [c]. *)
Definition rsplit_next (c : ascii) (s : string) : string := List.last (split_char c s) "".

(** The UTF-8 encodings of the characters with Unicode [White_Space],
    as byte strings: U+0009..000D, U+0020, U+0085, U+00A0, U+1680,
    U+2000..200A, U+2028, U+2029, U+202F, U+205F, U+3000. *)
Definition whitespace_utf8 : list (list Z) :=
  ((λ z, [z]) <$> [9; 10; 11; 12; 13; 32])
  ++ [[194; 133]; [194; 160]; [225; 154; 128]]
  ++ ((λ z, [226; 128; z]) <$>
        [128; 129; 130; 131; 132; 133; 134; 135; 136; 137; 138; 168; 169; 175])
  ++ [[226; 129; 159]; [227; 128; 128]].

Fixpoint strip_vals (p : list Z) (s : string) : option string :=
  match p, s with
  | [], _ => Some s
  | z :: p', String a s' => if decide (char_val a = z) then strip_vals p' s' else None
  | _ :: _, EmptyString => None
  end.

Fixpoint strip_one_of (ps : list (list Z)) (s : string) : option string :=
  match ps with
  | [] => None
  | p :: ps => match strip_vals p s with Some s' => Some s' | None => strip_one_of ps s end
  end.

(** Strip leading whitespace; the length of the string bounds the number of
    characters that can be removed. *)
Fixpoint trim_start_fuel (fuel : nat) (ps : list (list Z)) (s : string) : string :=
  match fuel with
  | O => s
  | S fuel => match strip_one_of ps s with
              | Some s' => trim_start_fuel fuel ps s'
              | None => s
              end
  end.

Definition string_rev (s : string) : string :=
  String.string_of_list_ascii (rev (String.list_ascii_of_string s)).

(** [str::trim]. *)
Definition trim (s : string) : string :=
  let s1 := trim_start_fuel (String.length s) whitespace_utf8 s in
  string_rev (trim_start_fuel (String.length s1) (reverse <$> whitespace_utf8) (string_rev s1)).

(** [str::contains(&str)]. *)
Fixpoint str_contains (pat s : string) : bool :=
  match strip_prefix pat s with
  | Some _ => true
  | None => match s with EmptyString => false | String _ s' => str_contains pat s' end
  end.

(** [str::from_utf8] accepts the bytes: well-formed sequences of one to four
    bytes, without overlong forms, surrogates and values past U+10FFFF. *)
Definition utf8_tail (b : byte) : bool := (128 <=? byte_val b) && (byte_val b <=? 191).
Definition utf8_second (a b : byte) : bool :=
  let '(lo, hi) := if byte_val a =? 224 then (160, 191) else if byte_val a =? 237 then (128, 159)
                   else if byte_val a =? 240 then (144, 191) else if byte_val a =? 244 then (128, 143)
                   else (128, 191) in
  (lo <=? byte_val b) && (byte_val b <=? hi).
Fixpoint utf8_valid (bs : bytes) : bool :=
  match bs with
  | [] => true
  | a :: r1 =>
      if byte_val a <? 128 then utf8_valid r1
      else match r1 with
      | [] => false
      | b :: r2 =>
          if (194 <=? byte_val a) && (byte_val a <=? 223) then utf8_tail b && utf8_valid r2
          else match r2 with
          | [] => false
          | c :: r3 =>
              if (224 <=? byte_val a) && (byte_val a <=? 239) then
                utf8_second a b && utf8_tail c && utf8_valid r3
              else match r3 with
              | [] => false
              | d :: r4 => (240 <=? byte_val a) && (byte_val a <=? 244) && utf8_second a b
                           && utf8_tail c && utf8_tail d && utf8_valid r4
              end
          end
      end
  end.

(** ** Decimal integers *)

Definition digit_char (d : Z) : ascii := char_of_Z (48 + d).

Definition digit_val (c : ascii) : option Z :=
  let d := char_val c - 48 in
  if (0 <=? d) && (d <=? 9) then Some d else None.

Fixpoint show_dec_aux (fuel : nat) (z : Z) (acc : string) : string :=
  match fuel with
  | O => acc
  | S fuel =>
      let acc := String (digit_char (z mod 10)) acc in
      if z <? 10 then acc else show_dec_aux fuel (z / 10) acc
  end.

(** [Display] of an unsigned integer. *)
Definition show_dec (z : Z) : string := show_dec_aux (S (Z.to_nat (Z.log2 z))) z "".

(** The digit loop of [FromStr] for an unsigned integer: a digit that would
    overflow the width is an error. *)
Fixpoint parse_digits (max acc : Z) (s : string) : option Z :=
  match s with
  | EmptyString => Some acc
  | String c s =>
      match digit_val c with
      | None => None
      | Some d => let acc' := acc * 10 + d in
                  if max <? acc' then None else parse_digits max acc' s
      end
  end.

(** [<u32 as FromStr>::from_str] and its siblings: an optional ['+'], then at
    least one digit. *)
Definition parse_uint (max : Z) (s : string) : option Z :=
  match s with
  | EmptyString => None
  | String "+" EmptyString => None
  | String "+" s' => parse_digits max 0 s'
  | s => parse_digits max 0 s
  end.

(** The value of a hexadecimal digit, as [char::to_digit(16)]. *)
Definition hex_digit (c : ascii) : option Z :=
  let z := char_val c in
  if (48 <=? z) && (z <=? 57) then Some (z - 48)
  else if (97 <=? z) && (z <=? 102) then Some (z - 87)
  else if (65 <=? z) && (z <=? 70) then Some (z - 55) else None.

(** [from_str_radix(_, 16)] for an unsigned integer. *)
Fixpoint parse_hex_digits (max acc : Z) (s : string) : option Z :=
  match s with
  | EmptyString => Some acc
  | String c s =>
      match hex_digit c with
      | None => None
      | Some d => let acc' := acc * 16 + d in
                  if max <? acc' then None else parse_hex_digits max acc' s
      end
  end.
Definition parse_hex_uint (max : Z) (s : string) : option Z :=
  match s with
  | EmptyString => None
  | String "+" EmptyString => None
  | String "+" s' => parse_hex_digits max 0 s'
  | s => parse_hex_digits max 0 s
  end.

Lemma digit_val_char d : 0 ≤ d < 10 → digit_val (digit_char d) = Some d.
Proof.
  intros Hd. unfold digit_val, digit_char. rewrite char_val_of_Z by lia.
  replace (48 + d - 48) with d by lia.
  by rewrite (proj2 (Z.leb_le 0 d)), (proj2 (Z.leb_le d 9)) by lia.
Qed.

Lemma digit_val_Some c d : digit_val c = Some d → 0 ≤ d < 10.
Proof.
  unfold digit_val. case_match eqn:H; [|done]. intros [= <-].
  apply andb_true_iff in H as [H1%Z.leb_le H2%Z.leb_le]. lia.
Qed.

Lemma parse_digits_show_aux max fuel z acc :
  0 ≤ z ≤ max → z < 2 ^ Z.of_nat fuel →
  parse_digits max 0 (show_dec_aux fuel z acc) = parse_digits max z acc.
Proof.
  revert z acc. induction fuel as [|fuel IH]; intros z acc Hz Hf; cbn [show_dec_aux].
  { by replace z with 0 by (cbn in Hf; lia). }
  pose proof (Z.mod_pos_bound z 10). rewrite Nat2Z.inj_succ, Z.pow_succ_r in Hf by lia.
  destruct (Z.ltb_spec z 10).
  - cbn [parse_digits]. rewrite digit_val_char by lia. rewrite Z.mod_small by lia.
    rewrite Z.mul_0_l, Z.add_0_l. by rewrite (proj2 (Z.ltb_ge max z)) by lia.
  - rewrite IH; [|split; [apply Z.div_pos|apply Z.div_le_upper_bound]; lia
                 |apply Z.div_lt_upper_bound; lia].
    cbn [parse_digits]. rewrite digit_val_char by lia.
    replace (z / 10 * 10 + z mod 10) with z by (rewrite (Z.div_mod z 10) at 1; lia).
    by rewrite (proj2 (Z.ltb_ge max z)) by lia.
Qed.

Lemma parse_digits_show max z :
  0 ≤ z ≤ max → parse_digits max 0 (show_dec z) = Some z.
Proof.
  intros Hz. unfold show_dec. rewrite parse_digits_show_aux; [done|done|].
  rewrite Nat2Z.inj_succ, Z2Nat.id by apply Z.log2_nonneg.
  destruct (decide (z = 0)) as [->|]; [done|]. apply Z.log2_spec. lia.
Qed.

(** The characters of a decimal numeral. *)
Definition is_digit (c : ascii) : bool :=
  match digit_val c with Some _ => true | None => false end.

Lemma show_dec_aux_digits fuel z acc :
  0 ≤ z → chars_all is_digit acc = true →
  chars_all is_digit (show_dec_aux fuel z acc) = true.
Proof.
  revert z acc. induction fuel as [|fuel IH]; intros z acc Hz Ha; cbn [show_dec_aux]; [done|].
  assert (chars_all is_digit (String (digit_char (z mod 10)) acc) = true).
  { cbn. unfold is_digit. rewrite digit_val_char; [done|]. apply Z.mod_pos_bound; lia. }
  case_match; [done|]. apply IH; [|done]. apply Z.div_pos; lia.
Qed.

Lemma show_dec_digits z : 0 ≤ z → chars_all is_digit (show_dec z) = true.
Proof. intros. by apply show_dec_aux_digits. Qed.

Lemma show_dec_aux_nonempty fuel z acc :
  (0 < fuel)%nat ∨ acc ≠ "" → show_dec_aux fuel z acc ≠ "".
Proof.
  revert z acc. induction fuel as [|fuel IH]; intros z acc H; cbn [show_dec_aux].
  - destruct H; [lia|done].
  - case_match; [done|]. apply IH. by right.
Qed.

Lemma show_dec_nonempty z : show_dec z ≠ "".
Proof. apply show_dec_aux_nonempty. lia. Qed.

Lemma parse_uint_show max z : 0 ≤ z ≤ max → parse_uint max (show_dec z) = Some z.
Proof.
  intros Hz. pose proof (parse_digits_show max z Hz) as Hp.
  pose proof (show_dec_digits z ltac:(lia)) as Hd.
  pose proof (show_dec_nonempty z) as Hn.
  destruct (show_dec z) as [|c s]; [done|]. cbn in Hd.
  apply andb_true_iff in Hd as [Hc _]. unfold parse_uint.
  destruct c as [[] [] [] [] [] [] [] []]; try exact Hp; discriminate Hc.
Qed.

Lemma show_dec_inj x y : 0 ≤ x → 0 ≤ y → show_dec x = show_dec y → x = y.
Proof.
  intros Hx Hy H. pose proof (parse_digits_show (Z.max x y) x).
  pose proof (parse_digits_show (Z.max x y) y). rewrite H in *.
  assert (Some x = Some y) as [=]; [|done]. rewrite <-H0, <-H1 by lia. done.
Qed.

Lemma parse_digits_bound max acc s v :
  0 ≤ acc ≤ max → parse_digits max acc s = Some v → 0 ≤ v ≤ max.
Proof.
  revert acc. induction s as [|c s IH]; intros acc Ha; cbn; [by intros [= <-]|].
  destruct (digit_val c) as [d|] eqn:Hd; [|done]. apply digit_val_Some in Hd.
  destruct (Z.ltb_spec max (acc * 10 + d)); [done|]. apply IH. lia.
Qed.

Lemma parse_uint_bound max s v : 0 ≤ max → parse_uint max s = Some v → 0 ≤ v ≤ max.
Proof.
  intros Hm. assert (∀ s, parse_digits max 0 s = Some v → 0 ≤ v ≤ max) as Hp.
  { intros t. apply parse_digits_bound. lia. }
  unfold parse_uint. repeat case_match; eauto; done.
Qed.

(** ** Lemmas on splitting *)

Lemma chars_all_app f s t : chars_all f (s +:+ t) = chars_all f s && chars_all f t.
Proof. induction s as [|c s IH]; [done|]. rewrite append_cons. cbn. by rewrite IH, andb_assoc. Qed.

Definition not_char (c : ascii) (a : ascii) : bool := negb (bool_decide (a = c)).

Lemma split_char_none c s :
  chars_all (not_char c) s = true → split_char c s = [s].
Proof.
  induction s as [|a s IH]; [done|]. cbn. unfold not_char at 1.
  intros [Ha%negb_true_iff%bool_decide_eq_false Hs]%andb_true_iff.
  rewrite decide_False by done. by rewrite IH.
Qed.

Lemma split_char_app c s t :
  chars_all (not_char c) s = true →
  split_char c (s +:+ String c t) = s :: split_char c t.
Proof.
  induction s as [|a s IH]; rewrite ?append_nil_l, ?append_cons; cbn;
    [by rewrite decide_True|]. unfold not_char at 1.
  intros [Ha%negb_true_iff%bool_decide_eq_false Hs]%andb_true_iff.
  rewrite decide_False by done. by rewrite IH.
Qed.

Lemma chars_all_impl (f g : ascii → bool) s :
  (∀ c, f c = true → g c = true) → chars_all f s = true → chars_all g s = true.
Proof.
  intros H. induction s as [|c s IH]; cbn; [done|].
  intros [Hc Hs]%andb_true_iff. by rewrite (H _ Hc), IH.
Qed.

Lemma digit_not_char c d : is_digit c = false → is_digit d = true → not_char c d = true.
Proof.
  intros Hc Hd. unfold not_char. apply negb_true_iff, bool_decide_eq_false. intros ->. congruence.
Qed.

Lemma strip_suffix_char_snoc c s : strip_suffix_char c (s +:+ String c "") = Some s.
Proof.
  induction s as [|a s IH]; rewrite ?append_nil_l, ?append_cons;
    [cbn; by rewrite decide_True|].
  destruct s as [|b s]; rewrite ?append_nil_l, ?append_cons in *; cbn in *;
    [by rewrite decide_True|]. by rewrite IH.
Qed.

Lemma strip_suffix_char_none c s :
  chars_all (not_char c) s = true → strip_suffix_char c s = None.
Proof.
  induction s as [|a s IH]; [done|]. cbn [chars_all]. unfold not_char at 1.
  intros [Ha%negb_true_iff%bool_decide_eq_false Hs]%andb_true_iff.
  cbn. destruct s; [by rewrite decide_False|]. by rewrite (IH Hs).
Qed.

(** ** Hexadecimal *)

Definition hex_char (d : Z) : ascii :=
  if d <? 10 then char_of_Z (48 + d) else char_of_Z (87 + d).

(** [write!(s, "{b:02x}")] for every byte. *)
Fixpoint hex_encode (bs : bytes) : string :=
  match bs with
  | [] => ""
  | b :: bs => String (hex_char (byte_val b / 16)) (String (hex_char (byte_val b mod 16)) (hex_encode bs))
  end.

Lemma hex_char_inj x y : 0 ≤ x < 16 → 0 ≤ y < 16 → hex_char x = hex_char y → x = y.
Proof.
  intros Hx Hy H%(f_equal char_val). unfold hex_char in H.
  destruct (Z.ltb_spec x 10), (Z.ltb_spec y 10);
    rewrite !char_val_of_Z in H by lia; lia.
Qed.

Lemma hex_encode_inj xs ys : hex_encode xs = hex_encode ys → xs = ys.
Proof.
  revert ys. induction xs as [|x xs IH]; intros [|y ys]; cbn; try done.
  intros [= H1 H2 H3]. pose proof (byte_val_range x). pose proof (byte_val_range y).
  apply hex_char_inj in H1; [|split; [apply Z.div_pos|apply Z.div_lt_upper_bound]; lia..].
  apply hex_char_inj in H2; [|apply Z.mod_pos_bound; lia..].
  f_equal; [|by apply IH]. apply byte_val_inj.
  rewrite (Z.div_mod (byte_val x) 16), (Z.div_mod (byte_val y) 16) by lia. congruence.
Qed.

Lemma append_assoc s t u : (s +:+ t) +:+ u = s +:+ t +:+ u.
Proof. induction s as [|c s IH]; [done|]. rewrite !append_cons. by rewrite IH. Qed.

Lemma length_append s t : String.length (s +:+ t) = (String.length s + String.length t)%nat.
Proof. induction s as [|c s IH]; [done|]. rewrite append_cons. cbn. by rewrite IH. Qed.

Lemma strip_suffix_ok suf s p : strip_suffix suf s = Some p ↔ s = p +:+ suf.
Proof.
  revert p. induction s as [|c s IH]; intros p; cbn [strip_suffix].
  - destruct (String.eqb_spec "" suf) as [<-|Hne]; (split; [|intros Heq]).
    + by intros [= <-].
    + destruct p; [done|]. by rewrite append_cons in Heq.
    + done.
    + destruct p; [|by rewrite append_cons in Heq]. by rewrite append_nil_l in Heq.
  - destruct (String.eqb_spec (String c s) suf) as [<-|Hne].
    + split; [by intros [= <-]|]. intros Heq. destruct p; [done|]. exfalso.
      apply (f_equal String.length) in Heq. rewrite length_append in Heq. cbn in Heq. lia.
    + destruct p as [|d p]; rewrite ?append_nil_l, ?append_cons.
      * split; [|done]. by destruct (strip_suffix suf s).
      * rewrite fmap_Some. setoid_rewrite IH. split; [intros (q & -> & [= -> ->]); done|].
        intros [= -> Heq]. by exists p.
Qed.

(** [+:+] is cancellable on the left, and on equal-length prefixes. *)
Lemma append_inj_l s t1 t2 : s +:+ t1 = s +:+ t2 → t1 = t2.
Proof. induction s as [|c s IH]; [done|]. rewrite !append_cons. intros [= H]. by apply IH. Qed.

Lemma append_inj_len s1 s2 t1 t2 :
  String.length s1 = String.length s2 → s1 +:+ t1 = s2 +:+ t2 → s1 = s2 ∧ t1 = t2.
Proof.
  revert s2. induction s1 as [|c s1 IH]; intros [|d s2];
    rewrite ?append_nil_l, ?append_cons; cbn; try done.
  intros [= Hl] [= -> H]. by destruct (IH s2) as [-> ->].
Qed.

(** A prefix free of [c] is determined by what follows its first [c]. *)
Lemma append_inj_sep c s1 s2 t1 t2 :
  chars_all (not_char c) s1 = true → chars_all (not_char c) s2 = true →
  s1 +:+ String c t1 = s2 +:+ String c t2 → s1 = s2 ∧ t1 = t2.
Proof.
  revert s2. induction s1 as [|a s1 IH]; intros [|b s2];
    rewrite ?append_nil_l, ?append_cons; cbn.
  - intros _ _ [= ->]. done.
  - intros _ [Hb%negb_true_iff _]%andb_true_iff [= -> _].
    by apply bool_decide_eq_false in Hb.
  - intros [Ha%negb_true_iff _]%andb_true_iff _ [= -> _].
    by apply bool_decide_eq_false in Ha.
  - intros [_ H1]%andb_true_iff [_ H2]%andb_true_iff [= -> H].
    by destruct (IH s2 H1 H2 H) as [-> ->].
Qed.

Lemma strip_prefix_ok p s t : strip_prefix p s = Some t ↔ s = p +:+ t.
Proof.
  revert s. induction p as [|a p IH]; intros s; cbn; rewrite ?append_nil_l, ?append_cons.
  - split; [by intros [= ->]|by intros ->].
  - destruct s as [|b s]; [done|]. destruct (decide (a = b)) as [->|Hne].
    + rewrite IH. split; [by intros ->|by intros [= ->]].
    + split; [done|]. by intros [= ->].
Qed.

Lemma starts_with_ok p s : starts_with p s = true ↔ ∃ t, s = p +:+ t.
Proof.
  unfold starts_with. destruct (strip_prefix p s) as [t|] eqn:Hs.
  - apply strip_prefix_ok in Hs. split; [by exists t|done].
  - split; [done|]. intros [t Ht%strip_prefix_ok]. congruence.
Qed.

Lemma split_char_last c s t :
  chars_all (not_char c) t = true → ∃ h l, split_char c (s +:+ String c t) = h :: l ++ [t].
Proof.
  intros Ht. induction s as [|a s (h & l & IH)]; rewrite ?append_nil_l, ?append_cons; cbn [split_char].
  - rewrite decide_True by done. exists "", []. by rewrite split_char_none.
  - rewrite IH. destruct (decide (a = c)); [by exists "", (h :: l)|by exists (String a h), l].
Qed.

Lemma rsplit_next_app c s t : chars_all (not_char c) t = true → rsplit_next c (s +:+ String c t) = t.
Proof.
  intros Ht. unfold rsplit_next. destruct (split_char_last c s t Ht) as (h & l & ->).
  change (h :: l ++ [t]) with ((h :: l) ++ [t]). apply last_last.
Qed.

#[global] Arguments show_dec : simpl never.
#[global] Arguments parse_uint : simpl never.
#[global] Arguments hex_encode : simpl nomatch.
