(* ===== verification/Types.v ===== *)
(** * Types: crate qfc-wallet-types

    The ULID newtypes ([ids.rs]), the signing schemes and hash algorithms
    ([scheme.rs]) and the BIP32/SLIP-0010 derivation paths ([hd_path.rs]).
    A ULID is the 128-bit number of the [ulid] crate; its textual form is a
    parameter ([UlidCrate] of External.v). *)

From S2P Require Import Prelude Text.
From Stdlib Require Import Ascii.
#[local] Open Scope string_scope.
#[local] Open Scope list_scope.
#[local] Open Scope Z_scope.

(** ** Identifiers: [ulid_newtype!] makes one distinct type per identifier *)

Record WalletId := WalletId_from_ulid { WalletId_ulid : N }.
Record RequestId := RequestId_from_ulid { RequestId_ulid : N }.
Record DecisionId := DecisionId_from_ulid { DecisionId_ulid : N }.
Record ApprovalId := ApprovalId_from_ulid { ApprovalId_ulid : N }.
Record EventId := EventId_from_ulid { EventId_ulid : N }.
Record PolicyId := PolicyId_from_ulid { PolicyId_ulid : N }.
Record ApproverSetId := ApproverSetId_from_ulid { ApproverSetId_ulid : N }.
Record ApproverId := ApproverId_from_ulid { ApproverId_ulid : N }.

#[export] Instance WalletId_eq_dec : EqDecision WalletId.
Proof. solve_decision. Defined.
#[export] Instance RequestId_eq_dec : EqDecision RequestId.
Proof. solve_decision. Defined.
#[export] Instance DecisionId_eq_dec : EqDecision DecisionId.
Proof. solve_decision. Defined.
#[export] Instance ApprovalId_eq_dec : EqDecision ApprovalId.
Proof. solve_decision. Defined.
#[export] Instance EventId_eq_dec : EqDecision EventId.
Proof. solve_decision. Defined.
#[export] Instance PolicyId_eq_dec : EqDecision PolicyId.
Proof. solve_decision. Defined.
#[export] Instance ApproverSetId_eq_dec : EqDecision ApproverSetId.
Proof. solve_decision. Defined.
#[export] Instance ApproverId_eq_dec : EqDecision ApproverId.
Proof. solve_decision. Defined.

#[export] Program Instance WalletId_countable : Countable WalletId :=
  inj_countable' WalletId_ulid WalletId_from_ulid _.
Next Obligation. by intros []. Qed.
#[export] Program Instance RequestId_countable : Countable RequestId :=
  inj_countable' RequestId_ulid RequestId_from_ulid _.
Next Obligation. by intros []. Qed.
#[export] Program Instance ApproverSetId_countable : Countable ApproverSetId :=
  inj_countable' ApproverSetId_ulid ApproverSetId_from_ulid _.
Next Obligation. by intros []. Qed.
#[export] Program Instance ApproverId_countable : Countable ApproverId :=
  inj_countable' ApproverId_ulid ApproverId_from_ulid _.
Next Obligation. by intros []. Qed.

(** [ShareId]: the owning wallet and the 1-based position in the scheme. *)
Record ShareId := ShareId_new { share_wallet_id : WalletId; share_index : Z }.

#[export] Instance ShareId_eq_dec : EqDecision ShareId.
Proof. solve_decision. Defined.
#[export] Program Instance ShareId_countable : Countable ShareId :=
  inj_countable' (λ s, (share_wallet_id s, share_index s)) (λ '(w, i), ShareId_new w i) _.
Next Obligation. by intros []. Qed.

(** [OwnerId] wraps a string. *)
Record OwnerId := OwnerId_new { OwnerId_as_str : string }.
#[export] Instance OwnerId_eq_dec : EqDecision OwnerId.
Proof. solve_decision. Defined.

(** ** Signing schemes *)

Inductive SigningScheme :=
  | Ed25519 | Secp256k1 | Secp256k1Recoverable | MlDsa44 | MlDsa65 | MlDsa87.

#[export] Instance SigningScheme_eq_dec : EqDecision SigningScheme.
Proof. solve_decision. Defined.

Definition is_hd_capable (s : SigningScheme) : bool :=
  match s with Ed25519 | Secp256k1 | Secp256k1Recoverable => true | _ => false end.

Definition is_classical (s : SigningScheme) : bool :=
  match s with Ed25519 | Secp256k1 | Secp256k1Recoverable => true | _ => false end.

Definition is_post_quantum (s : SigningScheme) : bool := negb (is_classical s).

Inductive HashAlg := HashNone | Sha256 | Keccak256 | Blake3.

#[export] Instance HashAlg_eq_dec : EqDecision HashAlg.
Proof. solve_decision. Defined.

(** ** HD paths *)

Module HdPath.

Inductive HdPathSegment :=
  | Normal (i : Z)
  | Hardened (i : Z).

#[export] Instance HdPathSegment_eq_dec : EqDecision HdPathSegment.
Proof. solve_decision. Defined.

Definition child_index (s : HdPathSegment) : Z :=
  match s with Normal i => i | Hardened i => Z.lor i 0x80000000 end.

Definition is_hardened (s : HdPathSegment) : bool :=
  match s with Hardened _ => true | Normal _ => false end.

Record HdPath := from_segments { segments : list HdPathSegment }.
#[export] Instance HdPath_eq_dec : EqDecision HdPath.
Proof. solve_decision. Defined.

Definition master : HdPath := from_segments [].
Definition len (p : HdPath) : nat := length (segments p).
Definition is_empty (p : HdPath) : bool := bool_decide (segments p = []).

(** [Display]. *)
Definition segment_to_string (s : HdPathSegment) : string :=
  match s with
  | Normal i => show_dec i
  | Hardened i => show_dec i +:+ "'"
  end.

Fixpoint segments_to_string (l : list HdPathSegment) : string :=
  match l with
  | [] => ""
  | s :: l => "/" +:+ segment_to_string s +:+ segments_to_string l
  end.

Definition to_string (p : HdPath) : string := "m" +:+ segments_to_string (segments p).

(** [ParseError::InvalidHdPath(_)]: one constructor per message the parser
    builds, with the values the message interpolates. *)
Inductive ParseError :=
  | EmptyInput
  | MissingMaster (head : string)
  | EmptySegment
  | NonNumericSegment (raw : string)
  | SegmentTooLarge (value : Z).

Definition strip_hardened (raw : string) : string * bool :=
  match strip_suffix_char "'" raw with
  | Some rest => (rest, true)
  | None =>
      match strip_suffix_char "h" raw with
      | Some rest => (rest, true)
      | None => match strip_suffix_char "H" raw with
                | Some rest => (rest, true)
                | None => (raw, false)
                end
      end
  end.

Definition parse_segment (raw : string) : result ParseError HdPathSegment :=
  _ ← ensure (negb (bool_decide (raw = ""))) EmptySegment;
  let '(digits, hardened) := strip_hardened raw in
  value ← ok_or (parse_uint u32_max digits) (NonNumericSegment raw);
  _ ← ensure (value <? 0x80000000) (SegmentTooLarge value);
  mret (if hardened then Hardened value else Normal value).

(** [FromStr]. *)
Definition from_str (s : string) : result ParseError HdPath :=
  _ ← ensure (negb (bool_decide (s = ""))) EmptyInput;
  match split_char "/" s with
  | [] => Err (MissingMaster "")
  | head :: parts =>
      _ ← ensure (bool_decide (head = "m") || bool_decide (head = "M")) (MissingMaster head);
      segs ← map_result parse_segment parts;
      mret (from_segments segs)
  end.

(** A segment the type's documentation allows: the stored index is below 2^31. *)
Definition segment_ok (s : HdPathSegment) : Prop :=
  match s with Normal i | Hardened i => 0 ≤ i < 2 ^ 31 end.

(** *** Lemmas *)

Lemma show_dec_not_char c i :
  is_digit c = false → 0 ≤ i → chars_all (not_char c) (show_dec i) = true.
Proof.
  intros Hc Hi. eapply chars_all_impl; [|by apply show_dec_digits].
  intros d. by apply digit_not_char.
Qed.

Lemma segment_no_slash s :
  segment_ok s → chars_all (not_char "/") (segment_to_string s) = true.
Proof.
  destruct s as [i|i]; cbn; intros Hi.
  - apply show_dec_not_char; [done|lia].
  - rewrite chars_all_app, show_dec_not_char by (done || lia). done.
Qed.

Lemma segment_nonempty s : segment_to_string s ≠ "".
Proof.
  destruct s as [i|i]; cbn; [apply show_dec_nonempty|].
  destruct (show_dec i) eqn:H; [by apply show_dec_nonempty in H|].
  by rewrite append_cons.
Qed.

Lemma strip_hardened_show s :
  segment_ok s →
  strip_hardened (segment_to_string s)
  = (show_dec (match s with Normal i | Hardened i => i end), is_hardened s).
Proof.
  destruct s as [i|i]; cbn; intros Hi; unfold strip_hardened.
  - by rewrite !strip_suffix_char_none by (apply show_dec_not_char; (done || lia)).
  - by rewrite strip_suffix_char_snoc.
Qed.

Lemma parse_segment_show s : segment_ok s → parse_segment (segment_to_string s) = Ok s.
Proof.
  intros Hs. unfold parse_segment. rewrite strip_hardened_show by done.
  rewrite (bool_decide_eq_false_2 (segment_to_string s = "")) by apply segment_nonempty.
  cbn. destruct s as [i|i]; cbn in *; rewrite parse_uint_show by (unfold u32_max; lia);
    cbn; by rewrite (proj2 (Z.ltb_lt i 2147483648)) by lia.
Qed.

Lemma split_segments head l :
  chars_all (not_char "/") head = true → Forall segment_ok l →
  split_char "/" (head +:+ segments_to_string l) = head :: (segment_to_string <$> l).
Proof.
  intros Hh Hl. revert head Hh. induction Hl as [|s l Hs Hl IH]; intros head Hh; cbn.
  - rewrite append_nil_r. by apply split_char_none.
  - rewrite (append_cons "/" ""), append_nil_l, split_char_app by done.
    by rewrite IH by (by apply segment_no_slash).
Qed.

Lemma parse_segments_show l :
  Forall segment_ok l → map_result parse_segment (segment_to_string <$> l) = Ok l.
Proof.
  intros Hl. apply map_result_ok. induction Hl; constructor; [|done].
  by apply parse_segment_show.
Qed.

Lemma parse_segment_ok raw s : parse_segment raw = Ok s → segment_ok s.
Proof.
  unfold parse_segment. intros (_ & _ & H)%result_bind_ok.
  destruct (strip_hardened raw) as [digits hardened].
  apply result_bind_ok in H as (v & Hv%ok_or_ok & (_ & Hlt%ensure_ok & [= <-])%result_bind_ok).
  apply parse_uint_bound in Hv; [|unfold u32_max; lia]. apply Z.ltb_lt in Hlt.
  destruct hardened; cbn; lia.
Qed.

Lemma from_str_segments_ok s p : from_str s = Ok p → Forall segment_ok (segments p).
Proof.
  unfold from_str. intros (_ & _ & H)%result_bind_ok.
  destruct (split_char "/" s) as [|head parts]; [done|].
  apply result_bind_ok in H as (_ & _ & (segs & Hsegs%map_result_ok & [= <-])%result_bind_ok).
  cbn. induction Hsegs; constructor; eauto using parse_segment_ok.
Qed.

Lemma from_str_to_string_segments p :
  Forall segment_ok (segments p) → from_str (to_string p) = Ok p.
Proof.
  intros Hp. unfold from_str, to_string.
  rewrite (bool_decide_eq_false_2 (_ = "")) by done.
  rewrite split_segments by done. cbn. rewrite parse_segments_show by done.
  by destruct p.
Qed.

Lemma lor_hardened i : 0 ≤ i < 2 ^ 31 → Z.lor i 0x80000000 = i + 2 ^ 31.
Proof.
  intros Hi. symmetry. rewrite <-Z.lxor_lor, <-Z.add_nocarry_lxor; try done.
  all: apply Z.bits_inj_0; intros n; rewrite Z.land_spec.
  all: change 2147483648 with (2 ^ 31); rewrite Z.pow2_bits_eqb by lia.
  all: destruct (Z.eqb_spec 31 n) as [<-|]; [|by rewrite andb_false_r].
  all: rewrite andb_true_r; rewrite <-(Z.mod_small i (2 ^ 31)) by lia;
    apply Z.mod_pow2_bits_high; lia.
Qed.

(** *** Theorems *)

(** The text a path prints to parses back to the path, for every path whose
    stored indices are below 2^31. *)
Theorem hd_path_round_trip p :
  Forall segment_ok (segments p) → from_str (to_string p) = Ok p.
Proof. apply from_str_to_string_segments. Qed.

Example hd_path_round_trip_witness :
  from_str (to_string (from_segments [Hardened 44; Hardened 60; Hardened 0; Normal 0; Normal 7]))
  = Ok (from_segments [Hardened 44; Hardened 60; Hardened 0; Normal 0; Normal 7]).
Proof.
  apply hd_path_round_trip. repeat constructor; cbn; lia.
Defined.

(** Whatever text is accepted, the path is well formed (every stored index is
    below 2^31) and its canonical text parses to the same path; [h], [H] and
    ['] suffixes and an upper-case [M] are all normalised. *)
Theorem hd_path_parse_canonical s p :
  from_str s = Ok p →
  Forall segment_ok (segments p) ∧ from_str (to_string p) = Ok p.
Proof.
  intros H%from_str_segments_ok. split; [done|]. by apply from_str_to_string_segments.
Qed.

Example hd_path_parse_canonical_witness :
  from_str "M/44h/60H/0'/+5" = Ok (from_segments [Hardened 44; Hardened 60; Hardened 0; Normal 5])
  ∧ from_str (to_string (from_segments [Hardened 44; Hardened 60; Hardened 0; Normal 5]))
    = Ok (from_segments [Hardened 44; Hardened 60; Hardened 0; Normal 5]).
Proof.
  split; [vm_compute; reflexivity|].
  apply (hd_path_parse_canonical "M/44h/60H/0'/+5"). vm_compute. reflexivity.
Defined.

(** The raw 32-bit child index is injective on well-formed segments: bit 31 is
    exactly the hardened flag, so a hardened and a normal child never collide. *)
Theorem child_index_injective s t :
  segment_ok s → segment_ok t → child_index s = child_index t → s = t.
Proof.
  destruct s as [i|i], t as [j|j]; cbn; intros Hi Hj; rewrite ?lor_hardened by done;
    intros H; f_equal; lia.
Qed.

Example child_index_injective_witness :
  child_index (Hardened 44) = child_index (Hardened 44) → Hardened 44 = Hardened 44.
Proof. apply child_index_injective; cbn; lia. Defined.

End HdPath.
