(* ===== verification/Secret.v ===== *)
(** * Secret: [SecretBytes] of [secret.rs]

    The container of key material.  Zeroising on drop is not modelled: a value
    is its bytes while it lives. *)

From S2P Require Import Prelude Text.
#[local] Open Scope string_scope.
#[local] Open Scope list_scope.
#[local] Open Scope Z_scope.

Record SecretBytes := SecretBytes_new { secret_inner : bytes }.

Definition from_slice (bs : bytes) : SecretBytes := SecretBytes_new bs.
Definition secret_len (s : SecretBytes) : nat := length (secret_inner s).
Definition secret_is_empty (s : SecretBytes) : bool := bool_decide (secret_inner s = []).
Definition expose (s : SecretBytes) : bytes := secret_inner s.

Definition secret_display (s : SecretBytes) : string :=
  "<" +:+ show_dec (Z.of_nat (secret_len s)) +:+ " bytes redacted>".
Definition secret_debug (s : SecretBytes) : string :=
  "SecretBytes(<" +:+ show_dec (Z.of_nat (secret_len s)) +:+ " bytes redacted>)".

(** [<[u8]>::ct_eq]: lengths differ, or the disjunction of all differences is
    zero; no early exit. *)
Definition ct_eq (a b : bytes) : bool :=
  bool_decide (length a = length b)
  && (foldl Z.lor 0 (zip_with (λ x y, Z.lxor (byte_val x) (byte_val y)) a b) =? 0).
Definition secret_eq (s t : SecretBytes) : bool := ct_eq (secret_inner s) (secret_inner t).

Lemma foldl_lor_zero acc l : foldl Z.lor acc l = 0 ↔ acc = 0 ∧ Forall (λ z, z = 0) l.
Proof.
  revert acc. induction l as [|z l IH]; intros acc; cbn; [naive_solver|].
  rewrite IH, Z.lor_eq_0_iff, Forall_cons. naive_solver.
Qed.

Lemma ct_eq_ok a b : ct_eq a b = true ↔ a = b.
Proof.
  unfold ct_eq. rewrite andb_true_iff, bool_decide_eq_true, Z.eqb_eq, foldl_lor_zero. split.
  - intros (Hlen & _ & Hall). revert b Hlen Hall. induction a as [|x a IH]; intros [|y b]; try done.
    cbn. intros [= Hlen] [Hx%Z.lxor_eq Ha]%Forall_cons. apply byte_val_inj in Hx as ->. by rewrite (IH b Hlen Ha).
  - intros ->. split; [done|]. split; [done|]. induction b as [|y b IH]; constructor; [apply Z.lxor_nilpotent|exact IH].
Qed.

Lemma string_app_cancel a b s : a +:+ s = b +:+ s → a = b.
Proof.
  intros Heq. apply string_bytes_inj. apply (f_equal string_bytes) in Heq. rewrite !string_bytes_app in Heq.
  by apply app_inv_tail in Heq.
Qed.
Lemma redacted_ok pre post s t :
  pre +:+ show_dec (Z.of_nat (secret_len s)) +:+ post = pre +:+ show_dec (Z.of_nat (secret_len t)) +:+ post
  ↔ secret_len s = secret_len t.
Proof.
  split; [|by intros ->]. intros Heq%(inj (String.append pre))%string_app_cancel%show_dec_inj; lia.
Qed.

(** Printing a secret, in either format, tells its length and nothing else, and
    the constant-time comparison is equality of the bytes. *)
Theorem secret_reveals_length s t :
  (secret_debug s = secret_debug t ↔ secret_len s = secret_len t)
  ∧ (secret_display s = secret_display t ↔ secret_len s = secret_len t)
  ∧ (secret_eq s t = true ↔ expose s = expose t) ∧ expose (from_slice (expose s)) = expose s.
Proof.
  unfold secret_debug, secret_display. rewrite !redacted_ok. unfold secret_eq. rewrite ct_eq_ok. done.
Qed.
