(* ===== verification/External.v ===== *)
(** * External: the third-party crates, as parameters of the model

    Each class holds the operations of one crate the sources call; each
    [...Laws] class states the documented behaviour a group of theorems relies
    on.  The instances at the end of the file are concrete functions that
    satisfy the laws; they are used by the witnesses only. *)

From S2P Require Import Prelude Text.
From Stdlib Require Import Ascii.
#[local] Open Scope string_scope.
#[local] Open Scope list_scope.
#[local] Open Scope Z_scope.

(** ** [ulid]: the 26-character Crockford base-32 text of a 128-bit number *)

Class UlidCrate := { ulid_to_string : N → string }.

Definition is_ulid (u : N) : Prop := (u < 2 ^ 128)%N.

Class UlidLaws `{UlidCrate} : Prop := {
  ulid_length : ∀ u, String.length (ulid_to_string u) = 26%nat;
  ulid_inj : ∀ u v, is_ulid u → is_ulid v → ulid_to_string u = ulid_to_string v → u = v;
}.

(** [Ulid::from_string]. *)
Class UlidParse := { ulid_from_string : string → option N }.
Class UlidParseLaws `{UlidCrate, UlidParse} : Prop := {
  ulid_parse_to_string : ∀ u, is_ulid u → ulid_from_string (ulid_to_string u) = Some u;
}.


(** ** [hex] *)

Class HexCrate := {
  hex_decode : string → option bytes;
}.

(** [hex::decode] inverts the lower-case encoding and accepts nothing but
    pairs of hexadecimal digits; [hex::encode] is the same text as the
    [{:02x}] printer of Text.v. *)
Class HexLaws `{HexCrate} : Prop := {
  hex_decode_encode : ∀ bs, hex_decode (hex_encode bs) = Some bs;
  hex_decode_lower : ∀ s bs,
    hex_decode (to_ascii_lowercase s) = Some bs → to_ascii_lowercase s = hex_encode bs;
}.

(** ** [vsss-rs] over [k256::Scalar] *)

Class VsssCrate := {
  Scalar : Type;
  Rng : Type;
  scalar_from_repr : bytes → option Scalar;
  scalar_to_repr : Scalar → bytes;
  vsss_split : nat → nat → Scalar → Rng → result string (list bytes);
  vsss_combine : list bytes → result string Scalar;
}.

(** The order of secp256k1's scalar field. *)
Definition secp256k1_order : Z :=
  0xFFFFFFFFFFFFFFFFFFFFFFFFFFFFFFFEBAAEDCE6AF48A03BBFD25E8CD0364141.

Class VsssLaws `{VsssCrate} : Prop := {
  (** [from_repr] accepts every canonical (reduced) 32-byte big-endian value
      and [to_repr] gives the same bytes back. *)
  scalar_repr : ∀ bs, length bs = 32%nat → be_value bs < secp256k1_order →
    ∃ s, scalar_from_repr bs = Some s ∧ scalar_to_repr s = bs;
  (** Splitting in range succeeds with one 33-byte share per participant. *)
  vsss_split_ok : ∀ t n s rng, (2 ≤ t ≤ n)%nat → (n ≤ 255)%nat →
    ∃ shs, vsss_split t n s rng = Ok shs ∧ length shs = n
           ∧ Forall (λ sh, length sh = 33%nat) shs;
  (** Any [t] distinct participants' shares interpolate the scalar. *)
  vsss_combine_split : ∀ t n s rng shs sel,
    (2 ≤ t ≤ n)%nat → (n ≤ 255)%nat → vsss_split t n s rng = Ok shs →
    NoDup sel → Forall (λ i, (i < n)%nat) sel → (t ≤ length sel)%nat →
    vsss_combine (pick shs sel) = Ok s;
}.

(** ** [sha2], [sha3] *)

Class DigestCrate := {
  sha256 : bytes → bytes;
  keccak256 : bytes → bytes;
  blake3 : bytes → bytes;
  (** HMAC-SHA512 with a key of any length. *)
  hmac_sha512 : bytes → bytes → bytes;
}.

Class DigestLaws `{DigestCrate} : Prop := {
  sha256_length : ∀ m, length (sha256 m) = 32%nat;
  keccak256_length : ∀ m, length (keccak256 m) = 32%nat;
  blake3_length : ∀ m, length (blake3 m) = 32%nat;
  hmac_length : ∀ k m, length (hmac_sha512 k m) = 64%nat;
}.

(** ** [ed25519-dalek]: keys are their 32-byte encodings *)

Class Ed25519Crate := {
  ed_public : bytes → bytes;
  ed_sign : bytes → bytes → bytes;
  (** [VerifyingKey::from_bytes] accepts the 32 bytes. *)
  ed_key_valid : bytes → bool;
  (** The text of its error. *)
  ed_key_error : bytes → string;
  ed_verify : bytes → bytes → bytes → bool;
}.

Class Ed25519Laws `{Ed25519Crate} : Prop := {
  ed_public_length : ∀ k, length (ed_public k) = 32%nat;
  ed_public_valid : ∀ k, ed_key_valid (ed_public k) = true;
  ed_sign_length : ∀ k m, length (ed_sign k m) = 64%nat;
  ed_verify_sign : ∀ k m, ed_verify (ed_public k) m (ed_sign k m) = true;
}.

(** ** [k256::ecdsa] *)

Class K256Crate := {
  k256_sk : Type;
  k256_vk : Type;
  k256_sig : Type;
  k256_signing_key : bytes → result string k256_sk;
  k256_public : k256_sk → k256_vk;
  (** The SEC1 compressed encoding and its parser. *)
  k256_to_sec1 : k256_vk → bytes;
  k256_from_sec1 : bytes → option k256_vk;
  k256_sign_prehash : k256_sk → bytes → result string k256_sig;
  k256_sign_recoverable : k256_sk → bytes → result string (k256_sig * Z);
  k256_normalize_s : k256_sig → option k256_sig;
  k256_sig_bytes : k256_sig → bytes;
  k256_sig_from_slice : bytes → result string k256_sig;
  k256_verify_prehash : k256_vk → bytes → k256_sig → bool;
  k256_recovery_id : Z → option Z;
  k256_recover : bytes → k256_sig → Z → option k256_vk;
}.

Class K256Laws `{K256Crate} : Prop := {
  (** Every scalar of [1, n) is a signing key. *)
  k256_key_ok : ∀ bs, length bs = 32%nat → 0 < be_value bs < secp256k1_order →
    ∃ sk, k256_signing_key bs = Ok sk;
  k256_public_round_trip : ∀ sk, k256_from_sec1 (k256_to_sec1 (k256_public sk)) = Some (k256_public sk);
  k256_public_length : ∀ sk, length (k256_to_sec1 (k256_public sk)) = 33%nat;
  (** Signing a 32-byte digest succeeds; the signature, also after low-S
      normalisation, encodes to 64 bytes, parses back, and verifies. *)
  k256_sign_ok : ∀ sk d, length d = 32%nat → ∃ sig, k256_sign_prehash sk d = Ok sig
    ∧ let sig := default sig (k256_normalize_s sig) in
      length (k256_sig_bytes sig) = 64%nat ∧ k256_sig_from_slice (k256_sig_bytes sig) = Ok sig
      ∧ k256_verify_prehash (k256_public sk) d sig = true;
  (** The recoverable form also recovers the signer's key. *)
  k256_recoverable_ok : ∀ sk d, length d = 32%nat → ∃ sig r, k256_sign_recoverable sk d = Ok (sig, r)
    ∧ 0 ≤ r < 4 ∧ length (k256_sig_bytes sig) = 64%nat
    ∧ k256_sig_from_slice (k256_sig_bytes sig) = Ok sig
    ∧ k256_verify_prehash (k256_public sk) d sig = true
    ∧ k256_recovery_id r = Some r ∧ k256_recover d sig r = Some (k256_public sk);
}.

(** ** [ml-dsa] at its three parameter sets *)

Inductive MlDsaLevel := P44 | P65 | P87.

Class MlDsaCrate := {
  mldsa_public : MlDsaLevel → bytes → bytes;
  mldsa_sign : MlDsaLevel → bytes → bytes → bytes;
  (** [Signature::decode] accepts an encoding of the right length. *)
  mldsa_sig_decodes : MlDsaLevel → bytes → bool;
  mldsa_verify : MlDsaLevel → bytes → bytes → bytes → bool;
}.

(** The encoded sizes FIPS 204 fixes. *)
Definition mldsa_pk_len (p : MlDsaLevel) : nat :=
  Z.to_nat (match p with P44 => 1312 | P65 => 1952 | P87 => 2592 end).
Definition mldsa_sig_len (p : MlDsaLevel) : nat :=
  Z.to_nat (match p with P44 => 2420 | P65 => 3309 | P87 => 4627 end).

Class MlDsaLaws `{MlDsaCrate} : Prop := {
  mldsa_public_length : ∀ p k, length (mldsa_public p k) = mldsa_pk_len p;
  mldsa_sign_length : ∀ p k m, length (mldsa_sign p k m) = mldsa_sig_len p;
  mldsa_sign_decodes : ∀ p k m, mldsa_sig_decodes p (mldsa_sign p k m) = true;
  mldsa_verify_sign : ∀ p k m, mldsa_verify p (mldsa_public p k) m (mldsa_sign p k m) = true;
}.

(** ** [bip32]: extended private keys *)

Class Bip32Crate := {
  XPrv : Type;
  xprv_new : bytes → result string XPrv;
  (** [ChildNumber::new(index, hardened)]. *)
  bip32_child_number : Z → bool → result string Z;
  xprv_derive_child : XPrv → Z → result string XPrv;
  xprv_to_bytes : XPrv → bytes;
  xprv_chain_code : XPrv → bytes;
}.

(** ** [bip39] *)

Class Bip39Crate := {
  Bip39Mnemonic : Type;
  (** [Mnemonic::parse_normalized]. *)
  mnemonic_parse : string → result string Bip39Mnemonic;
  (** [Mnemonic::to_seed]. *)
  mnemonic_seed : Bip39Mnemonic → string → bytes;
}.

(** BIP39: a seed is the 64-byte output of PBKDF2-HMAC-SHA512. *)
Class Bip39Laws `{Bip39Crate} : Prop := {
  mnemonic_seed_length : ∀ m pass, length (mnemonic_seed m pass) = 64%nat;
}.

(** ** [time]: the calendar fields of a Unix timestamp (seconds) *)

Record OffsetDateTime := { number_days_from_monday : Z; hour : Z }.

Class TimeCrate := { from_unix_timestamp : Z → option OffsetDateTime }.

(** Timestamps of the years -9999 to 9999 convert, to the proleptic Gregorian
    weekday (1970-01-01 was a Thursday) and the UTC hour. *)
Class TimeLaws `{TimeCrate} : Prop := {
  from_unix_timestamp_spec : ∀ t, -377705116800 ≤ t ≤ 253402300799 →
    from_unix_timestamp t =
      Some {| number_days_from_monday := (t / 86400 + 3) mod 7;
              hour := (t mod 86400) / 3600 |};
}.

(** ** [primitive_types]: decimal [U256] *)

Class U256Crate := { u256_from_dec_str : string → option Z }.

(** ** [serde_json]: values and their compact serialisation *)

Inductive Json :=
  | JNull
  | JBool (b : bool)
  | JNumber (z : Z)
  | JString (s : string)
  | JArray (l : list Json)
  | JObject (fields : list (string * Json)).

#[export] Instance Json_inhabited : Inhabited Json := populate JNull.

(** [serde_json::to_value]: a [Value] keeps the fields of an object in a
    [BTreeMap], so they are written in the order of their names. *)
Fixpoint value_insert (k : string) (v : Json) (kvs : list (string * Json)) : list (string * Json) :=
  match kvs with
  | [] => [(k, v)]
  | (k', v') :: rest =>
      match String.compare k k' with
      | Lt => (k, v) :: kvs
      | Eq => (k, v) :: rest
      | Gt => (k', v') :: value_insert k v rest
      end
  end.
Fixpoint json_value (j : Json) : Json :=
  match j with
  | JArray l => JArray (map json_value l)
  | JObject kvs => JObject (fold_left (λ m kv, value_insert kv.1 kv.2 m) (map (λ kv, (kv.1, json_value kv.2)) kvs) [])
  | _ => j
  end.

Example json_value_sorts :
  json_value (JObject [("reason", JNull); ("decision", JArray [JObject [("z", JNull); ("b", JNull)]])])
  = JObject [("decision", JArray [JObject [("b", JNull); ("z", JNull)]]); ("reason", JNull)].
Proof. reflexivity. Qed.

Class JsonCrate := {
  json_to_vec : Json → bytes;
  json_from_slice : bytes → option Json;
}.

(** Serialised values parse back to themselves; the compact form is never empty
    and escapes control characters, so it holds no newline byte. *)
Class JsonLaws `{JsonCrate} : Prop := {
  json_round_trip : ∀ j, json_from_slice (json_to_vec j) = Some j;
  json_nonempty : ∀ j, json_to_vec j ≠ [];
  json_no_newline : ∀ j, x0a ∉ json_to_vec j;
}.

Lemma json_to_vec_inj `{JsonLaws} j k : json_to_vec j = json_to_vec k → j = k.
Proof.
  intros Heq. apply (inj Some). by rewrite <-(json_round_trip j), Heq, json_round_trip.
Qed.

(** ** Concrete instances, for the witnesses *)

Module Concrete.

Definition crockford_char (d : Z) : ascii :=
  match String.get (Z.to_nat d) "0123456789ABCDEFGHJKMNPQRSTVWXYZ" with
  | Some c => c
  | None => "0"%char
  end.

Fixpoint base32 (n : nat) (z : Z) (acc : string) : string :=
  match n with
  | O => acc
  | S n => base32 n (z / 32) (String (crockford_char (z mod 32)) acc)
  end.

#[export] Instance ulid_crate : UlidCrate := {| ulid_to_string u := base32 26 (Z.of_N u) "" |}.

Lemma base32_length n z acc : String.length (base32 n z acc) = (n + String.length acc)%nat.
Proof.
  revert z acc. induction n as [|n IH]; intros z acc; cbn; [done|].
  rewrite IH. cbn. lia.
Qed.

Lemma crockford_inj x y :
  0 ≤ x < 32 → 0 ≤ y < 32 → crockford_char x = crockford_char y → x = y.
Proof.
  intros Hx Hy.
  assert (Forall (λ x, Forall (λ y, crockford_char x = crockford_char y → x = y)
                         (seqZ 0 32)) (seqZ 0 32)) as HF.
  { apply (bool_decide_eq_true_1 _). vm_compute. reflexivity. }
  rewrite Forall_forall in HF. specialize (HF x ltac:(by apply elem_of_seqZ)).
  rewrite Forall_forall in HF. by apply HF, elem_of_seqZ.
Qed.

Lemma base32_inj n x y a b :
  String.length a = String.length b → base32 n x a = base32 n y b →
  a = b ∧ x mod 32 ^ Z.of_nat n = y mod 32 ^ Z.of_nat n.
Proof.
  revert x y a b. induction n as [|n IH]; intros x y a b Hl; cbn [base32].
  { intros ->. by rewrite !Z.mod_1_r. }
  intros [[= Hc ->] Hm]%IH; [|cbn; by f_equal]. split; [done|].
  apply crockford_inj in Hc; [|apply Z.mod_pos_bound; lia..].
  rewrite Nat2Z.inj_succ, Z.pow_succ_r by lia.
  rewrite !Z.rem_mul_r by lia. congruence.
Qed.

#[export] Instance ulid_laws : UlidLaws.
Proof.
  split.
  - intros u. cbn -[base32]. by rewrite base32_length.
  - intros u v Hu Hv H. cbn -[base32] in H.
    apply base32_inj in H as [_ H]; [|done]. unfold is_ulid in *.
    rewrite !Z.mod_small in H; lia.
Qed.

Definition hex_val (c : ascii) : option Z :=
  let z := char_val c in
  if (48 <=? z) && (z <=? 57) then Some (z - 48)
  else if (97 <=? z) && (z <=? 102) then Some (z - 87)
  else if (65 <=? z) && (z <=? 70) then Some (z - 55) else None.

Fixpoint unhex (s : string) : option bytes :=
  match s with
  | EmptyString => Some []
  | String a (String b s) =>
      match hex_val a, hex_val b, unhex s with
      | Some x, Some y, Some bs => Some (byte_of_Z (16 * x + y) :: bs)
      | _, _, _ => None
      end
  | _ => None
  end.

#[export] Instance hex_crate : HexCrate := {| hex_decode := unhex |}.

Lemma hex_val_char d : 0 ≤ d < 16 → hex_val (hex_char d) = Some d.
Proof.
  intros Hd. unfold hex_val, hex_char.
  destruct (Z.ltb_spec d 10); rewrite char_val_of_Z by lia.
  - rewrite (proj2 (Z.leb_le 48 _)), (proj2 (Z.leb_le _ 57)) by lia. cbn. f_equal. lia.
  - rewrite (proj2 (Z.leb_gt _ 57)) by lia. rewrite andb_false_r.
    rewrite (proj2 (Z.leb_le 97 _)), (proj2 (Z.leb_le _ 102)) by lia. cbn. f_equal. lia.
Qed.

Lemma unhex_encode bs : unhex (hex_encode bs) = Some bs.
Proof.
  induction bs as [|b bs IH]; [done|]. cbn [hex_encode unhex].
  pose proof (byte_val_range b).
  assert (0 ≤ byte_val b / 16 < 16).
  { split; [apply Z.div_pos|apply Z.div_lt_upper_bound]; lia. }
  pose proof (Z.mod_pos_bound (byte_val b) 16).
  rewrite !hex_val_char, IH by lia. do 2 f_equal.
  replace (16 * (byte_val b / 16) + byte_val b mod 16) with (byte_val b)
    by (apply Z.div_mod; lia).
  apply byte_of_Z_val.
Qed.

Lemma hex_val_lower c x :
  hex_val (ascii_lower c) = Some x → 0 ≤ x < 16 ∧ hex_char x = ascii_lower c.
Proof.
  set (a := ascii_lower c).
  assert (char_val a < 65 ∨ 90 < char_val a) as Ha.
  { unfold a, ascii_lower.
    destruct (Z.leb_spec 65 (char_val c)), (Z.leb_spec (char_val c) 90);
      cbn; rewrite ?char_val_of_Z by lia; lia. }
  unfold hex_val. intros Hx.
  destruct (Z.leb_spec 48 (char_val a)), (Z.leb_spec (char_val a) 57),
    (Z.leb_spec 97 (char_val a)), (Z.leb_spec (char_val a) 102),
    (Z.leb_spec 65 (char_val a)), (Z.leb_spec (char_val a) 70);
    cbn in Hx; simplify_eq; try lia; (split; [lia|]);
    apply char_val_inj; unfold hex_char;
    match goal with |- context [?v <? 10] => destruct (Z.ltb_spec v 10); try lia end;
    rewrite char_val_of_Z by lia; lia.
Qed.

Lemma byte_of_hex_digits x y :
  0 ≤ x < 16 → 0 ≤ y < 16 →
  byte_val (byte_of_Z (16 * x + y)) / 16 = x ∧ byte_val (byte_of_Z (16 * x + y)) mod 16 = y.
Proof.
  intros Hx Hy. rewrite byte_val_of_Z, Z.mod_small by lia. split.
  - rewrite Z.mul_comm, Z.div_add_l, Z.div_small by lia. lia.
  - rewrite Z.add_comm, Z.mul_comm, Z_mod_plus_full. by apply Z.mod_small.
Qed.

Fixpoint unhex_lower (s : string) (bs : bytes) {struct bs} :
  unhex (to_ascii_lowercase s) = Some bs → to_ascii_lowercase s = hex_encode bs.
Proof.
  destruct s as [|a [|b s]]; cbn; [by intros [= <-]|done|].
  destruct (hex_val (ascii_lower a)) as [x|] eqn:Hx; [|done].
  destruct (hex_val (ascii_lower b)) as [y|] eqn:Hy; [|done].
  destruct (unhex (to_ascii_lowercase s)) as [bs'|] eqn:Hs; [|done].
  destruct bs as [|b0 bs]; [done|]. intros [= <- ->].
  apply hex_val_lower in Hx as [Hx Hxa]. apply hex_val_lower in Hy as [Hy Hyb].
  cbn [hex_encode]. destruct (byte_of_hex_digits x y Hx Hy) as [-> ->].
  rewrite Hxa, Hyb. do 2 f_equal. by apply unhex_lower.
Qed.

#[export] Instance hex_laws : HexLaws.
Proof. split; [apply unhex_encode|]. intros s bs. apply unhex_lower. Qed.

(** A sharing in which every share carries the scalar: it meets the
    reconstruction law (and hides nothing). *)
Definition scalar32 : Type := { bs : bytes | length bs = 32%nat }.

#[export] Instance vsss_crate : VsssCrate := {|
  Scalar := scalar32;
  Rng := unit;
  scalar_from_repr bs :=
    match decide (length bs = 32%nat) with
    | left H => if be_value bs <? secp256k1_order then Some (bs ↾ H) else None
    | right _ => None
    end;
  scalar_to_repr s := `s;
  vsss_split t n s _ :=
    Ok ((λ i, byte_of_Z (Z.of_nat (S i)) :: `s) <$> seq 0 n);
  vsss_combine shs :=
    match shs with
    | (_ :: v) :: _ =>
        match decide (length v = 32%nat) with
        | left H => Ok (v ↾ H)
        | right _ => Err "bad share"
        end
    | _ => Err "no shares"
    end;
|}.

#[export] Instance vsss_laws : VsssLaws.
Proof.
  split.
  - intros bs Hl Hb. cbn. destruct (decide (length bs = 32%nat)) as [H|]; [|done].
    rewrite (proj2 (Z.ltb_lt _ _) Hb). by eexists.
  - intros t n s rng Ht Hn. eexists. split; [done|]. split.
    + by rewrite length_fmap, length_seq.
    + apply Forall_fmap, Forall_forall. intros i _. cbn. by rewrite (proj2_sig s).
  - intros t n s rng shs sel Ht Hn [= <-] _ Hsel Hlen.
    destruct sel as [|i sel]; cbn in Hlen; [lia|]. apply Forall_cons in Hsel as [Hi _].
    unfold pick. cbn. rewrite list_lookup_fmap, lookup_seq_lt by done. cbn.
    destruct s as [bs Hbs]. cbn. destruct (decide (length bs = 32%nat)) as [H|]; [|done].
    do 2 f_equal. apply proof_irrel.
Qed.

(** A checksum with the digest length, and a signature that repeats the key. *)
Definition toy_digest (m : bytes) : bytes := be_bytes 32 (be_value m + 7 * Z.of_nat (length m)).
Definition pad_to (n : nat) (bs : bytes) : bytes := take n (bs ++ replicate n x00).

#[export] Instance digest_crate : DigestCrate :=
  {| sha256 := toy_digest; keccak256 := toy_digest; blake3 := toy_digest;
     hmac_sha512 k m := toy_digest k ++ toy_digest (k ++ m) |}.
#[export] Instance digest_laws : DigestLaws.
Proof.
  split; intros; try apply length_be_bytes. cbn -[toy_digest].
  rewrite length_app. unfold toy_digest. by rewrite !length_be_bytes.
Qed.

Definition toy_sign (pk m : bytes) : bytes := pad_to 64 (pk ++ toy_digest m).

Lemma pad_to_length n bs : length (pad_to n bs) = n.
Proof. unfold pad_to. rewrite length_take, length_app, length_replicate. lia. Qed.

#[export] Instance ed25519_crate : Ed25519Crate := {|
  ed_public k := pad_to 32 k;
  ed_sign k m := toy_sign (pad_to 32 k) m;
  ed_key_valid _ := true;
  ed_key_error _ := "signature error: Cannot decompress Edwards point";
  ed_verify pk m sig := bool_decide (sig = toy_sign pk m);
|}.
#[export] Instance ed25519_laws : Ed25519Laws.
Proof.
  split; intros; cbn; [apply pad_to_length|done|apply pad_to_length|].
  by apply bool_decide_eq_true.
Qed.

(** ECDSA stand-in: the key is the scalar's bytes, a signature repeats the key
    and the digest. *)
Definition toy_sec1 (vk : bytes) : bytes := x02 :: pad_to 32 vk.

#[export] Instance k256_crate : K256Crate := {|
  k256_sk := bytes; k256_vk := bytes; k256_sig := bytes;
  k256_signing_key bs :=
    if bool_decide (length bs = 32%nat) && (0 <? be_value bs) && (be_value bs <? secp256k1_order)
    then Ok bs else Err "signature error";
  k256_public sk := pad_to 32 sk;
  k256_to_sec1 vk := toy_sec1 vk;
  k256_from_sec1 bs := match bs with
                       | x02 :: vk => if bool_decide (length vk = 32%nat) then Some vk else None
                       | _ => None
                       end;
  k256_sign_prehash sk d := Ok (pad_to 64 (pad_to 32 sk ++ d));
  k256_sign_recoverable sk d := Ok (pad_to 64 (pad_to 32 sk ++ d), 0);
  k256_normalize_s _ := None;
  k256_sig_bytes sig := sig;
  k256_sig_from_slice bs := Ok bs;
  k256_verify_prehash vk d sig := bool_decide (sig = pad_to 64 (vk ++ d));
  k256_recovery_id b := if (0 <=? b) && (b <? 4) then Some b else None;
  k256_recover d sig r := Some (take 32 sig);
|}.

Lemma pad_to_id n bs : length bs = n → pad_to n bs = bs.
Proof. intros H. unfold pad_to. by apply take_app_exact. Qed.

#[export] Instance k256_laws : K256Laws.
Proof.
  split; cbn -[pad_to].
  - intros bs Hl Hb. rewrite bool_decide_eq_true_2 by done.
    rewrite (proj2 (Z.ltb_lt 0 _)), (proj2 (Z.ltb_lt _ secp256k1_order)) by lia. by eexists.
  - intros sk. unfold toy_sec1. rewrite (pad_to_id 32 (pad_to 32 sk)) by apply pad_to_length.
    by rewrite bool_decide_eq_true_2 by apply pad_to_length.
  - intros sk. cbn. by rewrite pad_to_length.
  - intros sk d Hd. eexists. split; [done|]. split; [apply pad_to_length|]. split; [done|].
    by apply bool_decide_eq_true.
  - intros sk d Hd. do 2 eexists. split; [done|]. split; [done|]. split; [apply pad_to_length|].
    split; [done|]. split; [by apply bool_decide_eq_true|]. split; [done|]. f_equal.
    rewrite (pad_to_id 64) by (rewrite length_app, pad_to_length, Hd; done).
    apply take_app_exact, pad_to_length.
Qed.

#[export] Instance mldsa_crate : MlDsaCrate := {|
  mldsa_public p k := pad_to (mldsa_pk_len p) k;
  mldsa_sign p k m := pad_to (mldsa_sig_len p) (pad_to (mldsa_pk_len p) k ++ toy_digest m);
  mldsa_sig_decodes _ _ := true;
  mldsa_verify p pk m sig := bool_decide (sig = pad_to (mldsa_sig_len p) (pk ++ toy_digest m));
|}.
#[export] Instance mldsa_laws : MlDsaLaws.
Proof.
  split; intros; cbn; try apply pad_to_length; [done|]. by apply bool_decide_eq_true.
Qed.

#[export] Instance bip32_crate : Bip32Crate := {|
  XPrv := bytes;
  xprv_new seed := if bool_decide (length seed < 16)%nat then Err "seed length" else Ok (toy_digest seed);
  bip32_child_number i hardened :=
    if (0 <=? i) && (i <? 2 ^ 31) then Ok (if hardened : bool then i + 2 ^ 31 else i)
    else Err "child number";
  xprv_derive_child x i := Ok (toy_digest (be_bytes 4 i ++ x));
  xprv_to_bytes x := x;
  xprv_chain_code x := x;
|}.

#[export] Instance bip39_crate : Bip39Crate := {|
  Bip39Mnemonic := string;
  mnemonic_parse s := if String.eqb s "" then Err "mnemonic has an invalid word count: 0" else Ok s;
  mnemonic_seed m pass := take 64 (toy_digest (string_bytes m) ++ toy_digest (string_bytes pass) ++ replicate 64 x00);
|}.
#[export] Instance bip39_laws : Bip39Laws.
Proof. split. intros m pass. cbn [mnemonic_seed bip39_crate]. rewrite length_take, !length_app, length_replicate. lia. Qed.

#[export] Instance time_crate : TimeCrate := {|
  from_unix_timestamp t :=
    if (-377705116800 <=? t) && (t <=? 253402300799) then
      Some {| number_days_from_monday := (t / 86400 + 3) mod 7;
              hour := (t mod 86400) / 3600 |}
    else None;
|}.
#[export] Instance time_laws : TimeLaws.
Proof.
  split. intros t Ht. cbn.
  by rewrite (proj2 (Z.leb_le _ t)), (proj2 (Z.leb_le t _)) by lia.
Qed.

#[export] Instance u256_crate : U256Crate := {|
  u256_from_dec_str s :=
    match s with "" => None | _ => parse_digits (2 ^ 256 - 1) 0 s end;
|}.

(** A serialisation through stdpp's encoding of trees. *)
Fixpoint json_tree (j : Json) : gen_tree (() + bool + Z + string) :=
  match j with
  | JNull => GenLeaf (inl (inl (inl ())))
  | JBool b => GenLeaf (inl (inl (inr b)))
  | JNumber z => GenLeaf (inl (inr z))
  | JString s => GenLeaf (inr s)
  | JArray l => GenNode 0 (json_tree <$> l)
  | JObject fields => GenNode 1 ((λ f, GenNode 2 [GenLeaf (inr f.1); json_tree f.2]) <$> fields)
  end.

Fixpoint json_untree (t : gen_tree (() + bool + Z + string)) : Json :=
  match t with
  | GenLeaf (inl (inl (inl _))) => JNull
  | GenLeaf (inl (inl (inr b))) => JBool b
  | GenLeaf (inl (inr z)) => JNumber z
  | GenLeaf (inr s) => JString s
  | GenNode 0 l => JArray (json_untree <$> l)
  | GenNode _ l => JObject ((λ t, match t with
                                  | GenNode _ [GenLeaf (inr k); v] => (k, json_untree v)
                                  | _ => ("", JNull)
                                  end) <$> l)
  end.

Lemma json_untree_tree : ∀ j, json_untree (json_tree j) = j.
Proof.
  fix IH 1. intros [|b|z|s|l|fields]; [reflexivity..|cbn; f_equal|cbn; f_equal].
  - induction l as [|j l IHl]; cbn; [reflexivity|]. rewrite IH. f_equal. exact IHl.
  - induction fields as [|[k v] fs IHf]; cbn; [reflexivity|]. rewrite IH. f_equal. exact IHf.
Qed.

Fixpoint pos_bytes (p : positive) : bytes :=
  match p with xH => [] | xO p => x00 :: pos_bytes p | xI p => x01 :: pos_bytes p end.
Fixpoint bytes_pos (bs : bytes) : positive :=
  match bs with [] => xH | b :: bs => if bool_decide (b = x00) then xO (bytes_pos bs) else xI (bytes_pos bs) end.
Lemma bytes_pos_bytes p : bytes_pos (pos_bytes p) = p.
Proof. induction p; cbn; [case_bool_decide; [done|]| |done]; by f_equal. Qed.

#[export] Instance json_crate : JsonCrate := {|
  json_to_vec j := x22 :: pos_bytes (encode (json_tree j));
  json_from_slice bs := json_untree <$> decode (bytes_pos (drop 1 bs));
|}.

Lemma pos_bytes_no_newline p : x0a ∉ pos_bytes p.
Proof. induction p; cbn; rewrite ?elem_of_cons, ?elem_of_nil; naive_solver. Qed.

#[export] Instance json_laws : JsonLaws.
Proof.
  split.
  - intros j. cbn -[encode decode].
    by rewrite drop_0, bytes_pos_bytes, decode_encode; cbn; rewrite json_untree_tree.
  - by intros j.
  - intros j. cbn -[encode]. intros [?|Hin]%elem_of_cons; [done|]. by apply pos_bytes_no_newline in Hin.
Qed.

Definition crockford_val (c : ascii) : option Z :=
  find (λ z, bool_decide (crockford_char z = c)) (seqZ 0 32).

Fixpoint unbase32 (acc : Z) (s : string) : option Z :=
  match s with
  | EmptyString => Some acc
  | String c s => v ← crockford_val c; unbase32 (32 * acc + v) s
  end.

Lemma crockford_val_char d : 0 ≤ d < 32 → crockford_val (crockford_char d) = Some d.
Proof.
  intros Hd. assert (Forall (λ d, crockford_val (crockford_char d) = Some d) (seqZ 0 32)) as HF.
  { apply (bool_decide_eq_true_1 _). vm_compute. reflexivity. }
  rewrite Forall_forall in HF. by apply HF, elem_of_seqZ.
Qed.

Lemma unbase32_base32 n a z acc :
  unbase32 a (base32 n z acc) = unbase32 (a * 32 ^ Z.of_nat n + z mod 32 ^ Z.of_nat n) acc.
Proof.
  revert z acc. induction n as [|n IH]; intros z acc; cbn [base32].
  { rewrite Z.mod_1_r. f_equal. lia. }
  rewrite IH. cbn [unbase32]. rewrite crockford_val_char by (apply Z.mod_pos_bound; lia).
  cbn [mbind option_bind]. f_equal. rewrite Nat2Z.inj_succ, Z.pow_succ_r by lia.
  rewrite Z.rem_mul_r by lia. lia.
Qed.

#[export] Instance ulid_parse : UlidParse := {|
  ulid_from_string s := Z.to_N <$> unbase32 0 s |}.
#[export] Instance ulid_parse_laws : UlidParseLaws.
Proof.
  split. intros u Hu. cbn -[base32 unbase32]. rewrite unbase32_base32. cbn [unbase32 fmap option_fmap option_map].
  unfold is_ulid in Hu. rewrite Z.mod_small by lia. by rewrite Z.mul_0_l, Z.add_0_l, N2Z.id.
Qed.

End Concrete.
