(* ===== verification/Ids.v ===== *)
(** * Ids: the text of identifiers ([ids.rs], [errors.rs])

    What [ulid_newtype!] makes of each identifier type: its [Display], [Debug]
    and [FromStr]; and those of [ShareId] and [OwnerId]. *)

From S2P Require Import Prelude Text Types External.
#[local] Open Scope string_scope.
#[local] Open Scope list_scope.
#[local] Open Scope Z_scope.

(** The cases of [ParseError] that identifiers raise. *)
Inductive IdParseError := InvalidUlid (why : string).

Definition id_parse_error_text (e : IdParseError) : string :=
  match e with InvalidUlid why => "invalid ULID: " +:+ why end.

(** One invocation of the macro: the type, its wrapped ULID and its name. *)
Class UlidNewtype (T : Type) := {
  from_ulid : N → T;
  as_ulid : T → N;
  type_name : string;
  from_as x : from_ulid (as_ulid x) = x;
  as_from u : as_ulid (from_ulid u) = u;
}.

Ltac newtype := by intros [].
#[export] Program Instance WalletId_newtype : UlidNewtype WalletId :=
  {| from_ulid := WalletId_from_ulid; as_ulid := WalletId_ulid; type_name := "WalletId" |}.
Solve Obligations with newtype.
#[export] Program Instance RequestId_newtype : UlidNewtype RequestId :=
  {| from_ulid := RequestId_from_ulid; as_ulid := RequestId_ulid; type_name := "RequestId" |}.
Solve Obligations with newtype.
#[export] Program Instance DecisionId_newtype : UlidNewtype DecisionId :=
  {| from_ulid := DecisionId_from_ulid; as_ulid := DecisionId_ulid; type_name := "DecisionId" |}.
Solve Obligations with newtype.
#[export] Program Instance ApprovalId_newtype : UlidNewtype ApprovalId :=
  {| from_ulid := ApprovalId_from_ulid; as_ulid := ApprovalId_ulid; type_name := "ApprovalId" |}.
Solve Obligations with newtype.
#[export] Program Instance EventId_newtype : UlidNewtype EventId :=
  {| from_ulid := EventId_from_ulid; as_ulid := EventId_ulid; type_name := "EventId" |}.
Solve Obligations with newtype.
#[export] Program Instance PolicyId_newtype : UlidNewtype PolicyId :=
  {| from_ulid := PolicyId_from_ulid; as_ulid := PolicyId_ulid; type_name := "PolicyId" |}.
Solve Obligations with newtype.
#[export] Program Instance ApproverSetId_newtype : UlidNewtype ApproverSetId :=
  {| from_ulid := ApproverSetId_from_ulid; as_ulid := ApproverSetId_ulid; type_name := "ApproverSetId" |}.
Solve Obligations with newtype.
#[export] Program Instance ApproverId_newtype : UlidNewtype ApproverId :=
  {| from_ulid := ApproverId_from_ulid; as_ulid := ApproverId_ulid; type_name := "ApproverId" |}.
Solve Obligations with newtype.

Section ids.
Context `{UlidCrate, UlidParse}.
(** [Display] of the crate's decoding error. *)
Variable decode_text : string → string.

Definition id_display {T} `{UlidNewtype T} (x : T) : string := ulid_to_string (as_ulid x).

Definition id_debug {T} `{UlidNewtype T} (x : T) : string :=
  type_name (T := T) +:+ "(" +:+ ulid_to_string (as_ulid x) +:+ ")".

Definition id_from_str {T} `{UlidNewtype T} (s : string) : result IdParseError T :=
  match ulid_from_string s with
  | Some u => Ok (from_ulid u)
  | None => Err (InvalidUlid (decode_text s))
  end.

Definition share_id_display (s : ShareId) : string :=
  id_display (share_wallet_id s) +:+ "#" +:+ show_dec (share_index s).

Definition share_id_debug (s : ShareId) : string :=
  "ShareId(" +:+ id_display (share_wallet_id s) +:+ "#" +:+ show_dec (share_index s) +:+ ")".

Definition owner_display (o : OwnerId) : string := OwnerId_as_str o.
Definition owner_debug (o : OwnerId) : string := "OwnerId(" +:+ OwnerId_as_str o +:+ ")".

(** The [Err] type is [Infallible]. *)
Definition owner_from_str (s : string) : result Empty_set OwnerId := Ok (OwnerId_new s).

(** ** Properties *)

(** What is printed parses back, for each of the eight identifier types. *)
Theorem id_text_round_trip `{!UlidParseLaws} {T} `{UlidNewtype T} (x : T) :
  is_ulid (as_ulid x) → id_from_str (id_display x) = Ok x.
Proof. intros Hx. unfold id_from_str, id_display. by rewrite ulid_parse_to_string, from_as. Qed.

(** A share's text names one share: the wallet is its first 26 characters and
    the index what follows the hash. *)
Theorem share_id_text_unique `{!UlidLaws} s t :
  is_ulid (as_ulid (share_wallet_id s)) → is_ulid (as_ulid (share_wallet_id t)) →
  0 ≤ share_index s → 0 ≤ share_index t → share_id_display s = share_id_display t → s = t.
Proof.
  intros Hs Ht Hi Hj Heq. unfold share_id_display, id_display in Heq.
  apply append_inj_len in Heq as [Hw Hk]; [|by rewrite !ulid_length].
  apply append_inj_l, show_dec_inj in Hk; [|done..].
  destruct s as [[u] i], t as [[v] j]. cbn in *. apply ulid_inj in Hw; [|done..]. congruence.
Qed.

Theorem owner_text_round_trip o : owner_from_str (owner_display o) = Ok o.
Proof. by destruct o. Qed.
End ids.
