(* ===== verification/Codecs.v ===== *)
(** * Codecs: the serialisation and certificate crates, as parameters

    The operations of [borsh], [ciborium], [coset], [p384] and [x509-cert] the
    decoders and the attestation verifier call, as classes; each [...Laws]
    class states the documented behaviour the theorems rely on.  Module
    [ConcreteCodecs] holds functions that satisfy the laws, for the witnesses. *)

From S2P Require Import Prelude Text External.
#[local] Open Scope string_scope.
#[local] Open Scope list_scope.
#[local] Open Scope Z_scope.

(** ** [borsh]: [T::deserialize_reader] over a byte slice

    A successful read returns the value and the bytes left in the reader. *)

Class BorshCrate := {
  borsh_u8 : bytes → result string (Z * bytes);
  borsh_u64 : bytes → result string (Z * bytes);
  borsh_vec_u8 : bytes → result string (bytes * bytes);
}.

(** The borsh specification: integers are little-endian, a [Vec<u8>] is its
    [u32] length followed by that many bytes; a short input is an error. *)
Class BorshLaws `{BorshCrate} : Prop := {
  borsh_u8_cons : ∀ b rest, borsh_u8 (b :: rest) = Ok (byte_val b, rest);
  borsh_u8_nil : ∃ e, borsh_u8 [] = Err e;
  borsh_u64_enough : ∀ bs, (8 ≤ length bs)%nat →
    borsh_u64 bs = Ok (le_value (take 8 bs), drop 8 bs);
  borsh_u64_short : ∀ bs, (length bs < 8)%nat → ∃ e, borsh_u64 bs = Err e;
  borsh_vec_enough : ∀ bs, (4 ≤ length bs)%nat →
    le_value (take 4 bs) ≤ Z.of_nat (length (drop 4 bs)) →
    borsh_vec_u8 bs = Ok (take (Z.to_nat (le_value (take 4 bs))) (drop 4 bs),
                          drop (Z.to_nat (le_value (take 4 bs))) (drop 4 bs));
  borsh_vec_short : ∀ bs,
    (length bs < 4)%nat ∨ Z.of_nat (length (drop 4 bs)) < le_value (take 4 bs) →
    ∃ e, borsh_vec_u8 bs = Err e;
}.

(** ** [ciborium]: CBOR values *)

Inductive CborValue :=
  | CInteger (i : Z)
  | CBytes (b : bytes)
  | CFloat (bits : Z)
  | CText (s : string)
  | CBool (b : bool)
  | CNull
  | CTag (tag : Z) (v : CborValue)
  | CArray (l : list CborValue)
  | CMap (entries : list (CborValue * CborValue)).

Class CborCrate := {
  cbor_into_writer : CborValue → result string bytes;
  cbor_from_reader : bytes → result string CborValue;
}.

(** A value of at most [depth] levels without floats and tags whose integers
    are in CBOR's range. *)
Fixpoint cbor_plain (depth : nat) (v : CborValue) : bool :=
  match depth with
  | O => false
  | S d =>
      match v with
      | CInteger i => (- 2 ^ 64 <=? i) && (i <? 2 ^ 64)
      | CBytes _ | CText _ | CBool _ | CNull => true
      | CFloat _ | CTag _ _ => false
      | CArray l => forallb (cbor_plain d) l
      | CMap l => forallb (λ e, cbor_plain d e.1 && cbor_plain d e.2) l
      end
  end.

(** Such values (nested no deeper than the reader's recursion limit) are
    written and read back unchanged. *)
Class CborLaws `{CborCrate} : Prop := {
  cbor_round_trip : ∀ v, cbor_plain 16 v = true →
    ∃ bs, cbor_into_writer v = Ok bs ∧ cbor_from_reader bs = Ok v;
}.

(** ** [coset]: COSE_Sign1 envelopes *)

(** [iana::Algorithm] of the protected header; the registered algorithms the
    sources do not name keep their number. *)
Inductive CoseAlg := ES384 | EdDSA | AlgOther (n : Z).

Class CosetCrate := {
  CoseSign1 : Type;
  cose_payload : CoseSign1 → option bytes;
  cose_signature : CoseSign1 → bytes;
  cose_alg : CoseSign1 → option CoseAlg;
  (** [tbs_data(aad)], the bytes that are signed. *)
  cose_tbs_data : CoseSign1 → bytes → bytes;
  cose_from_tagged_slice : bytes → result string CoseSign1;
  cose_from_slice : bytes → result string CoseSign1;
  cose_to_vec : CoseSign1 → result string bytes;
  (** [CoseSign1Builder]: a protected header with the algorithm and a payload;
      then the signature. *)
  cose_builder : CoseAlg → bytes → CoseSign1;
  cose_set_signature : bytes → CoseSign1 → CoseSign1;
}.

(** [CoseSign1Builder::create_signature]. *)
Definition cose_create_signature `{CosetCrate} (aad : bytes) (f : bytes → bytes) (c : CoseSign1)
    : CoseSign1 :=
  cose_set_signature (f (cose_tbs_data c aad)) c.

Class CosetLaws `{CosetCrate} : Prop := {
  (** A built envelope serialises, untagged; the tagged parser declines it and
      the untagged one gives back its fields and the same signed bytes. *)
  cose_build_parse : ∀ alg p sig, ∃ bs c,
    cose_to_vec (cose_set_signature sig (cose_builder alg p)) = Ok bs
    ∧ (∃ e, cose_from_tagged_slice bs = Err e)
    ∧ cose_from_slice bs = Ok c
    ∧ cose_payload c = Some p ∧ cose_signature c = sig ∧ cose_alg c = Some alg
    ∧ ∀ aad, cose_tbs_data c aad = cose_tbs_data (cose_builder alg p) aad;
}.

(** ** [p384::ecdsa] *)

Class P384Crate := {
  p384_sk : Type;
  p384_vk : Type;
  p384_sig : Type;
  p384_from_sec1 : bytes → option p384_vk;
  (** [Signature::from_slice] ([r || s]) and [DerSignature::try_from]. *)
  p384_sig_from_slice : bytes → option p384_sig;
  p384_sig_from_der : bytes → option p384_sig;
  p384_verify : p384_vk → bytes → p384_sig → bool;
  p384_sign : p384_sk → bytes → p384_sig;
  p384_sig_bytes : p384_sig → bytes;
  p384_public : p384_sk → p384_vk;
}.

Class P384Laws `{P384Crate} : Prop := {
  p384_sig_length : ∀ s, length (p384_sig_bytes s) = 96%nat;
  p384_sig_round_trip : ∀ s, p384_sig_from_slice (p384_sig_bytes s) = Some s;
  p384_verify_sign : ∀ k m, p384_verify (p384_public k) m (p384_sign k m) = true;
}.

(** ** [x509-cert] *)

Class X509Crate := {
  Certificate : Type;
  X509Name : Type;
  X509Name_eq_dec :: EqDecision X509Name;
  cert_from_der : bytes → option Certificate;
  cert_load_pem_chain : bytes → option (list Certificate);
  cert_to_der : Certificate → option bytes;
  (** Of the [tbs_certificate]: its encoding and the fields the code reads. *)
  cert_tbs_der : Certificate → option bytes;
  cert_issuer : Certificate → X509Name;
  cert_subject : Certificate → X509Name;
  (** The key's bit string, when it is byte-aligned; so for the signature. *)
  cert_public_key : Certificate → option bytes;
  cert_signature : Certificate → option bytes;
  (** [to_unix_duration().as_millis()], a [u128]. *)
  cert_not_before_ms : Certificate → Z;
  cert_not_after_ms : Certificate → Z;
}.

(** The two times of a certificate's validity alone take more than 32 bytes. *)
Class X509Laws `{X509Crate} : Prop := {
  cert_der_length : ∀ bs c, cert_from_der bs = Some c → (32 < length bs)%nat;
}.

(** ** Concrete instances, for the witnesses *)

Module ConcreteCodecs.
Import Concrete.

#[export] Instance borsh_crate : BorshCrate := {|
  borsh_u8 bs := match bs with b :: r => Ok (byte_val b, r) | [] => Err "Unexpected length of input" end;
  borsh_u64 bs :=
    if bool_decide (8 ≤ length bs)%nat then Ok (le_value (take 8 bs), drop 8 bs)
    else Err "Unexpected length of input";
  borsh_vec_u8 bs :=
    if bool_decide (4 ≤ length bs)%nat && (le_value (take 4 bs) <=? Z.of_nat (length (drop 4 bs)))
    then Ok (take (Z.to_nat (le_value (take 4 bs))) (drop 4 bs),
             drop (Z.to_nat (le_value (take 4 bs))) (drop 4 bs))
    else Err "Unexpected length of input";
|}.

#[export] Instance borsh_laws : BorshLaws.
Proof.
  split; cbn -[take drop le_value].
  - done.
  - eauto.
  - intros bs H. by rewrite bool_decide_eq_true_2.
  - intros bs H. rewrite bool_decide_eq_false_2 by lia. eauto.
  - intros bs H Hl. rewrite bool_decide_eq_true_2 by done. by rewrite (proj2 (Z.leb_le _ _) Hl).
  - intros bs [H|H].
    + rewrite bool_decide_eq_false_2 by lia. eauto.
    + rewrite (proj2 (Z.leb_gt _ _) H), andb_false_r. eauto.
Qed.

Abbreviation leaf := (Z + bytes + string + bool + ())%type.

Fixpoint cbor_tree (v : CborValue) : gen_tree leaf :=
  match v with
  | CInteger i => GenLeaf (inl (inl (inl (inl i))))
  | CBytes b => GenLeaf (inl (inl (inl (inr b))))
  | CText s => GenLeaf (inl (inl (inr s)))
  | CBool b => GenLeaf (inl (inr b))
  | CNull => GenLeaf (inr ())
  | CFloat z => GenNode 3 [GenLeaf (inl (inl (inl (inl z))))]
  | CTag t v => GenNode 4 [GenLeaf (inl (inl (inl (inl t)))); cbor_tree v]
  | CArray l => GenNode 0 (cbor_tree <$> l)
  | CMap l => GenNode 1 ((λ e, GenNode 2 [cbor_tree e.1; cbor_tree e.2]) <$> l)
  end.

Fixpoint cbor_untree (t : gen_tree leaf) : CborValue :=
  match t with
  | GenLeaf (inl (inl (inl (inl i)))) => CInteger i
  | GenLeaf (inl (inl (inl (inr b)))) => CBytes b
  | GenLeaf (inl (inl (inr s))) => CText s
  | GenLeaf (inl (inr b)) => CBool b
  | GenLeaf (inr _) => CNull
  | GenNode 3 [GenLeaf (inl (inl (inl (inl z))))] => CFloat z
  | GenNode 4 [GenLeaf (inl (inl (inl (inl t)))); v] => CTag t (cbor_untree v)
  | GenNode 0 l => CArray (cbor_untree <$> l)
  | GenNode _ l => CMap ((λ t, match t with
                               | GenNode _ [k; v] => (cbor_untree k, cbor_untree v)
                               | _ => (CNull, CNull)
                               end) <$> l)
  end.

Lemma cbor_untree_tree : ∀ v, cbor_untree (cbor_tree v) = v.
Proof.
  fix IH 1. intros [i|b|z|s|b| |t v|l|l]; [reflexivity..|cbn; f_equal; apply IH|cbn; f_equal|cbn; f_equal].
  - induction l as [|j l IHl]; cbn; [reflexivity|]. rewrite IH. f_equal. exact IHl.
  - induction l as [|[k v] l IHl]; cbn; [reflexivity|]. rewrite !IH. f_equal. exact IHl.
Qed.

(** A self-delimiting byte form of any countable value. *)
Definition freeze {A} `{Countable A} (a : A) : bytes := x22 :: pos_bytes (encode a).
Definition thaw {A} `{Countable A} (bs : bytes) : option A :=
  match bs with x22 :: bs => decode (bytes_pos bs) | _ => None end.
Lemma thaw_freeze {A} `{Countable A} (a : A) : thaw (freeze a) = Some a.
Proof. unfold thaw, freeze. by rewrite bytes_pos_bytes, decode_encode. Qed.

#[export] Instance cbor_crate : CborCrate := {|
  cbor_into_writer v := Ok (freeze (cbor_tree v));
  cbor_from_reader bs := ok_or (cbor_untree <$> thaw bs) "Semantic(None, ..)";
|}.
#[export] Instance cbor_laws : CborLaws.
Proof.
  split. intros v _. eexists. split; [done|]. unfold cbor_from_reader, cbor_crate.
  rewrite thaw_freeze. cbn. by rewrite cbor_untree_tree.
Qed.

(** An envelope: the algorithm (0 for none), the payload, the signature. *)
Definition alg_code (a : CoseAlg) : Z :=
  match a with ES384 => -35 | EdDSA => -8 | AlgOther n => n end.
Definition alg_of_code (z : Z) : CoseAlg :=
  if z =? -35 then ES384 else if z =? -8 then EdDSA else AlgOther z.

Record sign1 := { s_alg : CoseAlg; s_payload : bytes; s_signature : bytes }.

Definition s_to (c : sign1) : option Z * bytes * bytes :=
  (match s_alg c with AlgOther n => Some n | _ => None end,
   match s_alg c with ES384 => x01 :: s_payload c | EdDSA => x02 :: s_payload c | AlgOther _ => s_payload c end,
   s_signature c).
Definition s_of (t : option Z * bytes * bytes) : option sign1 :=
  let '(a, p, s) := t in
  match a, p with
  | Some n, p => Some {| s_alg := AlgOther n; s_payload := p; s_signature := s |}
  | None, x01 :: p => Some {| s_alg := ES384; s_payload := p; s_signature := s |}
  | None, x02 :: p => Some {| s_alg := EdDSA; s_payload := p; s_signature := s |}
  | None, _ => None
  end.
Lemma s_of_to c : s_of (s_to c) = Some c.
Proof. by destruct c as [[]]. Qed.

#[export] Instance coset_crate : CosetCrate := {|
  CoseSign1 := sign1;
  cose_payload c := Some (s_payload c);
  cose_signature := s_signature;
  cose_alg c := Some (s_alg c);
  cose_tbs_data c aad := aad ++ be_bytes 8 (alg_code (s_alg c)) ++ s_payload c;
  cose_from_tagged_slice bs := Err "UnexpectedItem";
  cose_from_slice bs := ok_or (thaw bs ≫= s_of) "UnexpectedItem";
  cose_to_vec c := Ok (freeze (s_to c));
  cose_builder a p := {| s_alg := a; s_payload := p; s_signature := [] |};
  cose_set_signature s c := {| s_alg := s_alg c; s_payload := s_payload c; s_signature := s |};
|}.
#[export] Instance coset_laws : CosetLaws.
Proof.
  split. intros alg p sig.
  set (c := {| s_alg := alg; s_payload := p; s_signature := sig |}).
  exists (freeze (s_to c)), c. split; [done|]. split; [cbn; eauto|].
  split; [|done]. unfold cose_from_slice, coset_crate. rewrite thaw_freeze.
  cbn -[s_of s_to]. by rewrite s_of_to.
Qed.

Definition sig96 : Type := { bs : bytes | length bs = 96%nat }.
Definition sig96_of (bs : bytes) : option sig96 :=
  match decide (length bs = 96%nat) with left H => Some (bs ↾ H) | right _ => None end.
Definition p384_toy (vk m : bytes) : sig96 := pad_to 96 (vk ++ toy_digest m) ↾ pad_to_length 96 _.

#[export] Instance p384_crate : P384Crate := {|
  p384_sk := bytes; p384_vk := bytes; p384_sig := sig96;
  p384_from_sec1 bs := if bool_decide (length bs = 49%nat) then Some bs else None;
  p384_sig_from_slice := sig96_of;
  p384_sig_from_der := sig96_of;
  p384_verify vk m s := bool_decide (`s = pad_to 96 (vk ++ toy_digest m));
  p384_sign sk m := p384_toy (pad_to 49 sk) m;
  p384_sig_bytes s := `s;
  p384_public sk := pad_to 49 sk;
|}.
#[export] Instance p384_laws : P384Laws.
Proof.
  split; cbn -[pad_to toy_digest].
  - intros [bs H]. done.
  - intros [bs H]. unfold sig96_of. destruct (decide _); [|done]. do 2 f_equal. apply proof_irrel.
  - intros k m. by apply bool_decide_eq_true.
Qed.

(** A certificate: issuer, subject, key, validity and signature, behind 32
    bytes of header. *)
Record cert := {
  c_issuer : string; c_subject : string; c_key : bytes;
  c_not_before : Z; c_not_after : Z; c_signature : bytes }.

Definition cert_to (c : cert) : string * string * bytes * Z * Z * bytes :=
  (c_issuer c, c_subject c, c_key c, c_not_before c, c_not_after c, c_signature c).
Definition cert_of (t : string * string * bytes * Z * Z * bytes) : cert :=
  let '(i, s, k, nb, na, sig) := t in
  {| c_issuer := i; c_subject := s; c_key := k; c_not_before := nb; c_not_after := na; c_signature := sig |}.
Definition cert_der (c : cert) : bytes := replicate 32 x30 ++ freeze (cert_to c).
Definition cert_tbs (c : cert) : bytes :=
  freeze (c_issuer c, c_subject c, c_key c, c_not_before c, c_not_after c).

(** The certificate its issuer's key signs. *)
Definition issue (issuer_key : bytes) (i s : string) (key : bytes) (nb na : Z) : cert :=
  let c := {| c_issuer := i; c_subject := s; c_key := key; c_not_before := nb; c_not_after := na;
              c_signature := [] |} in
  {| c_issuer := i; c_subject := s; c_key := key; c_not_before := nb; c_not_after := na;
     c_signature := p384_sig_bytes (p384_sign issuer_key (cert_tbs c)) |}.

#[export] Instance x509_crate : X509Crate := {|
  Certificate := cert;
  X509Name := string;
  cert_from_der bs :=
    if bool_decide (take 32 bs = replicate 32 x30) then cert_of <$> thaw (drop 32 bs) else None;
  cert_load_pem_chain _ := None;
  cert_to_der c := Some (cert_der c);
  cert_tbs_der c := Some (cert_tbs c);
  cert_issuer := c_issuer;
  cert_subject := c_subject;
  cert_public_key c := Some (c_key c);
  cert_signature c := Some (c_signature c);
  cert_not_before_ms := c_not_before;
  cert_not_after_ms := c_not_after;
|}.

Lemma cert_from_der_enc c : cert_from_der (cert_der c) = Some c.
Proof.
  unfold cert_der. cbn [cert_from_der x509_crate]. rewrite take_app_exact by apply length_replicate.
  rewrite bool_decide_eq_true_2 by done. rewrite drop_app_ge by (rewrite length_replicate; lia).
  rewrite length_replicate, Nat.sub_diag, drop_0, thaw_freeze. cbn. by destruct c.
Qed.

#[export] Instance x509_laws : X509Laws.
Proof.
  split. intros bs c. cbn -[take drop replicate]. case_bool_decide as H; [|done].
  intros Hc. assert (32 ≤ length bs)%nat.
  { apply (f_equal length) in H. rewrite length_take in H. rewrite length_replicate in H. lia. }
  destruct (decide (length bs = 32%nat)) as [Hl|]; [|lia].
  rewrite drop_ge in Hc by lia. done.
Qed.

End ConcreteCodecs.
