(* ===== verification/Shamir.v ===== *)
(** * Shamir: splitting and recombining byte secrets (crate qfc-sss)

    Models [shamir.rs] and [error.rs].  The scalar arithmetic of [vsss-rs] and
    [k256] is the parameter [VsssCrate]; everything the source does around it
    (parameter validation, length prefix, padding loop, chunking, reshaping,
    consistency checks, slicing) is written out, with the slice accesses that
    can panic modelled as [Panics]. *)

From S2P Require Import Prelude External.
#[local] Open Scope string_scope.
#[local] Open Scope list_scope.
#[local] Open Scope Z_scope.

(** [u8] fields. *)
Record ShamirParams := { threshold : Z; total : Z }.
#[export] Instance ShamirParams_eq_dec : EqDecision ShamirParams.
Proof. solve_decision. Defined.

Record ShamirShare := {
  index : Z;
  params : ShamirParams;
  blob : bytes;
}.
#[export] Instance ShamirShare_eq_dec : EqDecision ShamirShare.
Proof. solve_decision. Defined.

Inductive ShareError :=
  | InvalidParameters (threshold total : Z) (reason : string)
  | InvalidSecret (why : string)
  | Vsss (why : string)
  | NotEnoughShares (threshold : Z) (provided : nat)
  | InconsistentShares (why : string).

Definition validate (p : ShamirParams) : result ShareError () :=
  if threshold p <? 2 then
    Err (InvalidParameters (threshold p) (total p)
           "threshold must be >= 2 (a 1-of-N scheme is not secret sharing)")
  else if total p <? threshold p then
    Err (InvalidParameters (threshold p) (total p) "threshold must be <= total")
  else Ok ().

Definition CHUNK_DATA_BYTES : nat := 31.
Definition PER_CHUNK_SHARE_BYTES : nat := 33.
Definition HEADER_BYTES : nat := 4.

(** The loop [while prefixed.len() % CHUNK_DATA_BYTES != 0 { prefixed.push(0) }];
    at most [CHUNK_DATA_BYTES] iterations are ever needed ([pad_loop_done]). *)
Fixpoint pad_loop (fuel : nat) (buf : bytes) : bytes :=
  match fuel with
  | O => buf
  | S fuel =>
      if bool_decide (length buf mod CHUNK_DATA_BYTES = 0)%nat then buf
      else pad_loop fuel (buf ++ [x00])
  end.

(** Slicing with Rust's bounds check. *)
Definition try_slice {A} (start n : nat) (l : list A) : panics (list A) :=
  if bool_decide (start + n ≤ length l)%nat then Returns (slice start n l)
  else Panics "range end index out of range for slice".

Definition try_index {A} (l : list A) (i : nat) : panics A :=
  match l !! i with Some x => Returns x | None => Panics "index out of bounds" end.

Fixpoint map_panics {A B} (f : A → panics B) (l : list A) : panics (list B) :=
  match l with
  | [] => Returns []
  | a :: l => b ← f a; bs ← map_panics f l; mret (b :: bs)
  end.

Section shamir.
Context `{VsssCrate}.

Definition scalar_from_bytes (bs : bytes) : result ShareError Scalar :=
  ok_or (scalar_from_repr bs) (Vsss "chunk exceeds secp256k1 scalar order").

Definition scalar_to_bytes (s : Scalar) : bytes := scalar_to_repr s.

(** One iteration of the chunk loop of [split_secret]; [rng i] is what [OsRng]
    yields for chunk [i]. *)
Definition split_chunk (p : ShamirParams) (prefixed : bytes) (rng : nat → Rng)
    (chunk_idx : nat) : result ShareError (list bytes) :=
  let chunk := slice (chunk_idx * CHUNK_DATA_BYTES) CHUNK_DATA_BYTES prefixed in
  let field_bytes := x00 :: chunk in
  scalar ← scalar_from_bytes field_bytes;
  map_err Vsss (vsss_split (Z.to_nat (threshold p)) (Z.to_nat (total p)) scalar (rng chunk_idx)).

(** One iteration of the reshaping loop. *)
Definition assemble_share (p : ShamirParams) (secret_len : Z)
    (per_chunk_shares : list (list bytes)) (share_idx : nat) : panics ShamirShare :=
  cols ← map_panics (λ chunk_shares, try_index chunk_shares share_idx) per_chunk_shares;
  if bool_decide (share_idx + 1 ≤ 255)%nat then
    mret {| index := Z.of_nat (share_idx + 1); params := p;
            blob := be_bytes HEADER_BYTES secret_len ++ concat cols |}
  else Panics "called `Result::unwrap()` on an `Err` value".

Definition split_secret (secret : bytes) (p : ShamirParams) (rng : nat → Rng)
    : panics (result ShareError (list ShamirShare)) :=
  match validate p with
  | Err e => Returns (Err e)
  | Ok _ =>
      if bool_decide (secret = []) then
        Returns (Err (InvalidSecret "secret must not be empty"))
      else if u32_max <? Z.of_nat (length secret) then
        Returns (Err (InvalidSecret "secret length exceeds 2^32"))
      else
        let secret_len := Z.of_nat (length secret) in
        let prefixed :=
          pad_loop CHUNK_DATA_BYTES (be_bytes HEADER_BYTES secret_len ++ secret) in
        let chunk_count := (length prefixed / CHUNK_DATA_BYTES)%nat in
        match map_result (split_chunk p prefixed rng) (seq 0 chunk_count) with
        | Err e => Returns (Err e)
        | Ok per_chunk_shares =>
            output ← map_panics (assemble_share p secret_len per_chunk_shares)
                       (seq 0 (Z.to_nat (total p)));
            Returns (Ok output)
        end
  end.

(** One iteration of the chunk loop of [combine_shares]. *)
Definition combine_chunk (shares : list ShamirShare) (chunk_idx : nat)
    : panics (result ShareError bytes) :=
  let offset := (HEADER_BYTES + chunk_idx * PER_CHUNK_SHARE_BYTES)%nat in
  chunk_shares ← map_panics (λ s, try_slice offset PER_CHUNK_SHARE_BYTES (blob s)) shares;
  Returns (match vsss_combine chunk_shares with
           | Ok scalar => Ok (drop 1 (scalar_to_bytes scalar))
           | Err e => Err (Vsss e)
           end).

Fixpoint combine_chunks (shares : list ShamirShare) (idxs : list nat)
    : panics (result ShareError bytes) :=
  match idxs with
  | [] => Returns (Ok [])
  | i :: idxs =>
      r ← combine_chunk shares i;
      match r with
      | Err e => Returns (Err e)
      | Ok chunk =>
          rest ← combine_chunks shares idxs;
          Returns (match rest with Ok tail => Ok (chunk ++ tail) | Err e => Err e end)
      end
  end.

(** The last third of [combine_shares]: compare the recovered header with the
    shares' header and strip prefix and padding. *)
Definition finish_combine (secret_len : nat) (recovered : bytes)
    : panics (result ShareError bytes) :=
  if bool_decide (length recovered < secret_len)%nat then
    Returns (Err (InconsistentShares "recovered shorter than declared"))
  else
    header ← try_slice 0 HEADER_BYTES recovered;
    if negb (bool_decide (Z.to_nat (be_value header) = secret_len)) then
      Returns (Err (InconsistentShares "header mismatch on reconstruction"))
    else if bool_decide (length recovered < HEADER_BYTES + secret_len)%nat then
      Returns (Err (InconsistentShares "recovered buffer too small for declared length"))
    else Returns (Ok (slice HEADER_BYTES secret_len recovered)).

Definition combine_shares (shares : list ShamirShare) : panics (result ShareError bytes) :=
  match shares with
  | [] => Returns (Err (NotEnoughShares 1 0))
  | first :: _ =>
      let p := params first in
      let indices := dedup (merge_sort Z.le (index <$> shares)) in
      if Z.of_nat (length shares) <? threshold p then
        Returns (Err (NotEnoughShares (threshold p) (length shares)))
      else if any (λ s, negb (bool_decide (params s = p))) shares then
        Returns (Err (InconsistentShares "parameters mismatch"))
      else if negb (bool_decide (length indices = length shares)) then
        Returns (Err (InconsistentShares "duplicate share indices"))
      else if bool_decide (length (blob first) < HEADER_BYTES)%nat then
        Returns (Err (InconsistentShares "share blob too short"))
      else
        let secret_len := Z.to_nat (be_value (take HEADER_BYTES (blob first))) in
        let body_len := (length (blob first) - HEADER_BYTES)%nat in
        if negb (bool_decide (body_len mod PER_CHUNK_SHARE_BYTES = 0)%nat) then
          Returns (Err (InconsistentShares "share blob size invariant"))
        else
          let chunk_count := (body_len / PER_CHUNK_SHARE_BYTES)%nat in
          if any (λ s, negb (bool_decide (length (blob s) = length (blob first)))) shares then
            Returns (Err (InconsistentShares "share blob length mismatch"))
          else
            r ← combine_chunks shares (seq 0 chunk_count);
            match r with
            | Err e => Returns (Err e)
            | Ok recovered => finish_combine secret_len recovered
            end
  end.

End shamir.

(** ** Lemmas *)

Lemma map_panics_returns {A B} (f : A → panics B) l bs :
  Forall2 (λ a b, f a = Returns b) l bs → map_panics f l = Returns bs.
Proof. induction 1 as [|a b l bs Hab _ IH]; cbn; [done|]. by rewrite Hab, IH. Qed.

Lemma map_panics_returns_inv {A B} (f : A → panics B) l bs :
  map_panics f l = Returns bs → Forall2 (λ a b, f a = Returns b) l bs.
Proof.
  revert bs. induction l as [|a l IH]; intros bs; cbn; [intros [= <-]; constructor|].
  destruct (f a) as [b|] eqn:Hb; cbn; [|done].
  destruct (map_panics f l) as [bs'|]; cbn; [|done].
  intros [= <-]. constructor; auto.
Qed.

Lemma try_index_returns {A} (l : list A) i x : try_index l i = Returns x ↔ l !! i = Some x.
Proof. unfold try_index. destruct (l !! i); naive_solver. Qed.

Lemma try_slice_returns {A} start n (l : list A) :
  (start + n ≤ length l)%nat → try_slice start n l = Returns (slice start n l).
Proof. intros. unfold try_slice. by rewrite bool_decide_eq_true_2. Qed.

Lemma pad_loop_spec fuel buf k :
  ((length buf + k) mod 31 = 0)%nat → (k < 31)%nat → (k ≤ fuel)%nat →
  (∀ j, (j < k)%nat → ((length buf + j) mod 31 ≠ 0)%nat) →
  pad_loop fuel buf = buf ++ replicate k x00.
Proof.
  revert buf k. induction fuel as [|fuel IH]; intros buf k Hk Hlt Hf Hj; cbn [pad_loop].
  { replace k with 0%nat by lia. by rewrite app_nil_r. }
  unfold CHUNK_DATA_BYTES. case_bool_decide as H0.
  - destruct k as [|k]; [by rewrite app_nil_r|].
    exfalso. apply (Hj 0%nat); [lia|]. by rewrite Nat.add_0_r.
  - destruct k as [|k].
    { rewrite Nat.add_0_r in Hk. done. }
    rewrite (IH _ k).
    + by rewrite <-app_assoc.
    + rewrite length_app. cbn. by rewrite <-Nat.add_assoc.
    + lia.
    + lia.
    + intros j Hj'. rewrite length_app. cbn. rewrite <-Nat.add_assoc. apply Hj. lia.
Qed.

(** The padding loop ends within its fuel, with a multiple of the chunk size. *)
Lemma pad_loop_done buf :
  ∃ k, (k < 31)%nat ∧ pad_loop CHUNK_DATA_BYTES buf = buf ++ replicate k x00
       ∧ ((length buf + k) mod 31 = 0)%nat.
Proof.
  set (n := length buf). pose proof (Nat.mod_upper_bound n 31).
  pose proof (Nat.div_mod n 31) as Hdm.
  exists (if decide (n mod 31 = 0)%nat then 0 else 31 - n mod 31)%nat.
  assert (∀ j, (j < 31)%nat → (n + j) mod 31 = ((n mod 31 + j) mod 31))%nat as Hj.
  { intros j _. by rewrite Nat.Div0.add_mod_idemp_l. }
  assert ((n + (if decide (n mod 31 = 0)%nat then 0 else 31 - n mod 31)) mod 31 = 0)%nat as Hz.
  { case_decide as Hd; [by rewrite Nat.add_0_r|]. rewrite Hj by lia.
    replace (n mod 31 + (31 - n mod 31))%nat with 31%nat by lia. done. }
  split; [case_decide; lia|]. split; [|done].
  apply pad_loop_spec; [done|case_decide; lia|unfold CHUNK_DATA_BYTES; case_decide; lia|].
  intros j. fold n. case_decide as Hd; [lia|]. intros Hlt. rewrite Hj by lia.
  rewrite Nat.mod_small by lia. lia.
Qed.

Lemma be_value_high_zero bs : length bs = 31%nat → be_value (x00 :: bs) < secp256k1_order.
Proof.
  intros Hl. rewrite be_value_cons. pose proof (be_value_bound bs) as Hb.
  rewrite Hl in *. change (byte_val x00) with 0.
  assert (256 ^ Z.of_nat 31 < secp256k1_order) by (vm_compute; reflexivity). lia.
Qed.

Section round_trip.
Context `{VsssCrate} `{!VsssLaws}.

(** Valid parameters, as the [u8] fields carry them. *)
Definition params_ok (p : ShamirParams) : Prop := 2 ≤ threshold p ≤ total p ∧ total p ≤ 255.

Lemma validate_ok p u : validate p = Ok u → 2 ≤ threshold p ≤ total p.
Proof.
  unfold validate. destruct (Z.ltb_spec (threshold p) 2); [done|].
  destruct (Z.ltb_spec (total p) (threshold p)); [done|]. lia.
Qed.

Lemma params_ok_validate p : params_ok p → validate p = Ok ().
Proof.
  intros Hp. unfold params_ok, validate in *.
  rewrite (proj2 (Z.ltb_ge _ 2)), (proj2 (Z.ltb_ge (total p) _)) by lia. done.
Qed.

(** What one chunk's sharing must look like for [combine_chunk] to recover it. *)
Definition chunk_shared (p : ShamirParams) (chunk : bytes) (col : list bytes) : Prop :=
  length col = Z.to_nat (total p) ∧ Forall (λ sh, length sh = PER_CHUNK_SHARE_BYTES) col ∧
  ∀ sel, NoDup sel → Forall (λ i, (i < Z.to_nat (total p))%nat) sel →
    (Z.to_nat (threshold p) ≤ length sel)%nat →
    ∃ s, vsss_combine (pick col sel) = Ok s ∧ drop 1 (scalar_to_bytes s) = chunk.

Lemma split_chunk_shared p prefixed rng i :
  params_ok p → length (slice (i * 31) 31 prefixed) = 31%nat →
  ∃ col, split_chunk p prefixed rng i = Ok col
         ∧ chunk_shared p (slice (i * 31) 31 prefixed) col.
Proof.
  intros Hp Hl. unfold split_chunk, CHUNK_DATA_BYTES.
  set (chunk := slice (i * 31) 31 prefixed) in *.
  destruct (scalar_repr (x00 :: chunk)) as (s & Hs & Hrepr).
  { cbn. by rewrite Hl. } { by apply be_value_high_zero. }
  unfold params_ok in Hp.
  destruct (vsss_split_ok (Z.to_nat (threshold p)) (Z.to_nat (total p)) s (rng i))
    as (col & Hcol & Hlen & Hshs); [lia|lia|].
  exists col. unfold scalar_from_bytes. rewrite Hs. cbn. rewrite Hcol. split; [done|].
  split; [done|]. split; [done|]. intros sel Hnd Hsel Ht. exists s. split.
  - eapply vsss_combine_split; [| |done|done|done|done]; lia.
  - unfold scalar_to_bytes. by rewrite Hrepr.
Qed.

Lemma split_chunks_shared p prefixed rng m :
  params_ok p → length prefixed = (m * 31)%nat →
  ∃ cols, map_result (split_chunk p prefixed rng) (seq 0 m) = Ok cols
          ∧ Forall2 (chunk_shared p) ((λ i, slice (i * 31) 31 prefixed) <$> seq 0 m) cols.
Proof.
  intros Hp Hl.
  assert (Forall (λ i, (i < m)%nat) (seq 0 m)) as Hseq.
  { apply Forall_forall. intros i. rewrite elem_of_seq. lia. }
  induction Hseq as [|i l Hi _ (cols & Hcols & Hsh)]; [exists []; by repeat constructor|].
  destruct (split_chunk_shared p prefixed rng i Hp) as (col & Hcol & Hc).
  { unfold slice. rewrite length_take, length_drop. nia. }
  exists (col :: cols). cbn. rewrite Hcol. cbn. rewrite Hcols. split; [done|].
  by constructor.
Qed.

(** The share assembled for position [i]. *)
Definition share_at (p : ShamirParams) (secret_len : Z) (cols : list (list bytes)) (i : nat)
    : ShamirShare :=
  {| index := Z.of_nat (i + 1); params := p;
     blob := be_bytes HEADER_BYTES secret_len ++ concat ((λ col, default [] (col !! i)) <$> cols) |}.

Lemma assemble_share_at p secret_len chunks cols i :
  params_ok p → Forall2 (chunk_shared p) chunks cols → (i < Z.to_nat (total p))%nat →
  assemble_share p secret_len cols i = Returns (share_at p secret_len cols i).
Proof.
  intros Hp Hcols Hi. unfold assemble_share.
  rewrite (map_panics_returns _ _ ((λ col, default [] (col !! i)) <$> cols)).
  - cbn. rewrite bool_decide_eq_true_2; [done|]. unfold params_ok in Hp. lia.
  - induction Hcols as [|chunk col chunks cols (Hl & _ & _) _ IH]; cbn; constructor; [|done].
    apply try_index_returns. destruct (lookup_lt_is_Some_2 col i) as [x Hx]; [lia|].
    by rewrite Hx.
Qed.

Lemma share_columns p chunks cols i :
  Forall2 (chunk_shared p) chunks cols → (i < Z.to_nat (total p))%nat →
  Forall (λ sh, length sh = PER_CHUNK_SHARE_BYTES)
    ((λ col, default [] (col !! i)) <$> cols).
Proof.
  intros Hcols Hi. apply Forall_fmap.
  induction Hcols as [|chunk col chunks cols (Hl & Hf & _) _ IH]; constructor; [|done].
  cbn. destruct (lookup_lt_is_Some_2 col i) as [x Hx]; [lia|]. rewrite Hx. cbn.
  rewrite Forall_forall in Hf. by eapply Hf, list_elem_of_lookup_2.
Qed.

Lemma share_at_blob_length p secret_len chunks cols i :
  Forall2 (chunk_shared p) chunks cols → (i < Z.to_nat (total p))%nat →
  length (blob (share_at p secret_len cols i))
  = (HEADER_BYTES + length chunks * PER_CHUNK_SHARE_BYTES)%nat.
Proof.
  intros Hcols Hi. unfold share_at; cbn [blob]. rewrite length_app, length_be_bytes.
  rewrite (concat_length_const PER_CHUNK_SHARE_BYTES) by (by eapply share_columns).
  by rewrite length_fmap, (Forall2_length _ _ _ Hcols).
Qed.

(** Every share's slice for chunk [c] is that participant's share of chunk [c]. *)
Lemma share_at_slice p secret_len chunks cols i c col :
  Forall2 (chunk_shared p) chunks cols → (i < Z.to_nat (total p))%nat →
  cols !! c = Some col →
  try_slice (HEADER_BYTES + c * PER_CHUNK_SHARE_BYTES) PER_CHUNK_SHARE_BYTES
    (blob (share_at p secret_len cols i)) = Returns (default [] (col !! i)).
Proof.
  intros Hcols Hi Hc. pose proof (lookup_lt_Some _ _ _ Hc).
  rewrite try_slice_returns.
  - f_equal. unfold share_at; cbn [blob]. unfold slice.
    rewrite drop_app_ge by (rewrite length_be_bytes; lia).
    rewrite length_be_bytes.
    replace (HEADER_BYTES + c * PER_CHUNK_SHARE_BYTES - HEADER_BYTES)%nat
      with (c * PER_CHUNK_SHARE_BYTES)%nat by lia.
    apply (slice_concat PER_CHUNK_SHARE_BYTES); [by eapply share_columns|].
    by rewrite list_lookup_fmap, Hc.
  - erewrite share_at_blob_length by done. rewrite (Forall2_length _ _ _ Hcols). nia.
Qed.

Lemma combine_chunk_shared p secret_len chunks cols sel c chunk :
  Forall2 (chunk_shared p) chunks cols → chunks !! c = Some chunk →
  NoDup sel → Forall (λ i, (i < Z.to_nat (total p))%nat) sel →
  (Z.to_nat (threshold p) ≤ length sel)%nat →
  combine_chunk (share_at p secret_len cols <$> sel) c = Returns (Ok chunk).
Proof.
  intros Hcols Hc Hnd Hsel Ht.
  destruct (Forall2_lookup_l _ _ _ _ _ Hcols Hc) as (col & Hcol & Hl & Hf & Hcomb).
  destruct (Hcomb sel Hnd Hsel Ht) as (s & Hs & Hdrop).
  unfold combine_chunk. rewrite (map_panics_returns _ _ (pick col sel)).
  { cbn. rewrite Hs. by rewrite Hdrop. }
  clear Hs Hcomb Hnd Ht. induction Hsel as [|i sel Hi _ IH]; [constructor|].
  destruct (lookup_lt_is_Some_2 col i) as [x Hx]; [lia|].
  replace (pick col (i :: sel)) with (x :: pick col sel) by (unfold pick; cbn; by rewrite Hx).
  constructor; [|exact IH]. erewrite share_at_slice by done. by rewrite Hx.
Qed.

Lemma combine_chunks_shared p secret_len chunks cols sel :
  Forall2 (chunk_shared p) chunks cols →
  NoDup sel → Forall (λ i, (i < Z.to_nat (total p))%nat) sel →
  (Z.to_nat (threshold p) ≤ length sel)%nat →
  combine_chunks (share_at p secret_len cols <$> sel) (seq 0 (length chunks))
  = Returns (Ok (concat chunks)).
Proof.
  intros Hcols Hnd Hsel Ht.
  assert (∀ l k, drop k chunks = l →
    combine_chunks (share_at p secret_len cols <$> sel) (seq k (length l))
    = Returns (Ok (concat l))) as Hgen.
  { induction l as [|chunk l IH]; intros k Hk; cbn; [done|].
    assert (chunks !! k = Some chunk) as Hc.
    { rewrite <-(Nat.add_0_r k), <-lookup_drop, Hk. done. }
    erewrite combine_chunk_shared by done. cbn.
    rewrite IH; [done|]. rewrite <-Nat.add_1_r, <-drop_drop, Hk. done. }
  by apply Hgen.
Qed.

Lemma finish_combine_ok secret pad :
  Z.of_nat (length secret) ≤ u32_max →
  finish_combine (length secret)
    (be_bytes HEADER_BYTES (Z.of_nat (length secret)) ++ secret ++ replicate pad x00)
  = Returns (Ok secret).
Proof.
  intros Hlen. unfold finish_combine.
  assert (∀ z, length (be_bytes HEADER_BYTES z) = HEADER_BYTES) as Hb
    by (intros; apply length_be_bytes).
  rewrite bool_decide_eq_false_2 by (rewrite !length_app, Hb; lia).
  rewrite try_slice_returns by (rewrite !length_app, Hb; lia). cbn [mbind panics_bind].
  rewrite slice_prefix by apply Hb.
  rewrite be_value_bytes_small by (unfold u32_max, HEADER_BYTES in *; cbn; lia).
  rewrite Nat2Z.id, bool_decide_eq_true_2 by done. cbn [negb].
  rewrite bool_decide_eq_false_2 by (rewrite !length_app, Hb; lia).
  by rewrite slice_middle.
Qed.

(** [split_secret] on an acceptable input: the columns it computes, and the
    shares it assembles from them. *)
Lemma split_secret_shares secret p rng :
  params_ok p → secret ≠ [] → Z.of_nat (length secret) ≤ u32_max →
  ∃ pad chunks cols,
    (pad < 31)%nat ∧ (length chunks * 31 = 4 + length secret + pad)%nat ∧
    Forall2 (chunk_shared p) chunks cols ∧
    concat chunks = be_bytes HEADER_BYTES (Z.of_nat (length secret)) ++ secret
                    ++ replicate pad x00 ∧
    split_secret secret p rng
    = Returns (Ok (share_at p (Z.of_nat (length secret)) cols <$> seq 0 (Z.to_nat (total p)))).
Proof.
  intros Hp Hne Hlen. unfold split_secret.
  rewrite params_ok_validate, bool_decide_eq_false_2 by done.
  rewrite (proj2 (Z.ltb_ge u32_max _)) by lia.
  set (buf := be_bytes HEADER_BYTES (Z.of_nat (length secret)) ++ secret).
  destruct (pad_loop_done buf) as (pad & Hpad & -> & Hmod).
  set (prefixed := buf ++ replicate pad x00). unfold CHUNK_DATA_BYTES.
  assert (length prefixed = (length prefixed / 31 * 31))%nat as Hdiv.
  { unfold prefixed in *. rewrite length_app, length_replicate.
    rewrite (Nat.div_mod (length buf + pad) 31) at 1 by lia. rewrite Hmod. lia. }
  destruct (split_chunks_shared p prefixed rng (length prefixed / 31) Hp Hdiv)
    as (cols & Hcols & Hsh).
  rewrite Hcols.
  exists pad, ((λ i, slice (i * 31) 31 prefixed) <$> seq 0 (length prefixed / 31)), cols.
  split; [done|]. split.
  { rewrite length_fmap, length_seq, <-Hdiv. unfold prefixed, buf.
    rewrite !length_app, length_be_bytes, length_replicate. unfold HEADER_BYTES. lia. }
  split; [done|]. split.
  { rewrite concat_slices by done. unfold prefixed, buf. by rewrite <-app_assoc. }
  rewrite (map_panics_returns _ _
    (share_at p (Z.of_nat (length secret)) cols <$> seq 0 (Z.to_nat (total p)))); [done|].
  apply Forall2_fmap_r, Forall_Forall2_diag, Forall_forall. intros i Hi%elem_of_seq.
  eapply assemble_share_at; [done|done|lia].
Qed.

Lemma pick_shares p secret_len cols n sel :
  Forall (λ i, (i < n)%nat) sel →
  pick (share_at p secret_len cols <$> seq 0 n) sel = share_at p secret_len cols <$> sel.
Proof.
  induction 1 as [|i sel Hi _ IH]; [done|]. unfold pick in *; cbn.
  rewrite list_lookup_fmap, lookup_seq_lt by done. cbn. by rewrite IH.
Qed.

(** [combine_shares] on distinct positions of one sharing. *)
Lemma combine_shares_at p secret pad chunks cols sel :
  params_ok p → Z.of_nat (length secret) ≤ u32_max →
  Forall2 (chunk_shared p) chunks cols →
  concat chunks = be_bytes HEADER_BYTES (Z.of_nat (length secret)) ++ secret
                  ++ replicate pad x00 →
  NoDup sel → Forall (λ i, (i < Z.to_nat (total p))%nat) sel →
  (Z.to_nat (threshold p) ≤ length sel)%nat →
  combine_shares (share_at p (Z.of_nat (length secret)) cols <$> sel) = Returns (Ok secret).
Proof.
  intros Hp Hlen Hcols Hconc Hnd Hsel Ht.
  set (sl := Z.of_nat (length secret)) in *.
  assert (∀ s, s ∈ share_at p sl cols <$> sel → params s = p ∧
    length (blob s) = (HEADER_BYTES + length chunks * PER_CHUNK_SHARE_BYTES)%nat) as Hall.
  { intros s (i & -> & Hi)%list_elem_of_fmap. split; [done|].
    rewrite Forall_forall in Hsel. eapply share_at_blob_length; [done|]. by apply Hsel. }
  assert (NoDup (index <$> (share_at p sl cols <$> sel))) as Hidx.
  { rewrite <-list_fmap_compose. apply NoDup_fmap_2; [|done]. intros i j H1. cbn in H1. lia. }
  assert (∀ s, s ∈ share_at p sl cols <$> sel →
    take HEADER_BYTES (blob s) = be_bytes HEADER_BYTES sl) as Hhead.
  { intros s (i & -> & Hi)%list_elem_of_fmap. unfold share_at; cbn [blob].
    apply take_app_exact, length_be_bytes. }
  pose proof (combine_chunks_shared p sl chunks cols sel Hcols Hnd Hsel Ht) as Hchunks.
  pose proof (length_fmap (share_at p sl cols) sel) as Hn.
  set (shares := share_at p sl cols <$> sel) in *. clearbody shares.
  destruct shares as [|first rest]; [unfold params_ok in Hp; cbn in Hn; lia|].
  unfold combine_shares. destruct (Hall first) as [-> ->]; [by left|].
  rewrite (proj2 (Z.ltb_ge _ (threshold p))) by (unfold params_ok in Hp; lia).
  rewrite (proj2 (any_false _ _)) by (intros s Hs; destruct (Hall s Hs) as [-> _];
    by rewrite bool_decide_eq_true_2).
  rewrite (bool_decide_eq_true_2 (length (dedup _) = _))
    by (rewrite (proj2 (dedup_sort_length _)) by done; by rewrite length_fmap).
  cbn [negb]. rewrite bool_decide_eq_false_2 by lia.
  replace (HEADER_BYTES + length chunks * PER_CHUNK_SHARE_BYTES - HEADER_BYTES)%nat
    with (length chunks * PER_CHUNK_SHARE_BYTES)%nat by lia.
  rewrite Nat.Div0.mod_mul, Nat.div_mul by done. rewrite bool_decide_eq_true_2 by done.
  cbn [negb].
  rewrite (proj2 (any_false _ _)) by (intros s Hs; destruct (Hall s Hs) as [_ ->];
    by rewrite bool_decide_eq_true_2).
  rewrite Hchunks, (Hhead first) by (by left). cbn [mbind panics_bind].
  rewrite be_value_bytes_small by (unfold u32_max, HEADER_BYTES, sl in *; cbn; lia).
  unfold sl. rewrite Nat2Z.id, Hconc. by apply finish_combine_ok.
Qed.

Lemma split_secret_ok secret p rng :
  params_ok p → secret ≠ [] → Z.of_nat (length secret) ≤ u32_max →
  ∃ shares, split_secret secret p rng = Returns (Ok shares)
    ∧ length shares = Z.to_nat (total p)
    ∧ index <$> shares = (λ i, Z.of_nat (i + 1)) <$> seq 0 (Z.to_nat (total p))
    ∧ Forall (λ s, params s = p
        ∧ length (blob s) = (4 + (length secret + 4 + 30) / 31 * 33)%nat) shares.
Proof.
  intros Hp Hne Hlen.
  destruct (split_secret_shares secret p rng Hp Hne Hlen) 
    as (pad & chunks & cols & Hpad & Hcount & Hcols & Hconc & ->).
  eexists. split; [done|]. rewrite length_fmap, length_seq. split; [done|]. split.
  { by rewrite <-list_fmap_compose. }
  apply Forall_fmap, Forall_forall. intros i Hi%elem_of_seq. split; [done|]. cbn [compose].
  unfold compose. erewrite share_at_blob_length by (done || lia).
  assert (length chunks = (length secret + 4 + 30) / 31)%nat as ->; [|done].
  apply (Nat.div_unique _ _ _ (30 - pad)%nat); lia.
Qed.

Lemma combine_picked secret p rng shares sel :
  params_ok p → secret ≠ [] → Z.of_nat (length secret) ≤ u32_max →
  split_secret secret p rng = Returns (Ok shares) →
  NoDup sel → Forall (λ i, (i < length shares)%nat) sel →
  threshold p ≤ Z.of_nat (length sel) →
  combine_shares (pick shares sel) = Returns (Ok secret).
Proof.
  intros Hp Hne Hlen Hsplit Hnd Hsel Ht.
  destruct (split_secret_shares secret p rng Hp Hne Hlen)
    as (pad & chunks & cols & _ & _ & Hcols & Hconc & Heq).
  rewrite Heq in Hsplit. injection Hsplit as <-.
  rewrite length_fmap, length_seq in Hsel. rewrite pick_shares by done.
  eapply combine_shares_at; [done..|]. lia.
Qed.

(** *** The interface the enclave relies on *)

Class SecretSharing
    (split : bytes → ShamirParams → (nat → Rng) → panics (result ShareError (list ShamirShare)))
    (combine : list ShamirShare → panics (result ShareError bytes)) : Prop := {
  sharing_split : ∀ secret p rng, params_ok p → secret ≠ [] → Z.of_nat (length secret) ≤ u32_max →
    ∃ shares, split secret p rng = Returns (Ok shares) ∧ length shares = Z.to_nat (total p)
      ∧ NoDup (index <$> shares) ∧ Forall (λ s, params s = p) shares;
  sharing_combine : ∀ secret p rng shares sel,
    params_ok p → secret ≠ [] → Z.of_nat (length secret) ≤ u32_max →
    split secret p rng = Returns (Ok shares) →
    NoDup sel → Forall (λ i, (i < length shares)%nat) sel →
    threshold p ≤ Z.of_nat (length sel) →
    combine (pick shares sel) = Returns (Ok secret);
}.

#[export] Instance shamir_sharing : SecretSharing split_secret combine_shares.
Proof.
  split; [|exact combine_picked]. intros secret p rng Hp Hne Hlen.
  destruct (split_secret_ok secret p rng Hp Hne Hlen) as (shares & Hs & Hl & Hi & Hall).
  exists shares. split; [done|]. split; [done|]. split.
  - rewrite Hi. apply NoDup_fmap_2; [|apply NoDup_seq]. intros i j. lia.
  - eapply Forall_impl; [exact Hall|]. by intros ? [? _].
Qed.

(** *** Theorems *)

(** Splitting any non-empty secret of at most [u32::MAX] bytes with valid
    parameters returns (no error, no panic) exactly [total] shares, numbered
    1 to [total], all carrying the parameters and blobs of one common size. *)
Theorem split_secret_total secret p rng :
  params_ok p → secret ≠ [] → Z.of_nat (length secret) ≤ u32_max →
  ∃ shares, split_secret secret p rng = Returns (Ok shares)
    ∧ length shares = Z.to_nat (total p)
    ∧ index <$> shares = (λ i, Z.of_nat (i + 1)) <$> seq 0 (Z.to_nat (total p))
    ∧ Forall (λ s, params s = p
        ∧ length (blob s) = (4 + (length secret + 4 + 30) / 31 * 33)%nat) shares.
Proof. apply split_secret_ok. Qed.

(** C13. Any selection of at least [threshold] distinct shares of one split, in any
    order, recombines to the secret that was split. *)
Theorem split_combine_round_trip secret p rng shares sel :
  params_ok p → secret ≠ [] → Z.of_nat (length secret) ≤ u32_max →
  split_secret secret p rng = Returns (Ok shares) →
  NoDup sel → Forall (λ i, (i < length shares)%nat) sel →
  threshold p ≤ Z.of_nat (length sel) →
  combine_shares (pick shares sel) = Returns (Ok secret).
Proof. apply combine_picked. Qed.

End round_trip.

(** ** Rejections and panics *)

Section rejections.
Context `{VsssCrate}.

(** [combine_shares] accepts only share sets that are large enough for the
    declared threshold, agree on parameters and blob size, and have pairwise
    distinct indices. *)
Theorem combine_shares_sound shares secret :
  combine_shares shares = Returns (Ok secret) →
  ∃ p n, Forall (λ s, params s = p ∧ length (blob s) = n) shares
    ∧ threshold p ≤ Z.of_nat (length shares)
    ∧ NoDup (index <$> shares)
    ∧ (4 ≤ n)%nat ∧ ((n - 4) mod 33 = 0)%nat.
Proof.
  unfold combine_shares. destruct shares as [|first rest]; [done|].
  set (shares := first :: rest). intros Hc.
  destruct (Z.ltb_spec (Z.of_nat (length shares)) (threshold (params first))); [done|].
  destruct (any _ shares) eqn:Hp in Hc; [done|].
  destruct (negb _) eqn:Hi in Hc; [done|].
  destruct (bool_decide (length (blob first) < HEADER_BYTES)%nat) eqn:Hlen in Hc; [done|].
  apply bool_decide_eq_false in Hlen.
  destruct (negb (bool_decide (((length (blob first) - HEADER_BYTES) mod _)%nat = _))) eqn:Hm in Hc;
    [done|].
  destruct (any (λ s, negb (bool_decide (length (blob s) = _))) shares) eqn:Hb in Hc; [done|].
  exists (params first), (length (blob first)). split_and!.
  - apply Forall_forall. intros s Hs. rewrite any_false in Hp, Hb.
    specialize (Hp s Hs). specialize (Hb s Hs).
    apply negb_false_iff, bool_decide_eq_true in Hp, Hb. done.
  - done.
  - apply negb_false_iff, bool_decide_eq_true in Hi. apply dedup_sort_length.
    by rewrite Hi, length_fmap.
  - unfold HEADER_BYTES in *. lia.
  - by apply negb_false_iff, bool_decide_eq_true in Hm.
Qed.

(** A share whose blob is just a zero length header passes every consistency
    check, and [combine_shares] then slices past the end of the empty
    recovered buffer: it panics instead of returning an error. *)
Theorem combine_shares_panics p i j :
  threshold p = 2 → i ≠ j →
  combine_shares [ {| index := i; params := p; blob := be_bytes 4 0 |};
                   {| index := j; params := p; blob := be_bytes 4 0 |} ]
  = Panics "range end index out of range for slice".
Proof.
  intros Hp Hij. unfold combine_shares. cbn [params length].
  rewrite Hp. cbn [Z.of_nat Z.ltb Z.compare Pos.of_succ_nat Pos.succ Pos.compare Pos.compare_cont].
  rewrite (proj2 (any_false _ _)) by (intros s Hs; apply negb_false_iff, bool_decide_eq_true;
    repeat (apply elem_of_cons in Hs as [->|Hs]; [done|]); by apply not_elem_of_nil in Hs).
  rewrite (bool_decide_eq_true_2 (length (dedup _) = _)).
  - reflexivity.
  - rewrite (proj2 (dedup_sort_length _)); [done|]. cbn.
    apply NoDup_cons. split; [|apply NoDup_singleton]. by rewrite list_elem_of_singleton.
Qed.

End rejections.

(** ** Witnesses *)

Module Witness.
Import Concrete.

Definition rng0 (_ : nat) : @Rng vsss_crate := tt.
Definition p23 : ShamirParams := {| threshold := 2; total := 3 |}.
Definition secret5 : bytes := [x01; x02; x03; x04; x05].
Definition shares5 : list ShamirShare :=
  match split_secret secret5 p23 rng0 with Returns (Ok l) => l | _ => [] end.

Lemma p23_ok : params_ok p23.
Proof. unfold params_ok; cbn; lia. Qed.

Example split_secret_total_witness :
  ∃ shares, split_secret secret5 p23 rng0 = Returns (Ok shares)
    ∧ length shares = 3%nat
    ∧ index <$> shares = (λ i, Z.of_nat (i + 1)) <$> seq 0 3
    ∧ Forall (λ s, params s = p23 ∧ length (blob s) = 37%nat) shares.
Proof.
  apply (split_secret_total secret5 p23 rng0);
    [apply p23_ok|discriminate|vm_compute; discriminate].
Defined.

Example split_combine_round_trip_witness :
  combine_shares (pick shares5 [2%nat; 0%nat]) = Returns (Ok secret5).
Proof.
  apply (split_combine_round_trip secret5 p23 rng0);
    [apply p23_ok|discriminate|vm_compute; discriminate|vm_compute; reflexivity| | |cbn; lia].
  - apply (bool_decide_eq_true_1 _). vm_compute. reflexivity.
  - repeat constructor; apply Nat.ltb_lt; vm_compute; reflexivity.
Defined.

Example combine_shares_sound_witness :
  ∃ p n, Forall (λ s, params s = p ∧ length (blob s) = n) shares5
    ∧ threshold p ≤ Z.of_nat (length shares5)
    ∧ NoDup (index <$> shares5) ∧ (4 ≤ n)%nat ∧ ((n - 4) mod 33 = 0)%nat.
Proof. apply (combine_shares_sound shares5 secret5). vm_compute. reflexivity. Defined.

Example combine_shares_panics_witness :
  combine_shares [ {| index := 1; params := p23; blob := be_bytes 4 0 |};
                   {| index := 2; params := p23; blob := be_bytes 4 0 |} ]
  = Panics "range end index out of range for slice".
Proof. apply combine_shares_panics; [reflexivity|discriminate]. Defined.

End Witness.
