(* ===== verification/PolicyTypes.v ===== *)
(** * PolicyTypes: the data of crate qfc-policy

    Models [request.rs], [decision.rs], [rules.rs], [vm.rs] and the [Policy]
    trait of [policy.rs]. *)

From S2P Require Import Prelude Text Types External.
From Stdlib Require Import Ascii.
#[local] Open Scope string_scope.
#[local] Open Scope list_scope.
#[local] Open Scope Z_scope.

(** ** [request.rs] *)

Inductive Requester :=
  | ApiKey (key_id : string)
  | OAuthSubject (sub : string)
  | NestedWallet (wallet_id : WalletId)
  | OnChainContract (chain_id : Z) (address : bytes).

Inductive VmType := Evm | Qvm | Wasm.
#[export] Instance VmType_eq_dec : EqDecision VmType.
Proof. solve_decision. Defined.

Inductive SigningPayload :=
  | Raw (payload : bytes)
  | PersonalSign (payload : bytes)
  | TypedData (json : Json)
  | VmTransaction (vm : VmType) (chain_id : Z) (to : option bytes) (raw : bytes).

Definition payload_vm (p : SigningPayload) : option VmType :=
  match p with VmTransaction vm _ _ _ => Some vm | _ => None end.

Definition payload_chain_id (p : SigningPayload) : option Z :=
  match p with VmTransaction _ c _ _ => Some c | _ => None end.

Record SigningRequest := {
  request_id : RequestId;
  wallet_id : WalletId;
  requester : Requester;
  payload : SigningPayload;
  hd_path : option HdPath.HdPath;
  received_at_unix_ms : Z;
}.

(** ** [decision.rs] *)

Inductive RuleEffect := EffectAllow | EffectDeny | EffectRequireQuorum.

Record RuleHit := {
  rule_id : string;
  effect : RuleEffect;
  reason : option string;
}.

Inductive DenyReason :=
  | ChainNotAllowed
  | ChainDenied
  | RequesterNotAllowed
  | WalletInactive
  | Other (why : string).

Inductive PolicyDecision :=
  | Allow (decision_id : DecisionId) (policy_id : PolicyId) (rationale : list RuleHit)
  | Deny (decision_id : DecisionId) (policy_id : PolicyId) (reason : DenyReason)
      (rationale : list RuleHit)
  | RequireQuorum (decision_id : DecisionId) (policy_id : PolicyId) (threshold total : Z)
      (approver_set : ApproverSetId) (rationale : list RuleHit).

Definition is_immediate_allow (d : PolicyDecision) : bool :=
  match d with Allow _ _ _ => true | _ => false end.
Definition is_deny (d : PolicyDecision) : bool :=
  match d with Deny _ _ _ _ => true | _ => false end.
Definition requires_quorum (d : PolicyDecision) : bool :=
  match d with RequireQuorum _ _ _ _ _ _ => true | _ => false end.
Definition decision_id (d : PolicyDecision) : DecisionId :=
  match d with Allow i _ _ | Deny i _ _ _ | RequireQuorum i _ _ _ _ _ => i end.

Inductive PolicyError :=
  | Misconfiguration (why : string)
  | Internal (why : string).

(** ** [vm.rs] *)

Record DecodedTx := {
  tx_chain_id : Z;
  tx_to : option bytes;
  tx_value : option Z;
  tx_gas_limit : option Z;
  tx_method_selector : option bytes;
  tx_raw_args : option bytes;
}.

Definition DecodedTx_minimal (chain_id : Z) : DecodedTx := {|
  tx_chain_id := chain_id; tx_to := None; tx_value := None; tx_gas_limit := None;
  tx_method_selector := None; tx_raw_args := None;
|}.

(** The [VmDecoder] trait object: a deterministic, effect-free function. *)
Definition VmDecoder : Type := VmType → bytes → option DecodedTx.

(** ** [rules.rs] *)

Inductive AllowDefault := DefaultAllow | DefaultDeny.

Inductive RateLimitScope := PerWallet | PerRequester | PerWalletRequester.

Inductive QuorumTrigger :=
  | Always
  | ValueGte (chain_id : Z) (value : string)
  | OutsideTimeWindow (weekday_mask hour_utc_start hour_utc_end : Z).

Record VmShapeConstraints := {
  max_gas : option Z;
  allowed_method_selectors : option (list string);
  max_value : option string;
}.

Inductive Rule :=
  | AllowChain (chain_ids : list Z)
  | DenyChain (chain_ids : list Z)
  | AllowContract (chain_id : Z) (addresses : list string)
  | DenyContract (chain_id : Z) (addresses : list string)
  | AllowMethod (chain_id : Z) (contract : option string) (selectors : list string)
  | ValueCap (chain_id : Z) (max_value : string)
  | TimeWindow (weekday_mask hour_utc_start hour_utc_end : Z)
  | RateLimit (tokens refill_per_secs : Z) (scope : RateLimitScope)
  | RuleRequireQuorum (threshold total : Z) (approver_set : ApproverSetId)
      (trigger : QuorumTrigger)
  | VmShape (vm : VmType) (constraints : VmShapeConstraints).

Record RuleSet := {
  version : Z;
  policy_id : PolicyId;
  rules : list Rule;
  default_outcome : AllowDefault;
}.

Definition normalize_hex (s : string) : option string :=
  let stripped :=
    match strip_prefix "0x" s with
    | Some t => t
    | None => match strip_prefix "0X" s with Some t => t | None => s end
    end in
  if bool_decide (stripped = "") || negb (chars_all is_ascii_hexdigit stripped) then None
  else if negb (bool_decide (String.length stripped mod 2 = 0)%nat) then None
  else Some (to_ascii_lowercase stripped).

Section hex.
Context `{HexCrate}.

Definition hex_to_bytes (s : string) : option bytes :=
  match normalize_hex s with Some canonical => hex_decode canonical | None => None end.

(** [address_eq] and [address_in] of [rule_set_policy.rs]. *)
Definition address_eq (addr_hex : string) (to_bytes : bytes) : bool :=
  match normalize_hex addr_hex with
  | None => false
  | Some canonical =>
      match hex_decode canonical with
      | None => false
      | Some bs => bool_decide (bs = to_bytes)
      end
  end.

Definition address_in (addresses : list string) (to_bytes : bytes) : bool :=
  any (λ a, address_eq a to_bytes) addresses.

(** A rule's address matches a target exactly when its normalised text is the
    target's lower-case hexadecimal, whatever its prefix and case. *)
Lemma address_eq_spec `{!HexLaws} a to :
  address_eq a to = true ↔ normalize_hex a = Some (hex_encode to).
Proof.
  unfold address_eq. destruct (normalize_hex a) as [c|] eqn:Hn; [|naive_solver].
  assert (∃ t, c = to_ascii_lowercase t) as [t ->].
  { unfold normalize_hex in Hn. repeat case_match; naive_solver. }
  split.
  - destruct (hex_decode (to_ascii_lowercase t)) as [bs|] eqn:Hd; [|done].
    intros <-%bool_decide_eq_true. f_equal. by apply hex_decode_lower.
  - intros [= ->]. rewrite hex_decode_encode. by apply bool_decide_eq_true.
Qed.

End hex.

(** ** [policy.rs]: the [Policy] trait

    A policy reads the request and its own state and returns a decision.
    [evaluate st clock fresh req] is one call: [fresh] is the [DecisionId] the
    call draws and [clock i] the [i]-th reading of the limiter's clock. *)
Class Policy (S : Type) := {
  policy_evaluate : S → (nat → Z) → DecisionId → SigningRequest →
                    result PolicyError PolicyDecision * S;
}.
