(* ===== verification/F64.v ===== *)
(** * F64: IEEE-754 binary64 arithmetic, as the rate limiter uses it

    [f64] values and operations are those of the Standard Library's executable
    specification [SpecFloat] at precision 53 and maximal exponent 1024
    (round to nearest, ties to even).  The lemmas show that the operations are
    exact on the integers below 2^53, which is what token counts are made of. *)

From S2P Require Import Prelude.
From Stdlib Require Import SpecFloat.
#[local] Open Scope Z_scope.

Definition f64 : Type := spec_float.
Definition f64_prec : Z := 53.
Definition f64_emax : Z := 1024.

Definition f64_add : f64 → f64 → f64 := SFadd f64_prec f64_emax.
Definition f64_sub : f64 → f64 → f64 := SFsub f64_prec f64_emax.
Definition f64_mul : f64 → f64 → f64 := SFmul f64_prec f64_emax.
Definition f64_div : f64 → f64 → f64 := SFdiv f64_prec f64_emax.

(** [f64::from(u32)] and [i64 as f64]: round the integer to the nearest float. *)
Definition f64_of_Z (z : Z) : f64 := binary_normalize f64_prec f64_emax z 0 false.

Definition f64_one : f64 := f64_of_Z 1.
Definition f64_thousand : f64 := f64_of_Z 1000.

(** [a >= b]: false when either side is NaN. *)
Definition f64_ge (a b : f64) : bool :=
  match SFcompare a b with Some (Gt | Eq) => true | _ => false end.

(** [f64::min]: a NaN argument is ignored. *)
Definition f64_min (a b : f64) : f64 :=
  match SFcompare a b with
  | Some Gt => b
  | Some _ => a
  | None => match a with S754_nan => b | _ => a end
  end.

(** ** Exactness on integers *)

Lemma digits2_log2 p : Z.pos (digits2_pos p) = Z.log2 (Z.pos p) + 1.
Proof.
  assert (digits2_pos p = Pos.size p) as -> by (induction p; cbn; congruence).
  destruct p; cbn; lia.
Qed.

Lemma iter_xO p m : Z.pos (Pos.iter xO m p) = Z.pos m * 2 ^ Z.pos p.
Proof.
  revert m. induction p as [|p IH] using Pos.peano_ind; intros m.
  { cbn. lia. }
  rewrite Pos.iter_succ, Pos2Z.inj_succ, Z.pow_succ_r by lia.
  rewrite Pos2Z.inj_xO, IH. lia.
Qed.

Lemma shr_1_double m : 0 < m →
  shr_1 {| shr_m := 2 * m; shr_r := false; shr_s := false |}
  = {| shr_m := m; shr_r := false; shr_s := false |}.
Proof. destruct m; done. Qed.

Lemma shr_iter_exact p m : 0 < m →
  SpecFloat.iter_pos shr_1 p {| shr_m := m * 2 ^ Z.pos p; shr_r := false; shr_s := false |}
  = {| shr_m := m; shr_r := false; shr_s := false |}.
Proof.
  revert m. induction p as [p IH|p IH|]; intros m Hm.
  - assert (2 ^ Z.pos p~1 = 2 * (2 ^ Z.pos p * 2 ^ Z.pos p)) as ->.
    { replace (Z.pos p~1) with (1 + (Z.pos p + Z.pos p)) by lia.
      by rewrite !Z.pow_add_r, Z.pow_1_r by lia. }
    cbn [SpecFloat.iter_pos].
    replace (m * (2 * (2 ^ Z.pos p * 2 ^ Z.pos p)))
      with (2 * (m * 2 ^ Z.pos p * 2 ^ Z.pos p)) by lia.
    assert (0 < m * 2 ^ Z.pos p) by (apply Z.mul_pos_pos; [lia|apply Z.pow_pos_nonneg; lia]).
    rewrite shr_1_double by (apply Z.mul_pos_pos; [lia|apply Z.pow_pos_nonneg; lia]).
    by rewrite !IH by lia.
  - assert (2 ^ Z.pos p~0 = 2 ^ Z.pos p * 2 ^ Z.pos p) as ->.
    { replace (Z.pos p~0) with (Z.pos p + Z.pos p) by lia. by rewrite Z.pow_add_r by lia. }
    cbn [SpecFloat.iter_pos].
    assert (0 < m * 2 ^ Z.pos p) by (apply Z.mul_pos_pos; [lia|apply Z.pow_pos_nonneg; lia]).
    rewrite Z.mul_assoc. by rewrite !IH by lia.
  - rewrite Z.mul_comm. apply shr_1_double. lia.
Qed.

(** The normal form of a positive integer below 2^53. *)
Definition f64_nat (n : Z) : f64 :=
  S754_finite false (Z.to_pos (n * 2 ^ (52 - Z.log2 n))) (Z.log2 n - 52).

Lemma fexp_small L : 0 ≤ L → fexp f64_prec f64_emax (L + 1) = L - 52.
Proof. intros. unfold fexp, emin, f64_prec, f64_emax. lia. Qed.

Lemma log2_scale n k : 0 < n → 0 ≤ k → Z.log2 (n * 2 ^ k) = Z.log2 n + k.
Proof. intros. rewrite <-Z.shiftl_mul_pow2 by lia. rewrite Z.log2_shiftl by lia. lia. Qed.

Lemma shr_fexp_exact M E L n :
  0 < n → L = Z.log2 n → L ≤ 52 → E ≤ L - 52 → M = n * 2 ^ (- E) → 0 ≤ - E →
  shr_fexp f64_prec f64_emax M E loc_Exact
  = ({| shr_m := n * 2 ^ (52 - L); shr_r := false; shr_s := false |}, L - 52)
  ∨ (E = L - 52 ∧ shr_fexp f64_prec f64_emax M E loc_Exact
     = ({| shr_m := n * 2 ^ (52 - L); shr_r := false; shr_s := false |}, E)).
Proof.
  intros Hn HL HL52 HE HM HE0. pose proof (Z.log2_nonneg n).
  assert (0 < M) as HM0.
  { subst M. apply Z.mul_pos_pos; [lia|apply Z.pow_pos_nonneg; lia]. }
  unfold shr_fexp. assert (Zdigits2 M = L + 1 - E) as ->.
  { destruct M as [|p|p]; [lia| |lia]. cbn [Zdigits2]. rewrite digits2_log2, HM.
    rewrite log2_scale by lia. lia. }
  replace (L + 1 - E + E) with (L + 1) by lia. rewrite fexp_small by lia.
  unfold shr_record_of_loc, shr. destruct (L - 52 - E) as [|k|k] eqn:Hk; [|left|lia].
  - right. split; [lia|]. do 2 f_equal. subst M. do 2 f_equal. lia.
  - f_equal; [|lia].
    replace M with (n * 2 ^ (52 - L) * 2 ^ Z.pos k).
    + apply shr_iter_exact, Z.mul_pos_pos; [lia|apply Z.pow_pos_nonneg; lia].
    + rewrite HM, <-Z.mul_assoc, <-Z.pow_add_r by lia. do 2 f_equal. lia.
Qed.

Lemma round_aux_exact M E n :
  0 < n < 2 ^ 53 → E ≤ Z.log2 n - 52 → M = n * 2 ^ (- E) → 0 ≤ - E →
  binary_round_aux f64_prec f64_emax false M E loc_Exact = f64_nat n.
Proof.
  intros Hn HE HM HE0. set (L := Z.log2 n) in *.
  assert (0 ≤ L ≤ 52) as HL.
  { split; [apply Z.log2_nonneg|]. apply Z.lt_succ_r. apply Z.log2_lt_pow2; lia. }
  set (N := n * 2 ^ (52 - L)).
  assert (0 < N) as HN by (apply Z.mul_pos_pos; [lia|apply Z.pow_pos_nonneg; lia]).
  assert (shr_fexp f64_prec f64_emax M E loc_Exact
          = ({| shr_m := N; shr_r := false; shr_s := false |}, L - 52)) as H1.
  { destruct (shr_fexp_exact M E L n) as [H|[H1 H]]; try (done || lia). by rewrite <-H1. }
  assert (shr_fexp f64_prec f64_emax N (L - 52) loc_Exact
          = ({| shr_m := N; shr_r := false; shr_s := false |}, L - 52)) as H2.
  { destruct (shr_fexp_exact N (L - 52) L n) as [H|[_ H]]; try (done || lia).
    unfold N. do 2 f_equal. lia. }
  unfold binary_round_aux. rewrite H1. cbn [shr_m loc_of_shr_record round_nearest_even].
  rewrite H2. cbn [shr_m]. unfold f64_nat. fold L. fold N.
  destruct N as [|p|p]; [lia| |lia].
  rewrite (proj2 (Z.leb_le _ (f64_emax - f64_prec)))
    by (unfold f64_emax, f64_prec; lia). done.
Qed.

Lemma normalize_exact n j :
  0 < n < 2 ^ 53 → 0 ≤ j →
  binary_normalize f64_prec f64_emax (n * 2 ^ j) (- j) false = f64_nat n.
Proof.
  intros Hn Hj. set (L := Z.log2 n).
  assert (0 ≤ L ≤ 52) as HL.
  { split; [apply Z.log2_nonneg|]. apply Z.lt_succ_r. apply Z.log2_lt_pow2; lia. }
  assert (0 < n * 2 ^ j) as Hm by (apply Z.mul_pos_pos; [lia|apply Z.pow_pos_nonneg; lia]).
  destruct (n * 2 ^ j) as [|m|m] eqn:Hmj; [lia| |lia].
  cbn [binary_normalize]. unfold binary_round.
  assert (Z.pos (digits2_pos m) + - j = L + 1) as ->.
  { rewrite digits2_log2, <-Hmj, log2_scale by lia. unfold L. lia. }
  rewrite fexp_small by lia. unfold shl_align.
  destruct (L - 52 - - j) as [|d|d] eqn:Hd.
  - apply round_aux_exact; [done|unfold L in *; lia| |lia]. rewrite <-Hmj. do 2 f_equal. lia.
  - apply round_aux_exact; [done|unfold L in *; lia| |lia]. rewrite <-Hmj. do 2 f_equal. lia.
  - apply round_aux_exact; [done|unfold L in *; lia| |lia].
    rewrite iter_xO, <-Hmj, <-Z.mul_assoc, <-Z.pow_add_r by lia. do 2 f_equal. lia.
Qed.

Lemma f64_of_Z_exact n : 0 < n < 2 ^ 53 → f64_of_Z n = f64_nat n.
Proof.
  intros Hn. unfold f64_of_Z. rewrite <-(normalize_exact n 0) by lia.
  f_equal. rewrite Z.pow_0_r. lia.
Qed.

Lemma f64_one_nat : f64_one = f64_nat 1.
Proof. vm_compute. reflexivity. Qed.

(** Subtracting one is exact. *)
Lemma f64_sub_one n : 0 < n < 2 ^ 53 → f64_sub (f64_of_Z n) f64_one = f64_of_Z (n - 1).
Proof.
  intros Hn. rewrite f64_of_Z_exact, f64_one_nat by done. set (L := Z.log2 n).
  assert (0 ≤ L ≤ 52) as HL.
  { split; [apply Z.log2_nonneg|]. apply Z.lt_succ_r. apply Z.log2_lt_pow2; lia. }
  unfold f64_sub, f64_nat. cbn [SFsub]. fold L. change (Z.log2 1 - 52) with (-52).
  rewrite Z.min_r by lia.
  assert (Z.pos (fst (shl_align (Z.to_pos (n * 2 ^ (52 - L))) (L - 52) (-52))) = n * 2 ^ 52) as Hx.
  { assert (0 < n * 2 ^ (52 - L)) by (apply Z.mul_pos_pos; [lia|apply Z.pow_pos_nonneg; lia]).
    unfold shl_align. destruct (-52 - (L - 52)) as [|d|d] eqn:Hd; cbn [fst]; [|lia|].
    - rewrite Z2Pos.id by lia. do 2 f_equal. lia.
    - rewrite iter_xO, Z2Pos.id by lia. rewrite <-Z.mul_assoc, <-Z.pow_add_r by lia.
      do 2 f_equal. lia. }
  assert (Z.pos (fst (shl_align (Z.to_pos (1 * 2 ^ (52 - Z.log2 1))) (-52) (-52))) = 2 ^ 52) as Hy
    by (vm_compute; reflexivity).
  rewrite Hx, Hy. cbn [cond_Zopp].
  replace (n * 2 ^ 52 - 2 ^ 52) with ((n - 1) * 2 ^ 52) by lia.
  destruct (decide (n = 1)) as [->|]; [done|].
  rewrite f64_of_Z_exact by lia. apply (normalize_exact (n - 1) 52); lia.
Qed.

Lemma Zmult_compare_scale a b c : 0 < c → (a * c ?= b * c) = (a ?= b).
Proof.
  intros Hc. destruct (Z.compare_spec a b) as [->|H|H].
  - apply Z.compare_refl.
  - apply Z.compare_lt_iff. by apply Z.mul_lt_mono_pos_r.
  - apply Z.compare_gt_iff. by apply Z.mul_lt_mono_pos_r.
Qed.

Lemma f64_nat_compare n m :
  0 < n < 2 ^ 53 → 0 < m < 2 ^ 53 → SFcompare (f64_nat n) (f64_nat m) = Some (n ?= m).
Proof.
  intros Hn Hm. unfold f64_nat. cbn [SFcompare]. f_equal.
  assert (0 < n * 2 ^ (52 - Z.log2 n)).
  { apply Z.mul_pos_pos; [lia|]. apply Z.pow_pos_nonneg; [lia|].
    assert (Z.log2 n < 53) by (apply Z.log2_lt_pow2; lia). lia. }
  assert (0 < m * 2 ^ (52 - Z.log2 m)).
  { apply Z.mul_pos_pos; [lia|]. apply Z.pow_pos_nonneg; [lia|].
    assert (Z.log2 m < 53) by (apply Z.log2_lt_pow2; lia). lia. }
  destruct (Z.compare_spec (Z.log2 n - 52) (Z.log2 m - 52)) as [He|He|He].
  - assert (Z.log2 n = Z.log2 m) as HL by lia.
    change (Pos.compare_cont Eq ?a ?b) with (Pos.compare a b).
    rewrite Pos2Z.inj_compare, !Z2Pos.id by lia. rewrite HL.
    apply Zmult_compare_scale.
    assert (Z.log2 m < 53) by (apply Z.log2_lt_pow2; lia). apply Z.pow_pos_nonneg; lia.
  - symmetry. apply Z.compare_lt_iff. destruct (Z.lt_ge_cases n m); [done|].
    pose proof (Z.log2_le_mono m n). lia.
  - symmetry. apply Z.compare_gt_iff. destruct (Z.lt_ge_cases m n); [done|].
    pose proof (Z.log2_le_mono n m). lia.
Qed.

Lemma f64_of_Z_compare n m :
  0 ≤ n < 2 ^ 53 → 0 ≤ m < 2 ^ 53 →
  SFcompare (f64_of_Z n) (f64_of_Z m) = Some (n ?= m).
Proof.
  intros Hn Hm. destruct (decide (n = 0)) as [->|], (decide (m = 0)) as [->|].
  - done.
  - rewrite (f64_of_Z_exact m) by lia. cbn. destruct m; [done|done|lia].
  - rewrite (f64_of_Z_exact n) by lia. cbn. destruct n; [done|done|lia].
  - rewrite !f64_of_Z_exact by lia. apply f64_nat_compare; lia.
Qed.

Lemma f64_ge_one n : 0 ≤ n < 2 ^ 53 → f64_ge (f64_of_Z n) f64_one = (1 <=? n).
Proof.
  intros Hn. unfold f64_ge, f64_one. rewrite f64_of_Z_compare by lia.
  destruct (Z.compare_spec n 1), (Z.leb_spec 1 n); (done || lia).
Qed.

Lemma f64_min_le n m :
  0 ≤ n ≤ m → m < 2 ^ 53 → f64_min (f64_of_Z n) (f64_of_Z m) = f64_of_Z n.
Proof.
  intros Hn Hm. unfold f64_min. rewrite f64_of_Z_compare by lia.
  destruct (Z.compare_spec n m); (done || lia).
Qed.

(** Adding zero changes no integer. *)
Lemma f64_add_zero n : 0 ≤ n < 2 ^ 53 → f64_add (f64_of_Z n) (S754_zero false) = f64_of_Z n.
Proof.
  intros Hn. destruct (decide (n = 0)) as [->|]; [done|].
  by rewrite f64_of_Z_exact by lia.
Qed.

(** ** The reciprocal of an integer is a finite number *)

Definition f64_finite (x : f64) : Prop :=
  match x with S754_zero false | S754_finite false _ _ => True | _ => False end.

Lemma shr_1_bound mrs : 0 ≤ shr_m mrs → 0 ≤ shr_m (shr_1 mrs) ≤ shr_m mrs.
Proof. destruct mrs as [[|[p|p|]|p] r s]; cbn; lia. Qed.

Lemma shr_iter_bound p mrs :
  0 ≤ shr_m mrs → 0 ≤ shr_m (SpecFloat.iter_pos shr_1 p mrs) ≤ shr_m mrs.
Proof.
  revert mrs. induction p as [p IH|p IH|]; intros mrs Hm; cbn [SpecFloat.iter_pos].
  - pose proof (shr_1_bound _ Hm). pose proof (IH (shr_1 mrs)).
    pose proof (IH (SpecFloat.iter_pos shr_1 p (shr_1 mrs))). lia.
  - pose proof (IH mrs). pose proof (IH (SpecFloat.iter_pos shr_1 p mrs)). lia.
  - by apply shr_1_bound.
Qed.

Lemma Zdigits2_le m D : 0 ≤ D → 0 ≤ m < 2 ^ D → Zdigits2 m ≤ D.
Proof.
  intros HD Hm. destruct m as [|p|p]; cbn [Zdigits2]; [lia| |lia].
  rewrite digits2_log2. assert (Z.log2 (Z.pos p) < D) by (apply Z.log2_lt_pow2; lia). lia.
Qed.

Lemma shr_fexp_bound m e l D :
  0 ≤ D → 0 ≤ m < 2 ^ D → let r := shr_fexp f64_prec f64_emax m e l in
  0 ≤ shr_m (fst r) ≤ m ∧ snd r ≤ Z.max e (Z.max (D + e - 53) (-1074)).
Proof.
  intros HD Hm r. subst r. pose proof (Zdigits2_le m D HD Hm).
  assert (shr_m (shr_record_of_loc m l) = m) as Hs by by destruct l as [|[]].
  unfold shr_fexp, shr, fexp, emin, f64_prec, f64_emax.
  destruct (_ - e) as [|p|p] eqn:Hd; cbn [fst snd].
  - rewrite Hs. lia.
  - pose proof (shr_iter_bound p (shr_record_of_loc m l)). rewrite Hs in *. lia.
  - rewrite Hs. lia.
Qed.

Lemma round_aux_finite m e l D :
  0 ≤ D → 0 ≤ m < 2 ^ D →
  Z.max e (Z.max (D + e - 53) (-1074)) + D ≤ 971 →
  f64_finite (binary_round_aux f64_prec f64_emax false m e l).
Proof.
  intros HD Hm He. unfold binary_round_aux.
  pose proof (shr_fexp_bound m e l D HD Hm) as H1.
  destruct (shr_fexp f64_prec f64_emax m e l) as [mrs e1]. cbn [fst snd] in H1.
  set (n := round_nearest_even _ _).
  assert (0 ≤ n < 2 ^ (D + 1)) as Hn.
  { rewrite Z.pow_add_r by lia. subst n. unfold round_nearest_even. repeat case_match; lia. }
  pose proof (shr_fexp_bound n e1 loc_Exact (D + 1) ltac:(lia) Hn) as H2.
  destruct (shr_fexp f64_prec f64_emax n e1 loc_Exact) as [mrs2 e2]. cbn [fst snd] in H2.
  destruct (shr_m mrs2) as [|p|p]; [done| |lia].
  rewrite (proj2 (Z.leb_le _ _)) by (unfold f64_emax, f64_prec; lia). done.
Qed.

Lemma f64_reciprocal_finite n : 0 < n < 2 ^ 53 → f64_finite (f64_div f64_one (f64_of_Z n)).
Proof.
  intros Hn. rewrite f64_of_Z_exact, f64_one_nat by done. set (L := Z.log2 n).
  assert (0 ≤ L ≤ 52) as HL.
  { split; [apply Z.log2_nonneg|]. apply Z.lt_succ_r. apply Z.log2_lt_pow2; lia. }
  assert (0 < n * 2 ^ (52 - L)) as Hp by (apply Z.mul_pos_pos; [lia|apply Z.pow_pos_nonneg; lia]).
  unfold f64_div, f64_nat. cbn [SFdiv]. fold L.
  unfold SFdiv_core_binary. change (Z.log2 1 - 52) with (-52).
  change (Zdigits2 (Z.pos (Z.to_pos (1 * 2 ^ (52 - Z.log2 1))))) with 53.
  change (Z.pos (Z.to_pos (1 * 2 ^ (52 - Z.log2 1)))) with (2 ^ 52).
  rewrite Z2Pos.id by lia.
  assert (Zdigits2 (n * 2 ^ (52 - L)) = 53) as ->.
  { destruct (n * 2 ^ (52 - L)) as [|p|p] eqn:Hq; [lia| |lia].
    cbn [Zdigits2]. rewrite digits2_log2, <-Hq, log2_scale by lia. fold L. lia. }
  replace (fexp f64_prec f64_emax (53 + -52 - (53 + (L - 52)))) with (- L - 53)
    by (unfold fexp, emin, f64_prec, f64_emax; lia).
  rewrite Z.min_l by lia. replace (-52 - (L - 52) - (- L - 53)) with 53 by lia.
  pose proof (Z_div_mod (Z.shiftl (2 ^ 52) 53) (n * 2 ^ (52 - L)) ltac:(lia)) as Hd.
  destruct (Z.div_eucl _ _) as [q r]. destruct Hd as [Hd Hr].
  change (Z.shiftl (2 ^ 52) 53) with (2 ^ 105) in Hd.
  apply (round_aux_finite q (- L - 53) _ 106); [lia| |lia]. nia.
Qed.

(** No time elapsed, no refill: [(0 / 1000) * rate] is zero. *)
Lemma f64_zero_refill x : f64_finite x → f64_mul (f64_div (f64_of_Z 0) f64_thousand) x = S754_zero false.
Proof. destruct x as [[]|[]| |[]]; done. Qed.
