(* ===== verification/F64Valid.v ===== *)
(** * F64Valid: what the limiter's arithmetic keeps

    Every number the limiter computes is a canonical binary64 number that is
    not negative and not a NaN ([f64_proper]), so that comparison is comparison
    of values ([units]), and taking one token from a bucket that has one is
    exact. *)

From S2P Require Import Prelude F64.
From Stdlib Require Import SpecFloat.
#[local] Open Scope Z_scope.

#[local] Abbreviation fx := (fexp f64_prec f64_emax).

Lemma fx_spec z : fx z = Z.max (z - 53) (-1074).
Proof. unfold fexp, emin, f64_prec, f64_emax. lia. Qed.

(** ** Digits *)

Lemma Zdigits2_spec m : 0 < m → 2 ^ (Zdigits2 m - 1) ≤ m < 2 ^ Zdigits2 m ∧ 0 < Zdigits2 m.
Proof.
  intros Hm. destruct m as [|p|]; [lia| |lia]. cbn [Zdigits2]. rewrite digits2_log2.
  pose proof (Z.log2_spec (Z.pos p) ltac:(lia)) as Hl. rewrite <-Z.add_1_r in Hl.
  replace (Z.log2 (Z.pos p) + 1 - 1) with (Z.log2 (Z.pos p)) by lia.
  pose proof (Z.log2_nonneg (Z.pos p)). lia.
Qed.

Lemma Zdigits2_nonneg m : 0 ≤ m → 0 ≤ Zdigits2 m.
Proof. destruct m; cbn; lia. Qed.

(** The bounds that determine the number of digits. *)
Lemma Zdigits2_unique m d : 0 < d → 2 ^ (d - 1) ≤ m < 2 ^ d → Zdigits2 m = d.
Proof.
  intros Hd Hm. assert (0 < 2 ^ (d - 1)) by (apply Z.pow_pos_nonneg; lia).
  destruct m as [|p|]; [lia| |lia]. cbn [Zdigits2]. rewrite digits2_log2.
  rewrite (Z.log2_unique (Z.pos p) (d - 1)) by (rewrite <-?Z.add_1_r, ?Z.sub_add; lia). lia.
Qed.

Lemma Zdigits2_ge m d : 0 ≤ d → 2 ^ d ≤ m → d < Zdigits2 m.
Proof.
  intros Hd Hm. assert (0 < 2 ^ d) by (apply Z.pow_pos_nonneg; lia).
  destruct (Zdigits2_spec m ltac:(lia)) as [[_ Hlt] Hp].
  apply (Z.pow_lt_mono_r_iff 2); lia.
Qed.

Lemma Zdigits2_mono m n : 0 ≤ m ≤ n → Zdigits2 m ≤ Zdigits2 n.
Proof.
  intros Hm. destruct (decide (m = 0)) as [->|]; [apply Zdigits2_nonneg; lia|].
  destruct (Zdigits2_spec n ltac:(lia)) as [[_ Hn] ?]. apply Zdigits2_le; lia.
Qed.

(** ** Rounding *)

Lemma shr_iter_div p mrs :
  0 ≤ shr_m mrs → shr_m (SpecFloat.iter_pos shr_1 p mrs) = shr_m mrs / 2 ^ Z.pos p.
Proof.
  assert (∀ r, 0 ≤ shr_m r → shr_m (shr_1 r) = shr_m r / 2) as H1.
  { intros [[|[q|q|]|q] r s]; cbn [shr_m shr_1]; intros; [done|..|lia].
    - rewrite Pos2Z.inj_xI. by rewrite Z.mul_comm, Z.div_add_l, Z.add_0_r by lia.
    - by rewrite Pos2Z.inj_xO, Z.mul_comm, Z.div_mul by lia.
    - done. }
  revert mrs. induction p as [p IH|p IH|]; intros mrs Hm; cbn [SpecFloat.iter_pos].
  - pose proof (shr_iter_bound p (shr_1 mrs)). pose proof (shr_1_bound _ Hm).
    rewrite !IH, H1, !Z.div_div by lia. f_equal.
    replace (Z.pos p~1) with (1 + (Z.pos p + Z.pos p)) by lia. rewrite !Z.pow_add_r by lia. lia.
  - pose proof (shr_iter_bound p mrs). rewrite !IH, Z.div_div by lia. f_equal.
    replace (Z.pos p~0) with (Z.pos p + Z.pos p) by lia. by rewrite Z.pow_add_r by lia.
  - by apply H1.
Qed.

(** Shifting to the canonical exponent, when there are digits enough. *)
Lemma shr_fexp_canonical m e l :
  0 ≤ m → e ≤ fx (Zdigits2 m + e) →
  let r := shr_fexp f64_prec f64_emax m e l in
  0 ≤ shr_m r.1 ∧ r.2 = fx (Zdigits2 m + e)
  ∧ (shr_m r.1 = 0 ∧ r.2 = -1074 ∨ 0 < shr_m r.1 ∧ fx (Zdigits2 (shr_m r.1) + r.2) = r.2).
Proof.
  intros Hm He r. subst r. unfold shr_fexp, shr.
  assert (shr_m (shr_record_of_loc m l) = m) as Hs by by destruct l as [|[]].
  destruct (fx (Zdigits2 m + e) - e) as [|p|p] eqn:Hn; [| |lia]; cbn [fst snd]; rewrite ?Hs.
  - split; [done|]. split; [lia|]. destruct (decide (m = 0)) as [->|].
    + left. cbn [Zdigits2] in *. rewrite fx_spec in *. lia.
    + right. split; [lia|]. lia.
  - rewrite shr_iter_div, Hs by (by rewrite Hs). assert (0 < 2 ^ Z.pos p) by (apply Z.pow_pos_nonneg; lia).
    pose proof (Z.div_pos m (2 ^ Z.pos p) Hm ltac:(lia)). split; [done|]. split; [lia|].
    destruct (decide (m / 2 ^ Z.pos p = 0)) as [Hz|Hz].
    + left. split; [done|]. apply Z.div_small_iff in Hz as [Hz|Hz]; [|lia|lia].
      pose proof (Zdigits2_le m (Z.pos p) ltac:(lia) Hz). rewrite fx_spec in *. lia.
    + right. split; [lia|]. assert (0 < m) by (destruct (decide (m = 0)) as [->|]; [done|lia]).
      destruct (Zdigits2_spec m ltac:(done)) as [Hd Hd0].
      assert (Z.pos p < Zdigits2 m) as Hp.
      { destruct (Z.lt_ge_cases (Z.pos p) (Zdigits2 m)) as [|Hge]; [done|].
        rewrite Z.div_small in Hz; [done|]. split; [lia|].
        eapply Z.lt_le_trans; [apply Hd|]. apply Z.pow_le_mono_r; lia. }
      rewrite (Zdigits2_unique (m / 2 ^ Z.pos p) (Zdigits2 m - Z.pos p)); [rewrite fx_spec in *; lia|lia|].
      split.
      * apply Z.div_le_lower_bound; [lia|]. rewrite <-Z.pow_add_r by lia.
        replace (Z.pos p + (Zdigits2 m - Z.pos p - 1)) with (Zdigits2 m - 1) by lia. lia.
      * apply Z.div_lt_upper_bound; [lia|]. rewrite <-Z.pow_add_r by lia.
        replace (Z.pos p + (Zdigits2 m - Z.pos p)) with (Zdigits2 m) by lia. lia.
Qed.

(** Canonical, not negative, not a NaN; infinity is allowed. *)
Definition f64_proper (x : f64) : Prop :=
  match x with
  | S754_zero false | S754_infinity false => True
  | S754_finite false m e => fx (Z.pos (digits2_pos m) + e) = e ∧ e ≤ 971
  | _ => False
  end.

Lemma round_aux_proper m e l :
  0 ≤ m → e ≤ fx (Zdigits2 m + e) → f64_proper (binary_round_aux f64_prec f64_emax false m e l).
Proof.
  intros Hm He. unfold binary_round_aux. pose proof (shr_fexp_canonical m e l Hm He) as H1.
  destruct (shr_fexp f64_prec f64_emax m e l) as [mrs e1]. cbn [fst snd] in H1. destruct H1 as (H0 & _ & H1).
  set (n := round_nearest_even _ _).
  assert (shr_m mrs ≤ n) as Hn by (subst n; unfold round_nearest_even; repeat case_match; lia).
  assert (e1 ≤ fx (Zdigits2 n + e1)) as He1.
  { pose proof (Zdigits2_mono (shr_m mrs) n ltac:(lia)). destruct H1 as [[_ ->]|[_ Hc]]; rewrite fx_spec in *; lia. }
  pose proof (shr_fexp_canonical n e1 loc_Exact ltac:(lia) He1) as H2.
  destruct (shr_fexp f64_prec f64_emax n e1 loc_Exact) as [mrs2 e2]. cbn [fst snd] in H2. destruct H2 as (H2' & _ & H2).
  destruct (shr_m mrs2) as [|p|p]; [done| |lia]. destruct H2 as [[? _]|[_ H2]]; [done|].
  destruct (Z.leb_spec e2 (f64_emax - f64_prec)); [|done]. split; [exact H2|]. unfold f64_emax, f64_prec in *. lia.
Qed.

(** Aligning to an exponent that is not larger changes the writing only. *)
Lemma shl_align_spec m e e' : e' ≤ e → Z.pos (shl_align m e e').1 = Z.pos m * 2 ^ (e - e') ∧ (shl_align m e e').2 = e'.
Proof.
  intros He. unfold shl_align. destruct (e' - e) as [|d|d] eqn:Hd; [|lia|]; cbn [fst snd].
  - replace (e - e') with 0 by lia. rewrite Z.pow_0_r. lia.
  - rewrite iter_xO. replace (e - e') with (Z.pos d) by lia. done.
Qed.

Lemma Zdigits2_scale m k : 0 < m → 0 ≤ k → Zdigits2 (m * 2 ^ k) = Zdigits2 m + k.
Proof.
  intros Hm Hk. destruct (Zdigits2_spec m Hm) as [Hd Hd0].
  assert (0 < 2 ^ k) by (apply Z.pow_pos_nonneg; lia). apply Zdigits2_unique; [lia|].
  replace (Zdigits2 m + k - 1) with (Zdigits2 m - 1 + k) by lia. rewrite !Z.pow_add_r by lia.
  split; [apply Z.mul_le_mono_nonneg_r|apply Z.mul_lt_mono_pos_r]; lia.
Qed.

Lemma round_proper m e : f64_proper (binary_round f64_prec f64_emax false m e).
Proof.
  unfold binary_round. set (e' := fx _). destruct (Z.le_gt_cases e' e) as [Hle|Hgt].
  - pose proof (shl_align_spec m e e' Hle) as [Hm He]. destruct (shl_align m e e') as [mz ez]. cbn [fst snd] in *. subst ez.
    apply round_aux_proper; [lia|]. rewrite Hm, Zdigits2_scale by lia. cbn [Zdigits2].
    replace (Z.pos (digits2_pos m) + (e - e') + e') with (Z.pos (digits2_pos m) + e) by lia. subst e'. lia.
  - unfold shl_align. destruct (e' - e) as [|d|d] eqn:Hd; [lia| |lia].
    apply round_aux_proper; [lia|]. cbn [Zdigits2]. subst e'. lia.
Qed.

Lemma normalize_proper m e : 0 ≤ m → f64_proper (binary_normalize f64_prec f64_emax m e false).
Proof. destruct m as [|p|]; intros; [done|apply round_proper|lia]. Qed.

Lemma of_Z_proper z : 0 ≤ z → f64_proper (f64_of_Z z).
Proof. apply normalize_proper. Qed.

(** ** Operations *)

(** A product of canonical numbers has digits enough. *)
Lemma mul_proper x y : f64_finite x → f64_finite y → f64_proper x → f64_proper y → f64_proper (f64_mul x y).
Proof.
  intros Hfx Hfy Hx Hy. unfold f64_mul.
  destruct x as [[]|[]| |[] m1 e1]; try done; destruct y as [[]|[]| |[] m2 e2]; try done.
  cbn [SFmul xorb]. apply round_aux_proper; [lia|]. destruct Hx as [H1 _], Hy as [H2 _].
  change (Z.pos (digits2_pos m1)) with (Zdigits2 (Z.pos m1)) in H1.
  change (Z.pos (digits2_pos m2)) with (Zdigits2 (Z.pos m2)) in H2.
  destruct (Zdigits2_spec (Z.pos m1) ltac:(lia)) as [[Hm1 _] Hd1].
  destruct (Zdigits2_spec (Z.pos m2) ltac:(lia)) as [[Hm2 _] Hd2].
  pose proof (Zdigits2_ge (Z.pos (m1 * m2)) (Zdigits2 (Z.pos m1) - 1 + (Zdigits2 (Z.pos m2) - 1)) ltac:(lia)) as Hd.
  rewrite Z.pow_add_r, Pos2Z.inj_mul in Hd by lia. specialize (Hd ltac:(apply Z.mul_le_mono_nonneg; lia)).
  rewrite Pos2Z.inj_mul. rewrite fx_spec in *. lia.
Qed.

Lemma div_proper m1 e1 m2 e2 :
  f64_proper (f64_div (S754_finite false m1 e1) (S754_finite false m2 e2)).
Proof.
  unfold f64_div. cbn [SFdiv xorb]. unfold SFdiv_core_binary.
  set (d1 := Zdigits2 (Z.pos m1)). set (d2 := Zdigits2 (Z.pos m2)). set (e' := Z.min _ _).
  assert (e' ≤ e1 - e2) as He1 by apply Z.le_min_r.
  assert (e' ≤ fx (d1 + e1 - (d2 + e2))) as He2 by apply Z.le_min_l. clearbody e'.
  set (m' := match e1 - e2 - e' with Z0 => _ | Z.pos _ => _ | Z.neg _ => _ end).
  assert (m' = Z.pos m1 * 2 ^ (e1 - e2 - e')) as Hm'.
  { subst m'. assert (0 ≤ e1 - e2 - e') by lia. destruct (e1 - e2 - e') as [|s|s]; [by rewrite Z.mul_1_r| |lia].
    by rewrite Z.shiftl_mul_pow2 by lia. }
  assert (0 < 2 ^ (e1 - e2 - e')) by (apply Z.pow_pos_nonneg; lia).
  pose proof (Z_div_mod m' (Z.pos m2) ltac:(lia)) as Hd. destruct (Z.div_eucl m' (Z.pos m2)) as [q r].
  destruct Hd as [Hq Hr]. assert (0 ≤ q) as Hq0 by nia. apply round_aux_proper; [done|].
  assert (d1 + (e1 - e2 - e') - d2 ≤ Zdigits2 q) as Hdq.
  { destruct (Z.le_gt_cases (d1 + (e1 - e2 - e') - d2) 0) as [|Hpos]; [pose proof (Zdigits2_nonneg q Hq0); lia|].
    pose proof (Zdigits2_ge q (d1 + (e1 - e2 - e') - d2 - 1) ltac:(lia)) as Hg.
    enough (2 ^ (d1 + (e1 - e2 - e') - d2 - 1) ≤ q) by lia. apply Z.lt_succ_r.
    destruct (Zdigits2_spec (Z.pos m1) ltac:(lia)) as [[Hm1 _] Hd1].
    destruct (Zdigits2_spec (Z.pos m2) ltac:(lia)) as [[_ Hm2] Hd2]. fold d1 in Hm1, Hd1. fold d2 in Hm2, Hd2.
    apply (Z.mul_lt_mono_pos_r (2 ^ d2)); [lia|]. rewrite <-Z.pow_add_r by lia.
    replace (d1 + (e1 - e2 - e') - d2 - 1 + d2) with (d1 - 1 + (e1 - e2 - e')) by lia. rewrite Z.pow_add_r by lia.
    apply Z.le_lt_trans with m'; [rewrite Hm'; apply Z.mul_le_mono_nonneg_r; lia|]. nia. }
  rewrite fx_spec in *. lia.
Qed.

Lemma add_proper x y : f64_proper x → f64_proper y → f64_proper (f64_add x y).
Proof.
  intros Hx Hy. unfold f64_add.
  destruct x as [[]|[]| |[] m1 e1]; try done; destruct y as [[]|[]| |[] m2 e2]; try done.
  cbn [SFadd cond_Zopp]. apply normalize_proper. lia.
Qed.

(** ** Values *)

(** The value in units of the least positive number, 2^-1074. *)
Definition units (x : f64) : Z :=
  match x with S754_finite false m e => Z.pos m * 2 ^ (e + 1074) | _ => 0 end.

Lemma units_nonneg x : 0 ≤ units x.
Proof. destruct x as [| | |[] m e]; cbn; lia. Qed.

(** A larger exponent means a larger number. *)
Lemma units_exponent m1 e1 m2 e2 :
  f64_proper (S754_finite false m1 e1) → f64_proper (S754_finite false m2 e2) → e1 < e2 →
  units (S754_finite false m1 e1) < units (S754_finite false m2 e2).
Proof.
  intros [H1 _] [H2 _] He. cbn [units].
  change (Z.pos (digits2_pos m1)) with (Zdigits2 (Z.pos m1)) in H1.
  change (Z.pos (digits2_pos m2)) with (Zdigits2 (Z.pos m2)) in H2.
  destruct (Zdigits2_spec (Z.pos m1) ltac:(lia)) as [[_ Hm1] Hd1].
  destruct (Zdigits2_spec (Z.pos m2) ltac:(lia)) as [[Hm2 _] Hd2]. rewrite fx_spec in *.
  apply Z.lt_le_trans with (2 ^ Zdigits2 (Z.pos m1) * 2 ^ (e1 + 1074)).
  { apply Z.mul_lt_mono_pos_r; [apply Z.pow_pos_nonneg; lia|done]. }
  apply Z.le_trans with (2 ^ (Zdigits2 (Z.pos m2) - 1) * 2 ^ (e2 + 1074)).
  { rewrite <-!Z.pow_add_r by lia. apply Z.pow_le_mono_r; lia. }
  apply Z.mul_le_mono_nonneg_r; [apply Z.pow_nonneg; lia|done].
Qed.

(** Comparison is comparison of values. *)
Lemma compare_units x y :
  f64_finite x → f64_finite y → f64_proper x → f64_proper y → SFcompare x y = Some (units x ?= units y).
Proof.
  intros Hfx Hfy Hx Hy.
  assert (∀ m e, f64_proper (S754_finite false m e) → 0 < units (S754_finite false m e)) as Hpos.
  { intros m e [H1 _]. cbn. rewrite fx_spec in H1. apply Z.mul_pos_pos; [lia|apply Z.pow_pos_nonneg; lia]. }
  destruct x as [[]|[]| |[] m1 e1]; try done; destruct y as [[]|[]| |[] m2 e2]; try done; cbn [SFcompare]; f_equal; symmetry.
  - apply Z.compare_lt_iff. by apply Hpos.
  - apply Z.compare_gt_iff. by apply Hpos.
  - destruct (Z.compare_spec e1 e2) as [->|He|He].
    + cbn [units]. destruct Hx as [Hx _]. rewrite fx_spec in Hx.
      rewrite Zmult_compare_scale by (apply Z.pow_pos_nonneg; lia). done.
    + apply Z.compare_lt_iff. by apply units_exponent.
    + apply Z.compare_gt_iff. by apply units_exponent.
Qed.

(** ** One token *)

Definition one_token : Z := 2 ^ 1074.

Lemma one_token_pos : 0 < one_token.
Proof. apply Z.pow_pos_nonneg; lia. Qed.

(** Rounding is exact when the digits dropped are zero. *)
Lemma round_aux_exact_units m e k :
  0 < m → -1074 ≤ e → e ≤ fx (Zdigits2 m + e) ≤ 971 → m = k * 2 ^ (fx (Zdigits2 m + e) - e) →
  let r := binary_round_aux f64_prec f64_emax false m e loc_Exact in
  f64_finite r ∧ units r = m * 2 ^ (e + 1074).
Proof.
  intros Hm He Hfx Hk r. subst r. set (e1 := fx (Zdigits2 m + e)) in *.
  assert (0 < 2 ^ (e1 - e)) as Hp by (apply Z.pow_pos_nonneg; lia). assert (0 < k) as Hk0 by nia.
  assert (Zdigits2 m = Zdigits2 k + (e1 - e)) as Hd by (rewrite Hk at 1; apply Zdigits2_scale; lia).
  assert (shr_fexp f64_prec f64_emax m e loc_Exact = ({| shr_m := k; shr_r := false; shr_s := false |}, e1)) as H1.
  { unfold shr_fexp, shr. fold e1. destruct (e1 - e) as [|p|p] eqn:Hn; [| |lia].
    - rewrite Z.pow_0_r, Z.mul_1_r in Hk. subst k. cbn. f_equal. lia.
    - cbn [shr_record_of_loc]. rewrite Hk at 1. rewrite shr_iter_exact by done. f_equal. lia. }
  assert (shr_fexp f64_prec f64_emax k e1 loc_Exact = ({| shr_m := k; shr_r := false; shr_s := false |}, e1)) as H2.
  { unfold shr_fexp, shr. replace (Zdigits2 k + e1) with (Zdigits2 m + e) by lia. fold e1. by rewrite Z.sub_diag. }
  unfold binary_round_aux. rewrite H1. cbn [shr_m loc_of_shr_record round_nearest_even]. rewrite H2. cbn [shr_m].
  destruct k as [|k|]; [lia| |lia]. rewrite (proj2 (Z.leb_le _ _)) by (unfold f64_emax, f64_prec; lia).
  split; [done|]. cbn [units]. rewrite Hk, <-Z.mul_assoc, <-Z.pow_add_r by lia. do 2 f_equal. lia.
Qed.

Lemma round_exact_units m e k :
  -1074 ≤ e → fx (Z.pos (digits2_pos m) + e) ≤ 971 →
  (e < fx (Z.pos (digits2_pos m) + e) → Z.pos m = k * 2 ^ (fx (Z.pos (digits2_pos m) + e) - e)) →
  let r := binary_round f64_prec f64_emax false m e in f64_finite r ∧ units r = Z.pos m * 2 ^ (e + 1074).
Proof.
  intros He Hfx Hk r. subst r. unfold binary_round. set (e' := fx _) in *.
  destruct (Z.le_gt_cases e' e) as [Hle|Hgt].
  - pose proof (shl_align_spec m e e' Hle) as [Hm Hz]. destruct (shl_align m e e') as [mz ez]. cbn [fst snd] in *. subst ez.
    assert (Zdigits2 (Z.pos mz) + e' = Z.pos (digits2_pos m) + e) as Hd
      by (rewrite Hm, Zdigits2_scale by lia; cbn [Zdigits2]; lia).
    assert (-1074 ≤ e') by (subst e'; rewrite fx_spec; lia).
    destruct (round_aux_exact_units (Z.pos mz) e' (Z.pos mz)) as [H1 H2]; rewrite ?Hd; fold e'; [lia..| |].
    { by rewrite Z.sub_diag, Z.pow_0_r, Z.mul_1_r. }
    split; [done|]. rewrite H2, Hm, <-Z.mul_assoc, <-Z.pow_add_r by lia. do 2 f_equal. lia.
  - unfold shl_align. destruct (e' - e) as [|d|d] eqn:Hn; [lia| |lia].
    apply (round_aux_exact_units (Z.pos m) e k); cbn [Zdigits2]; fold e'; [lia..|]. rewrite Hn. by apply Hk.
Qed.

(** A canonical number of at least one token and fewer than 2^53. *)
Lemma token_range m e :
  f64_proper (S754_finite false m e) → one_token ≤ units (S754_finite false m e) < 2 ^ 53 * one_token →
  -52 ≤ e ≤ 0 ∧ 2 ^ 52 ≤ Z.pos m < 2 ^ 53.
Proof.
  intros [Hc _] [Hlo Hhi]. cbn [units] in *. unfold one_token in *.
  change (Z.pos (digits2_pos m)) with (Zdigits2 (Z.pos m)) in Hc. rewrite fx_spec in Hc.
  destruct (Zdigits2_spec (Z.pos m) ltac:(lia)) as [[Hm Hm'] Hd0].
  assert (-53 < e) as He.
  { apply Z.nle_gt. intros He. assert (Z.pos m * 2 ^ (e + 1074) < 2 ^ 1074); [|lia].
    apply Z.lt_le_trans with (2 ^ Zdigits2 (Z.pos m) * 2 ^ (e + 1074)).
    - apply Z.mul_lt_mono_pos_r; [apply Z.pow_pos_nonneg; lia|done].
    - rewrite <-Z.pow_add_r by lia. apply Z.pow_le_mono_r; lia. }
  assert (Zdigits2 (Z.pos m) = 53) as Hd by lia. rewrite Hd in *. change (53 - 1) with 52 in Hm.
  split; [|done]. split; [lia|]. apply Z.nlt_ge. intros Hp.
  assert (2 ^ 53 * 2 ^ 1074 ≤ Z.pos m * 2 ^ (e + 1074)); [|lia].
  apply Z.le_trans with (2 ^ 52 * 2 ^ (e + 1074)).
  - rewrite <-!Z.pow_add_r by lia. apply Z.pow_le_mono_r; lia.
  - apply Z.mul_le_mono_nonneg_r; [apply Z.pow_nonneg; lia|done].
Qed.

(** Taking one token is exact. *)
Lemma sub_token x :
  f64_finite x → f64_proper x → one_token ≤ units x < 2 ^ 53 * one_token →
  let y := f64_sub x f64_one in f64_finite y ∧ f64_proper y ∧ units y = units x - one_token.
Proof.
  intros Hf Hx Hu y. subst y. pose proof one_token_pos.
  destruct x as [[]|[]| |[] m e]; try done; [cbn in Hu; lia|].
  destruct (token_range m e Hx Hu) as [He Hm]. unfold f64_sub.
  change f64_one with (S754_finite false (Z.to_pos (2 ^ 52)) (-52)). cbn [SFsub cond_Zopp].
  rewrite Z.min_r by lia. destruct (shl_align_spec m e (-52) ltac:(lia)) as [Ha _].
  rewrite Ha. change (Z.pos (shl_align (Z.to_pos (2 ^ 52)) (-52) (-52)).1) with (2 ^ 52).
  replace (e - -52) with (e + 52) by lia.
  assert (units (S754_finite false m e) - one_token = (Z.pos m * 2 ^ (e + 52) - 2 ^ 52) * 2 ^ (-52 + 1074)) as ->.
  { cbn [units]. unfold one_token. rewrite Z.mul_sub_distr_r, <-Z.mul_assoc, <-!Z.pow_add_r by lia. do 3 f_equal; lia. }
  assert (1 ≤ 2 ^ (e + 52)) by (pose proof (Z.pow_pos_nonneg 2 (e + 52)); lia).
  assert (0 ≤ Z.pos m * 2 ^ (e + 52) - 2 ^ 52) as Hn by nia.
  pose proof (normalize_proper _ (-52) Hn) as Hp.
  destruct (Z.pos m * 2 ^ (e + 52) - 2 ^ 52) as [|q|q] eqn:Hq; [done| |lia]. cbn [binary_normalize] in Hp |- *.
  set (D := Z.pos (digits2_pos q)).
  assert (D ≤ 105 + e) as HD.
  { subst D. change (Z.pos (digits2_pos q)) with (Zdigits2 (Z.pos q)). apply Zdigits2_le; [lia|].
    replace (105 + e) with (53 + (e + 52)) by lia. rewrite Z.pow_add_r by lia. nia. }
  destruct (round_exact_units q (-52) (Z.pos m * 2 ^ (105 + e - D) - 2 ^ (105 - D))) as [H1 H2]; try done.
  - fold D. rewrite fx_spec. lia.
  - fold D. rewrite fx_spec. intros Hgt. rewrite Z.max_l by lia. replace (D + -52 - 53 - -52) with (D - 53) by lia.
    rewrite <-Hq, Z.mul_sub_distr_r, <-Z.mul_assoc, <-!Z.pow_add_r by lia. do 3 f_equal; lia.
Qed.
