(* ===== verification/RateLimit.v ===== *)
(** * RateLimit: the token-bucket limiter of [rate_limit.rs]

    The [Mutex<HashMap<String, BucketState>>] is a [gmap]; one call of
    [try_acquire] is one atomic step, since the lock is held from the entry
    lookup to the end of the function.  Token counts are binary64 numbers. *)

From S2P Require Import Prelude F64 F64Valid.
From Stdlib Require Import SpecFloat.
#[local] Open Scope string_scope.
#[local] Open Scope list_scope.
#[local] Open Scope Z_scope.

Record BucketState := { tokens : f64; last_refill_unix_ms : Z }.

Abbreviation TokenBucketLimiter := (gmap string BucketState).

Definition TokenBucketLimiter_new : TokenBucketLimiter := ∅.

(** The refill step on one bucket, at the reading [now_ms] of the clock. *)
Definition refill_bucket (now_ms refill_per_secs : Z) (cap_f : f64) (b : BucketState)
    : BucketState :=
  if 0 <? refill_per_secs then
    let dt_ms := Z.max (i64_wrap (now_ms - last_refill_unix_ms b)) 0 in
    let dt := f64_div (f64_of_Z dt_ms) f64_thousand in
    let rate := f64_div f64_one (f64_of_Z refill_per_secs) in
    let refill := f64_mul dt rate in
    {| tokens := f64_min (f64_add (tokens b) refill) cap_f;
       last_refill_unix_ms := now_ms |}
  else b.

Definition try_acquire (now_ms : Z) (st : TokenBucketLimiter) (key : string)
    (capacity refill_per_secs : Z) : bool * TokenBucketLimiter :=
  if capacity =? 0 then (false, st)
  else
    let cap_f := f64_of_Z capacity in
    let entry := default {| tokens := cap_f; last_refill_unix_ms := now_ms |} (st !! key) in
    let entry := refill_bucket now_ms refill_per_secs cap_f entry in
    if f64_ge (tokens entry) f64_one then
      (true, <[key := {| tokens := f64_sub (tokens entry) f64_one;
                         last_refill_unix_ms := last_refill_unix_ms entry |}]> st)
    else (false, <[key := entry]> st).

(** A history of calls: each is served with the clock reading it made. *)
Record call := { at_ms : Z; on_key : string; cap : Z; refill_secs : Z }.

Definition serve (c : call) (st : TokenBucketLimiter) : bool * TokenBucketLimiter :=
  try_acquire (at_ms c) st (on_key c) (cap c) (refill_secs c).

(** The answers of a history, each with the call it answers. *)
Fixpoint run (cs : list call) (st : TokenBucketLimiter) : list (call * bool) * TokenBucketLimiter :=
  match cs with
  | [] => ([], st)
  | c :: cs =>
      let '(ok, st) := serve c st in
      let '(oks, st) := run cs st in
      ((c, ok) :: oks, st)
  end.

(** ** One call *)

Lemma try_acquire_other now st key capacity refill k :
  k ≠ key → (try_acquire now st key capacity refill).2 !! k = st !! k.
Proof.
  intros Hk. unfold try_acquire. repeat case_match; cbn [fst snd]; rewrite ?lookup_insert_ne by congruence; done.
Qed.

Lemma try_acquire_local now st st' key capacity refill :
  st !! key = st' !! key →
  (try_acquire now st key capacity refill).1 = (try_acquire now st' key capacity refill).1
  ∧ (try_acquire now st key capacity refill).2 !! key
    = (try_acquire now st' key capacity refill).2 !! key.
Proof.
  intros Hk. unfold try_acquire. rewrite Hk.
  repeat case_match; cbn [fst snd]; rewrite ?lookup_insert_eq; done.
Qed.

(** ** Key isolation *)

Lemma run_local k cs st st' :
  st !! k = st' !! k →
  filter (λ ca, on_key ca.1 = k) (run cs st).1
  = (run (filter (λ c, on_key c = k) cs) st').1.
Proof.
  revert st st'. induction cs as [|c cs IH]; intros st st' Hk; [done|].
  cbn [run]. destruct (decide (on_key c = k)) as [Hc|Hc].
  - rewrite (filter_cons_True _ c) by done. cbn [run].
    unfold serve. rewrite Hc.
    pose proof (try_acquire_local (at_ms c) st st' k (cap c) (refill_secs c) Hk) as [H1 H2].
    destruct (try_acquire (at_ms c) st k _ _) as [ok s] eqn:E1.
    destruct (try_acquire (at_ms c) st' k _ _) as [ok' s'] eqn:E2. cbn in H1, H2. subst ok'.
    specialize (IH s s' H2).
    destruct (run cs s) as [oks sf] eqn:E3. destruct (run (filter _ cs) s') as [oks' sf'] eqn:E4.
    cbn [fst] in IH |- *. rewrite filter_cons_True by done. by rewrite IH.
  - rewrite (filter_cons_False _ c) by done. unfold serve.
    pose proof (try_acquire_other (at_ms c) st (on_key c) (cap c) (refill_secs c) k
                  ltac:(done)) as H1.
    destruct (try_acquire (at_ms c) st (on_key c) _ _) as [ok s] eqn:E1. cbn in H1.
    specialize (IH s st' ltac:(congruence)).
    destruct (run cs s) as [oks sf] eqn:E3. cbn [fst] in IH |- *. by rewrite filter_cons_False.
Qed.

(** ** The budget *)

(** A bucket of [n] whole tokens with no refill to come: the call admits
    exactly when a token is left. *)
Lemma try_acquire_whole now st key capacity refill n :
  0 < capacity ≤ u32_max → 0 ≤ refill ≤ u32_max → 0 ≤ n ≤ capacity →
  st !! key = Some {| tokens := f64_of_Z n; last_refill_unix_ms := now |}
  ∨ (refill = 0 ∧ ∃ t, st !! key = Some {| tokens := f64_of_Z n; last_refill_unix_ms := t |})
  ∨ (n = capacity ∧ st !! key = None) →
  let r := try_acquire now st key capacity refill in
  r.1 = (1 <=? n)
  ∧ ∃ t, r.2 !! key = Some {| tokens := f64_of_Z (Z.max 0 (n - 1)); last_refill_unix_ms := t |}
         ∧ (refill ≠ 0 → t = now).
Proof.
  intros Hcap Href Hn Hst r. subst r. unfold u32_max in *. unfold try_acquire.
  rewrite (proj2 (Z.eqb_neq _ _)) by lia.
  assert (∃ t, refill_bucket now refill (f64_of_Z capacity)
            (default {| tokens := f64_of_Z capacity; last_refill_unix_ms := now |} (st !! key))
          = {| tokens := f64_of_Z n; last_refill_unix_ms := t |} ∧ (refill ≠ 0 → t = now))
    as (t & -> & Ht).
  { assert (∃ t, default {| tokens := f64_of_Z capacity; last_refill_unix_ms := now |} (st !! key)
               = {| tokens := f64_of_Z n; last_refill_unix_ms := t |} ∧ (refill ≠ 0 → t = now))
      as (t & -> & Ht) by (destruct Hst as [->|[[? [t ->]]|[-> ->]]]; eauto; by exists t).
    exists t. split; [|done]. unfold refill_bucket. destruct (Z.ltb_spec 0 refill); [|done].
    cbn [tokens last_refill_unix_ms]. rewrite (Ht ltac:(lia)), Z.sub_diag.
    change (Z.max (i64_wrap 0) 0) with 0.
    rewrite f64_zero_refill by (apply f64_reciprocal_finite; lia).
    by rewrite f64_add_zero, f64_min_le by lia. }
  cbn [tokens last_refill_unix_ms]. rewrite f64_ge_one by lia.
  destruct (Z.leb_spec 1 n); cbn [fst snd]; (split; [done|]); exists t;
    rewrite lookup_insert_eq; (split; [|done]).
  - rewrite f64_sub_one, Z.max_r by lia. done.
  - rewrite Z.max_l by lia. by replace n with 0 by lia.
Qed.

Lemma take_pad {A} k j (l : list A) x :
  (k ≤ j)%nat → take k (l ++ replicate j x) = take k (l ++ replicate k x).
Proof. intros. rewrite !take_app, !take_replicate. do 2 f_equal. lia. Qed.

Lemma run_whole now key capacity refill ts n st :
  0 < capacity ≤ u32_max → 0 ≤ refill ≤ u32_max → 0 ≤ n ≤ capacity →
  (refill = 0 ∨ Forall (λ t, t = now) ts) →
  st !! key = Some {| tokens := f64_of_Z n; last_refill_unix_ms := now |}
  ∨ (refill = 0 ∧ ∃ t, st !! key = Some {| tokens := f64_of_Z n; last_refill_unix_ms := t |})
  ∨ (n = capacity ∧ st !! key = None) →
  (run ((λ t, {| at_ms := t; on_key := key; cap := capacity; refill_secs := refill |}) <$> ts) st).1.*2
  = take (length ts) (replicate (Z.to_nat n) true ++ replicate (length ts) false).
Proof.
  intros Hcap Href. revert n st. induction ts as [|t ts IH]; intros n st Hn Hts Hst; [done|].
  assert (refill = 0 ∨ t = now) as Ht.
  { destruct Hts as [|Hts]; [by left|right]. by apply Forall_cons in Hts as [? _]. }
  rewrite fmap_cons. cbn [run]. unfold serve; cbn [at_ms on_key cap refill_secs].
  pose proof (try_acquire_whole t st key capacity refill n Hcap Href Hn) as H1.
  destruct (try_acquire t st key capacity refill) as [ok s]. cbn [fst snd] in H1.
  destruct H1 as (-> & u & Hu & Hrefill).
  { destruct Ht as [->| ->]; [|done]. right.
    destruct Hst as [Hs|[[_ Hs]|Hs]]; [left|left|right]; eauto. }
  specialize (IH (Z.max 0 (n - 1)) s ltac:(lia)).
  destruct (run (_ <$> ts) s) as [oks sf]. cbn [fst snd] in IH |- *. cbn [fmap list_fmap].
  cbn [length take].
  assert (Hrest : oks.*2 = take (length ts)
      (replicate (Z.to_nat (Z.max 0 (n - 1))) true ++ replicate (length ts) false)).
  { apply IH.
    - destruct Hts as [|Hts]; [by left|right]. by apply Forall_cons in Hts as [_ ?].
    - destruct (decide (refill = 0)) as [->|]; [right; left; eauto|].
      left. rewrite Hu, Hrefill by done. destruct Ht as [| ->]; done. }
  destruct (Z.leb_spec 1 n).
  - replace (Z.to_nat n) with (S (Z.to_nat (Z.max 0 (n - 1)))) by lia. cbn.
    rewrite Hrest. f_equal. symmetry. apply (take_pad _ (S (length ts))). lia.
  - replace (Z.to_nat n) with 0%nat by lia. rewrite Hrest.
    replace (Z.to_nat (Z.max 0 (n - 1))) with 0%nat by lia. cbn.
    done.
Qed.

(** ** Bursts

    Whatever happened before, the buckets hold canonical, finite, non-negative
    numbers, so the tokens a burst can take are those in the bucket. *)

Definition bucket_ok (b : BucketState) : Prop :=
  f64_finite (tokens b) ∧ f64_proper (tokens b) ∧ units (tokens b) ≤ u32_max * one_token.

Definition call_ok (c : call) : Prop := 0 ≤ cap c ≤ u32_max ∧ 0 ≤ refill_secs c ≤ u32_max.

Lemma units_of_Z n : 0 ≤ n < 2 ^ 53 → units (f64_of_Z n) = n * one_token.
Proof.
  intros Hn. destruct (decide (n = 0)) as [->|]; [done|]. rewrite f64_of_Z_exact by lia. unfold f64_nat. cbn [units].
  assert (Z.log2 n < 53) by (apply Z.log2_lt_pow2; lia). pose proof (Z.log2_nonneg n).
  assert (0 < 2 ^ (52 - Z.log2 n)) by (apply Z.pow_pos_nonneg; lia).
  rewrite Z2Pos.id, <-Z.mul_assoc, <-Z.pow_add_r by lia. unfold one_token. do 2 f_equal. lia.
Qed.

Lemma capacity_units n : n ≤ u32_max → n * one_token ≤ u32_max * one_token.
Proof. pose proof one_token_pos. intros. apply Z.mul_le_mono_nonneg_r; lia. Qed.

Lemma of_Z_finite n : 0 ≤ n < 2 ^ 53 → f64_finite (f64_of_Z n).
Proof. intros Hn. destruct (decide (n = 0)) as [->|]; [done|]. by rewrite f64_of_Z_exact by lia. Qed.

(** Clamping to the capacity: what was added does not matter. *)
Lemma min_capacity x n :
  x = S754_nan ∨ f64_proper x → 0 ≤ n < 2 ^ 53 →
  let y := f64_min x (f64_of_Z n) in
  f64_finite y ∧ f64_proper y ∧ units y ≤ n * one_token ∧ (f64_finite x → units y ≤ units x).
Proof.
  intros Hx Hn y. subst y. pose proof (of_Z_finite n Hn) as Hf. pose proof (of_Z_proper n ltac:(lia)) as Hp.
  pose proof (units_of_Z n Hn) as Hu.
  assert (f64_finite x ∧ f64_proper x ∨ ¬ f64_finite x ∧ f64_min x (f64_of_Z n) = f64_of_Z n) as [[Hxf Hxp]|[Hxf ->]].
  { destruct Hx as [->|Hx]; [right; split; [by intros []|done]|]. destruct x as [[]|[]| |[] m e]; try done; [by left| |by left].
    right. split; [by intros []|]. unfold f64_min. by destruct (f64_of_Z n) as [[]|[]| |[]]. }
  - unfold f64_min. rewrite compare_units by done.
    destruct (Z.compare_spec (units x) (units (f64_of_Z n))); do 2 (split; [done|]); lia.
  - split; [done|]. split; [done|]. split; [lia|done].
Qed.

(** The refill is a number, or not one; never negative. *)
Lemma refill_proper dt refill :
  0 ≤ dt → 0 < refill ≤ u32_max →
  let r := f64_mul (f64_div (f64_of_Z dt) f64_thousand) (f64_div f64_one (f64_of_Z refill)) in
  r = S754_nan ∨ f64_proper r.
Proof.
  intros Hdt Hr r. subst r. unfold u32_max in Hr.
  pose proof (f64_reciprocal_finite refill ltac:(lia)) as Hf.
  assert (f64_proper (f64_div f64_one (f64_of_Z refill))) as Hp.
  { rewrite f64_of_Z_exact, f64_one_nat by lia. apply div_proper. }
  assert (f64_proper (f64_div (f64_of_Z dt) f64_thousand)) as Hd.
  { pose proof (of_Z_proper dt Hdt) as Hz. change f64_thousand with (f64_nat 1000).
    destruct (f64_of_Z dt) as [[]|[]| |[] m e]; try done. apply div_proper. }
  destruct (f64_div f64_one _) as [[]|[]| |[] m2 e2]; try done;
    destruct (f64_div (f64_of_Z dt) _) as [[]|[]| |[] m1 e1]; try done; try (by left); try (by right).
  right. by apply mul_proper.
Qed.

Lemma refill_bucket_ok now refill capacity b :
  0 ≤ capacity ≤ u32_max → 0 < refill ≤ u32_max → bucket_ok b →
  let b' := refill_bucket now refill (f64_of_Z capacity) b in
  bucket_ok b' ∧ units (tokens b') ≤ capacity * one_token
  ∧ (last_refill_unix_ms b = now → units (tokens b') ≤ units (tokens b)) ∧ last_refill_unix_ms b' = now.
Proof.
  intros Hc Hr (Hf & Hp & Hu) b'. subst b'. unfold refill_bucket, u32_max in *.
  rewrite (proj2 (Z.ltb_lt _ _)) by lia. cbn [tokens last_refill_unix_ms].
  set (dt := Z.max (i64_wrap (now - last_refill_unix_ms b)) 0). set (r := f64_mul _ _).
  assert (f64_add (tokens b) r = S754_nan ∨ f64_proper (f64_add (tokens b) r)) as Ha.
  { destruct (refill_proper dt refill (Z.le_max_r _ _) Hr : r = S754_nan ∨ f64_proper r) as [Hn|Hr'].
    - left. rewrite Hn. by destruct (tokens b) as [[]|[]| |[]].
    - right. by apply add_proper. }
  destruct (min_capacity _ capacity Ha ltac:(lia)) as (H1 & H2 & H3 & H4).
  pose proof one_token_pos.
  split; [split; [done|]; split; [done|]; eapply Z.le_trans; [exact H3|apply capacity_units; unfold u32_max; lia]|]. split; [done|]. split; [|done].
  intros Hl. assert (r = S754_zero false) as Hr0.
  { subst r dt. rewrite Hl, Z.sub_diag. change (Z.max (i64_wrap 0) 0) with 0.
    apply f64_zero_refill, f64_reciprocal_finite. lia. }
  assert (f64_add (tokens b) r = tokens b) as Heq by (rewrite Hr0; by destruct (tokens b) as [[]|[]| |[]]).
  rewrite Heq in *. by apply H4.
Qed.

Lemma take_token_ok b : bucket_ok b → f64_ge (tokens b) f64_one = true →
  let y := f64_sub (tokens b) f64_one in
  f64_finite y ∧ f64_proper y ∧ units y = units (tokens b) - one_token ∧ 0 ≤ units y.
Proof.
  intros (Hf & Hp & Hu) Hge y. subst y. unfold f64_ge in Hge.
  pose proof one_token_pos.
  assert (units f64_one = one_token) as H1 by (change f64_one with (f64_of_Z 1); rewrite units_of_Z by lia; lia).
  assert (one_token ≤ units (tokens b)) as Hle.
  { rewrite compare_units, H1 in Hge by (done || by apply of_Z_finite || by apply of_Z_proper).
    destruct (Z.compare_spec (units (tokens b)) one_token); (done || lia). }
  destruct (sub_token (tokens b) Hf Hp) as (Hf' & Hp' & Hs).
  { unfold u32_max in Hu. split; [done|]. nia. }
  repeat (split; [done|]). rewrite Hs. lia.
Qed.

Definition limiter_ok (st : TokenBucketLimiter) : Prop := map_Forall (λ _ b, bucket_ok b) st.

(** A new bucket is full. *)
Lemma full_ok now capacity :
  0 ≤ capacity ≤ u32_max → bucket_ok {| tokens := f64_of_Z capacity; last_refill_unix_ms := now |}.
Proof.
  intros Hc. pose proof (capacity_units capacity ltac:(lia)). unfold bucket_ok, u32_max in *. cbn [tokens].
  rewrite units_of_Z by lia. split; [apply of_Z_finite; lia|]. split; [apply of_Z_proper; lia|done].
Qed.

(** The bucket a call meets, refilled. *)
Definition met (now capacity refill : Z) (o : option BucketState) : BucketState :=
  refill_bucket now refill (f64_of_Z capacity)
    (default {| tokens := f64_of_Z capacity; last_refill_unix_ms := now |} o).

Lemma met_ok now capacity refill o :
  0 ≤ capacity ≤ u32_max → 0 ≤ refill ≤ u32_max → (∀ b, o = Some b → bucket_ok b) → bucket_ok (met now capacity refill o).
Proof.
  intros Hc Hr Ho. unfold met.
  assert (bucket_ok (default {| tokens := f64_of_Z capacity; last_refill_unix_ms := now |} o)) as Hb.
  { destruct o as [b|]; [by apply Ho|]. by apply full_ok. }
  destruct (decide (refill = 0)) as [->|]; [exact Hb|]. apply refill_bucket_ok; [done|lia|done].
Qed.

Lemma try_acquire_ok now st key capacity refill :
  0 ≤ capacity ≤ u32_max → 0 ≤ refill ≤ u32_max → limiter_ok st → limiter_ok (try_acquire now st key capacity refill).2.
Proof.
  intros Hc Hr Hst. unfold try_acquire. destruct (capacity =? 0); [done|].
  fold (met now capacity refill (st !! key)).
  assert (bucket_ok (met now capacity refill (st !! key))) as Hb by (apply met_ok; [done|done|apply Hst]).
  destruct (f64_ge _ _) eqn:Hge; cbn [snd]; apply map_Forall_insert_2; try done.
  destruct (take_token_ok _ Hb Hge) as (H1 & H2 & H3 & H4). destruct Hb as (_ & _ & Hb).
  pose proof one_token_pos.
  split; [done|]. split; [done|]. cbn [tokens]. rewrite H3. lia.
Qed.

Lemma run_ok cs st : Forall call_ok cs → limiter_ok st → limiter_ok (run cs st).2.
Proof.
  revert st. induction cs as [|c cs IH]; intros st Hcs Hst; [done|]. apply Forall_cons in Hcs as [[Hc Hr] Hcs].
  cbn [run]. pose proof (try_acquire_ok (at_ms c) st (on_key c) (cap c) (refill_secs c) Hc Hr Hst) as Hst'.
  unfold serve. destruct (try_acquire _ _ _ _ _) as [ok st']. cbn [snd] in Hst'. specialize (IH st' Hcs Hst').
  by destruct (run cs st').
Qed.

(** How many of the answers on a key admit. *)
Definition admitted_on (k : string) (l : list (call * bool)) : nat :=
  length (filter (λ ca, on_key ca.1 = k ∧ ca.2 = true) l).

Section instant.
Variables (k : string) (t capacity refill : Z).
Hypotheses (Hcap : 0 ≤ capacity ≤ u32_max) (Hrefill : 0 < refill ≤ u32_max).

(** The tokens a call on [k] at [t] would find, in units. *)
Definition avail (st : TokenBucketLimiter) : Z := units (tokens (met t capacity refill (st !! k))).

(** A call takes the token it is granted and adds none. *)
Lemma try_acquire_avail st :
  limiter_ok st → let r := try_acquire t st k capacity refill in
  avail r.2 ≤ avail st - (if r.1 then one_token else 0) ∧ 0 ≤ avail r.2.
Proof.
  intros Hst r. split; [|apply units_nonneg]. subst r. unfold try_acquire.
  destruct (capacity =? 0); [cbn; lia|]. fold (met t capacity refill (st !! k)).
  assert (0 ≤ refill ≤ u32_max) as Hr by lia.
  assert (bucket_ok (met t capacity refill (st !! k))) as Hb by (apply met_ok; [done|done|apply Hst]).
  assert (last_refill_unix_ms (met t capacity refill (st !! k)) = t) as Hl.
  { unfold met, refill_bucket. by rewrite (proj2 (Z.ltb_lt _ _)) by lia. }
  unfold avail at 2. set (b := met t capacity refill (st !! k)) in *.
  destruct (f64_ge _ _) eqn:Hge; cbn [fst snd]; unfold avail; rewrite lookup_insert_eq; unfold met; cbn [default].
  - destruct (take_token_ok b Hb Hge) as (H1 & H2 & H3 & H4).
    set (b1 := {| tokens := f64_sub (tokens b) f64_one; last_refill_unix_ms := last_refill_unix_ms b |}).
    assert (bucket_ok b1) as Hb1.
    { destruct Hb as (_ & _ & Hu). split; [done|]. split; [done|]. unfold b1; cbn [tokens]. rewrite H3.
      pose proof one_token_pos. lia. }
    destruct (refill_bucket_ok t refill capacity b1 Hcap Hrefill Hb1) as (_ & _ & Hle & _).
    rewrite <-H3. exact (Hle Hl).
  - destruct (refill_bucket_ok t refill capacity b Hcap Hrefill Hb) as (_ & _ & Hle & _).
    rewrite Z.sub_0_r. exact (Hle Hl).
Qed.

Lemma instant_bounded bs st :
  limiter_ok st → Forall call_ok bs →
  Forall (λ c, on_key c = k → at_ms c = t ∧ cap c = capacity ∧ refill_secs c = refill) bs →
  Z.of_nat (admitted_on k (run bs st).1) * one_token ≤ avail st.
Proof.
  intros Hst Hok Hbs. revert st Hst. induction bs as [|c bs IH]; intros st Hst; [cbn; apply units_nonneg|].
  apply Forall_cons in Hok as [[Hc Hr] Hok]. apply Forall_cons in Hbs as [Hcb Hbs]. specialize (IH Hok Hbs).
  pose proof (try_acquire_ok (at_ms c) st (on_key c) (cap c) (refill_secs c) Hc Hr Hst) as Hst'.
  cbn [run]. unfold serve. destruct (decide (on_key c = k)) as [Hk|Hk].
  - destruct (Hcb Hk) as (Ht & Hc' & Hr'). rewrite Ht, Hc', Hr', Hk in *.
    pose proof (try_acquire_avail st Hst) as [Ha _]. destruct (try_acquire t st k capacity refill) as [ok st'].
    cbn [fst snd] in *. specialize (IH st' Hst'). destruct (run bs st') as [oks sf]. cbn [fst] in *.
    unfold admitted_on in *. destruct ok.
    + rewrite filter_cons_True by done. cbn [length]. lia.
    + rewrite filter_cons_False by (by intros [_ ?]). lia.
  - pose proof (try_acquire_other (at_ms c) st (on_key c) (cap c) (refill_secs c) k ltac:(done)) as Ho.
    destruct (try_acquire _ _ _ _ _) as [ok st']. cbn [snd] in *. specialize (IH st' Hst').
    assert (avail st' = avail st) as Ha by (unfold avail; by rewrite Ho). rewrite Ha in IH.
    destruct (run bs st') as [oks sf]. cbn [fst] in *. unfold admitted_on in *.
    rewrite filter_cons_False by (by intros [? _]). lia.
Qed.
End instant.

(** ** Properties *)

(** Keys are isolated: in any interleaved history of calls, the answers given
    for one key are those of the sub-history of that key alone, whatever the
    other keys' calls do. *)
Theorem limiter_keys_isolated k cs st :
  filter (λ ca, on_key ca.1 = k) (run cs st).1
  = (run (filter (λ c, on_key c = k) cs) st).1.
Proof. by apply run_local. Qed.

(** The budget is exact: on a key not seen before, of any number of calls made
    while no refill is due (the rate is zero, or every call reads the same
    instant) the first [capacity] are admitted and every later one is denied.
    The binary64 arithmetic loses no token. *)
Theorem limiter_budget_exact now key capacity refill ts st :
  0 ≤ capacity ≤ u32_max → 0 ≤ refill ≤ u32_max → st !! key = None →
  (refill = 0 ∨ Forall (λ t, t = now) ts) →
  (run ((λ t, {| at_ms := t; on_key := key; cap := capacity; refill_secs := refill |}) <$> ts) st).1.*2
  = take (length ts) (replicate (Z.to_nat capacity) true ++ replicate (length ts) false).
Proof.
  intros Hcap Href Hst Hts. destruct (decide (capacity = 0)) as [->|Hne].
  - clear Hts Hcap. change (replicate (Z.to_nat 0) true) with (@nil bool). rewrite app_nil_l, firstn_all2 by (rewrite length_replicate; lia). revert st Hst.
    induction ts as [|t ts IH]; intros st Hst; [done|]. cbn.
    specialize (IH st Hst). destruct (run _ st) as [oks s]. cbn in IH |- *. by rewrite IH.
  - apply (run_whole now); [lia|lia|lia|done|auto].
Qed.

Example limiter_budget_exact_witness :
  (run ((λ t, {| at_ms := t; on_key := "w:a"; cap := 2; refill_secs := 60 |}) <$> [5; 5; 5]) ∅).1.*2
  = take 3 (replicate 2 true ++ replicate 3 false).
Proof.
  apply (limiter_budget_exact 5 "w:a" 2 60 [5; 5; 5]); [done|done|done|].
  right. by repeat constructor.
Defined.



(** ** Clocks

    The clock behind the limiter, and the limiter's calls as they interleave:
    a call reads the clock before it asks for the lock. *)
Module Clocks.

(** The trait, over the clock's own state. *)
Class Clock (C : Type) := now_unix_ms : C → Z.

(** [SystemTime::now().duration_since(UNIX_EPOCH)] in milliseconds; [None] is a
    time before the epoch. *)
Definition SystemClock : Type := option N.

#[export] Instance SystemClock_Clock : Clock SystemClock := λ since_epoch,
  let millis := Z.of_N (default 0%N since_epoch) in
  if millis <=? i64_max then millis else i64_max.

(** The shared [AtomicI64] of a manual clock. *)
Record ManualClock := { now_ms : Z }.

Definition ManualClock_new (start_ms : Z) : ManualClock := {| now_ms := start_ms |}.

(** [fetch_add] wraps. *)
Definition advance_ms (c : ManualClock) (delta_ms : Z) : ManualClock :=
  {| now_ms := i64_wrap (now_ms c + delta_ms) |}.

Definition set (c : ManualClock) (t_ms : Z) : ManualClock := {| now_ms := t_ms |}.

#[export] Instance ManualClock_Clock : Clock ManualClock := now_ms.

(** A limiter with the clock it was given, the calls that have read the clock
    and wait for the lock, and the answers given so far. *)
Record Limiter := {
  inner : TokenBucketLimiter;
  clock : ManualClock;
  waiting : list call;
  answered : list (call * bool);
}.

Definition with_clock (c : ManualClock) : Limiter :=
  {| inner := TokenBucketLimiter_new; clock := c; waiting := []; answered := [] |}.

(** The two halves of [try_acquire]: up to the reading of the clock, and from
    the lock on. *)
Definition enter (key : string) (capacity refill_per_secs : Z) (l : Limiter) : Limiter :=
  let c := {| at_ms := now_unix_ms (clock l); on_key := key; cap := capacity;
              refill_secs := refill_per_secs |} in
  if capacity =? 0 then
    {| inner := inner l; clock := clock l; waiting := waiting l;
       answered := answered l ++ [(c, false)] |}
  else
    {| inner := inner l; clock := clock l; waiting := waiting l ++ [c]; answered := answered l |}.

Definition locked (pre : list call) (c : call) (post : list call) (l : Limiter) : Limiter :=
  let '(ok, st) := serve c (inner l) in
  {| inner := st; clock := clock l; waiting := pre ++ post; answered := answered l ++ [(c, ok)] |}.

(** A step: time passes, a call arrives, or a waiting call gets the lock. *)
Inductive step : Limiter → Limiter → Prop :=
  | step_tick l delta_ms :
      0 ≤ delta_ms → now_ms (clock l) + delta_ms ≤ i64_max →
      step l {| inner := inner l; clock := advance_ms (clock l) delta_ms;
                waiting := waiting l; answered := answered l |}
  | step_enter l key capacity refill_per_secs :
      step l (enter key capacity refill_per_secs l)
  | step_locked l pre c post :
      waiting l = pre ++ c :: post → step l (locked pre c post l).

(** Every answer is that of the atomic [try_acquire] at the reading the call
    made, over the history in lock order; calls of capacity zero touch nothing.
    So the theorems on [run] speak of every interleaving. *)
Definition explained (l : Limiter) : Prop :=
  run (answered l).*1 TokenBucketLimiter_new = (answered l, inner l).

Lemma run_snoc cs c st :
  run (cs ++ [c]) st
  = let r := run cs st in let s := serve c r.2 in (r.1 ++ [(c, s.1)], s.2).
Proof.
  revert st. induction cs as [|d cs IH]; intros st; cbn [run app].
  - cbn. by destruct (serve c st).
  - destruct (serve d st) as [ok s]. rewrite IH. by destruct (run cs s).
Qed.

Lemma explained_snoc l l' c :
  explained l → answered l' = answered l ++ [(c, (serve c (inner l)).1)] →
  inner l' = (serve c (inner l)).2 → explained l'.
Proof.
  unfold explained. intros Hl -> ->. rewrite fmap_app. cbn. by rewrite run_snoc, Hl.
Qed.

Lemma step_explained l l' : step l l' → explained l → explained l'.
Proof.
  intros Hs Hl. destruct Hs as [l d _ _|l key capacity refill|l pre c post Hw]; [exact Hl| |].
  - unfold enter. destruct (Z.eqb_spec capacity 0) as [->|Hne]; [|exact Hl].
    by eapply (explained_snoc l _ {| at_ms := _; cap := 0 |}).
  - eapply (explained_snoc l _ c); [done|..]; unfold locked; by destruct (serve c (inner l)).
Qed.

(** The interleavings of calls under a clock that only moves forward are
    histories of the atomic limiter in lock order. *)
Theorem interleaving_is_history c l :
  rtc step (with_clock c) l → explained l.
Proof.
  intros Hr. remember (with_clock c) as l0 eqn:E.
  assert (Hl : explained l0) by (by subst l0). clear E.
  induction Hr as [|l1 l2 l3 Hs _ IH]; [done|]. by apply IH, (step_explained l1).
Qed.

(** Lock order need not be the order of the readings, and the refill then
    restarts from the older one.  Of three calls on a bucket of one token a
    minute, the first reads minute 0 and is overtaken by the second, at minute 1;
    when the first is served it is denied but sets the bucket back to minute 0,
    and the third, still at minute 1, is granted the minute again: two tokens
    in one instant, under a clock that never went back. *)
Theorem overtaken_call_refills_twice : ∃ l,
  rtc step (with_clock (ManualClock_new 0)) l
  ∧ waiting l = []
  ∧ (λ a, (at_ms a.1, a.2)) <$> answered l = [(60000, true); (0, false); (60000, true)].
Proof.
  set (c t := {| at_ms := t; on_key := "w:a"; cap := 1; refill_secs := 60 |}).
  eexists. split; [|split].
  - eapply rtc_l; [apply (step_enter _ "w:a" 1 60)|].
    eapply rtc_l; [apply (step_tick _ 60000); [done|vm_compute; done]|].
    eapply rtc_l; [apply (step_enter _ "w:a" 1 60)|].
    eapply rtc_l; [by apply (step_locked _ [c 0] (c 60000) [])|].
    eapply rtc_l; [by apply (step_locked _ [] (c 0) [])|].
    eapply rtc_l; [apply (step_enter _ "w:a" 1 60)|].
    eapply rtc_l; [by apply (step_locked _ [] (c 60000) [])|].
    apply rtc_refl.
  - by vm_compute.
  - by vm_compute.
Qed.

(** The system clock's reading is an [i64] and never negative. *)
Lemma system_clock_range (t : SystemClock) : 0 ≤ now_unix_ms t ≤ i64_max.
Proof.
  unfold now_unix_ms, SystemClock_Clock, i64_max. cbv zeta.
  destruct (Z.leb_spec (Z.of_N (default 0%N t)) (2 ^ 63 - 1)); lia.
Qed.

End Clocks.
