(* ===== verification/PolicySpec.v ===== *)
(** * PolicySpec: what a policy backend promises

    The abstract side of the [Policy] trait: verdicts (decisions without their
    identifiers and rationale), precedence tables, and the contract every
    backend meets and the wallet service relies on. *)

From S2P Require Import Prelude Text Types PolicyTypes.
#[local] Open Scope string_scope.
#[local] Open Scope list_scope.
#[local] Open Scope Z_scope.

(** ** Verdicts *)

Inductive Verdict :=
  | VAllow
  | VDeny (why : DenyReason)
  | VQuorum (threshold total : Z) (approvers : ApproverSetId).

Definition verdict_of (d : PolicyDecision) : Verdict :=
  match d with
  | Allow _ _ _ => VAllow
  | Deny _ _ r _ => VDeny r
  | RequireQuorum _ _ t n s _ => VQuorum t n s
  end.

(** ** Precedence tables

    A table lists conditions with their verdicts; the verdict is that of the
    first condition that holds, and [last] decides when none does. *)
Fixpoint first_holds (table : list (Prop * Verdict)) (last : Verdict → Prop) (v : Verdict) : Prop :=
  match table with
  | [] => last v
  | (P, w) :: table => (P ∧ v = w) ∨ (¬ P ∧ first_holds table last v)
  end.

(** Tables with equivalent conditions decide alike. *)
Lemma first_holds_proper t1 t2 l1 l2 v :
  Forall2 (λ a b, (a.1 ↔ b.1) ∧ a.2 = b.2) t1 t2 → (∀ v, l1 v → l2 v) →
  first_holds t1 l1 v → first_holds t2 l2 v.
Proof.
  intros Ht Hl. induction Ht as [|[P w] [Q w'] t1 t2 [HPQ Hw] _ IH]; cbn in *; [by apply Hl|].
  subst w'. intros [[HP ->]|[HP H]]; [left|right]; rewrite <-HPQ; auto.
Qed.

(** A table is deterministic when its last clause is. *)
Lemma first_holds_functional table last v w :
  (∀ a b, last a → last b → a = b) →
  first_holds table last v → first_holds table last w → v = w.
Proof.
  intros Hl. induction table as [|[P x] table IH]; cbn; [by apply Hl|]. naive_solver.
Qed.

Lemma first_holds_some table v :
  first_holds table (λ _, False) v → Exists (λ row, row.1) table.
Proof. induction table as [|[P w] table IH]; cbn; [done|]. rewrite Exists_cons. naive_solver. Qed.

Lemma first_holds_none table last v :
  first_holds table last v → Forall (λ row, row.2 ≠ v) table → Forall (λ row, ¬ row.1) table.
Proof.
  induction table as [|[P w] table IH]; cbn; [by constructor|].
  rewrite !Forall_cons. naive_solver.
Qed.

(** A verdict that belongs to no row comes from the last clause. *)
Lemma first_holds_last table last v :
  first_holds table last v → Forall (λ row, row.2 ≠ v) table → last v.
Proof.
  induction table as [|[P w] table IH]; cbn; [done|]. rewrite Forall_cons. naive_solver.
Qed.

Lemma first_holds_app t1 t2 last v :
  first_holds (t1 ++ t2) last v ↔ first_holds t1 (first_holds t2 last) v.
Proof. induction t1 as [|[P w] t1 IH]; cbn; [done|]. by rewrite IH. Qed.

(** Walk down a table: take the first row whose condition is provable. *)
Ltac table_row :=
  first [ reflexivity
        | left; split; [by eauto|reflexivity]
        | right; split; [intros ?; by (destruct_and?; simplify_eq || naive_solver)|] ].

Ltac table_done := eexists; split; [reflexivity|]; cbn; repeat table_row.

(** ** The rationale *)

Definition verdict_effect (v : Verdict) : RuleEffect :=
  match v with VAllow => EffectAllow | VDeny _ => EffectDeny | VQuorum _ _ _ => EffectRequireQuorum end.

Definition rationale_of (d : PolicyDecision) : list RuleHit :=
  match d with Allow _ _ r | Deny _ _ _ r | RequireQuorum _ _ _ _ _ r => r end.

Definition decision_policy (d : PolicyDecision) : PolicyId :=
  match d with Allow _ p _ | Deny _ p _ _ | RequireQuorum _ p _ _ _ _ => p end.

(** The rationale ends with the rule that decided, after filters that passed. *)
Definition explains (d : PolicyDecision) : Prop :=
  ∃ passed hit, rationale_of d = passed ++ [hit]
    ∧ Forall (λ h, effect h = EffectAllow) passed
    ∧ effect hit = verdict_effect (verdict_of d).

(** ** The contract of a backend *)

Class PolicyContract (S : Type) `{Policy S} := {
  (** The configuration a constructor accepts. *)
  policy_wf : S → Prop;
  (** The identifier the policy stamps on its decisions. *)
  policy_ident : S → PolicyId;
  (** A well-formed policy always decides; the decision carries the fresh
      identifier, the policy's own, and an explanation; the configuration
      stays well formed. *)
  policy_decides : ∀ s clock fresh req, policy_wf s →
    ∃ d, (policy_evaluate s clock fresh req).1 = Ok d
         ∧ decision_id d = fresh ∧ decision_policy d = policy_ident s ∧ explains d
         ∧ policy_wf (policy_evaluate s clock fresh req).2
         ∧ policy_ident (policy_evaluate s clock fresh req).2 = policy_ident s;
}.
