(* ===== verification/StaticPolicy.v ===== *)
(** * StaticPolicy: [StaticAllowDenyPolicy] of [static_policy.rs] *)

From S2P Require Import Prelude Text Types External PolicyTypes PolicySpec.
From Stdlib Require Import Ascii.
#[local] Open Scope string_scope.
#[local] Open Scope list_scope.
#[local] Open Scope Z_scope.

Section static.
Context `{UlidCrate}.

Record StaticAllowDenyPolicy := {
  static_policy_id : PolicyId;
  allowed_chains : option (gset Z);
  denied_chains : gset Z;
  allowed_requesters : option (gset string);
  denied_requesters : gset string;
  wallet_inactive : bool;
  static_default : AllowDefault;
}.

Definition requester_key (req : Requester) : string :=
  match req with
  | ApiKey key_id => "api:" +:+ key_id
  | OAuthSubject sub => "oauth:" +:+ sub
  | NestedWallet wallet_id => "wallet:" +:+ ulid_to_string (WalletId_ulid wallet_id)
  | OnChainContract chain_id address =>
      "contract:" +:+ show_dec chain_id +:+ ":" +:+ hex_encode address
  end.

(** An early return with a denial; [Ok ()] falls through to the next check. *)
Definition static_deny (p : StaticAllowDenyPolicy) (fresh : DecisionId) (why : DenyReason)
    (id reason : string) : result PolicyDecision () :=
  Err (Deny fresh (static_policy_id p) why
    [{| rule_id := id; effect := EffectDeny; reason := Some reason |}]).

Definition check_chain (p : StaticAllowDenyPolicy) (fresh : DecisionId) (request : SigningRequest)
    : result PolicyDecision () :=
  match payload_chain_id (payload request) with
  | None => Ok ()
  | Some chain_id =>
      if bool_decide (chain_id ∈ denied_chains p) then
        static_deny p fresh ChainDenied "denied-chain"
          ("chain " +:+ show_dec chain_id +:+ " is denied")
      else match allowed_chains p with
      | Some allow =>
          if bool_decide (chain_id ∈ allow) then Ok ()
          else static_deny p fresh ChainNotAllowed "chain-not-on-allow-list"
                 ("chain " +:+ show_dec chain_id +:+ " not in allow list")
      | None => Ok ()
      end
  end.

Definition check_requester (p : StaticAllowDenyPolicy) (fresh : DecisionId)
    (request : SigningRequest) : result PolicyDecision () :=
  let req_key := requester_key (requester request) in
  if bool_decide (req_key ∈ denied_requesters p) then
    static_deny p fresh RequesterNotAllowed "denied-requester"
      ("requester " +:+ req_key +:+ " is denied")
  else match allowed_requesters p with
  | Some allow =>
      if bool_decide (req_key ∈ allow) then Ok ()
      else static_deny p fresh RequesterNotAllowed "requester-not-on-allow-list"
             ("requester " +:+ req_key +:+ " not in allow list")
  | None => Ok ()
  end.

Definition static_outcome (p : StaticAllowDenyPolicy) (fresh : DecisionId) : PolicyDecision :=
  match static_default p with
  | DefaultAllow => Allow fresh (static_policy_id p)
      [{| rule_id := "default-allow"; effect := EffectAllow;
          reason := Some "no explicit deny matched; default is allow" |}]
  | DefaultDeny => Deny fresh (static_policy_id p) (Other "policy default")
      [{| rule_id := "default-deny"; effect := EffectDeny;
          reason := Some "no explicit allow matched; default is deny" |}]
  end.

Definition static_evaluate (p : StaticAllowDenyPolicy) (fresh : DecisionId)
    (request : SigningRequest) : result PolicyError PolicyDecision :=
  let checks :=
    _ ← (if wallet_inactive p then
           static_deny p fresh WalletInactive "wallet-inactive" "wallet is frozen or revoked"
         else Ok ());
    _ ← check_chain p fresh request;
    check_requester p fresh request in
  match checks with
  | Err denied => Ok denied
  | Ok _ => Ok (static_outcome p fresh)
  end.

#[export] Instance static_policy : Policy StaticAllowDenyPolicy :=
  {| policy_evaluate p _ fresh request := (static_evaluate p fresh request, p) |}.

#[export] Program Instance static_contract : PolicyContract StaticAllowDenyPolicy :=
  {| policy_wf _ := True; policy_ident := static_policy_id |}.
Next Obligation.
  intros p clock fresh req _. cbn. unfold static_evaluate.
  destruct (_ ≫= _) as [?|d] eqn:Hc.
  - eexists. split; [done|]. unfold static_outcome.
    destruct (static_default p); repeat split; exists []; eexists; repeat split; by constructor.
  - exists d. split; [done|].
    assert (∃ why id reason, static_deny p fresh why id reason = Err d) as (why & id & rsn & [= <-]).
    { unfold check_chain, check_requester in Hc. repeat (case_match; cbn in Hc); simplify_eq; eauto. }
    repeat split. exists []. eexists. repeat split. by constructor.
Qed.

(** ** Properties *)

(** The precedence table of the module's documentation. *)
Definition static_table (p : StaticAllowDenyPolicy) (req : SigningRequest)
    : list (Prop * Verdict) :=
  let key := requester_key (requester req) in
  [ (wallet_inactive p = true, VDeny WalletInactive);
    ((∃ c, payload_chain_id (payload req) = Some c ∧ c ∈ denied_chains p), VDeny ChainDenied);
    ((∃ c allow, payload_chain_id (payload req) = Some c ∧ allowed_chains p = Some allow
                 ∧ c ∉ allow), VDeny ChainNotAllowed);
    (key ∈ denied_requesters p, VDeny RequesterNotAllowed);
    ((∃ allow, allowed_requesters p = Some allow ∧ key ∉ allow), VDeny RequesterNotAllowed) ].

Definition default_verdict (d : AllowDefault) : Verdict :=
  match d with DefaultAllow => VAllow | DefaultDeny => VDeny (Other "policy default") end.

(** The static policy implements its documented precedence: it always
    decides, and the verdict is that of the first condition of the table that
    holds, or the default. *)
Theorem static_policy_precedence p fresh req :
  ∃ d, static_evaluate p fresh req = Ok d
       ∧ first_holds (static_table p req) (λ v, v = default_verdict (static_default p))
           (verdict_of d).
Proof.
  unfold static_evaluate, check_chain, check_requester, static_table, static_outcome, static_deny.
  destruct (wallet_inactive p); cbn [first_holds mbind result_bind]; [eexists; split; [done|by left]|].
  set (key := requester_key _). destruct (payload_chain_id (payload req)) as [c|]; cbn -[key].
  - destruct (bool_decide_reflect (c ∈ denied_chains p)); [table_done|].
    destruct (allowed_chains p) as [ch|];
      [destruct (bool_decide_reflect (c ∈ ch)); cbn -[key]; [|table_done]|];
      (destruct (bool_decide_reflect (key ∈ denied_requesters p)); [table_done|]);
      (destruct (allowed_requesters p) as [rs|];
        [destruct (bool_decide_reflect (key ∈ rs)); cbn -[key]; [|table_done]|]);
      destruct (static_default p); table_done.
  - destruct (bool_decide_reflect (key ∈ denied_requesters p)); [table_done|].
    destruct (allowed_requesters p) as [rs|];
      [destruct (bool_decide_reflect (key ∈ rs)); cbn -[key]; [|table_done]|];
      destruct (static_default p); table_done.
Qed.

(** Requester keys are injective: two requesters share an allow/deny entry or a
    rate-limit bucket only if they are the same requester. *)
Theorem requester_key_injective `{!UlidLaws} r1 r2 :
  match r1, r2 with
  | NestedWallet w1, NestedWallet w2 => is_ulid (WalletId_ulid w1) ∧ is_ulid (WalletId_ulid w2)
  | OnChainContract c1 _, OnChainContract c2 _ => 0 ≤ c1 ∧ 0 ≤ c2
  | _, _ => True
  end →
  requester_key r1 = requester_key r2 → r1 = r2.
Proof.
  destruct r1 as [k1|s1|[w1]|c1 a1], r2 as [k2|s2|[w2]|c2 a2]; cbn [requester_key];
    intros Hwf Heq; try (exfalso; rewrite !append_cons in Heq; discriminate Heq).
  - f_equal. by apply append_inj_l in Heq.
  - f_equal. by apply append_inj_l in Heq.
  - do 2 f_equal. apply ulid_inj; [apply Hwf..|]. by apply append_inj_l in Heq.
  - apply append_inj_l, (append_inj_sep ":"%char) in Heq as [Hc Ha].
    + f_equal; [apply show_dec_inj; [apply Hwf..|done]|by apply hex_encode_inj].
    + apply HdPath.show_dec_not_char; [done|apply Hwf].
    + apply HdPath.show_dec_not_char; [done|apply Hwf].
Qed.

End static.

Module StaticWitness.
Import Concrete.

Example requester_key_injective_witness :
  NestedWallet (WalletId_from_ulid 7) = NestedWallet (WalletId_from_ulid 7).
Proof. apply requester_key_injective; [by split|reflexivity]. Defined.

End StaticWitness.
