(* ===== verification/RuleSetPolicy.v ===== *)
(** * RuleSetPolicy: the policy DSL evaluator of [rule_set_policy.rs]

    [evaluate] is the composition of eleven gates, one definition per numbered
    block of the source.  A gate either returns early with the final result
    ([Err]) or continues with the rationale gathered so far ([Ok]).  Only the
    rate-limit gate touches state: the limiter, threaded explicitly. *)

From S2P Require Import Prelude Text Types External PolicyTypes PolicySpec StaticPolicy F64 RateLimit.
#[local] Open Scope string_scope.
#[local] Open Scope list_scope.
#[local] Open Scope Z_scope.

Section ruleset.
Context `{UlidCrate, HexCrate, TimeCrate, U256Crate}.

Record RuleSetPolicy := {
  rsp_rules : RuleSet;
  rsp_limiter : TokenBucketLimiter;
  rsp_decoder : option VmDecoder;
}.

(** ** Construction *)

Definition parse_u256 (s : string) : option Z :=
  let trimmed := trim s in
  if bool_decide (trimmed = "") then None else u256_from_dec_str trimmed.

Definition require_hex (msg : string) (s : string) : result PolicyError bytes :=
  ok_or (hex_to_bytes s) (Misconfiguration msg).

(** A selector must be exactly four bytes. *)
Definition validate_selector (bad_hex bad_len : string) (sel : string) : result PolicyError () :=
  bs ← require_hex bad_hex sel;
  ensure (bool_decide (length bs = 4%nat)) (Misconfiguration bad_len).

Definition validate_rule (rule : Rule) : result PolicyError () :=
  match rule with
  | AllowContract _ addresses | DenyContract _ addresses =>
      iter_result (λ a, ensure (bool_decide (is_Some (hex_to_bytes a)))
        (Misconfiguration "invalid hex address in contract rule")) addresses
  | AllowMethod _ contract selectors =>
      _ ← match contract with
          | Some c => ensure (bool_decide (is_Some (hex_to_bytes c)))
                        (Misconfiguration "invalid hex contract in allow_method rule")
          | None => Ok ()
          end;
      iter_result (validate_selector "invalid hex selector in allow_method rule"
                     "method selector must be exactly 4 bytes") selectors
  | ValueCap _ max_value =>
      _ ← ok_or (parse_u256 max_value) (Misconfiguration "invalid decimal U256 in value_cap rule");
      mret ()
  | RateLimit tokens _ _ =>
      ensure (negb (tokens =? 0)) (Misconfiguration "rate_limit tokens must be > 0")
  | TimeWindow weekday_mask hour_utc_start hour_utc_end =>
      _ ← ensure (Z.land weekday_mask 0x80 =? 0) (Misconfiguration "weekday_mask bit 7 is reserved");
      ensure (negb ((23 <? hour_utc_start) || (24 <? hour_utc_end)))
        (Misconfiguration "time_window hours out of range")
  | RuleRequireQuorum threshold total _ trigger =>
      _ ← ensure (negb ((threshold =? 0) || (total =? 0) || (total <? threshold)))
            (Misconfiguration "quorum threshold/total invalid");
      match trigger with
      | ValueGte _ value =>
          _ ← ok_or (parse_u256 value) (Misconfiguration "invalid decimal U256 in quorum trigger");
          mret ()
      | _ => Ok ()
      end
  | VmShape _ constraints =>
      _ ← match PolicyTypes.max_value constraints with
          | Some v => _ ← ok_or (parse_u256 v)
                            (Misconfiguration "invalid decimal U256 in vm_shape.max_value"); mret ()
          | None => Ok ()
          end;
      match allowed_method_selectors constraints with
      | Some sels => iter_result (validate_selector "invalid hex selector in vm_shape rule"
                                    "vm_shape selector must be exactly 4 bytes") sels
      | None => Ok ()
      end
  | AllowChain _ | DenyChain _ => Ok ()
  end.

Definition validate (rs : RuleSet) : result PolicyError () :=
  _ ← ensure (version rs =? 1) (Misconfiguration "unsupported policy version");
  iter_result validate_rule (rules rs).

Definition with_components (rs : RuleSet) (limiter : TokenBucketLimiter)
    (decoder : option VmDecoder) : result PolicyError RuleSetPolicy :=
  _ ← validate rs;
  mret {| rsp_rules := rs; rsp_limiter := limiter; rsp_decoder := decoder |}.

Definition RuleSetPolicy_new (rs : RuleSet) : result PolicyError RuleSetPolicy :=
  with_components rs TokenBucketLimiter_new None.

(** ** Helpers *)

Definition rate_limit_key (scope : RateLimitScope) (req : SigningRequest) : string :=
  let r := requester_key (requester req) in
  let w := ulid_to_string (WalletId_ulid (wallet_id req)) in
  match scope with
  | PerWallet => "wallet:" +:+ w
  | PerRequester => "req:" +:+ r
  | PerWalletRequester => "wr:" +:+ w +:+ "|" +:+ r
  end.

Definition time_window_contains (unix_ms weekday_mask hour_utc_start hour_utc_end : Z) : bool :=
  match from_unix_timestamp (i64_div unix_ms 1000) with
  | None => false
  | Some odt =>
      let day_ok := Z.land (Z.shiftr weekday_mask (number_days_from_monday odt)) 1 =? 1 in
      if negb day_ok then false
      else if hour_utc_start <? hour_utc_end then
        (hour_utc_start <=? hour odt) && (hour odt <? hour_utc_end)
      else (hour_utc_start <=? hour odt) || (hour odt <? hour_utc_end)
  end.

Definition push (rationale : list RuleHit) (id : string) (eff : RuleEffect) (why : string)
    : list RuleHit :=
  rationale ++ [{| rule_id := id; effect := eff; reason := Some why |}].

(** ** The gates *)

(** What [evaluate] computes before the first gate. *)
Record EvalCtx := {
  ctx_policy_id : PolicyId;
  ctx_decision_id : DecisionId;
  ctx_rules : list Rule;
  ctx_request : SigningRequest;
  req_chain : option Z;
  req_to : option bytes;
  req_vm : option VmType;
  decoded : option DecodedTx;
}.

Definition make_ctx (self : RuleSetPolicy) (fresh : DecisionId) (request : SigningRequest)
    : EvalCtx :=
  let vm := payload_vm (payload request) in
  let raw_bytes := match payload request with VmTransaction _ _ _ raw => raw | _ => [] end in
  {| ctx_policy_id := PolicyTypes.policy_id (rsp_rules self);
     ctx_decision_id := fresh;
     ctx_rules := rules (rsp_rules self);
     ctx_request := request;
     req_chain := payload_chain_id (payload request);
     req_to := match payload request with VmTransaction _ _ to _ => to | _ => None end;
     req_vm := vm;
     decoded := match rsp_decoder self, vm with
                | Some dec, Some vm => dec vm raw_bytes
                | _, _ => None
                end |}.

Definition decoded_value (x : EvalCtx) : option Z := d ← decoded x; tx_value d.
Definition decoded_gas (x : EvalCtx) : option Z := d ← decoded x; tx_gas_limit d.
Definition decoded_selector (x : EvalCtx) : option bytes := d ← decoded x; tx_method_selector d.

Definition Early : Type := result PolicyError PolicyDecision.
Definition Gate : Type := result Early (list RuleHit).

Definition deny {A} (x : EvalCtx) (rationale : list RuleHit) (why : DenyReason) (id text : string)
    : result Early A :=
  Err (Ok (Deny (ctx_decision_id x) (ctx_policy_id x) why (push rationale id EffectDeny text))).

(** A failed [parse_u256(..).ok_or(..)?] leaves [evaluate] with the error. *)
Definition try_u256 (s msg : string) : result Early Z :=
  match parse_u256 s with Some v => Ok v | None => Err (Err (Misconfiguration msg)) end.

(** 1. DenyChain *)
Definition gate_deny_chain (x : EvalCtx) (rationale : list RuleHit) : Gate :=
  match req_chain x with
  | None => mret rationale
  | Some chain =>
      _ ← iter_result (λ rule, match rule with
            | DenyChain chain_ids =>
                if contains chain_ids chain then
                  deny x rationale ChainDenied "deny-chain"
                    ("chain " +:+ show_dec chain +:+ " is on deny list")
                else Ok ()
            | _ => Ok ()
            end) (ctx_rules x);
      mret rationale
  end.

(** 2. DenyContract *)
Definition gate_deny_contract (x : EvalCtx) (rationale : list RuleHit) : Gate :=
  match req_chain x, req_to x with
  | Some chain, Some to =>
      _ ← iter_result (λ rule, match rule with
            | DenyContract chain_id addresses =>
                if (chain_id =? chain) && address_in addresses to then
                  deny x rationale (Other "contract denied") "deny-contract"
                    "contract address is on deny list"
                else Ok ()
            | _ => Ok ()
            end) (ctx_rules x);
      mret rationale
  | _, _ => mret rationale
  end.

(** 3. AllowChain filter *)
Definition gate_allow_chain (x : EvalCtx) (rationale : list RuleHit) : Gate :=
  let any_allow_chain := any (λ r, match r with AllowChain _ => true | _ => false end) (ctx_rules x) in
  if any_allow_chain then
    let chain_allowed := is_some_and (req_chain x) (λ c,
      any (λ r, match r with AllowChain chain_ids => contains chain_ids c | _ => false end)
        (ctx_rules x)) in
    if negb chain_allowed then
      deny x rationale ChainNotAllowed "allow-chain-filter" "chain not present in any allow_chain rule"
    else
      mret (push rationale "allow-chain-filter" EffectAllow "chain present in allow_chain rule")
  else mret rationale.

(** 4. AllowContract filter, per chain *)
Definition gate_allow_contract (x : EvalCtx) (rationale : list RuleHit) : Gate :=
  match req_chain x with
  | None => mret rationale
  | Some chain =>
      let any_allow_contract_for_chain :=
        any (λ r, match r with AllowContract chain_id _ => chain_id =? chain | _ => false end)
          (ctx_rules x) in
      if any_allow_contract_for_chain then
        let allowed := is_some_and (req_to x) (λ to,
          any (λ r, match r with
                    | AllowContract chain_id addresses =>
                        (chain_id =? chain) && address_in addresses to
                    | _ => false
                    end) (ctx_rules x)) in
        if negb allowed then
          deny x rationale (Other "contract not on allow list") "allow-contract-filter"
            "contract not on allow list for chain"
        else mret (push rationale "allow-contract-filter" EffectAllow "contract on allow list")
      else mret rationale
  end.

(** 5. AllowMethod filter *)
Definition method_applicable (chain : Z) (to : option bytes) (r : Rule) : bool :=
  match r with
  | AllowMethod chain_id contract _ =>
      (chain_id =? chain) &&
      match contract, to with
      | None, _ => true
      | Some addr, Some to => address_eq addr to
      | Some _, None => false
      end
  | _ => false
  end.

Definition selector_in (selectors : list string) (sel : bytes) : bool :=
  any (λ s, is_some_and (hex_to_bytes s) (λ b, bool_decide (b = sel))) selectors.

Definition gate_allow_method (x : EvalCtx) (rationale : list RuleHit) : Gate :=
  match req_chain x with
  | None => mret rationale
  | Some chain =>
      let applicable := List.filter (method_applicable chain (req_to x)) (ctx_rules x) in
      match applicable with
      | [] => mret rationale
      | _ =>
          let ok := is_some_and (decoded_selector x) (λ sel,
            any (λ r, match r with
                      | AllowMethod _ _ selectors => selector_in selectors sel
                      | _ => false
                      end) applicable) in
          if negb ok then
            deny x rationale (Other "method not allowed") "allow-method-filter"
              "method selector not on allow list (or missing decoder)"
          else mret (push rationale "allow-method-filter" EffectAllow "method selector on allow list")
      end
  end.

(** 6. ValueCap *)
Definition gate_value_cap (x : EvalCtx) (rationale : list RuleHit) : Gate :=
  match req_chain x with
  | None => mret rationale
  | Some chain =>
      _ ← iter_result (λ rule, match rule with
            | ValueCap chain_id max_value =>
                if negb (chain_id =? chain) then Ok ()
                else
                  max ← try_u256 max_value "invalid U256 in value_cap";
                  match decoded_value x with
                  | Some v =>
                      if max <? v then
                        deny x rationale (Other "value cap exceeded") "value-cap"
                          "transaction value exceeds cap"
                      else Ok ()
                  | None => Ok ()
                  end
            | _ => Ok ()
            end) (ctx_rules x);
      mret rationale
  end.

(** 7. TimeWindow *)
Definition gate_time_window (x : EvalCtx) (rationale : list RuleHit) : Gate :=
  _ ← iter_result (λ rule, match rule with
        | TimeWindow weekday_mask hour_utc_start hour_utc_end =>
            let in_window := time_window_contains (received_at_unix_ms (ctx_request x))
                               weekday_mask hour_utc_start hour_utc_end in
            if negb in_window then
              deny x rationale (Other "outside time window") "time-window"
                "request outside permitted UTC time window"
            else Ok ()
        | _ => Ok ()
        end) (ctx_rules x);
  mret rationale.

(** 8. RateLimit: the loop stops at the first exhausted bucket; [n] counts the
    readings of the clock. *)
Fixpoint acquire_all (request : SigningRequest) (clock : nat → Z) (n : nat)
    (st : TokenBucketLimiter) (rs : list Rule) : bool * TokenBucketLimiter :=
  match rs with
  | [] => (true, st)
  | RateLimit tokens refill_per_secs scope :: rs =>
      let key := rate_limit_key scope request in
      let '(ok, st) := try_acquire (clock n) st key tokens refill_per_secs in
      if ok then acquire_all request clock (S n) st rs else (false, st)
  | _ :: rs => acquire_all request clock n st rs
  end.

Definition gate_rate_limit (x : EvalCtx) (clock : nat → Z) (st : TokenBucketLimiter)
    (rationale : list RuleHit) : Gate * TokenBucketLimiter :=
  let '(ok, st) := acquire_all (ctx_request x) clock 0 st (ctx_rules x) in
  if ok then (mret rationale, st)
  else (deny x rationale (Other "rate limited") "rate-limit" "token-bucket exhausted", st).

(** 9. VmShape: the three constraints of one rule, in the order of the source. *)
Definition shape_max_value (x : EvalCtx) (rationale : list RuleHit) (c : VmShapeConstraints)
    : result Early () :=
  match PolicyTypes.max_value c with
  | None => Ok ()
  | Some max_v_str =>
      max ← try_u256 max_v_str "invalid U256 in vm_shape.max_value";
      match decoded_value x with
      | Some v =>
          if max <? v then
            deny x rationale (Other "vm-shape constraint") "vm-shape-max-value"
              "vm_shape.max_value exceeded"
          else Ok ()
      | None => Ok ()
      end
  end.

Definition shape_max_gas (x : EvalCtx) (rationale : list RuleHit) (c : VmShapeConstraints)
    : result Early () :=
  match max_gas c, decoded_gas x with
  | Some max_gas, Some g =>
      if max_gas <? g then
        deny x rationale (Other "vm-shape constraint") "vm-shape-max-gas" "vm_shape.max_gas exceeded"
      else Ok ()
  | _, _ => Ok ()
  end.

Definition shape_selectors (x : EvalCtx) (rationale : list RuleHit) (c : VmShapeConstraints)
    : result Early () :=
  match allowed_method_selectors c, decoded_selector x with
  | Some allowed_sels, Some sel =>
      if negb (selector_in allowed_sels sel) then
        deny x rationale (Other "vm-shape constraint") "vm-shape-method"
          "vm_shape selector not allowed"
      else Ok ()
  | _, _ => Ok ()
  end.

Definition gate_vm_shape (x : EvalCtx) (rationale : list RuleHit) : Gate :=
  match req_vm x with
  | None => mret rationale
  | Some rvm =>
      _ ← iter_result (λ rule, match rule with
            | VmShape vm constraints =>
                if negb (bool_decide (vm = rvm)) then Ok ()
                else
                  _ ← shape_max_value x rationale constraints;
                  _ ← shape_max_gas x rationale constraints;
                  shape_selectors x rationale constraints
            | _ => Ok ()
            end) (ctx_rules x);
      mret rationale
  end.

(** 10. RequireQuorum *)
Definition trigger_fires (x : EvalCtx) (trigger : QuorumTrigger) : result Early bool :=
  match trigger with
  | Always => Ok true
  | ValueGte chain_id value =>
      thresh ← try_u256 value "invalid U256 in quorum value_gte trigger";
      mret (match req_chain x, decoded_value x with
            | Some c, Some v => (c =? chain_id) && (thresh <=? v)
            | _, _ => false
            end)
  | OutsideTimeWindow weekday_mask hour_utc_start hour_utc_end =>
      Ok (negb (time_window_contains (received_at_unix_ms (ctx_request x))
                  weekday_mask hour_utc_start hour_utc_end))
  end.

Definition quorum_rule (x : EvalCtx) (rationale : list RuleHit) (rule : Rule) : result Early () :=
  match rule with
  | RuleRequireQuorum threshold total approver_set trigger =>
      fires ← trigger_fires x trigger;
      if fires : bool then
        Err (Ok (RequireQuorum (ctx_decision_id x) (ctx_policy_id x) threshold total approver_set
          (push rationale "require-quorum" EffectRequireQuorum "quorum trigger matched")))
      else Ok ()
  | _ => Ok ()
  end.

Definition gate_quorum (x : EvalCtx) (rationale : list RuleHit) : Gate :=
  _ ← iter_result (quorum_rule x rationale) (ctx_rules x);
  mret rationale.

(** 11. default *)
Definition default_decision (x : EvalCtx) (d : AllowDefault) (rationale : list RuleHit)
    : PolicyDecision :=
  match d with
  | DefaultAllow => Allow (ctx_decision_id x) (ctx_policy_id x)
      (push rationale "default-allow" EffectAllow "no terminating rule matched; default is allow")
  | DefaultDeny => Deny (ctx_decision_id x) (ctx_policy_id x) (Other "policy default")
      (push rationale "default-deny" EffectDeny "no terminating rule matched; default is deny")
  end.

(** Gates 1 to 7 do not touch the limiter; gates 9 to 11 follow it. *)
Definition stateless_gates (x : EvalCtx) : Gate :=
  r ← gate_deny_chain x [];
  r ← gate_deny_contract x r;
  r ← gate_allow_chain x r;
  r ← gate_allow_contract x r;
  r ← gate_allow_method x r;
  r ← gate_value_cap x r;
  gate_time_window x r.

Definition final_gates (x : EvalCtx) (d : AllowDefault) (rationale : list RuleHit) : Early :=
  match r ← gate_vm_shape x rationale; gate_quorum x r with
  | Err early => early
  | Ok r => Ok (default_decision x d r)
  end.

Definition evaluate (self : RuleSetPolicy) (clock : nat → Z) (fresh : DecisionId)
    (request : SigningRequest) : result PolicyError PolicyDecision * RuleSetPolicy :=
  let x := make_ctx self fresh request in
  match stateless_gates x with
  | Err early => (early, self)
  | Ok r =>
      let '(g, st) := gate_rate_limit x clock (rsp_limiter self) r in
      let self := {| rsp_rules := rsp_rules self; rsp_limiter := st;
                     rsp_decoder := rsp_decoder self |} in
      match g with
      | Err early => (early, self)
      | Ok r => (final_gates x (default_outcome (rsp_rules self)) r, self)
      end
  end.

#[export] Instance rule_set_policy : Policy RuleSetPolicy := {| policy_evaluate := evaluate |}.

End ruleset.
