(* ===== verification/RuleSetProofs.v ===== *)
(** * RuleSetProofs: the precedence contract of the policy DSL

    The documented precedence of [rule_set_policy.rs] as a table of
    declarative conditions over the rules, and the theorem that [evaluate]
    implements it; then the consequences an operator relies on. *)

From S2P Require Import Prelude Text Types External PolicyTypes PolicySpec StaticPolicy F64 RateLimit RuleSetPolicy.
#[local] Open Scope string_scope.
#[local] Open Scope list_scope.
#[local] Open Scope Z_scope.

Section spec.
Context `{UlidCrate, HexCrate, TimeCrate, U256Crate}.

(** ** The conditions of the table *)

Section conditions.
Variable x : EvalCtx.

Definition chain_denied : Prop :=
  ∃ c ids, req_chain x = Some c ∧ DenyChain ids ∈ ctx_rules x ∧ c ∈ ids.

Definition contract_denied : Prop :=
  ∃ c to addrs a, req_chain x = Some c ∧ req_to x = Some to
    ∧ DenyContract c addrs ∈ ctx_rules x ∧ a ∈ addrs ∧ address_eq a to = true.

Definition chain_not_allowed : Prop :=
  (∃ ids, AllowChain ids ∈ ctx_rules x)
  ∧ ¬ ∃ c ids, req_chain x = Some c ∧ AllowChain ids ∈ ctx_rules x ∧ c ∈ ids.

Definition contract_not_allowed : Prop :=
  ∃ c, req_chain x = Some c ∧ (∃ addrs, AllowContract c addrs ∈ ctx_rules x)
    ∧ ¬ ∃ to addrs a, req_to x = Some to ∧ AllowContract c addrs ∈ ctx_rules x
                      ∧ a ∈ addrs ∧ address_eq a to = true.

Definition method_not_allowed : Prop :=
  ∃ c, req_chain x = Some c
    ∧ (∃ r, r ∈ ctx_rules x ∧ method_applicable c (req_to x) r = true)
    ∧ ¬ ∃ sel contract sels s, decoded_selector x = Some sel
          ∧ AllowMethod c contract sels ∈ ctx_rules x
          ∧ method_applicable c (req_to x) (AllowMethod c contract sels) = true
          ∧ s ∈ sels ∧ hex_to_bytes s = Some sel.

Definition value_capped : Prop :=
  ∃ c m max v, req_chain x = Some c ∧ ValueCap c m ∈ ctx_rules x ∧ parse_u256 m = Some max
    ∧ decoded_value x = Some v ∧ max < v.

Definition outside_window : Prop :=
  ∃ mask s e, TimeWindow mask s e ∈ ctx_rules x
    ∧ time_window_contains (received_at_unix_ms (ctx_request x)) mask s e = false.

Definition shape_breaks (c : VmShapeConstraints) : Prop :=
  (∃ m max v, PolicyTypes.max_value c = Some m ∧ parse_u256 m = Some max
              ∧ decoded_value x = Some v ∧ max < v)
  ∨ (∃ max g, max_gas c = Some max ∧ decoded_gas x = Some g ∧ max < g)
  ∨ (∃ sels sel, allowed_method_selectors c = Some sels ∧ decoded_selector x = Some sel
                 ∧ ∀ s, s ∈ sels → hex_to_bytes s ≠ Some sel).

Definition shape_violated : Prop :=
  ∃ vm c, req_vm x = Some vm ∧ VmShape vm c ∈ ctx_rules x ∧ shape_breaks c.

Definition fires (t : QuorumTrigger) : Prop :=
  match t with
  | Always => True
  | ValueGte c s => ∃ thresh v, parse_u256 s = Some thresh ∧ req_chain x = Some c
                                ∧ decoded_value x = Some v ∧ thresh ≤ v
  | OutsideTimeWindow mask s e =>
      time_window_contains (received_at_unix_ms (ctx_request x)) mask s e = false
  end.

Definition quorum_required : Prop :=
  ∃ t n s trig, RuleRequireQuorum t n s trig ∈ ctx_rules x ∧ fires trig.

(** Rows 1 to 7. *)
Definition table_stateless : list (Prop * Verdict) :=
  [ (chain_denied, VDeny ChainDenied);
    (contract_denied, VDeny (Other "contract denied"));
    (chain_not_allowed, VDeny ChainNotAllowed);
    (contract_not_allowed, VDeny (Other "contract not on allow list"));
    (method_not_allowed, VDeny (Other "method not allowed"));
    (value_capped, VDeny (Other "value cap exceeded"));
    (outside_window, VDeny (Other "outside time window")) ].

(** Rows 10 and 11: the first quorum rule that fires, else the default. *)
Definition quorum_or_default (d : AllowDefault) (v : Verdict) : Prop :=
  (∃ pre t n s trig post,
      ctx_rules x = pre ++ RuleRequireQuorum t n s trig :: post ∧ fires trig
      ∧ (∀ t' n' s' trig', RuleRequireQuorum t' n' s' trig' ∈ pre → ¬ fires trig')
      ∧ v = VQuorum t n s)
  ∨ (¬ quorum_required ∧ v = default_verdict d).

(** The whole table; [limited] says whether a bucket is exhausted. *)
Definition precedence (limited : bool) : list (Prop * Verdict) :=
  table_stateless ++
  [ (limited = true, VDeny (Other "rate limited"));
    (shape_violated, VDeny (Other "vm-shape constraint")) ].

(** ** Each gate decides its row *)

Definition stamped (d : PolicyDecision) : Prop :=
  decision_id d = ctx_decision_id x ∧ decision_policy d = ctx_policy_id x ∧ explains d.

Definition passed (r : list RuleHit) : Prop := Forall (λ h, effect h = EffectAllow) r.

Definition gate_meets (P : Prop) (v : Verdict) (g : Gate) : Prop :=
  (P ∧ ∃ d, g = Err (Ok d) ∧ verdict_of d = v ∧ stamped d)
  ∨ (¬ P ∧ ∃ r, g = Ok r ∧ passed r).

Lemma passed_push r id why : passed r → passed (push r id EffectAllow why).
Proof. intros. apply Forall_app. split; [done|]. by repeat constructor. Qed.

Lemma deny_stamped r why id text :
  passed r → ∃ d, @deny () x r why id text = Err (Ok d) ∧ verdict_of d = VDeny why ∧ stamped d.
Proof.
  intros. eexists. split; [done|]. repeat split. exists r. eexists. by repeat split.
Qed.

Lemma deny_meets r (P : Prop) why id text :
  passed r → P → gate_meets P (VDeny why) (deny x r why id text).
Proof.
  intros Hr HP. left. split; [done|].
  destruct (deny_stamped r why id text Hr) as (d & Hd & ?). exists d. split; [|done].
  by injection Hd as <-.
Qed.

Lemma pass_meets r (P : Prop) v : passed r → ¬ P → gate_meets P v (Ok r).
Proof. intros. right. eauto. Qed.

(** The loop of a gate: the body rejects exactly the rules that satisfy [Q]. *)
Lemma loop_meets (f : Rule → result Early ()) (Q : Rule → Prop) (P : Prop) v r :
  passed r →
  (∀ a, a ∈ ctx_rules x →
     (Q a ∧ ∃ d, f a = Err (Ok d) ∧ verdict_of d = v ∧ stamped d) ∨ (¬ Q a ∧ f a = Ok ())) →
  (P ↔ ∃ a, a ∈ ctx_rules x ∧ Q a) →
  gate_meets P v (_ ← iter_result f (ctx_rules x); mret r).
Proof.
  intros Hr Hf HP. unfold gate_meets. rewrite HP. clear HP.
  induction (ctx_rules x) as [|a l IH]; cbn.
  { right. split; [set_solver|]. eauto. }
  destruct (Hf a ltac:(set_solver)) as [(HQ & d & -> & Hv & Hd)|[HQ ->]].
  { left. split; [set_solver|]. eauto. }
  destruct IH as [[HQ' IH]|[HQ' IH]]; [set_solver|left|right]; (split; [set_solver|done]).
Qed.

Ltac rule_cases :=
  match goal with a : Rule |- _ => destruct a; try (right; split; [naive_solver|done]) end.

Lemma deny_chain_meets r : passed r → gate_meets chain_denied (VDeny ChainDenied) (gate_deny_chain x r).
Proof.
  intros Hr. unfold gate_deny_chain, chain_denied.
  destruct (req_chain x) as [c|]; [|apply pass_meets; naive_solver].
  apply (loop_meets _ (λ a, match a with DenyChain ids => c ∈ ids | _ => False end)); [done| |].
  - intros a _. rule_cases. unfold contains. case_bool_decide; [left|right; auto].
    split; [done|]. by apply deny_stamped.
  - split; [naive_solver|]. intros ([] & ? & ?); naive_solver.
Qed.

Lemma address_in_true addrs to :
  address_in addrs to = true ↔ ∃ a, a ∈ addrs ∧ address_eq a to = true.
Proof. apply any_true. Qed.

Lemma deny_contract_meets r : passed r →
  gate_meets contract_denied (VDeny (Other "contract denied")) (gate_deny_contract x r).
Proof.
  intros Hr. unfold gate_deny_contract, contract_denied.
  destruct (req_chain x) as [c|]; [|apply pass_meets; naive_solver].
  destruct (req_to x) as [to|]; [|apply pass_meets; naive_solver].
  apply (loop_meets _ (λ a, match a with
      DenyContract c' addrs => c' = c ∧ address_in addrs to = true | _ => False end)); [done| |].
  - intros a _. rule_cases. destruct (Z.eqb_spec chain_id c); cbn; [|right; naive_solver].
    destruct (address_in addresses to); [left|right; naive_solver].
    split; [done|]. by apply deny_stamped.
  - split.
    + intros (c' & to' & addrs & a & [= <-] & [= <-] & Hin & Ha & Heq).
      exists (DenyContract c addrs). rewrite address_in_true. naive_solver.
    + intros ([] & Hin & Hc); try done. destruct Hc as [-> (a & ?)%address_in_true]. naive_solver.
Qed.

Lemma any_rule f (Q : Rule → Prop) :
  (∀ r, f r = true ↔ Q r) → any f (ctx_rules x) = true ↔ ∃ r, r ∈ ctx_rules x ∧ Q r.
Proof. intros Hf. rewrite any_true. by setoid_rewrite Hf. Qed.

Lemma allow_chain_meets r : passed r →
  gate_meets chain_not_allowed (VDeny ChainNotAllowed) (gate_allow_chain x r).
Proof.
  intros Hr. unfold gate_allow_chain.
  destruct (any (λ r, match r with AllowChain _ => true | _ => false end) _) eqn:Hany.
  2: { apply pass_meets; [done|]. intros [[ids Hin] _]. rewrite any_false in Hany.
       by specialize (Hany _ Hin). }
  apply any_true in Hany as (r0 & Hin & Hr0). destruct r0 as [ids| | | | | | | | |]; try done.
  match goal with |- gate_meets _ _ (if negb ?b then _ else _) => destruct b eqn:Hb end; cbn.
  - apply pass_meets; [by apply passed_push|]. intros [_ []].
    apply is_some_and_true in Hb as (c & Hc & (r1 & Hr1 & Hm)%any_true).
    destruct r1; try done. apply contains_true in Hm. eauto.
  - apply deny_meets; [done|]. split; [eauto|]. intros (c & ids' & Hc & Hin' & Hm).
    apply not_true_iff_false in Hb as []. apply is_some_and_true.
    exists c. split; [done|]. apply any_true. eexists. split; [exact Hin'|]. by apply contains_true.
Qed.

Lemma allow_contract_meets r : passed r →
  gate_meets contract_not_allowed (VDeny (Other "contract not on allow list"))
    (gate_allow_contract x r).
Proof.
  intros Hr. unfold gate_allow_contract, contract_not_allowed.
  destruct (req_chain x) as [c|]; [|apply pass_meets; naive_solver].
  destruct (any (λ r, match r with AllowContract c' _ => c' =? c | _ => false end) _) eqn:Hany.
  2: { apply pass_meets; [done|]. intros (c' & [= <-] & [addrs Hin] & _). rewrite any_false in Hany.
       specialize (Hany _ Hin). cbn in Hany. by rewrite Z.eqb_refl in Hany. }
  apply any_true in Hany as (r0 & Hin & Hr0).
  destruct r0 as [| |c' addrs| | | | | | |]; try done. apply Z.eqb_eq in Hr0 as ->.
  match goal with |- gate_meets _ _ (if negb ?b then _ else _) => destruct b eqn:Hb end; cbn.
  - apply pass_meets; [by apply passed_push|]. intros (c' & [= <-] & _ & []).
    apply is_some_and_true in Hb as (to & Hto & (r1 & Hr1 & Hm)%any_true).
    destruct r1; try done. apply andb_true_iff in Hm as [->%Z.eqb_eq (a & ?)%address_in_true].
    naive_solver.
  - apply deny_meets; [done|]. exists c. split; [done|]. split; [eauto|].
    intros (to & addrs' & a & Hto & Hin' & Ha & Heq).
    apply not_true_iff_false in Hb as []. apply is_some_and_true.
    exists to. split; [done|]. apply any_true. eexists. split; [exact Hin'|]. cbn.
    rewrite Z.eqb_refl. apply address_in_true. eauto.
Qed.

Lemma selector_in_true sels sel :
  selector_in sels sel = true ↔ ∃ s, s ∈ sels ∧ hex_to_bytes s = Some sel.
Proof.
  unfold selector_in. rewrite any_true. setoid_rewrite is_some_and_true.
  setoid_rewrite bool_decide_eq_true. naive_solver.
Qed.

Lemma applicable_elem c r :
  r ∈ List.filter (method_applicable c (req_to x)) (ctx_rules x)
  ↔ r ∈ ctx_rules x ∧ method_applicable c (req_to x) r = true.
Proof. rewrite !list_elem_of_In. apply filter_In. Qed.

Lemma applicable_chain c to r : method_applicable c to r = true → ∃ contract sels, r = AllowMethod c contract sels.
Proof. destruct r; cbn; try done. intros [->%Z.eqb_eq _]%andb_true_iff. eauto. Qed.

Lemma allow_method_meets r : passed r →
  gate_meets method_not_allowed (VDeny (Other "method not allowed")) (gate_allow_method x r).
Proof.
  intros Hr. unfold gate_allow_method, method_not_allowed.
  destruct (req_chain x) as [c|]; [|apply pass_meets; naive_solver].
  pose proof (applicable_elem c) as Happ.
  destruct (List.filter _ _) as [|r0 rs] eqn:Hf.
  { apply pass_meets; [done|]. intros (c' & [= <-] & (r0 & Hr0) & _). apply Happ in Hr0. set_solver. }
  assert (∃ r, r ∈ ctx_rules x ∧ method_applicable c (req_to x) r = true)
    by (exists r0; apply Happ; set_solver).
  match goal with |- gate_meets _ _ (if negb ?b then _ else _) => destruct b eqn:Hb end; cbn [negb].
  - apply pass_meets; [by apply passed_push|]. intros (c' & [= <-] & _ & []).
    apply is_some_and_true in Hb as (sel & Hsel & (r1 & [Hr1 Hm]%Happ & Hs)%any_true).
    destruct (applicable_chain _ _ _ Hm) as (ct & sels & ->).
    apply selector_in_true in Hs as (s & ? & ?). eauto 10.
  - apply deny_meets; [done|]. exists c. split; [done|]. split; [done|].
    intros (sel & ct & sels & s & Hsel & Hin & Hm & Hs & Hd).
    apply not_true_iff_false in Hb as []. apply is_some_and_true.
    exists sel. split; [done|]. apply any_true. eexists. split; [by apply Happ|].
    apply selector_in_true. eauto.
Qed.

(** ** The gates that parse amounts, on validated rules *)

Hypothesis valid : ∀ r, r ∈ ctx_rules x → validate_rule r = Ok ().

Lemma value_cap_meets r : passed r →
  gate_meets value_capped (VDeny (Other "value cap exceeded")) (gate_value_cap x r).
Proof.
  intros Hr. unfold gate_value_cap, value_capped.
  destruct (req_chain x) as [c|]; [|apply pass_meets; naive_solver].
  apply (loop_meets _ (λ a, match a with
      | ValueCap c' m => c' = c ∧ ∃ max v, parse_u256 m = Some max
                           ∧ decoded_value x = Some v ∧ max < v
      | _ => False end)); [done| |].
  - intros a Ha. specialize (valid a Ha). rule_cases.
    destruct (Z.eqb_spec chain_id c); cbn [negb]; [|right; naive_solver].
    unfold try_u256. cbn in valid. destruct (parse_u256 max_value) as [max|]; [|done]. cbn.
    destruct (decoded_value x) as [v|]; [|right; naive_solver].
    destruct (Z.ltb_spec max v); [left|right; split; [|done]; intros (_ & ? & ? & ? & ? & ?); naive_solver lia].
    split; [naive_solver|]. by apply deny_stamped.
  - split; [naive_solver|]. intros ([] & ? & ?); naive_solver.
Qed.

Lemma time_window_meets r : passed r →
  gate_meets outside_window (VDeny (Other "outside time window")) (gate_time_window x r).
Proof.
  intros Hr. unfold gate_time_window, outside_window.
  apply (loop_meets _ (λ a, match a with
      | TimeWindow m s e => time_window_contains (received_at_unix_ms (ctx_request x)) m s e = false
      | _ => False end)); [done| |].
  - intros a _. rule_cases. destruct (time_window_contains _ _ _ _); [right; naive_solver|left].
    split; [done|]. by apply deny_stamped.
  - split; [naive_solver|]. intros ([] & ? & ?); naive_solver.
Qed.

(** One constraint of a [VmShape] rule. *)
Definition step_meets (P : Prop) (v : Verdict) (g : result Early ()) : Prop :=
  (P ∧ ∃ d, g = Err (Ok d) ∧ verdict_of d = v ∧ stamped d) ∨ (¬ P ∧ g = Ok ()).

Lemma step_bind P Q v (f g : result Early ()) :
  step_meets P v f → step_meets Q v g → step_meets (P ∨ Q) v (_ ← f; g).
Proof.
  intros [(HP & d & -> & ?)|[HP ->]]; cbn; [left; naive_solver|].
  intros [(HQ & d & -> & ?)|[HQ ->]]; [left|right]; naive_solver.
Qed.

Lemma shape_value_meets r vm c : passed r → VmShape vm c ∈ ctx_rules x →
  step_meets (∃ m max v, PolicyTypes.max_value c = Some m ∧ parse_u256 m = Some max
                         ∧ decoded_value x = Some v ∧ max < v)
    (VDeny (Other "vm-shape constraint")) (shape_max_value x r c).
Proof.
  intros Hr Hin. specialize (valid _ Hin). cbn in valid. unfold shape_max_value.
  destruct (PolicyTypes.max_value c) as [m|]; [|right; naive_solver].
  unfold try_u256. destruct (parse_u256 m) as [max|] eqn:Hm; [|done]. cbn.
  destruct (decoded_value x) as [v|]; [|right; naive_solver].
  destruct (Z.ltb_spec max v); [left; split; [by eauto 10|by apply deny_stamped]|].
  right. split; [|done]. intros (? & ? & ? & [= <-] & ? & [= <-] & ?). simplify_eq. lia.
Qed.

Lemma shape_gas_meets r c : passed r →
  step_meets (∃ max g, max_gas c = Some max ∧ decoded_gas x = Some g ∧ max < g)
    (VDeny (Other "vm-shape constraint")) (shape_max_gas x r c).
Proof.
  intros Hr. unfold shape_max_gas.
  destruct (max_gas c) as [max|]; [|right; naive_solver].
  destruct (decoded_gas x) as [g|]; [|right; naive_solver].
  destruct (Z.ltb_spec max g); [left; split; [by eauto 10|by apply deny_stamped]|].
  right. split; [|done]. intros (? & ? & [= <-] & [= <-] & ?). lia.
Qed.

Lemma shape_selectors_meets r c : passed r →
  step_meets (∃ sels sel, allowed_method_selectors c = Some sels ∧ decoded_selector x = Some sel
                          ∧ ∀ s, s ∈ sels → hex_to_bytes s ≠ Some sel)
    (VDeny (Other "vm-shape constraint")) (shape_selectors x r c).
Proof.
  intros Hr. unfold shape_selectors.
  destruct (allowed_method_selectors c) as [sels|]; [|right; naive_solver].
  destruct (decoded_selector x) as [sel|]; [|right; naive_solver].
  destruct (selector_in sels sel) eqn:Hs; cbn.
  - right. apply selector_in_true in Hs as (s & ? & ?). split; [|done]. naive_solver.
  - left. split; [|by apply deny_stamped]. exists sels, sel. do 2 (split; [done|]).
    intros s Hin Hd. apply not_true_iff_false in Hs as []. apply selector_in_true. eauto.
Qed.

Lemma vm_shape_meets r : passed r →
  gate_meets shape_violated (VDeny (Other "vm-shape constraint")) (gate_vm_shape x r).
Proof.
  intros Hr. unfold gate_vm_shape, shape_violated.
  destruct (req_vm x) as [rvm|]; [|apply pass_meets; naive_solver].
  apply (loop_meets _ (λ a, match a with
      VmShape vm c => vm = rvm ∧ shape_breaks c | _ => False end)); [done| |].
  - intros a Ha. rule_cases. case_bool_decide as Hvm; cbn [negb]; [|right; naive_solver].
    subst vm. pose proof (step_bind _ _ _ _ _ (shape_value_meets r _ _ Hr Ha)
      (step_bind _ _ _ _ _ (shape_gas_meets r constraints Hr)
         (shape_selectors_meets r constraints Hr))) as [?|?]; [left|right]; unfold shape_breaks; naive_solver.
  - split; [naive_solver|]. intros ([] & ? & ?); naive_solver.
Qed.

(** ** Quorum *)

Lemma trigger_spec t n s trig :
  RuleRequireQuorum t n s trig ∈ ctx_rules x →
  ∃ b, trigger_fires x trig = Ok b ∧ (b = true ↔ fires trig).
Proof.
  intros Hin. specialize (valid _ Hin). cbn in valid.
  destruct trig as [|c v|m b e]; cbn.
  - exists true. by split.
  - apply result_bind_ok in valid as ([] & _ & valid). unfold try_u256.
    destruct (parse_u256 v) as [thresh|] eqn:Hp; [|done]. cbn. eexists. split; [done|].
    destruct (req_chain x) as [rc|]; [|naive_solver].
    destruct (decoded_value x) as [dv|]; [|naive_solver].
    rewrite andb_true_iff, Z.eqb_eq, Z.leb_le. split; [naive_solver|].
    intros (? & ? & ? & [= ->] & [= ->] & ?). by simplify_eq.
  - eexists. split; [done|]. by rewrite negb_true_iff.
Qed.

Lemma quorum_loop r l :
  (∀ t n s trig, RuleRequireQuorum t n s trig ∈ l →
     ∃ b, trigger_fires x trig = Ok b ∧ (b = true ↔ fires trig)) →
  (∃ pre t n s trig post, l = pre ++ RuleRequireQuorum t n s trig :: post ∧ fires trig
     ∧ (∀ t' n' s' trig', RuleRequireQuorum t' n' s' trig' ∈ pre → ¬ fires trig')
     ∧ iter_result (quorum_rule x r) l
       = Err (Ok (RequireQuorum (ctx_decision_id x) (ctx_policy_id x) t n s
           (push r "require-quorum" EffectRequireQuorum "quorum trigger matched"))))
  ∨ ((∀ t n s trig, RuleRequireQuorum t n s trig ∈ l → ¬ fires trig)
     ∧ iter_result (quorum_rule x r) l = Ok ()).
Proof.
  induction l as [|a l IH]; intros Htr; [right; split; [set_solver|done]|].
  assert ((∃ t n s trig, a = RuleRequireQuorum t n s trig ∧ fires trig
             ∧ quorum_rule x r a = Err (Ok (RequireQuorum (ctx_decision_id x) (ctx_policy_id x) t n s
                 (push r "require-quorum" EffectRequireQuorum "quorum trigger matched"))))
          ∨ ((∀ t n s trig, a = RuleRequireQuorum t n s trig → ¬ fires trig)
             ∧ quorum_rule x r a = Ok ())) as [(t & n & s & trig & -> & Hf & Ha)|[Hno Ha]].
  { destruct a as [| | | | | | | |t n s trig|]; try (right; split; [naive_solver|done]).
    destruct (Htr t n s trig) as (b & Hb & Hbf); [set_solver|]. cbn. rewrite Hb. cbn.
    destruct b; [left|right]; naive_solver. }
  - left. exists [], t, n, s, trig, l. cbn [iter_result app]. rewrite Ha. set_solver.
  - cbn [iter_result]. rewrite Ha.
    destruct IH as [(pre & t & n & s & trig & post & -> & Hf & Hpre & IH)|[Hl IH]].
    { intros t n s trig Hin. apply (Htr t n s trig). by apply elem_of_cons; right. }
    + left. exists (a :: pre), t, n, s, trig, post. split; [done|]. split; [done|]. split; [|done].
      intros t' n' s' trig' [<-|Hin]%elem_of_cons; [by eapply Hno|by eapply Hpre].
    + right. split; [|done]. intros t' n' s' trig' [<-|Hin]%elem_of_cons; [by eapply Hno|by eapply Hl].
Qed.

Lemma quorum_default_meets r d : passed r →
  ∃ dec, match gate_quorum x r with Err e => e | Ok r => Ok (default_decision x d r) end = Ok dec
         ∧ quorum_or_default d (verdict_of dec) ∧ stamped dec.
Proof.
  intros Hr. unfold gate_quorum.
  destruct (quorum_loop r (ctx_rules x) trigger_spec)
    as [(pre & t & n & s & trig & post & Hl & Hf & Hpre & ->)|[Hno ->]]; cbn.
  - eexists. split; [done|]. split; [left; eauto 10|].
    repeat split. exists r. eexists. by repeat split.
  - eexists. split; [done|]. split.
    + right. split; [|by destruct d]. intros (t & n & s & trig & Hin & Hf). by eapply Hno.
    + destruct d; repeat split; exists r; eexists; by repeat split.
Qed.

(** ** Composition *)

(** A gate followed by the rest of the table. *)
Lemma gate_then (P : Prop) v (g : Gate) (k : list RuleHit → Early) table last :
  gate_meets P v g →
  (∀ r, g = Ok r → passed r →
     ∃ d, k r = Ok d ∧ first_holds table last (verdict_of d) ∧ stamped d) →
  ∃ d, match g with Err e => e | Ok r => k r end = Ok d
       ∧ first_holds ((P, v) :: table) last (verdict_of d) ∧ stamped d.
Proof.
  intros [(HP & d & -> & Hv & Hs)|(HP & r & -> & Hr)] Hk.
  - exists d. split; [done|]. split; [by left|done].
  - destruct (Hk r) as (d & Hd & Hh & Hs); [done..|].
    exists d. split; [done|]. split; [by right|done].
Qed.

Lemma final_meets r d : passed r →
  ∃ dec, final_gates x d r = Ok dec
         ∧ first_holds [(shape_violated, VDeny (Other "vm-shape constraint"))]
             (quorum_or_default d) (verdict_of dec) ∧ stamped dec.
Proof.
  intros Hr. unfold final_gates.
  destruct (gate_then shape_violated (VDeny (Other "vm-shape constraint")) (gate_vm_shape x r)
     (λ r, match gate_quorum x r with Err e => e | Ok r => Ok (default_decision x d r) end)
     [] (quorum_or_default d)) as (dec & Hd & Hrest).
  - by apply vm_shape_meets.
  - intros r' _ Hr'. by apply quorum_default_meets.
  - exists dec. split; [|done]. rewrite <-Hd. by destruct (gate_vm_shape x r).
Qed.

(** Rows 1 to 7, for any continuation. *)
Lemma stateless_meets (k : list RuleHit → Early) table last :
  (∀ r, stateless_gates x = Ok r → passed r →
     ∃ d, k r = Ok d ∧ first_holds table last (verdict_of d) ∧ stamped d) →
  ∃ d, match stateless_gates x with Err e => e | Ok r => k r end = Ok d
       ∧ first_holds (table_stateless ++ table) last (verdict_of d) ∧ stamped d.
Proof.
  intros Hk. unfold table_stateless. cbn [app]. unfold stateless_gates in *.
  assert (Hbind : ∀ (g : Gate) f, match g ≫= f with Err e => e | Ok r => k r end
            = match g with Err e => e | Ok r => match f r with Err e => e | Ok r => k r end end)
    by (intros [] f; done).
  rewrite Hbind. eapply gate_then; [apply deny_chain_meets; by constructor|].
  intros r1 E1 Hp1. rewrite Hbind. eapply gate_then; [by apply deny_contract_meets|].
  intros r2 E2 Hp2. rewrite Hbind. eapply gate_then; [by apply allow_chain_meets|].
  intros r3 E3 Hp3. rewrite Hbind. eapply gate_then; [by apply allow_contract_meets|].
  intros r4 E4 Hp4. rewrite Hbind. eapply gate_then; [by apply allow_method_meets|].
  intros r5 E5 Hp5. rewrite Hbind. eapply gate_then; [by apply value_cap_meets|].
  intros r6 E6 Hp6. eapply gate_then; [by apply time_window_meets|].
  intros r7 E7 Hp7. apply Hk; [|done].
  by rewrite E1; cbn; rewrite E2; cbn; rewrite E3; cbn; rewrite E4; cbn; rewrite E5; cbn; rewrite E6.
Qed.

(** The stateless gates return early exactly when one of the rows 1 to 7 holds. *)
Lemma stateless_clear r :
  stateless_gates x = Ok r → passed r ∧ Forall (λ row, ¬ row.1) table_stateless.
Proof.
  intros Hr. destruct (stateless_meets (λ r, Ok (default_decision x DefaultAllow r))
              [] (λ v, v = VAllow)) as (d & Hd & Hh & Hs).
  - intros r' _ Hr'. eexists. split; [done|]. split; [done|].
    repeat split. exists r'. eexists. by repeat split.
  - rewrite Hr in Hd. injection Hd as <-. rewrite app_nil_r in Hh. split.
    + destruct Hs as (_ & _ & (p & h & Hp & Hall & _)). cbn in Hp.
      by apply app_inj_tail in Hp as [-> _].
    + eapply first_holds_none; [exact Hh|]. by repeat constructor.
Qed.

Lemma stateless_early e : stateless_gates x = Err e → Exists (λ row, row.1) table_stateless.
Proof.
  intros He. destruct (stateless_meets (λ r, Ok (default_decision x DefaultAllow r)) [] (λ _, False)) as (d & _ & Hh & _).
  - intros r Hr. congruence.
  - rewrite app_nil_r in Hh. by eapply first_holds_some.
Qed.

End conditions.

Lemma validate_rules rs : validate rs = Ok () → ∀ r, r ∈ rules rs → validate_rule r = Ok ().
Proof.
  unfold validate. intros (? & _ & Hf%iter_result_ok)%result_bind_ok.
  by apply Forall_forall.
Qed.

Lemma evaluate_meets self clock fresh req :
  validate (rsp_rules self) = Ok () →
  let x := make_ctx self fresh req in
  let limited := negb (acquire_all req clock 0 (rsp_limiter self) (rules (rsp_rules self))).1 in
  ∃ d, (evaluate self clock fresh req).1 = Ok d
       ∧ first_holds (precedence x limited)
           (quorum_or_default x (default_outcome (rsp_rules self))) (verdict_of d)
       ∧ stamped x d.
Proof.
  intros Hv x limited. pose proof (validate_rules _ Hv) as Hvalid.
  change (rules (rsp_rules self)) with (ctx_rules x) in Hvalid.
  unfold evaluate. fold x. unfold precedence.
  destruct (acquire_all req clock 0 (rsp_limiter self) (rules (rsp_rules self))) as [ok st] eqn:Hacq.
  unfold gate_rate_limit. change (ctx_request x) with req.
  change (ctx_rules x) with (rules (rsp_rules self)). rewrite Hacq. cbn in limited.
  destruct (stateless_meets x Hvalid
    (λ r, if ok then final_gates x (default_outcome (rsp_rules self)) r
          else Ok (Deny fresh (ctx_policy_id x) (Other "rate limited")
                 (push r "rate-limit" EffectDeny "token-bucket exhausted")))
    [ (limited = true, VDeny (Other "rate limited"));
      (shape_violated x, VDeny (Other "vm-shape constraint")) ]
    (quorum_or_default x (default_outcome (rsp_rules self)))) as (d & Hd & Hrest).
  - intros r _ Hr. destruct ok.
    + destruct (final_meets x Hvalid r (default_outcome (rsp_rules self)) Hr) as (d & Hd & Hh & Hs).
      exists d. split; [done|]. split; [by right|done].
    + eexists. split; [done|]. split; [by left|]. repeat split. exists r. eexists. by repeat split.
  - exists d. split; [|done]. rewrite <-Hd. destruct (stateless_gates x) as [r|e]; [|done].
    by destruct ok.
Qed.

Lemma evaluate_state self clock fresh req :
  (evaluate self clock fresh req).2 =
    match stateless_gates (make_ctx self fresh req) with
    | Err _ => self
    | Ok _ => {| rsp_rules := rsp_rules self;
                 rsp_limiter := (acquire_all req clock 0 (rsp_limiter self)
                                   (rules (rsp_rules self))).2;
                 rsp_decoder := rsp_decoder self |}
    end.
Proof.
  unfold evaluate. destruct (stateless_gates _) as [r|e]; [|done].
  unfold gate_rate_limit. cbn. destruct (acquire_all _ _ _ _ _) as [[] st]; done.
Qed.

#[export] Program Instance rule_set_contract : PolicyContract RuleSetPolicy :=
  {| policy_wf p := validate (rsp_rules p) = Ok ();
     policy_ident p := PolicyTypes.policy_id (rsp_rules p) |}.
Next Obligation.
  intros self clock fresh req Hv.
  destruct (evaluate_meets self clock fresh req Hv) as (d & Hd & _ & Hid & Hp & He).
  exists d. do 4 (split; [done|]).
  change (policy_evaluate self clock fresh req) with (evaluate self clock fresh req).
  rewrite evaluate_state.
  destruct (stateless_gates _); by split.
Qed.

(** ** Properties *)

(** C14. The evaluator implements the documented fixed precedence.  On a rule set
    its constructor accepts, [evaluate] never fails: it returns a decision
    whose verdict is that of the first row of the table whose condition holds
    (chain and contract denials, the allow filters, value caps, time windows,
    rate limits, VM shapes), else the first quorum rule that fires, else the
    default; the decision carries the fresh identifier and the policy's, and
    its rationale ends with the rule that decided, preceded only by filters
    that passed. *)
Theorem evaluate_precedence rs limiter decoder self clock fresh req :
  with_components rs limiter decoder = Ok self →
  let x := make_ctx self fresh req in
  let limited := negb (acquire_all req clock 0 limiter (rules rs)).1 in
  ∃ d, (evaluate self clock fresh req).1 = Ok d
       ∧ first_holds (precedence x limited) (quorum_or_default x (default_outcome rs)) (verdict_of d)
       ∧ stamped x d.
Proof.
  unfold with_components. intros ([] & Hv & [= <-])%result_bind_ok. by apply evaluate_meets.
Qed.

(** Limiter tokens are spent only by requests that pass gates 1 to 7: when one
    of those rows holds the policy's state is unchanged, otherwise every rate
    limit has been charged in rule order up to the first exhausted bucket. *)
Theorem evaluate_charges_limiter self clock fresh req :
  validate (rsp_rules self) = Ok () →
  let x := make_ctx self fresh req in
  let self' := (evaluate self clock fresh req).2 in
  rsp_rules self' = rsp_rules self ∧ rsp_decoder self' = rsp_decoder self
  ∧ (Exists (λ row, row.1) (table_stateless x) → rsp_limiter self' = rsp_limiter self)
  ∧ (Forall (λ row, ¬ row.1) (table_stateless x) →
     rsp_limiter self' = (acquire_all req clock 0 (rsp_limiter self) (rules (rsp_rules self))).2).
Proof.
  intros Hv x self'. subst self'. rewrite evaluate_state. fold x.
  pose proof (validate_rules _ Hv) as Hvalid.
  change (rules (rsp_rules self)) with (ctx_rules x) in Hvalid.
  destruct (stateless_gates x) as [r|e] eqn:Hg.
  - do 2 (split; [done|]). split; [|done]. apply stateless_clear in Hg as [_ Hg]; [|done].
    intros Hex. by apply Forall_not_Exists in Hg.
  - do 2 (split; [done|]). split; [done|]. apply stateless_early in Hg; [|done].
    intros Hall. by apply Forall_not_Exists in Hall.
Qed.

End spec.
