(* ===== verification/RuleSetProps.v ===== *)
(** * RuleSetProps: what operators of the policy DSL can rely on

    Consequences of the precedence theorem and properties of the evaluator's
    helpers: order independence, bucket keys, time windows, and the rules that
    depend on a decoder. *)

From S2P Require Import Prelude Text Types External PolicyTypes PolicySpec StaticPolicy F64 RateLimit RuleSetPolicy RuleSetProofs.
From Stdlib Require Import Ascii SpecFloat.
#[local] Open Scope string_scope.
#[local] Open Scope list_scope.
#[local] Open Scope Z_scope.

Section props.
Context `{UlidCrate, HexCrate, TimeCrate, U256Crate}.

(** ** Lemmas *)

Definition is_rate_limit (r : Rule) : bool :=
  match r with RateLimit _ _ _ => true | _ => false end.

Lemma acquire_all_none req clock n st rs :
  any is_rate_limit rs = false → acquire_all req clock n st rs = (true, st).
Proof.
  unfold any. revert n. induction rs as [|[] rs IH]; intros n; cbn; try done; apply IH.
Qed.

(** The rows of two contexts that differ in the order of their rules. *)
Lemma precedence_perm x y limited :
  ctx_rules x ≡ₚ ctx_rules y → req_chain x = req_chain y → req_to x = req_to y →
  req_vm x = req_vm y → decoded x = decoded y → ctx_request x = ctx_request y →
  Forall2 (λ a b, (a.1 ↔ b.1) ∧ a.2 = b.2) (precedence x limited) (precedence y limited)
  ∧ (quorum_required x ↔ quorum_required y).
Proof.
  intros Hp Hc Ht Hvm Hd Hr. split.
  - repeat (constructor; [split; [|done]; cbn [fst];
      unfold chain_denied, contract_denied, chain_not_allowed, contract_not_allowed,
        method_not_allowed, value_capped, outside_window, shape_violated, shape_breaks,
        decoded_value, decoded_gas, decoded_selector;
      rewrite ?Hc, ?Ht, ?Hvm, ?Hd, ?Hr; first [done|setoid_rewrite Hp; try done]|]). by constructor.
  - assert (∀ t, fires x t ↔ fires y t) as Hf
      by (intros [|c v|m s e]; cbn; unfold decoded_value; by rewrite ?Hc, ?Hd, ?Hr).
    unfold quorum_required. setoid_rewrite Hf. by setoid_rewrite Hp.
Qed.

(** Verdicts up to the choice among several quorum rules that fire. *)
Definition same_outcome (v w : Verdict) : Prop :=
  v = w ∨ match v, w with VQuorum _ _ _, VQuorum _ _ _ => True | _, _ => False end.

Lemma first_holds_agree t1 t2 l1 l2 v w :
  Forall2 (λ a b, (a.1 ↔ b.1) ∧ a.2 = b.2) t1 t2 →
  (∀ a b, l1 a → l2 b → same_outcome a b) →
  first_holds t1 l1 v → first_holds t2 l2 w → same_outcome v w.
Proof.
  intros Ht Hl. induction Ht as [|[P a] [Q b] t1 t2 [HPQ Hab] _ IH]; cbn in *; [by apply Hl|].
  subst b. intros [[HP ->]|[HP H3]] [[HQ ->]|[HQ H4]]; [by left|tauto|tauto|by apply IH].
Qed.

Lemma quorum_or_default_required x d v :
  quorum_or_default x d v →
  (quorum_required x ∧ ∃ t n s, v = VQuorum t n s) ∨ (¬ quorum_required x ∧ v = default_verdict d).
Proof.
  intros [(pre & t & n & s & trig & post & Hl & Hf & _ & ->)|?]; [left|by right].
  split; [|eauto]. exists t, n, s, trig. rewrite Hl. split; [set_solver|done].
Qed.

(** ** Properties *)

(** The order of the rules does not matter: two rule sets with the same rules
    in any order (and no rate limits, whose buckets are stateful) give every
    request the same outcome, up to which of several quorum rules that fire is
    quoted. *)
Theorem evaluate_order_independent self1 self2 clock fresh req d1 d2 :
  validate (rsp_rules self1) = Ok () → validate (rsp_rules self2) = Ok () →
  rules (rsp_rules self1) ≡ₚ rules (rsp_rules self2) →
  default_outcome (rsp_rules self1) = default_outcome (rsp_rules self2) →
  rsp_decoder self1 = rsp_decoder self2 →
  any is_rate_limit (rules (rsp_rules self1)) = false →
  (evaluate self1 clock fresh req).1 = Ok d1 → (evaluate self2 clock fresh req).1 = Ok d2 →
  same_outcome (verdict_of d1) (verdict_of d2).
Proof.
  intros Hv1 Hv2 Hp Hdef Hdec Hrl Hd1 Hd2.
  destruct (evaluate_meets self1 clock fresh req Hv1) as (d & Hd & Hh1 & _).
  rewrite Hd in Hd1. injection Hd1 as ->.
  destruct (evaluate_meets self2 clock fresh req Hv2) as (d & Hd' & Hh2 & _).
  rewrite Hd' in Hd2. injection Hd2 as ->.
  rewrite acquire_all_none in Hh1 by done.
  rewrite acquire_all_none in Hh2 by (by rewrite <-(any_perm _ _ _ Hp)). cbn [negb fst] in *.
  destruct (precedence_perm (make_ctx self1 fresh req) (make_ctx self2 fresh req) false)
    as [Ht Hq]; [done|done|done|done|by cbn; rewrite Hdec|done|].
  eapply first_holds_agree; [exact Ht| |exact Hh1|exact Hh2].
  intros a b [[Hqa (t & n & s & ->)]|[Hqa ->]]%quorum_or_default_required
    [[Hqb (t' & n' & s' & ->)]|[Hqb ->]]%quorum_or_default_required; [by right|tauto|tauto|].
  left. by rewrite Hdef.
Qed.

(** ** Bucket keys *)

Definition same_scope_subject (scope : RateLimitScope) (r1 r2 : SigningRequest) : Prop :=
  match scope with
  | PerWallet => wallet_id r1 = wallet_id r2
  | PerRequester => requester_key (requester r1) = requester_key (requester r2)
  | PerWalletRequester => wallet_id r1 = wallet_id r2
      ∧ requester_key (requester r1) = requester_key (requester r2)
  end.

(** Bucket keys do not collide: two requests charge the same bucket exactly
    when the limits have the same scope and that scope's subject (wallet,
    requester, or both) is the same. *)
Theorem rate_limit_key_separates `{!UlidLaws} s1 s2 r1 r2 :
  is_ulid (WalletId_ulid (wallet_id r1)) → is_ulid (WalletId_ulid (wallet_id r2)) →
  rate_limit_key s1 r1 = rate_limit_key s2 r2 ↔ s1 = s2 ∧ same_scope_subject s1 r1 r2.
Proof.
  intros Hw1 Hw2. split.
  - unfold rate_limit_key. destruct s1, s2; intros Heq;
      try (exfalso; rewrite !append_cons in Heq; discriminate Heq); (split; [done|]);
      apply append_inj_l in Heq; cbn.
    + destruct (wallet_id r1), (wallet_id r2). f_equal. by apply ulid_inj.
    + done.
    + apply append_inj_len in Heq as [Hw Hk]; [|by rewrite !ulid_length].
      apply append_inj_l in Hk. split; [|done].
      destruct (wallet_id r1), (wallet_id r2). f_equal. by apply ulid_inj.
  - intros [<- Hs]. unfold rate_limit_key. destruct s1; cbn in Hs.
    + by rewrite Hs.
    + by rewrite Hs.
    + by destruct Hs as [-> ->].
Qed.

(** Two rate limits of one scope charge one bucket: with a first limit of one
    token, the second finds the bucket empty, so even the first request of a
    fresh wallet is refused, whatever the second limit's capacity. *)
Theorem same_scope_limits_share_bucket now req scope refill1 cap2 st rest :
  0 ≤ refill1 ≤ u32_max → 0 < cap2 ≤ u32_max →
  st !! rate_limit_key scope req = None →
  (acquire_all req (λ _, now) 0 st
     (RateLimit 1 refill1 scope :: RateLimit cap2 0 scope :: rest)).1 = false.
Proof.
  intros Hr Hc Hst. cbn [acquire_all].
  pose proof (try_acquire_whole now st (rate_limit_key scope req) 1 refill1 1 ltac:(done) Hr
                ltac:(lia) ltac:(by right; right)) as H3.
  destruct (try_acquire now st (rate_limit_key scope req) 1 refill1) as [ok st1].
  cbn in H3. destruct H3 as (-> & t & Ht & _).
  pose proof (try_acquire_whole now st1 (rate_limit_key scope req) cap2 0 0 ltac:(done) ltac:(done)
                ltac:(lia) ltac:(right; left; eauto)) as H4.
  destruct (try_acquire now st1 (rate_limit_key scope req) cap2 0) as [ok st2].
  cbn in H4. by destruct H4 as (-> & _).
Qed.

(** ** Time windows *)

Lemma window_unfold `{!TimeLaws} ms mask s e :
  -377705116800 ≤ i64_div ms 1000 ≤ 253402300799 →
  let t := i64_div ms 1000 in
  let h := (t mod 86400) / 3600 in
  time_window_contains ms mask s e =
    Z.testbit mask ((t / 86400 + 3) mod 7) &&
    (if s <? e then (s <=? h) && (h <? e) else (s <=? h) || (h <? e)).
Proof.
  intros Ht t h. unfold time_window_contains. rewrite from_unix_timestamp_spec by done. cbn [number_days_from_monday hour].
  fold t h. pose proof (Z.mod_pos_bound (t / 86400 + 3) 7 ltac:(lia)) as Hd.
  set (d := (t / 86400 + 3) mod 7) in *.
  change 1 with (Z.ones 1) at 1. rewrite Z.land_ones by lia.
  assert (Z.shiftr mask d mod 2 ^ 1 = Z.b2z (Z.testbit mask d)) as ->.
  { rewrite Z.pow_1_r, <-Z.bit0_mod, Z.shiftr_spec by lia. by rewrite Z.add_0_l. }
  by destruct (Z.testbit mask d).
Qed.

(** A window and its complement split the day: on a weekday of the mask, an
    instant is in [start, end) or in [end, start), never in both, also when the
    window wraps midnight; off the mask it is in neither. *)
Theorem time_window_complement `{!TimeLaws} ms mask s e :
  -377705116800 ≤ i64_div ms 1000 ≤ 253402300799 → s ≠ e →
  let day := Z.testbit mask ((i64_div ms 1000 / 86400 + 3) mod 7) in
  time_window_contains ms mask s e = day && negb (time_window_contains ms mask e s).
Proof.
  intros Ht Hse day. rewrite !window_unfold by done. fold day. destruct day; [|done]. cbn.
  set (h := _ / 3600). destruct (Z.ltb_spec s e), (Z.ltb_spec e s); try lia;
    destruct (Z.leb_spec s h), (Z.ltb_spec h e), (Z.leb_spec e h), (Z.ltb_spec h s); (done || lia).
Qed.

(** ** Rules that need a decoder *)

(** Without a decoded view an [AllowMethod] rule that applies to the target is
    not skipped: the request is refused. *)
Theorem allow_method_without_decoder_denies self clock fresh req c r :
  validate (rsp_rules self) = Ok () → rsp_decoder self = None →
  payload_chain_id (payload req) = Some c →
  r ∈ rules (rsp_rules self) →
  method_applicable c (req_to (make_ctx self fresh req)) r = true →
  ∃ d why, (evaluate self clock fresh req).1 = Ok d ∧ verdict_of d = VDeny why.
Proof.
  intros Hv Hdec Hc Hr Hm.
  destruct (evaluate_meets self clock fresh req Hv) as (d & Hd & Hh & _).
  assert (method_not_allowed (make_ctx self fresh req)).
  { exists c. split; [done|]. split; [eauto|]. intros (sel & ct & sels & s & Hsel & _).
    unfold decoded_selector in Hsel. cbn in Hsel. by rewrite Hdec in Hsel. }
  exists d. cbn [precedence table_stateless app first_holds] in Hh. naive_solver.
Qed.

Definition needs_decoder (r : Rule) : bool :=
  match r with ValueCap _ _ | VmShape _ _ => true | _ => false end.

Lemma gates_without_decoder x r :
  decoded x = None → (∀ a, a ∈ ctx_rules x → validate_rule a = Ok ()) →
  gate_value_cap x r = Ok r ∧ gate_vm_shape x r = Ok r.
Proof.
  intros Hd Hv. unfold gate_value_cap, gate_vm_shape, shape_max_value, shape_max_gas, shape_selectors,
    decoded_value, decoded_gas, decoded_selector. rewrite Hd. cbn.
  assert (Hloop : ∀ f : Rule → result Early (), (∀ a, a ∈ ctx_rules x → f a = Ok ()) →
            (_ ← iter_result f (ctx_rules x); mret r) = Ok r).
  { intros f Hf. apply result_bind_ok. exists (). split; [|done].
    apply iter_result_ok, Forall_forall. done. }
  split.
  - destruct (req_chain x); [|done]. apply Hloop. intros a Ha. specialize (Hv a Ha).
    destruct a; try done. case_match; [done|]. unfold try_u256. cbn in Hv.
    by destruct (parse_u256 max_value).
  - destruct (req_vm x); [|done]. apply Hloop. intros a Ha. specialize (Hv a Ha).
    destruct a; try done. case_match; [done|]. cbn in Hv.
    destruct (max_gas constraints), (allowed_method_selectors constraints),
      (PolicyTypes.max_value constraints) as [m|]; cbn in *; try done;
      unfold try_u256; by destruct (parse_u256 m).
Qed.

(** Value caps and VM shapes are enforced on decoded transactions only: when
    there is no decoder, or it does not decode the payload, gates 6 and 9 let
    the request pass whatever the caps say. *)
Theorem caps_vacuous_when_undecoded self fresh req r :
  validate (rsp_rules self) = Ok () →
  let x := make_ctx self fresh req in
  decoded x = None → gate_value_cap x r = Ok r ∧ gate_vm_shape x r = Ok r.
Proof. intros Hv x Hdec. apply gates_without_decoder; [done|]. by apply validate_rules. Qed.

End props.

(** ** Witnesses: a rule set that uses every kind of rule, on a contract call *)
Module RuleSetWitness.
Import Concrete.

Definition contract_hex : string := "0xDEADbeef".
Definition rs : RuleSet := {|
  version := 1;
  PolicyTypes.policy_id := PolicyId_from_ulid 1;
  rules := [ AllowChain [9001; 1]; DenyChain [13]; AllowContract 9001 [contract_hex];
             DenyContract 9001 ["0x00"]; ValueCap 9001 "1000";
             TimeWindow 0x7f 0 24;
             RuleRequireQuorum 2 3 (ApproverSetId_from_ulid 5) (ValueGte 9001 "500");
             VmShape Evm {| max_gas := Some 21000; allowed_method_selectors := None;
                            max_value := Some "900" |} ];
  default_outcome := DefaultAllow;
|}.
Definition target : bytes := [xde; xad; xbe; xef].
Definition tx_decoder : VmDecoder := λ _ raw,
  Some {| tx_chain_id := 9001; tx_to := Some target; tx_value := Some (be_value raw);
          tx_gas_limit := Some 21000; tx_method_selector := None; tx_raw_args := None |}.
Definition req : SigningRequest := {|
  request_id := RequestId_from_ulid 1;
  wallet_id := WalletId_from_ulid 2;
  requester := ApiKey "alice";
  payload := VmTransaction Evm 9001 (Some target) [x02; x58];
  hd_path := None;
  received_at_unix_ms := 1700000000000;
|}.
Definition pol : RuleSetPolicy :=
  {| rsp_rules := rs; rsp_limiter := ∅; rsp_decoder := Some tx_decoder |}.
Definition pol_rev : RuleSetPolicy :=
  {| rsp_rules := {| version := 1; PolicyTypes.policy_id := PolicyId_from_ulid 1;
                     rules := rev (rules rs); default_outcome := DefaultAllow |};
     rsp_limiter := ∅; rsp_decoder := Some tx_decoder |}.
Definition clock : nat → Z := λ _, 0.
Definition fresh : DecisionId := DecisionId_from_ulid 9.

(** A value of 600 is under the caps and over the quorum threshold. *)
Example pol_decision :
  verdict_of <$> result_ok (evaluate pol clock fresh req).1
  = Some (VQuorum 2 3 (ApproverSetId_from_ulid 5)).
Proof. vm_compute. reflexivity. Qed.

Example evaluate_precedence_witness :
  ∃ d, (evaluate pol clock fresh req).1 = Ok d
    ∧ first_holds (precedence (make_ctx pol fresh req) false)
        (quorum_or_default (make_ctx pol fresh req) DefaultAllow) (verdict_of d)
    ∧ stamped (make_ctx pol fresh req) d.
Proof.
  apply (evaluate_precedence rs ∅ (Some tx_decoder) pol clock fresh req). reflexivity.
Defined.

Example evaluate_charges_limiter_witness :
  rsp_rules (evaluate pol clock fresh req).2 = rs.
Proof.
  apply (evaluate_charges_limiter pol clock fresh req). reflexivity.
Defined.

Example evaluate_order_independent_witness :
  ∃ d1 d2, (evaluate pol clock fresh req).1 = Ok d1 ∧ (evaluate pol_rev clock fresh req).1 = Ok d2
           ∧ same_outcome (verdict_of d1) (verdict_of d2).
Proof.
  do 2 eexists. split; [vm_compute; reflexivity|]. split; [vm_compute; reflexivity|].
  apply (evaluate_order_independent pol pol_rev clock fresh req); try (vm_compute; reflexivity).
  apply Permutation_rev.
Defined.

Example rate_limit_key_separates_witness :
  rate_limit_key PerWallet req = rate_limit_key PerWallet req
  ↔ PerWallet = PerWallet ∧ same_scope_subject PerWallet req req.
Proof. apply rate_limit_key_separates; vm_compute; reflexivity. Defined.

Example same_scope_limits_share_bucket_witness :
  (acquire_all req (λ _, 5) 0 ∅ [RateLimit 1 60 PerWallet; RateLimit 1000 0 PerWallet]).1 = false.
Proof. apply same_scope_limits_share_bucket; [split; vm_compute; congruence|split; vm_compute; congruence|reflexivity]. Defined.

Example time_window_complement_witness :
  time_window_contains 1700000000000 0x7f 22 4
  = Z.testbit 0x7f 1 && negb (time_window_contains 1700000000000 0x7f 4 22).
Proof. apply (time_window_complement 1700000000000 0x7f 22 4); [split; vm_compute; congruence|lia]. Defined.

Definition pol_blind : RuleSetPolicy :=
  {| rsp_rules := {| version := 1; PolicyTypes.policy_id := PolicyId_from_ulid 1;
                     rules := [AllowMethod 9001 None ["0xa9059cbb"]; ValueCap 9001 "0"];
                     default_outcome := DefaultAllow |};
     rsp_limiter := ∅; rsp_decoder := None |}.

Example allow_method_without_decoder_denies_witness :
  ∃ d why, (evaluate pol_blind clock fresh req).1 = Ok d ∧ verdict_of d = VDeny why.
Proof.
  apply (allow_method_without_decoder_denies pol_blind clock fresh req 9001
           (AllowMethod 9001 None ["0xa9059cbb"])); try (vm_compute; reflexivity).
  by apply elem_of_cons; left.
Defined.

Example caps_vacuous_when_undecoded_witness :
  gate_value_cap (make_ctx pol_blind fresh req) [] = Ok []
  ∧ gate_vm_shape (make_ctx pol_blind fresh req) [] = Ok [].
Proof. apply caps_vacuous_when_undecoded; vm_compute; reflexivity. Defined.

End RuleSetWitness.
