(* ===== verification/Signers.v ===== *)
(** * Signers: the curve-agnostic signers of crate qfc-enclave

    [signer.rs] and [signers/*.rs]: the [Signer] trait as a record of
    operations, its six implementations over the curve crates, and the
    dispatch.  [SignerLaws] is what the rest of the system relies on. *)

From S2P Require Import Prelude Text Types External.
#[local] Open Scope string_scope.
#[local] Open Scope list_scope.
#[local] Open Scope Z_scope.

Inductive SignerError :=
  | InvalidSecret (scheme reason : string)
  | UnsupportedHash (scheme hash : string)
  | NotImplemented (what : string)
  | Crypto (why : string)
  | VerificationFailed
  | InvalidPublicKey (scheme reason : string).

(** The [Signer] trait. *)
Record Signer := {
  scheme : SigningScheme;
  public_key : bytes → result SignerError bytes;
  sign : bytes → bytes → HashAlg → result SignerError bytes;
  verify : bytes → bytes → bytes → HashAlg → result SignerError ();
}.

Section signers.
Context `{DigestCrate, Ed25519Crate, K256Crate, MlDsaCrate}.

Definition hash_name (h : HashAlg) : string :=
  match h with HashNone => "none" | Sha256 => "sha256" | Keccak256 => "keccak256" | Blake3 => "blake3" end.

(** ** [signers/ed25519.rs] *)

Definition require_no_hash (scheme : string) (h : HashAlg) : result SignerError () :=
  match h with HashNone => Ok () | _ => Err (UnsupportedHash scheme (hash_name h)) end.

(** [signing_key]: the 32 bytes are the key. *)
Definition ed25519_signing_key (secret : bytes) : result SignerError bytes :=
  if bool_decide (length secret = 32%nat) then Ok secret
  else Err (InvalidSecret "ed25519" "secret must be exactly 32 bytes").

Definition ed25519_verify (pk message signature : bytes) (h : HashAlg) : result SignerError () :=
  _ ← require_no_hash "ed25519" h;
  _ ← ensure (bool_decide (length pk = 32%nat))
        (InvalidPublicKey "ed25519" "expected 32-byte compressed public key");
  _ ← ensure (ed_key_valid pk) (InvalidPublicKey "ed25519" (ed_key_error pk));
  _ ← ensure (bool_decide (length signature = 64%nat))
        (InvalidPublicKey "ed25519" "signature must be 64 bytes");
  ensure (ed_verify pk message signature) VerificationFailed.

Definition Ed25519Signer : Signer := {|
  scheme := Ed25519;
  public_key secret := sk ← ed25519_signing_key secret; mret (ed_public sk);
  sign secret message h :=
    _ ← require_no_hash "ed25519" h;
    sk ← ed25519_signing_key secret;
    mret (ed_sign sk message);
  verify := ed25519_verify;
|}.

(** ** [signers/secp256k1.rs] *)

Definition signing_key_from (secret : bytes) : result SignerError k256_sk :=
  _ ← ensure (bool_decide (length secret = 32%nat))
        (InvalidSecret "secp256k1" "secret must be exactly 32 bytes");
  map_err Crypto (k256_signing_key secret).

Definition prehash (message : bytes) (h : HashAlg) : result SignerError bytes :=
  match h with
  | Sha256 => Ok (sha256 message)
  | Keccak256 => Ok (keccak256 message)
  | Blake3 => Ok (blake3 message)
  | HashNone => Err (UnsupportedHash "secp256k1" "none")
  end.

Definition compressed_public_key (sk : k256_sk) : bytes := k256_to_sec1 (k256_public sk).

Definition verifying_key_from (pk : bytes) : result SignerError k256_vk :=
  ok_or (k256_from_sec1 pk)
    (InvalidPublicKey "secp256k1" "expected 33-byte SEC1 compressed public key").

Definition secp256k1_sign (secret message : bytes) (h : HashAlg) : result SignerError bytes :=
  sk ← signing_key_from secret;
  digest ← prehash message h;
  sig ← map_err Crypto (k256_sign_prehash sk digest);
  let sig := default sig (k256_normalize_s sig) in
  mret (k256_sig_bytes sig).

Definition secp256k1_verify (pk message signature : bytes) (h : HashAlg) : result SignerError () :=
  vk ← verifying_key_from pk;
  digest ← prehash message h;
  _ ← ensure (bool_decide (length signature = 64%nat))
        (InvalidPublicKey "secp256k1" "signature must be 64 bytes");
  sig ← map_err Crypto (k256_sig_from_slice signature);
  ensure (k256_verify_prehash vk digest sig) VerificationFailed.

Definition Secp256k1Signer : Signer := {|
  scheme := Secp256k1;
  public_key secret := sk ← signing_key_from secret; mret (compressed_public_key sk);
  sign := secp256k1_sign;
  verify := secp256k1_verify;
|}.

Definition recoverable_sign (secret message : bytes) (h : HashAlg) : result SignerError bytes :=
  sk ← signing_key_from secret;
  digest ← prehash message h;
  r ← map_err Crypto (k256_sign_recoverable sk digest);
  let '(sig, rec_id) := r : k256_sig * Z in
  mret (k256_sig_bytes sig ++ [byte_of_Z rec_id]).

Definition recoverable_verify (pk message signature : bytes) (h : HashAlg) : result SignerError () :=
  _ ← ensure (bool_decide (length signature = 65%nat))
        (InvalidPublicKey "secp256k1_recoverable" "signature must be 65 bytes (r || s || v)");
  digest ← prehash message h;
  vk ← verifying_key_from pk;
  sig ← map_err Crypto (k256_sig_from_slice (take 64 signature));
  if k256_verify_prehash vk digest sig then
    rec_id ← ok_or (v ← signature !! 64%nat; k256_recovery_id (byte_val v))
               (InvalidPublicKey "secp256k1_recoverable" "invalid recovery byte");
    recovered ← ok_or (k256_recover digest sig rec_id) VerificationFailed;
    if bool_decide (k256_to_sec1 recovered = pk) then Ok () else Err VerificationFailed
  else Err VerificationFailed.

Definition Secp256k1RecoverableSigner : Signer := {|
  scheme := Secp256k1Recoverable;
  public_key secret := sk ← signing_key_from secret; mret (compressed_public_key sk);
  sign := recoverable_sign;
  verify := recoverable_verify;
|}.

(** ** [signers/ml_dsa.rs] *)

Definition SEED_BYTES : nat := 32.

Definition seed_from (secret : bytes) (scheme : string) : result SignerError bytes :=
  _ ← ensure (bool_decide (length secret = SEED_BYTES))
        (InvalidSecret scheme "ML-DSA seed must be exactly 32 bytes");
  mret secret.

Definition public_key_inner (p : MlDsaLevel) (scheme : string) (secret : bytes)
    : result SignerError bytes :=
  seed ← seed_from secret scheme;
  mret (mldsa_public p seed).

Definition sign_inner (p : MlDsaLevel) (scheme : string) (secret message : bytes) (h : HashAlg)
    : result SignerError bytes :=
  _ ← require_no_hash scheme h;
  seed ← seed_from secret scheme;
  mret (mldsa_sign p seed message).

Definition verify_inner (p : MlDsaLevel) (scheme : string) (pk message signature : bytes)
    (h : HashAlg) : result SignerError () :=
  _ ← require_no_hash scheme h;
  _ ← ensure (bool_decide (length pk = mldsa_pk_len p))
        (InvalidPublicKey scheme "public key has wrong length for ML-DSA parameter set");
  _ ← ensure (bool_decide (length signature = mldsa_sig_len p))
        (InvalidPublicKey scheme "signature has wrong length for ML-DSA parameter set");
  _ ← ensure (mldsa_sig_decodes p signature) VerificationFailed;
  ensure (mldsa_verify p pk message signature) VerificationFailed.

Definition MlDsa44Signer : Signer := {|
  scheme := MlDsa44; public_key := public_key_inner P44 "ml_dsa_44";
  sign := sign_inner P44 "ml_dsa_44"; verify := verify_inner P44 "ml_dsa_44" |}.
Definition MlDsa65Signer : Signer := {|
  scheme := MlDsa65; public_key := public_key_inner P65 "ml_dsa_65";
  sign := sign_inner P65 "ml_dsa_65"; verify := verify_inner P65 "ml_dsa_65" |}.
Definition MlDsa87Signer : Signer := {|
  scheme := MlDsa87; public_key := public_key_inner P87 "ml_dsa_87";
  sign := sign_inner P87 "ml_dsa_87"; verify := verify_inner P87 "ml_dsa_87" |}.

(** ** [signer.rs] *)

Definition signer_for_scheme (s : SigningScheme) : result SignerError Signer :=
  match s with
  | Ed25519 => Ok Ed25519Signer
  | Secp256k1 => Ok Secp256k1Signer
  | Secp256k1Recoverable => Ok Secp256k1RecoverableSigner
  | MlDsa44 => Ok MlDsa44Signer
  | MlDsa65 => Ok MlDsa65Signer
  | MlDsa87 => Ok MlDsa87Signer
  end.

Definition dispatch_signer {T} (s : SigningScheme) (f : Signer → result SignerError T)
    : result SignerError T :=
  match s with
  | Ed25519 => f Ed25519Signer
  | Secp256k1 => f Secp256k1Signer
  | Secp256k1Recoverable => f Secp256k1RecoverableSigner
  | MlDsa44 => f MlDsa44Signer
  | MlDsa65 => f MlDsa65Signer
  | MlDsa87 => f MlDsa87Signer
  end.

(** ** What callers may rely on *)

(** The secrets and hash choices a scheme takes. *)
Definition good_secret (s : SigningScheme) (secret : bytes) : Prop :=
  length secret = 32%nat
  ∧ match s with
    | Secp256k1 | Secp256k1Recoverable => 0 < be_value secret < secp256k1_order
    | _ => True
    end.

Definition good_hash (s : SigningScheme) (h : HashAlg) : bool :=
  match s, h with
  | (Secp256k1 | Secp256k1Recoverable), HashNone => false
  | (Secp256k1 | Secp256k1Recoverable), _ => true
  | _, HashNone => true
  | _, _ => false
  end.

Definition signature_length (s : SigningScheme) : nat :=
  match s with
  | Ed25519 | Secp256k1 => 64
  | Secp256k1Recoverable => 65
  | MlDsa44 => mldsa_sig_len P44 | MlDsa65 => mldsa_sig_len P65 | MlDsa87 => mldsa_sig_len P87
  end.

Context `{!DigestLaws, !Ed25519Laws, !K256Laws, !MlDsaLaws}.

Lemma prehash_ok h m : h ≠ HashNone → ∃ d, prehash m h = Ok d ∧ length d = 32%nat.
Proof.
  destruct h; [done|..]; intros _; eexists; (split; [done|]);
    [apply sha256_length|apply keccak256_length|apply blake3_length].
Qed.

Lemma signing_key_from_ok s secret :
  good_secret s secret → (s = Secp256k1 ∨ s = Secp256k1Recoverable) →
  ∃ sk, signing_key_from secret = Ok sk.
Proof.
  intros [Hl Hs] Hsch. unfold signing_key_from. rewrite bool_decide_eq_true_2 by done. cbn.
  destruct (k256_key_ok secret Hl) as [sk Hk]; [destruct Hsch; by subst s|].
  exists sk. by rewrite Hk.
Qed.

Lemma mldsa_round_trip p name secret msg :
  length secret = 32%nat →
  ∃ pk sig, public_key_inner p name secret = Ok pk ∧ sign_inner p name secret msg HashNone = Ok sig
    ∧ length sig = mldsa_sig_len p ∧ verify_inner p name pk msg sig HashNone = Ok ().
Proof.
  intros Hl. unfold public_key_inner, sign_inner, seed_from.
  rewrite bool_decide_eq_true_2 by done. cbn. do 2 eexists. do 2 (split; [done|]).
  split; [apply mldsa_sign_length|]. unfold verify_inner. cbn.
  rewrite (bool_decide_eq_true_2 (length (mldsa_public p secret) = _)) by apply mldsa_public_length.
  rewrite (bool_decide_eq_true_2 (length (mldsa_sign p secret msg) = _)) by apply mldsa_sign_length. cbn.
  by rewrite mldsa_sign_decodes, mldsa_verify_sign.
Qed.

Lemma ed25519_round_trip secret msg :
  length secret = 32%nat →
  ∃ pk sig, public_key Ed25519Signer secret = Ok pk ∧ sign Ed25519Signer secret msg HashNone = Ok sig
    ∧ length sig = 64%nat ∧ verify Ed25519Signer pk msg sig HashNone = Ok ().
Proof.
  intros Hl. cbn. unfold ed25519_signing_key. rewrite bool_decide_eq_true_2 by done. cbn.
  do 2 eexists. do 2 (split; [done|]). split; [apply ed_sign_length|].
  unfold ed25519_verify. cbn.
  rewrite (bool_decide_eq_true_2 (length (ed_public secret) = _)) by apply ed_public_length.
  rewrite (bool_decide_eq_true_2 (length (ed_sign secret msg) = _)) by apply ed_sign_length. cbn.
  rewrite ed_public_valid. cbn.
  by rewrite ed_verify_sign.
Qed.

Lemma secp256k1_round_trip secret sk msg h :
  signing_key_from secret = Ok sk → h ≠ HashNone →
  ∃ pk sig, public_key Secp256k1Signer secret = Ok pk ∧ sign Secp256k1Signer secret msg h = Ok sig
    ∧ length sig = 64%nat ∧ verify Secp256k1Signer pk msg sig h = Ok ().
Proof.
  intros Hsk Hh. destruct (prehash_ok h msg Hh) as (d & Hd & Hdl).
  destruct (k256_sign_ok sk d Hdl) as (sig & Hsig & Hlen & Hparse & Hver).
  cbn. unfold secp256k1_sign. rewrite Hsk. cbn. rewrite Hd. cbn. rewrite Hsig. cbn.
  do 2 eexists. do 2 (split; [done|]). split; [done|].
  unfold secp256k1_verify, verifying_key_from, compressed_public_key.
  rewrite k256_public_round_trip. cbn. rewrite Hd. cbn. rewrite bool_decide_eq_true_2 by done. cbn.
  rewrite Hparse. cbn. by rewrite Hver.
Qed.

Lemma recoverable_round_trip secret sk msg h :
  signing_key_from secret = Ok sk → h ≠ HashNone →
  ∃ pk sig, public_key Secp256k1RecoverableSigner secret = Ok pk
    ∧ sign Secp256k1RecoverableSigner secret msg h = Ok sig
    ∧ length sig = 65%nat ∧ verify Secp256k1RecoverableSigner pk msg sig h = Ok ().
Proof.
  intros Hsk Hh. destruct (prehash_ok h msg Hh) as (d & Hd & Hdl).
  destruct (k256_recoverable_ok sk d Hdl) as (sig & r & Hsig & Hr & Hlen & Hparse & Hver & Hid & Hrec).
  cbn. unfold recoverable_sign. rewrite Hsk. cbn. rewrite Hd. cbn. rewrite Hsig. cbn.
  do 2 eexists. do 2 (split; [done|]). assert (length (k256_sig_bytes sig ++ [byte_of_Z r]) = 65%nat) as H65
    by (rewrite length_app, Hlen; done). split; [done|].
  unfold recoverable_verify. rewrite bool_decide_eq_true_2 by done. cbn. rewrite Hd. cbn.
  unfold verifying_key_from, compressed_public_key. rewrite k256_public_round_trip. cbn.
  rewrite take_app_exact by done. rewrite Hparse. cbn. rewrite Hver.
  rewrite lookup_app_r by lia. rewrite Hlen. cbn.
  rewrite byte_val_of_Z, Z.mod_small by lia. rewrite Hid. cbn. rewrite Hrec. cbn.
  by rewrite bool_decide_eq_true_2.
Qed.

(** Sign then verify, whatever the scheme. *)
Lemma signer_round_trip s sg secret msg h :
  signer_for_scheme s = Ok sg → good_secret s secret → good_hash s h = true →
  ∃ pk sig, public_key sg secret = Ok pk ∧ sign sg secret msg h = Ok sig
    ∧ length sig = signature_length s ∧ verify sg pk msg sig h = Ok ().
Proof.
  intros Hs Hg Hh. destruct s; injection Hs as <-; cbn [signature_length].
  - destruct h; try done. apply ed25519_round_trip, Hg.
  - destruct (signing_key_from_ok _ _ Hg ltac:(by left)) as [sk Hsk].
    eapply secp256k1_round_trip; [exact Hsk|by destruct h].
  - destruct (signing_key_from_ok _ _ Hg ltac:(by right)) as [sk Hsk].
    eapply recoverable_round_trip; [exact Hsk|by destruct h].
  - destruct h; try done. apply (mldsa_round_trip P44), Hg.
  - destruct h; try done. apply (mldsa_round_trip P65), Hg.
  - destruct h; try done. apply (mldsa_round_trip P87), Hg.
Qed.

(** A secret the signer has a public key for signs every message under every hash
    the scheme takes. *)
Lemma public_signs s sg secret pk msg h :
  signer_for_scheme s = Ok sg → public_key sg secret = Ok pk → good_hash s h = true →
  ∃ sig, sign sg secret msg h = Ok sig ∧ verify sg pk msg sig h = Ok ().
Proof.
  assert (Hml : ∀ p n, public_key_inner p n secret = Ok pk →
            ∃ sig, sign_inner p n secret msg HashNone = Ok sig ∧ verify_inner p n pk msg sig HashNone = Ok ()).
  { intros p n Hpk. assert (length secret = 32%nat) as Hl.
    { unfold public_key_inner, seed_from in Hpk. apply result_bind_ok in Hpk as (sd & Hsd & _).
      by apply result_bind_ok in Hsd as (? & Hl%ensure_ok%bool_decide_eq_true & _). }
    destruct (mldsa_round_trip p n secret msg Hl) as (pk' & sig & Hpk' & ? & _ & ?).
    rewrite Hpk in Hpk'. injection Hpk' as <-. eauto. }
  intros Hs Hpk Hh. destruct s; injection Hs as <-; try (destruct h; try done; by apply Hml).
  - destruct h; try done. pose proof Hpk as Hsk. cbn in Hsk. apply result_bind_ok in Hsk as (sk & Hsk & _).
    unfold ed25519_signing_key in Hsk. case_bool_decide as Hl; [|done].
    destruct (ed25519_round_trip secret msg Hl) as (pk' & sig & Hpk' & ? & _ & ?).
    rewrite Hpk in Hpk'. injection Hpk' as <-. eauto.
  - pose proof Hpk as Hsk. cbn in Hsk. apply result_bind_ok in Hsk as (sk & Hsk & _).
    destruct (secp256k1_round_trip secret sk msg h Hsk) as (pk' & sig & Hpk' & ? & _ & ?); [by destruct h|].
    rewrite Hpk in Hpk'. injection Hpk' as <-. eauto.
  - pose proof Hpk as Hsk. cbn in Hsk. apply result_bind_ok in Hsk as (sk & Hsk & _).
    destruct (recoverable_round_trip secret sk msg h Hsk) as (pk' & sig & Hpk' & ? & _ & ?); [by destruct h|].
    rewrite Hpk in Hpk'. injection Hpk' as <-. eauto.
Qed.

(** What a scheme signs under, it takes. *)
Lemma signed_good_hash s sg secret msg h sig :
  signer_for_scheme s = Ok sg → sign sg secret msg h = Ok sig → good_hash s h = true.
Proof.
  intros Hs Hsig. destruct s; injection Hs as <-; destruct h; try done; exfalso; cbn in Hsig;
    unfold secp256k1_sign, recoverable_sign in Hsig; by apply result_bind_ok in Hsig as (sk & _ & Hsig).
Qed.

(** A key that signed one message signs every other. *)
Lemma signer_signs_all s sg secret pk m m' h sig :
  signer_for_scheme s = Ok sg → public_key sg secret = Ok pk → sign sg secret m h = Ok sig →
  ∃ sig', sign sg secret m' h = Ok sig' ∧ verify sg pk m' sig' h = Ok ().
Proof. intros Hs Hpk Hsig. eapply public_signs; [done..|by eapply signed_good_hash]. Qed.

(** ** Properties *)

(** Every scheme's signer signs what its verifier accepts: for a secret of the
    scheme and a hash algorithm it takes, [public_key] and [sign] succeed, the
    signature has the documented length, and [verify] accepts it under that
    public key; any other hash choice is refused by [sign] before the key is
    used to sign. *)
Theorem signer_sign_verify s sg secret msg h :
  signer_for_scheme s = Ok sg → good_secret s secret →
  if good_hash s h then
    ∃ pk sig, public_key sg secret = Ok pk ∧ sign sg secret msg h = Ok sig
      ∧ length sig = signature_length s ∧ verify sg pk msg sig h = Ok ()
  else ∃ name hash, sign sg secret msg h = Err (UnsupportedHash name hash).
Proof.
  intros Hs Hg. destruct (good_hash s h) eqn:Hh; [by apply signer_round_trip|].
  destruct s; injection Hs as <-; destruct h; try done; cbn; eauto.
  - unfold secp256k1_sign. destruct (signing_key_from_ok _ _ Hg ltac:(by left)) as [sk ->]. cbn. eauto.
  - unfold recoverable_sign. destruct (signing_key_from_ok _ _ Hg ltac:(by right)) as [sk ->]. cbn. eauto.
Qed.

End signers.

Module SignersWitness.
Import Concrete.

Definition key32 : bytes := be_bytes 32 7.

Example signer_sign_verify_witness :
  ∃ pk sig, public_key Secp256k1RecoverableSigner key32 = Ok pk
    ∧ sign Secp256k1RecoverableSigner key32 [x01; x02] Keccak256 = Ok sig
    ∧ length sig = 65%nat ∧ verify Secp256k1RecoverableSigner pk [x01; x02] sig Keccak256 = Ok ().
Proof.
  apply (signer_sign_verify Secp256k1Recoverable Secp256k1RecoverableSigner key32 [x01; x02] Keccak256);
    [reflexivity|]. split; [reflexivity|]. vm_compute. done.
Defined.

End SignersWitness.
