(* ===== verification/SignedDecision.v ===== *)
(** * SignedDecision: policy decisions signed for the enclave

    [signed_decision.rs] (the canonical preimage) and
    [policy_service_signer.rs] (the local signer).  The JSON of a decision is
    the one serde derives from the attributes in [decision.rs]. *)

From S2P Require Import Prelude Text Types External PolicyTypes.
#[local] Open Scope string_scope.
#[local] Open Scope list_scope.
#[local] Open Scope Z_scope.

Section signed.
Context `{UlidCrate, JsonCrate, Ed25519Crate}.

(** ** [#[derive(Serialize)]] on the decision types *)

Definition json_ulid (u : N) : Json := JString (ulid_to_string u).

Definition effect_json (e : RuleEffect) : Json :=
  JString match e with
          | EffectAllow => "allow" | EffectDeny => "deny" | EffectRequireQuorum => "require_quorum"
          end.

Definition hit_json (h : RuleHit) : Json :=
  JObject [("rule_id", JString (rule_id h)); ("effect", effect_json (effect h));
           ("reason", match reason h with Some r => JString r | None => JNull end)].

Definition deny_reason_json (r : DenyReason) : Json :=
  match r with
  | ChainNotAllowed => JString "chain_not_allowed"
  | ChainDenied => JString "chain_denied"
  | RequesterNotAllowed => JString "requester_not_allowed"
  | WalletInactive => JString "wallet_inactive"
  | Other why => JObject [("other", JString why)]
  end.

Definition decision_json (d : PolicyDecision) : Json :=
  let hits r := JArray (hit_json <$> r) in
  match d with
  | Allow i p r =>
      JObject [("allow", JObject [("decision_id", json_ulid (DecisionId_ulid i));
        ("policy_id", json_ulid (PolicyId_ulid p)); ("rationale", hits r)])]
  | Deny i p why r =>
      JObject [("deny", JObject [("decision_id", json_ulid (DecisionId_ulid i));
        ("policy_id", json_ulid (PolicyId_ulid p)); ("reason", deny_reason_json why);
        ("rationale", hits r)])]
  | RequireQuorum i p t n s r =>
      JObject [("require_quorum", JObject [("decision_id", json_ulid (DecisionId_ulid i));
        ("policy_id", json_ulid (PolicyId_ulid p)); ("threshold", JNumber t); ("total", JNumber n);
        ("approver_set", json_ulid (ApproverSetId_ulid s)); ("rationale", hits r)])]
  end.

(** ** [signed_decision.rs] *)

Definition POLICY_DECISION_DOMAIN : string := "qfc-policy-decision-v1".

Record SignedPolicyDecision := {
  decision : PolicyDecision;
  sd_request_id : RequestId;
  sd_wallet_id : WalletId;
  raw_payload : bytes;
  policy_service_signature : bytes;
  signed_at_unix_ms : Z;
  max_age_secs : Z;
}.

Definition build_preimage (d : PolicyDecision) (r : RequestId) (w : WalletId)
    (signed_at_unix_ms max_age_secs : Z) : bytes :=
  string_bytes POLICY_DECISION_DOMAIN ++ [x00]
  ++ json_to_vec (decision_json d) ++ [x00]
  ++ string_bytes (ulid_to_string (RequestId_ulid r)) ++ [x00]
  ++ string_bytes (ulid_to_string (WalletId_ulid w)) ++ [x00]
  ++ be_bytes 8 signed_at_unix_ms ++ [x00]
  ++ be_bytes 4 max_age_secs.

(** ** [policy_service_signer.rs] *)

Inductive PolicyServiceSignerError :=
  | Clock (why : string)
  | Backend (why : string).

Record LocalPolicyServiceSigner := { signing_key : bytes; lps_public_key : bytes }.

Definition LocalPolicyServiceSigner_new (k : bytes) : LocalPolicyServiceSigner :=
  {| signing_key := k; lps_public_key := ed_public k |}.

(** [current_unix_ms]: nanoseconds (an [i128]) to milliseconds, narrowed to
    [i64]; [overflow] is the text of the conversion error. *)
Definition current_unix_ms (overflow : string) (nanos : Z) : result PolicyServiceSignerError Z :=
  let ms := Z.quot nanos 1000000 in
  if (i64_min <=? ms) && (ms <=? i64_max) then Ok ms else Err (Clock overflow).

Definition sign_decision (overflow : string) (self : LocalPolicyServiceSigner) (nanos : Z)
    (d : PolicyDecision) (r : RequestId) (w : WalletId) (max_age : Z)
    : result PolicyServiceSignerError SignedPolicyDecision :=
  now ← current_unix_ms overflow nanos;
  let preimage := build_preimage d r w now max_age in
  let signature := ed_sign (signing_key self) preimage in
  mret {| decision := d; sd_request_id := r; sd_wallet_id := w; raw_payload := preimage;
          policy_service_signature := signature; signed_at_unix_ms := now;
          max_age_secs := max_age |}.

(** ** Lemmas *)

Context `{!UlidLaws, !JsonLaws}.

Definition decision_ids_ok (d : PolicyDecision) : Prop :=
  match d with
  | Allow i p _ | Deny i p _ _ => is_ulid (DecisionId_ulid i) ∧ is_ulid (PolicyId_ulid p)
  | RequireQuorum i p _ _ s _ => is_ulid (DecisionId_ulid i) ∧ is_ulid (PolicyId_ulid p)
                                 ∧ is_ulid (ApproverSetId_ulid s)
  end.

Lemma hit_json_inj h k : hit_json h = hit_json k → h = k.
Proof.
  destruct h as [i e r], k as [i' e' r']. unfold hit_json, effect_json. cbn.
  intros [= -> He Hr]. f_equal; [by destruct e, e'|]. destruct r, r'; congruence.
Qed.

Lemma hits_inj (a b : list RuleHit) : hit_json <$> a = hit_json <$> b → a = b.
Proof.
  revert b. induction a as [|x a IH]; intros [|y b]; cbn; try done.
  intros Heq. assert (hit_json x = hit_json y) as ->%hit_json_inj by congruence.
  f_equal. apply IH. congruence.
Qed.

Lemma deny_reason_json_inj r s : deny_reason_json r = deny_reason_json s → r = s.
Proof. destruct r, s; cbn; congruence. Qed.

Lemma json_ulid_inj u v : is_ulid u → is_ulid v → json_ulid u = json_ulid v → u = v.
Proof. intros Hu Hv [= Heq]. by apply ulid_inj. Qed.

(** The JSON of a decision determines it. *)
Lemma decision_json_inj d e :
  decision_ids_ok d → decision_ids_ok e → decision_json d = decision_json e → d = e.
Proof.
  destruct d as [[i] [p] r|[i] [p] why r|[i] [p] t n [s] r],
    e as [[i'] [p'] r'|[i'] [p'] why' r'|[i'] [p'] t' n' [s'] r'];
    cbn -[json_ulid deny_reason_json]; intros Hd He Heq; try discriminate Heq.
  - assert (json_ulid i = json_ulid i') as Hi%json_ulid_inj by congruence; [|naive_solver..].
    assert (json_ulid p = json_ulid p') as Hp%json_ulid_inj by congruence; [|naive_solver..].
    assert (hit_json <$> r = hit_json <$> r') as Hr%hits_inj by congruence. congruence.
  - assert (json_ulid i = json_ulid i') as Hi%json_ulid_inj by congruence; [|naive_solver..].
    assert (json_ulid p = json_ulid p') as Hp%json_ulid_inj by congruence; [|naive_solver..].
    assert (deny_reason_json why = deny_reason_json why') as Hw%deny_reason_json_inj by congruence.
    assert (hit_json <$> r = hit_json <$> r') as Hr%hits_inj by congruence. congruence.
  - assert (json_ulid i = json_ulid i') as Hi%json_ulid_inj by congruence; [|naive_solver..].
    assert (json_ulid p = json_ulid p') as Hp%json_ulid_inj by congruence; [|naive_solver..].
    assert (json_ulid s = json_ulid s') as Hs%json_ulid_inj by congruence; [|naive_solver..].
    assert (hit_json <$> r = hit_json <$> r') as Hr%hits_inj by congruence. congruence.
Qed.

Lemma ulid_bytes_length u : length (string_bytes (ulid_to_string u)) = 26%nat.
Proof. by rewrite length_string_bytes, ulid_length. Qed.

Lemma ulid_bytes_inj u v : is_ulid u → is_ulid v →
  string_bytes (ulid_to_string u) = string_bytes (ulid_to_string v) → u = v.
Proof. intros Hu Hv Heq%string_bytes_inj. by apply ulid_inj. Qed.

Lemma preimage_domain d r w t a :
  ∃ rest, build_preimage d r w t a = string_bytes POLICY_DECISION_DOMAIN ++ rest.
Proof. by eexists. Qed.

(** ** Properties *)

(** C27. The preimage binds every field: two signed decisions with the same
    preimage agree on the decision (identifiers, outcome, threshold, rationale),
    the request, the wallet, the timestamp and the maximal age.  The trailing
    fields have fixed widths, so no choice of JSON can shift a boundary. *)
Theorem preimage_binds_fields d1 d2 r1 r2 w1 w2 t1 t2 a1 a2 :
  decision_ids_ok d1 → decision_ids_ok d2 →
  is_ulid (RequestId_ulid r1) → is_ulid (RequestId_ulid r2) →
  is_ulid (WalletId_ulid w1) → is_ulid (WalletId_ulid w2) →
  is_i64 t1 → is_i64 t2 → 0 ≤ a1 ≤ u32_max → 0 ≤ a2 ≤ u32_max →
  build_preimage d1 r1 w1 t1 a1 = build_preimage d2 r2 w2 t2 a2 →
  d1 = d2 ∧ r1 = r2 ∧ w1 = w2 ∧ t1 = t2 ∧ a1 = a2.
Proof.
  intros Hd1 Hd2 Hr1 Hr2 Hw1 Hw2 Ht1 Ht2 Ha1 Ha2. unfold build_preimage, u32_max in *.
  intros [_ [_ Heq]%app_inj_1]%app_inj_1; [|done..].
  apply app_inj_2 in Heq as [Hj Heq].
  2: { rewrite !length_app, !ulid_bytes_length, !length_be_bytes. done. }
  apply app_inj_1 in Heq as [_ Heq]; [|done].
  apply app_inj_1 in Heq as [Hr Heq]; [|by rewrite !ulid_bytes_length].
  apply app_inj_1 in Heq as [_ Heq]; [|done].
  apply app_inj_1 in Heq as [Hw Heq]; [|by rewrite !ulid_bytes_length].
  apply app_inj_1 in Heq as [_ Heq]; [|done].
  apply app_inj_1 in Heq as [Ht Heq]; [|by rewrite !length_be_bytes].
  apply app_inj_1 in Heq as [_ Ha]; [|done].
  apply json_to_vec_inj, decision_json_inj in Hj; [|done..].
  apply ulid_bytes_inj in Hr; [|done..]. apply ulid_bytes_inj in Hw; [|done..].
  apply be_bytes_i64_inj in Ht; [|done..].
  apply (f_equal be_value) in Ha. rewrite !be_value_bytes_small in Ha by lia.
  destruct r1, r2, w1, w2. cbn in *. by subst.
Qed.

End signed.

Module SignedDecisionWitness.
Import Concrete.

Definition d0 : PolicyDecision :=
  Allow (DecisionId_from_ulid 1) (PolicyId_from_ulid 2)
    [{| rule_id := "default-allow"; effect := EffectAllow; reason := None |}].

Example preimage_binds_fields_witness :
  build_preimage d0 (RequestId_from_ulid 3) (WalletId_from_ulid 4) 5 60
  = build_preimage d0 (RequestId_from_ulid 3) (WalletId_from_ulid 4) 5 60
  ∧ (d0 = d0 ∧ RequestId_from_ulid 3 = RequestId_from_ulid 3
     ∧ WalletId_from_ulid 4 = WalletId_from_ulid 4 ∧ 5 = 5 ∧ 60 = 60).
Proof.
  split; [reflexivity|].
  apply preimage_binds_fields; try reflexivity; try (split; reflexivity); split; vm_compute; congruence.
Defined.

End SignedDecisionWitness.
