(* ===== verification/Derivation.v ===== *)
(** * Derivation: hierarchical-deterministic keys ([derivation.rs])

    BIP32 through the [bip32] crate for secp256k1, and the in-tree SLIP-0010
    construction for ed25519. *)

From S2P Require Import Prelude Text Types Secret External.
#[local] Open Scope string_scope.
#[local] Open Scope list_scope.
#[local] Open Scope Z_scope.

Inductive DerivationError :=
  | NonHardenedRequired (scheme : string)
  | SchemeNotHd (scheme : string)
  | Underlying (why : string)
  | Mnemonic (why : string).

Record ClassicalDerivation := { secret : bytes; chain_code : bytes }.

Definition mnemonic_to_seed `{Bip39Crate} (phrase passphrase : string) : result DerivationError SecretBytes :=
  mnemonic ← map_err Mnemonic (mnemonic_parse phrase);
  let seed_bytes := mnemonic_seed mnemonic passphrase in
  mret (from_slice seed_bytes).

Section derivation.
Context `{DigestCrate, Bip32Crate}.

(** [Iterator::try_fold]. *)
Fixpoint try_fold {E A B} (f : A → B → result E A) (acc : A) (l : list B) : result E A :=
  match l with [] => Ok acc | b :: l => acc ← f acc b; try_fold f acc l end.

Definition bip32_step (acc : XPrv) (seg : HdPath.HdPathSegment) : result DerivationError XPrv :=
  let raw_index := match seg with HdPath.Normal i | HdPath.Hardened i => i end in
  child ← map_err Underlying (bip32_child_number raw_index (HdPath.is_hardened seg));
  map_err Underlying (xprv_derive_child acc child).

Definition derive_secp256k1 (seed : bytes) (path : HdPath.HdPath)
    : result DerivationError ClassicalDerivation :=
  xprv ← map_err Underlying (xprv_new seed);
  derived ← try_fold bip32_step xprv (HdPath.segments path);
  mret {| secret := xprv_to_bytes derived; chain_code := xprv_chain_code derived |}.

(** One child step: HMAC-SHA512(chain, 0x00 || key || index_be). *)
Definition slip10_step (kc : bytes * bytes) (seg : HdPath.HdPathSegment)
    : result DerivationError (bytes * bytes) :=
  let '(key, chain) := kc in
  if negb (HdPath.is_hardened seg) then Err (NonHardenedRequired "ed25519")
  else
    let out := hmac_sha512 chain ([x00] ++ key ++ be_bytes 4 (HdPath.child_index seg)) in
    Ok (take 32 out, drop 32 out).

Definition derive_ed25519_slip10 (seed : bytes) (path : HdPath.HdPath)
    : result DerivationError ClassicalDerivation :=
  let i := hmac_sha512 (string_bytes "ed25519 seed") seed in
  kc ← try_fold slip10_step (take 32 i, drop 32 i) (HdPath.segments path);
  mret {| secret := fst kc; chain_code := snd kc |}.

Definition derive_classical (s : SigningScheme) (seed : bytes) (path : HdPath.HdPath)
    : result DerivationError ClassicalDerivation :=
  match s with
  | Secp256k1 | Secp256k1Recoverable => derive_secp256k1 seed path
  | Ed25519 => derive_ed25519_slip10 seed path
  | MlDsa44 | MlDsa65 | MlDsa87 => Err (SchemeNotHd "ml_dsa")
  end.

(** ** Lemmas *)

Lemma try_fold_app {E A B} (f : A → B → result E A) acc l k :
  try_fold f acc (l ++ k) = (acc ← try_fold f acc l; try_fold f acc k).
Proof. revert acc. induction l as [|b l IH]; intros acc; cbn; [done|]. by destruct (f acc b); cbn. Qed.

Context `{!DigestLaws}.

Lemma slip10_step_ok kc seg :
  HdPath.is_hardened seg = true →
  ∃ kc', slip10_step kc seg = Ok kc' ∧ length kc'.1 = 32%nat ∧ length kc'.2 = 32%nat.
Proof.
  intros Hh. destruct kc as [key chain]. unfold slip10_step. rewrite Hh. cbn.
  eexists. split; [done|]. cbn. rewrite length_take, length_drop, hmac_length. done.
Qed.

Lemma slip10_fold kc segs :
  length kc.1 = 32%nat → length kc.2 = 32%nat →
  if forallb HdPath.is_hardened segs then
    ∃ kc', try_fold slip10_step kc segs = Ok kc' ∧ length kc'.1 = 32%nat ∧ length kc'.2 = 32%nat
  else try_fold slip10_step kc segs = Err (NonHardenedRequired "ed25519").
Proof.
  revert kc. induction segs as [|seg segs IH]; intros kc Hk Hc; cbn; [eauto|].
  destruct (HdPath.is_hardened seg) eqn:Hh; cbn.
  - destruct (slip10_step_ok kc seg Hh) as (kc' & -> & Hk' & Hc'). by apply IH.
  - destruct kc. cbn. by rewrite Hh.
Qed.

(** ** Properties *)

(** ed25519 derivation (SLIP-0010) is total on hardened paths and refuses every
    other path: it succeeds exactly when all segments are hardened, with a
    32-byte key and a 32-byte chain code, and otherwise reports that hardened
    segments are required. *)
Theorem slip10_hardened_only seed path :
  if forallb HdPath.is_hardened (HdPath.segments path) then
    ∃ d, derive_classical Ed25519 seed path = Ok d
         ∧ length (secret d) = 32%nat ∧ length (chain_code d) = 32%nat
  else derive_classical Ed25519 seed path = Err (NonHardenedRequired "ed25519").
Proof.
  cbn. unfold derive_ed25519_slip10. set (i := hmac_sha512 _ seed).
  pose proof (slip10_fold (take 32 i, drop 32 i) (HdPath.segments path)) as Hf. cbn [fst snd] in Hf.
  rewrite length_take, length_drop in Hf. unfold i in Hf. rewrite hmac_length in Hf.
  specialize (Hf eq_refl eq_refl). fold i in Hf. destruct (forallb _ _).
  - destruct Hf as (kc & -> & Hk & Hc). cbn. by eexists.
  - by rewrite Hf.
Qed.

(** Derivation is incremental: deriving along a path and then along its
    continuation from the intermediate key and chain code gives the same child
    as deriving along the whole path. *)
Theorem slip10_path_composes seed p q :
  derive_classical Ed25519 seed (HdPath.from_segments (p ++ q)) =
    (d ← derive_classical Ed25519 seed (HdPath.from_segments p);
     kc ← try_fold slip10_step (secret d, chain_code d) q;
     mret {| secret := kc.1; chain_code := kc.2 |}).
Proof.
  cbn. unfold derive_ed25519_slip10. cbn. rewrite try_fold_app.
  destruct (try_fold slip10_step _ p) as [[k c]|e]; done.
Qed.

(** From words to keys: a phrase is refused only when its checksum or words are,
    and otherwise gives a 64-byte seed from which every hardened path derives an
    ed25519 key. *)
Theorem mnemonic_derives `{Bip39Crate, !Bip39Laws} phrase passphrase path :
  match mnemonic_to_seed phrase passphrase with
  | Ok seed => length (expose seed) = 64%nat
      ∧ (forallb HdPath.is_hardened (HdPath.segments path) = true →
         ∃ d, derive_classical Ed25519 (expose seed) path = Ok d ∧ length (secret d) = 32%nat)
  | Err e => ∃ why, mnemonic_parse phrase = Err why ∧ e = Mnemonic why
  end.
Proof.
  unfold mnemonic_to_seed. destruct (mnemonic_parse phrase) as [m|why]; cbn; [|by exists why].
  split; [apply mnemonic_seed_length|]. intros Hh.
  pose proof (slip10_hardened_only (mnemonic_seed m passphrase) path) as Hd. rewrite Hh in Hd.
  destruct Hd as (d & Hd & Hl & _). by exists d.
Qed.

End derivation.

Module DerivationWitness.
Import Concrete.

Example slip10_hardened_only_witness :
  ∃ d, derive_classical Ed25519 [x01; x02] (HdPath.from_segments [HdPath.Hardened 44]) = Ok d
       ∧ length (secret d) = 32%nat ∧ length (chain_code d) = 32%nat.
Proof. apply (slip10_hardened_only [x01; x02] (HdPath.from_segments [HdPath.Hardened 44])). Defined.

End DerivationWitness.
