(* ===== verification/Attestation.v ===== *)
(** * Attestation: attestation documents ([attestation.rs])

    The payload's JSON is the one serde derives; [BTreeMap<u8, Vec<u8>>] is an
    association list kept sorted by key. *)

From S2P Require Import Prelude Text Types External.
#[local] Open Scope string_scope.
#[local] Open Scope list_scope.
#[local] Open Scope Z_scope.

Definition PCR_MOCK_SENTINEL_LEN : nat := 48.
Definition pcr_mock_sentinel : bytes := replicate PCR_MOCK_SENTINEL_LEN xcd.

Record AttestationPayload := {
  backend : string;
  timestamp_unix_ms : Z;
  nonce : bytes;
  pcrs : list (Z * bytes);
  attestation_public_key : bytes;
  user_data : bytes;
}.

#[export] Instance AttestationPayload_eq_dec : EqDecision AttestationPayload.
Proof. solve_decision. Defined.

Record AttestationDoc := {
  att_raw_payload : bytes;
  att_payload : AttestationPayload;
  att_signature : bytes;
}.

Inductive AttestationError :=
  | PayloadParse (why : string)
  | PayloadMismatch
  | InvalidKey (why : string)
  | InvalidSignature.

(** [BTreeMap::insert]. *)
Fixpoint btree_insert {V} (k : Z) (v : V) (m : list (Z * V)) : list (Z * V) :=
  match m with
  | [] => [(k, v)]
  | (k', v') :: m' =>
      if k <? k' then (k, v) :: m
      else if k =? k' then (k, v) :: m'
      else (k', v') :: btree_insert k v m'
  end.

(** ** serde *)

Definition json_bytes (bs : bytes) : Json := JArray ((λ b, JNumber (byte_val b)) <$> bs).

Definition payload_json (p : AttestationPayload) : Json :=
  JObject [("backend", JString (backend p));
           ("timestamp_unix_ms", JNumber (timestamp_unix_ms p));
           ("nonce", json_bytes (nonce p));
           ("pcrs", JObject ((λ kv, (show_dec kv.1, json_bytes kv.2)) <$> pcrs p));
           ("attestation_public_key", json_bytes (attestation_public_key p));
           ("user_data", json_bytes (user_data p))].

Definition byte_of_json (j : Json) : option byte :=
  match j with
  | JNumber z => if (0 <=? z) && (z <=? u8_max) then Some (byte_of_Z z) else None
  | _ => None
  end.

Definition bytes_of_json (j : Json) : option bytes :=
  match j with JArray l => mapM byte_of_json l | _ => None end.

(** A struct field occurs exactly once; unknown fields are ignored. *)
Definition json_field (k : string) (fields : list (string * Json)) : option Json :=
  match List.filter (λ f, String.eqb f.1 k) fields with [(_, v)] => Some v | _ => None end.

(** The fields of a derived struct, from a map or positionally. *)
Definition struct_values (names : list string) (j : Json) : option (list Json) :=
  match j with
  | JObject fs => mapM (λ k, json_field k fs) names
  | JArray l => if bool_decide (length l = length names) then Some l else None
  | _ => None
  end.

(** [serde_bytes]: an array of numbers, or the bytes of a string. *)
Definition serde_bytes_of_json (j : Json) : option bytes :=
  match j with JString s => Some (string_bytes s) | _ => bytes_of_json j end.

Definition pcr_of_field (f : string * Json) : option (Z * bytes) :=
  k ← parse_uint u8_max f.1; v ← bytes_of_json f.2; mret (k, v).

Definition payload_of_json (j : Json) : option AttestationPayload :=
  match j with
  | JObject fs =>
      backend ← (j ← json_field "backend" fs; match j with JString s => Some s | _ => None end);
      ts ← (j ← json_field "timestamp_unix_ms" fs;
            match j with
            | JNumber z => if (i64_min <=? z) && (z <=? i64_max) then Some z else None
            | _ => None
            end);
      nonce ← (j ← json_field "nonce" fs; bs ← bytes_of_json j;
               if bool_decide (length bs = 32%nat) then Some bs else None);
      pcrs ← (j ← json_field "pcrs" fs;
              match j with
              | JObject kvs => l ← mapM pcr_of_field kvs;
                               Some (foldl (λ m kv, btree_insert kv.1 kv.2 m) [] l)
              | _ => None
              end);
      pk ← (j ← json_field "attestation_public_key" fs; bytes_of_json j);
      ud ← (j ← json_field "user_data" fs; bytes_of_json j);
      Some {| backend := backend; timestamp_unix_ms := ts; nonce := nonce; pcrs := pcrs;
              attestation_public_key := pk; user_data := ud |}
  | _ => None
  end.

Section attestation.
Context `{JsonCrate, Ed25519Crate, DigestCrate}.

Definition sha256_32 (bs : bytes) : bytes := sha256 bs.

(** [AttestationDoc::verify]; [why] is the parser's message. *)
Definition verify_doc (why : string) (d : AttestationDoc) : result AttestationError () :=
  reparsed ← ok_or (j ← json_from_slice (att_raw_payload d); payload_of_json j) (PayloadParse why);
  _ ← ensure (bool_decide (reparsed = att_payload d)) PayloadMismatch;
  let pk := attestation_public_key (att_payload d) in
  _ ← ensure (bool_decide (length pk = 32%nat)) (InvalidKey "expected 32-byte ed25519 pubkey");
  _ ← ensure (ed_key_valid pk) (InvalidKey "malformed ed25519 pubkey");
  _ ← ensure (bool_decide (length (att_signature d) = 64%nat)) InvalidSignature;
  ensure (ed_verify pk (att_raw_payload d) (att_signature d)) InvalidSignature.

(** [MockAttestationKey]: the secret key; the public one is derived. *)
Record MockAttestationKey := { att_sk : bytes }.

Definition from_seed (seed : bytes) : MockAttestationKey := {| att_sk := seed |}.
Definition public_key_bytes (k : MockAttestationKey) : bytes := ed_public (att_sk k).

(** [sign_attestation] at the clock reading [now]; serialisation of the typed
    payload cannot fail. *)
Definition sign_attestation (now : Z) (k : MockAttestationKey) (nonce user_data : bytes)
    : result AttestationError AttestationDoc :=
  let pcrs := btree_insert 2 pcr_mock_sentinel
                (btree_insert 1 pcr_mock_sentinel (btree_insert 0 pcr_mock_sentinel [])) in
  let payload := {| backend := "mock"; timestamp_unix_ms := now; nonce := nonce; pcrs := pcrs;
                    attestation_public_key := public_key_bytes k; user_data := user_data |} in
  let raw_payload := json_to_vec (payload_json payload) in
  let signature := ed_sign (att_sk k) raw_payload in
  mret {| att_raw_payload := raw_payload; att_payload := payload; att_signature := signature |}.

(** ** Lemmas *)

Lemma bytes_of_json_bytes bs : bytes_of_json (json_bytes bs) = Some bs.
Proof.
  unfold json_bytes, bytes_of_json. induction bs as [|b bs IH]; [done|]. cbn [fmap list_fmap mapM].
  rewrite IH. pose proof (byte_val_range b). unfold byte_of_json, u8_max.
  rewrite (proj2 (Z.leb_le 0 _)), (proj2 (Z.leb_le _ (2 ^ 8 - 1))) by lia. cbn.
  by rewrite byte_of_Z_val.
Qed.

Lemma pcr_of_field_show k v : 0 ≤ k ≤ u8_max → pcr_of_field (show_dec k, json_bytes v) = Some (k, v).
Proof.
  intros Hk. unfold pcr_of_field. cbn [fst snd]. rewrite parse_uint_show by done.
  cbn [mbind option_bind]. by rewrite bytes_of_json_bytes.
Qed.

Lemma pcrs_round_trip l :
  Forall (λ kv, 0 ≤ kv.1 ≤ u8_max) l →
  mapM pcr_of_field ((λ kv, (show_dec kv.1, json_bytes kv.2)) <$> l) = Some l.
Proof.
  induction 1 as [|[k v] l Hk _ IH]; [done|].
  rewrite fmap_cons. cbn [mapM fst snd]. by rewrite pcr_of_field_show, IH.
Qed.

Lemma payload_round_trip p :
  is_i64 (timestamp_unix_ms p) → length (nonce p) = 32%nat →
  Forall (λ kv, 0 ≤ kv.1 ≤ u8_max) (pcrs p) →
  foldl (λ m kv, btree_insert kv.1 kv.2 m) [] (pcrs p) = pcrs p →
  payload_of_json (payload_json p) = Some p.
Proof.
  intros Ht Hn Hk Hs. unfold payload_json, payload_of_json.
  set (fs := [_; _; _; _; _; _]).
  change (json_field "backend" fs) with (Some (JString (backend p))).
  change (json_field "timestamp_unix_ms" fs) with (Some (JNumber (timestamp_unix_ms p))).
  change (json_field "nonce" fs) with (Some (json_bytes (nonce p))).
  change (json_field "pcrs" fs)
    with (Some (JObject ((λ kv, (show_dec kv.1, json_bytes kv.2)) <$> pcrs p))).
  change (json_field "attestation_public_key" fs) with (Some (json_bytes (attestation_public_key p))).
  change (json_field "user_data" fs) with (Some (json_bytes (user_data p))).
  cbn [mbind option_bind]. unfold is_i64 in Ht.
  rewrite (proj2 (Z.leb_le i64_min _)), (proj2 (Z.leb_le _ i64_max)) by lia. cbn [andb mbind option_bind].
  rewrite !bytes_of_json_bytes. cbn [mbind option_bind].
  rewrite (bool_decide_eq_true_2 (length (nonce p) = _)) by done. cbn [mbind option_bind].
  assert (mapM pcr_of_field ((λ kv, (show_dec kv.1, json_bytes kv.2)) <$> pcrs p) = Some (pcrs p)) as ->.
  { by apply pcrs_round_trip. }
  cbn [mbind option_bind]. rewrite Hs. by destruct p.
Qed.

Context `{!JsonLaws, !Ed25519Laws}.

Lemma sign_attestation_ok now k n ud :
  is_i64 now → length n = 32%nat →
  ∃ d, sign_attestation now k n ud = Ok d ∧ user_data (att_payload d) = ud
    ∧ nonce (att_payload d) = n ∧ timestamp_unix_ms (att_payload d) = now
    ∧ ∀ why, verify_doc why d = Ok ().
Proof.
  intros Hnow Hn. eexists. split; [done|]. do 3 (split; [done|]). intros why.
  unfold verify_doc. cbn [att_raw_payload att_payload att_signature]. rewrite json_round_trip.
  cbn [mbind option_bind]. rewrite payload_round_trip; [|done|done| |done].
  2: { repeat constructor; cbn; done. }
  cbn [ok_or mbind result_bind]. match goal with |- context [bool_decide (?a = ?a)] => rewrite (bool_decide_eq_true_2 (a = a)) by done end.
  cbn [ensure mbind result_bind attestation_public_key]. unfold public_key_bytes.
  rewrite (bool_decide_eq_true_2 (length (ed_public _) = _)) by apply ed_public_length.
  rewrite ed_public_valid. cbn [ensure mbind result_bind].
  rewrite (bool_decide_eq_true_2 (length (ed_sign _ _) = _)) by apply ed_sign_length.
  cbn [ensure mbind result_bind]. by rewrite ed_verify_sign.
Qed.

(** ** Properties *)

(** An attestation document verifies, and what it shows is what was bound: the
    document [sign_attestation] makes for a nonce and user data passes
    [verify], and in any document that passes, the convenience payload is the
    parse of exactly the signed bytes under its own 32-byte key. *)
Theorem attestation_verifies now k n ud :
  is_i64 now → length n = 32%nat →
  (∃ d, sign_attestation now k n ud = Ok d ∧ user_data (att_payload d) = ud
        ∧ nonce (att_payload d) = n ∧ ∀ why, verify_doc why d = Ok ())
  ∧ (∀ why d, verify_doc why d = Ok () →
       (j ← json_from_slice (att_raw_payload d); payload_of_json j) = Some (att_payload d)
       ∧ length (attestation_public_key (att_payload d)) = 32%nat
       ∧ ed_verify (attestation_public_key (att_payload d)) (att_raw_payload d) (att_signature d) = true).
Proof.
  intros Hnow Hn. split.
  - destruct (sign_attestation_ok now k n ud Hnow Hn) as (d & ? & ? & ? & _ & ?). eauto.
  - intros why d. unfold verify_doc. rewrite result_bind_ok.
    intros (p & Hp%ok_or_ok & Hd). rewrite Hp.
    apply result_bind_ok in Hd as (? & Heq%ensure_ok%bool_decide_eq_true & Hd).
    apply result_bind_ok in Hd as (? & Hl%ensure_ok%bool_decide_eq_true & Hd).
    apply result_bind_ok in Hd as (? & _ & Hd).
    apply result_bind_ok in Hd as (? & _ & Hd%ensure_ok). by subst p.
Qed.

End attestation.

Module AttestationWitness.
Import Concrete.

Example attestation_verifies_witness :
  ∃ d, sign_attestation 5 (from_seed [x01]) (replicate 32 x07) [x09] = Ok d
       ∧ user_data (att_payload d) = [x09]
       ∧ nonce (att_payload d) = replicate 32 x07 ∧ ∀ why, verify_doc why d = Ok ().
Proof.
  apply (attestation_verifies 5 (from_seed [x01]) (replicate 32 x07) [x09]);
    [split; vm_compute; congruence|reflexivity].
Defined.

End AttestationWitness.
