(* ===== verification/Cose.v ===== *)
(** * Cose: COSE_Sign1 envelopes and the Nitro attestation payload

    Models [crates/qfc-enclave/src/cose.rs]: the envelope wrapper, the typed
    attestation payload with its CBOR encoder and decoder, the two signature
    checks and the envelope builders.  CBOR, COSE, X.509 and ECDSA P-384 are the
    crates of Codecs.v. *)

From S2P Require Import Prelude Text External Codecs Attestation.
#[local] Open Scope string_scope.
#[local] Open Scope list_scope.
#[local] Open Scope Z_scope.

Inductive CoseParseError :=
  | MalformedEnvelope (why : string)
  | MalformedPayload (why : string)
  | MissingPayload
  | MissingField (field : string)
  | WrongFieldType (field : string).

Inductive CoseVerifyError :=
  | CoseInvalidPublicKey
  | CoseInvalidSignature
  | CoseMalformedLeafCert
  | CoseMalformedSignature
  | CoseSignatureMismatch
  | CoseAlgorithmNotImplemented (alg : string).

(** [cose::AttestationPayload]. *)
Record NitroPayload := {
  np_module_id : string;
  np_timestamp : Z;
  np_digest : string;
  np_pcrs : list (Z * bytes);
  np_certificate : bytes;
  np_cabundle : list bytes;
  np_public_key : bytes;
  np_user_data : bytes;
  np_nonce : bytes;
}.

#[export] Instance NitroPayload_eq_dec : EqDecision NitroPayload.
Proof. solve_decision. Defined.

(** ** Decoding the payload map *)

Definition as_text (v : CborValue) (field : string) : result CoseParseError string :=
  match v with CText s => Ok s | _ => Err (WrongFieldType field) end.

Definition as_bytes (v : CborValue) (field : string) : result CoseParseError bytes :=
  match v with CBytes b => Ok b | _ => Err (WrongFieldType field) end.

Definition as_optional_bytes (v : CborValue) (field : string) : result CoseParseError bytes :=
  match v with CBytes b => Ok b | CNull => Ok [] | _ => Err (WrongFieldType field) end.

(** [i64::try_from(ciborium::value::Integer)]. *)
Definition integer_to_i64 (i : Z) : option Z :=
  if (i64_min <=? i) && (i <=? i64_max) then Some i else None.

(** [u8::try_from(i64)]. *)
Definition u8_try_from (i : Z) : option Z :=
  if (0 <=? i) && (i <=? u8_max) then Some i else None.

Definition as_i64 (v : CborValue) (field : string) : result CoseParseError Z :=
  match v with
  | CInteger i => ok_or (integer_to_i64 i) (WrongFieldType field)
  | _ => Err (WrongFieldType field)
  end.

(** One turn of the loop of [decode_pcr_map]. *)
Definition decode_pcr_entry (out : list (Z * bytes)) (e : CborValue * CborValue)
    : result CoseParseError (list (Z * bytes)) :=
  let '(k, val) := e in
  idx_i64 ← match k with
            | CInteger i => ok_or (integer_to_i64 i) (WrongFieldType "pcrs")
            | _ => Err (WrongFieldType "pcrs")
            end;
  idx ← ok_or (u8_try_from idx_i64) (WrongFieldType "pcrs");
  match val with
  | CBytes bs => Ok (btree_insert idx bs out)
  | _ => Err (WrongFieldType "pcrs")
  end.

Definition decode_pcr_map (v : CborValue) : result CoseParseError (list (Z * bytes)) :=
  match v with
  | CMap entries => fold_result decode_pcr_entry [] entries
  | _ => Err (WrongFieldType "pcrs")
  end.

Definition decode_cabundle (v : CborValue) : result CoseParseError (list bytes) :=
  match v with
  | CArray entries => map_result (λ e, as_bytes e "cabundle") entries
  | _ => Err (WrongFieldType "cabundle")
  end.

(** The local variables the loop of [decode_payload_map] assigns. *)
Record PayloadFields := {
  f_module_id : option string;
  f_timestamp : option Z;
  f_digest : option string;
  f_pcrs : option (list (Z * bytes));
  f_certificate : option bytes;
  f_cabundle : option (list bytes);
  f_public_key : bytes;
  f_user_data : bytes;
  f_nonce : bytes;
}.

Definition no_fields : PayloadFields := {|
  f_module_id := None; f_timestamp := None; f_digest := None; f_pcrs := None;
  f_certificate := None; f_cabundle := None; f_public_key := []; f_user_data := []; f_nonce := [] |}.

Definition set_field (s : PayloadFields) (key : string) (v : CborValue)
    : result CoseParseError PayloadFields :=
  let '{| f_module_id := m; f_timestamp := t; f_digest := d; f_pcrs := p; f_certificate := c;
          f_cabundle := cb; f_public_key := pk; f_user_data := ud; f_nonce := n |} := s in
  if String.eqb key "module_id" then
    x ← as_text v "module_id"; mret (Build_PayloadFields (Some x) t d p c cb pk ud n)
  else if String.eqb key "timestamp" then
    x ← as_i64 v "timestamp"; mret (Build_PayloadFields m (Some x) d p c cb pk ud n)
  else if String.eqb key "digest" then
    x ← as_text v "digest"; mret (Build_PayloadFields m t (Some x) p c cb pk ud n)
  else if String.eqb key "pcrs" then
    x ← decode_pcr_map v; mret (Build_PayloadFields m t d (Some x) c cb pk ud n)
  else if String.eqb key "certificate" then
    x ← as_bytes v "certificate"; mret (Build_PayloadFields m t d p (Some x) cb pk ud n)
  else if String.eqb key "cabundle" then
    x ← decode_cabundle v; mret (Build_PayloadFields m t d p c (Some x) pk ud n)
  else if String.eqb key "public_key" then
    x ← as_optional_bytes v "public_key"; mret (Build_PayloadFields m t d p c cb x ud n)
  else if String.eqb key "user_data" then
    x ← as_optional_bytes v "user_data"; mret (Build_PayloadFields m t d p c cb pk x n)
  else if String.eqb key "nonce" then
    x ← as_optional_bytes v "nonce"; mret (Build_PayloadFields m t d p c cb pk ud x)
  else mret s.

Definition payload_entry (s : PayloadFields) (e : CborValue * CborValue)
    : result CoseParseError PayloadFields :=
  match e.1 with CText key => set_field s key e.2 | _ => Ok s end.

Definition finish_payload (s : PayloadFields) : result CoseParseError NitroPayload :=
  module_id ← ok_or (f_module_id s) (MissingField "module_id");
  timestamp ← ok_or (f_timestamp s) (MissingField "timestamp");
  digest ← ok_or (f_digest s) (MissingField "digest");
  pcrs ← ok_or (f_pcrs s) (MissingField "pcrs");
  certificate ← ok_or (f_certificate s) (MissingField "certificate");
  cabundle ← ok_or (f_cabundle s) (MissingField "cabundle");
  mret {| np_module_id := module_id; np_timestamp := timestamp; np_digest := digest;
          np_pcrs := pcrs; np_certificate := certificate; np_cabundle := cabundle;
          np_public_key := f_public_key s; np_user_data := f_user_data s; np_nonce := f_nonce s |}.

Definition payload_of_value (v : CborValue) : result CoseParseError NitroPayload :=
  match v with
  | CMap entries => s ← fold_result payload_entry no_fields entries; finish_payload s
  | _ => Err (MalformedPayload "outer value is not a map")
  end.

(** ** Encoding *)

Definition pcr_pairs (pcrs : list (Z * bytes)) : list (CborValue * CborValue) :=
  (λ kv, (CInteger kv.1, CBytes kv.2)) <$> pcrs.

Definition payload_value (p : NitroPayload) : CborValue :=
  CMap [(CText "module_id", CText (np_module_id p));
        (CText "timestamp", CInteger (np_timestamp p));
        (CText "digest", CText (np_digest p));
        (CText "pcrs", CMap (pcr_pairs (np_pcrs p)));
        (CText "certificate", CBytes (np_certificate p));
        (CText "cabundle", CArray (CBytes <$> np_cabundle p));
        (CText "public_key", CBytes (np_public_key p));
        (CText "user_data", CBytes (np_user_data p));
        (CText "nonce", CBytes (np_nonce p))].

Section cose.
Context `{CborCrate, CosetCrate, P384Crate, X509Crate, Ed25519Crate}.

Record CoseSign1Envelope := { env_raw : bytes; env_cose : CoseSign1 }.

(** [PartialEq for CoseSign1Envelope]. *)
Definition envelope_eq (a b : CoseSign1Envelope) : bool := bool_decide (env_raw a = env_raw b).

Definition parse_cose_sign1 (bs : bytes) : result CoseParseError CoseSign1Envelope :=
  cose ← match cose_from_tagged_slice bs with
         | Ok c => Ok c
         | Err _ => map_err MalformedEnvelope (cose_from_slice bs)
         end;
  mret {| env_raw := bs; env_cose := cose |}.

Definition encode_payload (p : NitroPayload) : result CoseParseError bytes :=
  map_err MalformedPayload (cbor_into_writer (payload_value p)).

Definition decode_payload_map (bs : bytes) : result CoseParseError NitroPayload :=
  value ← map_err MalformedPayload (cbor_from_reader bs);
  payload_of_value value.

Definition extract_payload (e : CoseSign1Envelope) : result CoseParseError NitroPayload :=
  payload_bytes ← ok_or (cose_payload (env_cose e)) MissingPayload;
  decode_payload_map payload_bytes.

(** [verify_signature(&[], f)] hands the signature and [tbs_data] to [f]. *)
Definition cose_verify_signature {E} (c : CoseSign1) (aad : bytes) (f : bytes → bytes → result E ())
    : result E () :=
  f (cose_signature c) (cose_tbs_data c aad).

Definition verify_cose_signature (e : CoseSign1Envelope) (leaf_pubkey : bytes)
    : result CoseVerifyError () :=
  _ ← ensure (bool_decide (length leaf_pubkey = 32%nat)) CoseInvalidPublicKey;
  _ ← ensure (ed_key_valid leaf_pubkey) CoseInvalidPublicKey;
  cose_verify_signature (env_cose e) [] (λ sig_bytes tbs,
    _ ← ensure (bool_decide (length sig_bytes = 64%nat)) CoseInvalidSignature;
    ensure (ed_verify leaf_pubkey tbs sig_bytes) CoseInvalidSignature).

Definition verify_cose_signature_es384 (e : CoseSign1Envelope) (leaf_cert_der : bytes)
    : result CoseVerifyError () :=
  cert ← ok_or (cert_from_der leaf_cert_der) CoseMalformedLeafCert;
  sec1_bytes ← ok_or (cert_public_key cert) CoseMalformedLeafCert;
  vk ← ok_or (p384_from_sec1 sec1_bytes) CoseMalformedLeafCert;
  _ ← ok_or (cert_to_der cert) CoseMalformedLeafCert;
  cose_verify_signature (env_cose e) [] (λ sig_bytes tbs,
    _ ← ensure (bool_decide (length sig_bytes = 96%nat)) CoseMalformedSignature;
    sig ← ok_or (p384_sig_from_slice sig_bytes) CoseMalformedSignature;
    ensure (p384_verify vk tbs sig) CoseSignatureMismatch).

Definition build_test_envelope (p : NitroPayload) (signer_sk : bytes) : result CoseParseError bytes :=
  payload_bytes ← encode_payload p;
  let sign1 := cose_create_signature [] (λ tbs, ed_sign signer_sk tbs)
                 (cose_builder EdDSA payload_bytes) in
  map_err MalformedEnvelope (cose_to_vec sign1).

Definition build_test_envelope_es384 (p : NitroPayload) (signer_sk : p384_sk)
    : result CoseParseError bytes :=
  payload_bytes ← encode_payload p;
  let sign1 := cose_create_signature [] (λ tbs, p384_sig_bytes (p384_sign signer_sk tbs))
                 (cose_builder ES384 payload_bytes) in
  map_err MalformedEnvelope (cose_to_vec sign1).
End cose.

(** ** B-tree maps as sorted lists *)

Definition btree_wf {V} (m : list (Z * V)) : Prop := StronglySorted (λ a b, a.1 < b.1) m.

Lemma btree_insert_keys {V} k (v : V) m (P : Z → Prop) :
  P k → Forall (λ e, P e.1) m → Forall (λ e, P e.1) (btree_insert k v m).
Proof.
  intros Hk. induction 1 as [|[k' v'] m Hk' Hm IH]; cbn [btree_insert]; [by repeat constructor|].
  case_match; [by repeat constructor|]. case_match; by repeat constructor.
Qed.

Lemma btree_insert_wf {V} k (v : V) m : btree_wf m → btree_wf (btree_insert k v m).
Proof.
  unfold btree_wf. induction 1 as [|[k' v'] m Hm IH Hk']; cbn [btree_insert]; [by repeat constructor|].
  destruct (Z.ltb_spec k k') as [Hlt|Hge].
  - constructor; [by constructor|]. constructor; [done|]. eapply Forall_impl; [exact Hk'|].
    cbn. intros [k2 v2] ?. cbn in *. lia.
  - destruct (Z.eqb_spec k k') as [->|Hne]; [by constructor|].
    constructor; [done|]. cbn in *. apply (btree_insert_keys k v m (λ x, k' < x)); [lia|done].
Qed.

Lemma btree_insert_last {V} k (v : V) m :
  Forall (λ e, e.1 < k) m → btree_insert k v m = m ++ [(k, v)].
Proof.
  induction 1 as [|[k' v'] m Hk Hm IH]; cbn in *; [done|].
  rewrite (proj2 (Z.ltb_ge k k')), (proj2 (Z.eqb_neq k k')) by lia. by rewrite IH.
Qed.

(** ** Well-formed payloads *)

(** What the Rust types of the fields guarantee. *)
Definition payload_wf (p : NitroPayload) : Prop :=
  is_i64 (np_timestamp p) ∧ btree_wf (np_pcrs p)
  ∧ Forall (λ kv, 0 ≤ kv.1 ≤ u8_max) (np_pcrs p).

Lemma integer_to_i64_Some i z : integer_to_i64 i = Some z ↔ z = i ∧ is_i64 i.
Proof.
  unfold integer_to_i64, is_i64.
  destruct (Z.leb_spec i64_min i), (Z.leb_spec i i64_max); cbn; naive_solver lia.
Qed.

Lemma u8_try_from_Some i z : u8_try_from i = Some z ↔ z = i ∧ 0 ≤ i ≤ u8_max.
Proof.
  unfold u8_try_from. destruct (Z.leb_spec 0 i), (Z.leb_spec i u8_max); cbn; naive_solver lia.
Qed.

Lemma decode_pcr_map_pairs_app m l :
  btree_wf (m ++ l) → Forall (λ kv, 0 ≤ kv.1 ≤ u8_max) l →
  fold_result decode_pcr_entry m (pcr_pairs l) = Ok (m ++ l).
Proof.
  revert m. induction l as [|[k v] l IH]; intros m Hs Hk; [by rewrite app_nil_r|].
  apply Forall_cons in Hk as [Hk Hl]. cbn [fst] in Hk. unfold pcr_pairs. rewrite fmap_cons.
  cbn [fold_result decode_pcr_entry fst snd].
  assert (is_i64 k) as Hi by (unfold is_i64, i64_min, i64_max, u8_max in *; lia).
  rewrite (proj2 (integer_to_i64_Some k k)) by done. cbn [ok_or mbind result_bind].
  rewrite (proj2 (u8_try_from_Some k k)) by done. cbn [ok_or mbind result_bind].
  rewrite btree_insert_last.
  - rewrite (cons_middle (k, v) m l), app_assoc in Hs |- *. by apply IH.
  - apply StronglySorted_app in Hs as (H12 & _ & _). apply Forall_forall.
    intros [k' v'] Hin. by apply (H12 (k', v') (k, v) Hin); left.
Qed.

Lemma decode_cabundle_array l : map_result (λ e, as_bytes e "cabundle") (CBytes <$> l) = Ok l.
Proof.
  apply map_result_ok. apply Forall2_fmap_l. apply Forall_Forall2_diag, Forall_forall. done.
Qed.

Lemma payload_of_value_enc p : payload_wf p → payload_of_value (payload_value p) = Ok p.
Proof.
  intros (Ht & Hs & Hk). unfold payload_of_value, payload_value.
  cbn -[decode_pcr_map decode_cabundle as_i64 integer_to_i64 String.eqb].
  unfold set_field. cbn -[decode_pcr_map decode_cabundle as_i64 integer_to_i64].
  unfold as_i64. rewrite (proj2 (integer_to_i64_Some (np_timestamp p) _)) by done.
  cbn -[decode_pcr_map decode_cabundle]. unfold decode_pcr_map at 1.
  rewrite (decode_pcr_map_pairs_app []) by done.
  cbn -[decode_cabundle]. unfold decode_cabundle. rewrite decode_cabundle_array. by destruct p.
Qed.

Lemma payload_value_plain d p : payload_wf p → cbor_plain (S (S (S d))) (payload_value p) = true.
Proof.
  intros (Ht & _ & Hk). unfold is_i64, i64_min, i64_max in Ht. cbn.
  rewrite (proj2 (Z.leb_le _ (np_timestamp p))), (proj2 (Z.ltb_lt (np_timestamp p) _)) by lia.
  cbn. rewrite !andb_true_r, !andb_true_iff. split.
  - apply Is_true_true, forallb_True. unfold pcr_pairs. apply Forall_fmap. eapply Forall_impl; [exact Hk|].
    unfold u8_max. intros [k v] ?. cbn in *.
    by rewrite (proj2 (Z.leb_le _ k)), (proj2 (Z.ltb_lt k _)) by lia.
  - apply Is_true_true, forallb_True, Forall_fmap, Forall_forall. done.
Qed.

(** ** What a payload map says *)

(** The values an object gives a key, in order; the last one counts. *)
Definition at_key (key : string) (es : list (CborValue * CborValue)) : list CborValue :=
  omap (λ e, match e.1 with CText k => if String.eqb k key then Some e.2 else None | _ => None end) es.

(** The values of each type. *)
Definition is_text (v : CborValue) (s : string) : Prop := v = CText s.
Definition is_int (v : CborValue) (z : Z) : Prop := v = CInteger z ∧ is_i64 z.
Definition is_bytes (v : CborValue) (b : bytes) : Prop := v = CBytes b.
Definition is_optional (v : CborValue) (b : bytes) : Prop := v = CBytes b ∨ v = CNull ∧ b = [].
Definition is_bundle (v : CborValue) (l : list bytes) : Prop := v = CArray (CBytes <$> l).

(** The bytes a list of registers gives register [k], in order. *)
Definition at_index (k : Z) (l : list (Z * bytes)) : list bytes :=
  omap (λ e, if e.1 =? k then Some e.2 else None) l.

(** A map from [u8] to bytes, read as the sorted map of its last entries. *)
Definition is_pcrs (v : CborValue) (m : list (Z * bytes)) : Prop :=
  ∃ l, v = CMap (pcr_pairs l) ∧ Forall (λ kv, 0 ≤ kv.1 ≤ u8_max) l ∧ btree_wf m
    ∧ ∀ k b, (k, b) ∈ m ↔ last (at_index k l) = Some b.

(** Every value under the key has the type, and there is one, the last of which is
    [x]; or none, and [x] is empty. *)
Definition required {X} (R : CborValue → X → Prop) (key : string) (es : list (CborValue * CborValue)) (x : X) : Prop :=
  Forall (λ v, ∃ y, R v y) (at_key key es) ∧ ∃ v, last (at_key key es) = Some v ∧ R v x.
Definition optional (key : string) (es : list (CborValue * CborValue)) (x : bytes) : Prop :=
  Forall (λ v, ∃ y, is_optional v y) (at_key key es)
  ∧ match last (at_key key es) with Some v => is_optional v x | None => x = [] end.

Definition payload_read (es : list (CborValue * CborValue)) (p : NitroPayload) : Prop :=
  required is_text "module_id" es (np_module_id p) ∧ required is_int "timestamp" es (np_timestamp p)
  ∧ required is_text "digest" es (np_digest p) ∧ required is_pcrs "pcrs" es (np_pcrs p)
  ∧ required is_bytes "certificate" es (np_certificate p) ∧ required is_bundle "cabundle" es (np_cabundle p)
  ∧ optional "public_key" es (np_public_key p) ∧ optional "user_data" es (np_user_data p)
  ∧ optional "nonce" es (np_nonce p).

(** *** The parsers of the types *)

Lemma as_text_ok v f s : as_text v f = Ok s ↔ is_text v s.
Proof. unfold is_text. destruct v; cbn; naive_solver. Qed.
Lemma as_bytes_ok v f b : as_bytes v f = Ok b ↔ is_bytes v b.
Proof. unfold is_bytes. destruct v; cbn; naive_solver. Qed.
Lemma as_optional_bytes_ok v f b : as_optional_bytes v f = Ok b ↔ is_optional v b.
Proof. unfold is_optional. destruct v; cbn; naive_solver. Qed.
Lemma as_i64_ok v f z : as_i64 v f = Ok z ↔ is_int v z.
Proof. unfold is_int. destruct v; cbn; rewrite ?ok_or_ok, ?integer_to_i64_Some; naive_solver. Qed.
Lemma decode_cabundle_ok v l : decode_cabundle v = Ok l ↔ is_bundle v l.
Proof.
  unfold is_bundle. destruct v as [| | | | | | |es|]; cbn; try naive_solver.
  rewrite map_result_ok. split; [|intros [= ->]; rewrite <-map_result_ok; apply decode_cabundle_array].
  intros Hl. f_equal. induction Hl as [|v b es l Hv _ IH]; [done|]. apply as_bytes_ok in Hv as ->.
  cbn. by rewrite IH.
Qed.

Lemma btree_insert_elem {V} k (v : V) m k' v' :
  btree_wf m → (k', v') ∈ btree_insert k v m ↔ (k' = k ∧ v' = v) ∨ (k' ≠ k ∧ (k', v') ∈ m).
Proof.
  unfold btree_wf. induction 1 as [|[k0 v0] m Hm IH Hk0]; cbn [btree_insert].
  { rewrite list_elem_of_singleton, elem_of_nil. naive_solver. }
  assert (∀ x, (k', x) ∈ m → k0 < k') as Hgt by (intros x Hx; rewrite Forall_forall in Hk0; apply (Hk0 _ Hx)).
  destruct (Z.ltb_spec k k0).
  - rewrite !elem_of_cons. split; [|naive_solver].
    intros [[= -> ->]|[[= -> ->]|Hin]]; [by left| |]; right; (split; [|by eauto]); [lia|].
    specialize (Hgt _ Hin). lia.
  - destruct (Z.eqb_spec k k0) as [->|Hne]; rewrite ?elem_of_cons.
    + split; [|naive_solver]. intros [[= -> ->]|Hin]; [by left|]. right. specialize (Hgt _ Hin).
      split; [lia|by right].
    + rewrite IH. naive_solver lia.
Qed.

Lemma btree_unique {V} (m m' : list (Z * V)) :
  btree_wf m → btree_wf m' → (∀ k v, (k, v) ∈ m ↔ (k, v) ∈ m') → m = m'.
Proof.
  unfold btree_wf. intros Hm. revert m'. induction Hm as [|[k v] m Hm IH Hk]; intros m' Hm' Heq.
  { destruct m' as [|[k v] m']; [done|]. exfalso. by apply (elem_of_nil (k, v)), Heq, list_elem_of_here. }
  destruct Hm' as [|[k' v'] m' Hm' Hk'].
  { exfalso. by apply (elem_of_nil (k, v)), Heq, list_elem_of_here. }
  rewrite Forall_forall in Hk, Hk'.
  assert ((k, v) = (k', v')) as Hhd.
  { pose proof (proj1 (Heq k v) (list_elem_of_here _ _)) as [->|H1]%elem_of_cons; [done|].
    pose proof (proj2 (Heq k' v') (list_elem_of_here _ _)) as [<-|H2]%elem_of_cons; [done|].
    specialize (Hk _ H2). specialize (Hk' _ H1). cbn in *. lia. }
  rewrite Hhd. f_equal. apply IH; [done|]. injection Hhd as -> ->. intros x y.
  specialize (Heq x y). rewrite !elem_of_cons in Heq. split; intros Hin.
  - destruct (proj1 Heq (or_intror Hin)) as [[= -> ->]|?]; [|done]. specialize (Hk _ Hin). cbn in *. lia.
  - destruct (proj2 Heq (or_intror Hin)) as [[= -> ->]|?]; [|done]. specialize (Hk' _ Hin). cbn in *. lia.
Qed.

Lemma at_index_snoc k l e : at_index k (l ++ [e]) = at_index k l ++ if e.1 =? k then [e.2] else [].
Proof. unfold at_index. rewrite omap_app. cbn. by destruct (e.1 =? k). Qed.

(** Entering registers in order keeps the last one of each index. *)
Lemma btree_of_list l :
  let m := foldl (λ m kv, btree_insert kv.1 kv.2 m) [] l in
  btree_wf m ∧ ∀ k b, (k, b) ∈ m ↔ last (at_index k l) = Some b.
Proof.
  induction l as [|[i x] l [IHw IH]] using rev_ind; cbn zeta in *.
  { split; [constructor|]. intros k b. rewrite elem_of_nil. done. }
  rewrite foldl_app. cbn [foldl fst snd]. split; [by apply btree_insert_wf|]. intros k b.
  rewrite btree_insert_elem by done. rewrite at_index_snoc, IH. cbn [fst snd]. destruct (Z.eqb_spec i k) as [->|Hne].
  - rewrite last_snoc. naive_solver.
  - rewrite app_nil_r. naive_solver.
Qed.

Lemma decode_pcr_entry_spec out e out' :
  decode_pcr_entry out e = Ok out' ↔
  ∃ k b, e = (CInteger k, CBytes b) ∧ 0 ≤ k ≤ u8_max ∧ out' = btree_insert k b out.
Proof.
  destruct e as [k v]. unfold decode_pcr_entry. split.
  - intros (i & Hi & (idx & Hidx & Hv)%result_bind_ok)%result_bind_ok. destruct k; try done.
    apply ok_or_ok, integer_to_i64_Some in Hi as [-> _]. apply ok_or_ok, u8_try_from_Some in Hidx as [-> Hr].
    destruct v as [|b| | | | | | |]; try done. injection Hv as <-. eauto.
  - intros (i & b & [= -> ->] & Hr & ->).
    rewrite (proj2 (integer_to_i64_Some i i)) by (unfold is_i64, i64_min, i64_max, u8_max in *; lia).
    cbn [ok_or mbind result_bind]. by rewrite (proj2 (u8_try_from_Some i i)).
Qed.

Lemma decode_pcrs_fold out es m :
  fold_result decode_pcr_entry out es = Ok m ↔
  ∃ l, es = pcr_pairs l ∧ Forall (λ kv, 0 ≤ kv.1 ≤ u8_max) l ∧ m = foldl (λ m kv, btree_insert kv.1 kv.2 m) out l.
Proof.
  revert out. induction es as [|e es IH]; intros out; cbn [fold_result].
  - split; [intros [= <-]; by exists []|]. intros (l & Hl & _ & ->). by destruct l.
  - rewrite result_bind_ok. setoid_rewrite decode_pcr_entry_spec. setoid_rewrite IH. split.
    + intros (out' & (k & b & -> & Hk & ->) & l & -> & Hl & ->). exists ((k, b) :: l). split; [done|].
      split; [by constructor|done].
    + intros ([|[k b] l] & Hes & Hl & ->); [done|]. apply Forall_cons in Hl as [Hk Hl].
      cbn in Hes. injection Hes as -> ->. eexists. split; [by eauto|]. by exists l.
Qed.

Lemma decode_pcr_map_spec v m : decode_pcr_map v = Ok m ↔ is_pcrs v m.
Proof.
  unfold is_pcrs. destruct v as [| | | | | | | |es]; cbn [decode_pcr_map]; try naive_solver.
  rewrite decode_pcrs_fold. split.
  - intros (l & -> & Hl & ->). exists l. split; [done|]. split; [done|]. apply btree_of_list.
  - intros (l & [= ->] & Hl & Hw & Hm). exists l. split; [done|]. split; [done|].
    destruct (btree_of_list l) as [Hw' Hm']. apply btree_unique; [done|done|]. intros k b. by rewrite Hm, Hm'.
Qed.

(** *** The loop, field by field *)

(** What the loop does to one of its variables. *)
Definition field_step {X F} (wrap : X → F) (parse : CborValue → result CoseParseError X) (key : string)
    (acc : F) (e : CborValue * CborValue) : result CoseParseError F :=
  match e.1 with
  | CText k => if String.eqb k key then x ← parse e.2; mret (wrap x) else Ok acc
  | _ => Ok acc
  end.

Lemma field_fold {X F} (wrap : X → F) parse key acc es acc' :
  fold_result (field_step wrap parse key) acc es = Ok acc' ↔
  Forall (λ v, ∃ x, parse v = Ok x) (at_key key es)
  ∧ match last (at_key key es) with Some v => ∃ x, parse v = Ok x ∧ acc' = wrap x | None => acc' = acc end.
Proof.
  revert acc. induction es as [|[k v] es IH]; intros acc; cbn [fold_result].
  { cbn. split; [intros [= <-]; done|]. intros [_ ->]. done. }
  rewrite result_bind_ok. setoid_rewrite IH. unfold field_step at 1. cbn [fst snd].
  assert ((∃ x, Ok (E:=CoseParseError) acc = Ok x
      ∧ Forall (λ v, ∃ x, parse v = Ok x) (at_key key es)
      ∧ match last (at_key key es) with Some v => ∃ x, parse v = Ok x ∧ acc' = wrap x | None => acc' = x end)
    ↔ Forall (λ v, ∃ x, parse v = Ok x) (at_key key es)
      ∧ match last (at_key key es) with Some v => ∃ x, parse v = Ok x ∧ acc' = wrap x | None => acc' = acc end) as Hskip.
  { split; [by intros (x & [= <-] & ?)|]. intros ?. by exists acc. }
  destruct k as [| | |k| | | | |]; try exact Hskip. unfold at_key. cbn [omap list_omap fst snd].
  fold (at_key key es). destruct (String.eqb k key); [|exact Hskip]. fold (at_key key es).
  rewrite Forall_cons, last_cons. setoid_rewrite result_bind_ok. destruct (last (at_key key es)) as [v'|].
  - split; [intros (x & (y & Hy & _) & ?); naive_solver|]. intros ([(y & Hy) Hall] & Hlast).
    exists (wrap y). split; [by exists y|done].
  - split; [intros (x & (y & Hy & [= <-]) & Hall & ->); naive_solver|].
    intros ([_ Hall] & y & Hy & ->). exists (wrap y). split; [by exists y|done].
Qed.

#[local] Ltac fields := unfold mret, result_ret; split; [intros ?; simplify_eq/=; by split_and!|intros ?; destruct_and?; by simplify_eq/=].

(** One turn of the loop acts on its variables independently. *)
Lemma payload_entry_fields s e s' :
  payload_entry s e = Ok s' ↔
  field_step Some (λ v, as_text v "module_id") "module_id" (f_module_id s) e = Ok (f_module_id s')
  ∧ field_step Some (λ v, as_i64 v "timestamp") "timestamp" (f_timestamp s) e = Ok (f_timestamp s')
  ∧ field_step Some (λ v, as_text v "digest") "digest" (f_digest s) e = Ok (f_digest s')
  ∧ field_step Some decode_pcr_map "pcrs" (f_pcrs s) e = Ok (f_pcrs s')
  ∧ field_step Some (λ v, as_bytes v "certificate") "certificate" (f_certificate s) e = Ok (f_certificate s')
  ∧ field_step Some decode_cabundle "cabundle" (f_cabundle s) e = Ok (f_cabundle s')
  ∧ field_step id (λ v, as_optional_bytes v "public_key") "public_key" (f_public_key s) e = Ok (f_public_key s')
  ∧ field_step id (λ v, as_optional_bytes v "user_data") "user_data" (f_user_data s) e = Ok (f_user_data s')
  ∧ field_step id (λ v, as_optional_bytes v "nonce") "nonce" (f_nonce s) e = Ok (f_nonce s').
Proof.
  destruct e as [key v], s as [m t d p c cb pk ud n], s' as [m' t' d' p' c' cb' pk' ud' n'].
  unfold payload_entry, field_step. cbn [fst snd f_module_id f_timestamp f_digest f_pcrs f_certificate f_cabundle
    f_public_key f_user_data f_nonce].
  destruct key as [| | |key| | | | |]; try fields. unfold set_field.
  destruct (String.eqb_spec key "module_id") as [->|]; [cbn; destruct (as_text v _); cbn; fields|].
  destruct (String.eqb_spec key "timestamp") as [->|]; [cbn; destruct (as_i64 v _); cbn; fields|].
  destruct (String.eqb_spec key "digest") as [->|]; [cbn; destruct (as_text v _); cbn; fields|].
  destruct (String.eqb_spec key "pcrs") as [->|]; [cbn; destruct (decode_pcr_map v); cbn; fields|].
  destruct (String.eqb_spec key "certificate") as [->|]; [cbn; destruct (as_bytes v _); cbn; fields|].
  destruct (String.eqb_spec key "cabundle") as [->|]; [cbn; destruct (decode_cabundle v); cbn; fields|].
  destruct (String.eqb_spec key "public_key") as [->|]; [cbn; destruct (as_optional_bytes v _); cbn; fields|].
  destruct (String.eqb_spec key "user_data") as [->|]; [cbn; destruct (as_optional_bytes v _); cbn; fields|].
  destruct (String.eqb_spec key "nonce") as [->|]; [cbn; destruct (as_optional_bytes v _); cbn; fields|].
  cbn. fields.
Qed.

Lemma payload_fold_fields es s s' :
  fold_result payload_entry s es = Ok s' ↔
  fold_result (field_step Some (λ v, as_text v "module_id") "module_id") (f_module_id s) es = Ok (f_module_id s')
  ∧ fold_result (field_step Some (λ v, as_i64 v "timestamp") "timestamp") (f_timestamp s) es = Ok (f_timestamp s')
  ∧ fold_result (field_step Some (λ v, as_text v "digest") "digest") (f_digest s) es = Ok (f_digest s')
  ∧ fold_result (field_step Some decode_pcr_map "pcrs") (f_pcrs s) es = Ok (f_pcrs s')
  ∧ fold_result (field_step Some (λ v, as_bytes v "certificate") "certificate") (f_certificate s) es = Ok (f_certificate s')
  ∧ fold_result (field_step Some decode_cabundle "cabundle") (f_cabundle s) es = Ok (f_cabundle s')
  ∧ fold_result (field_step id (λ v, as_optional_bytes v "public_key") "public_key") (f_public_key s) es = Ok (f_public_key s')
  ∧ fold_result (field_step id (λ v, as_optional_bytes v "user_data") "user_data") (f_user_data s) es = Ok (f_user_data s')
  ∧ fold_result (field_step id (λ v, as_optional_bytes v "nonce") "nonce") (f_nonce s) es = Ok (f_nonce s').
Proof.
  revert s. induction es as [|e es IH]; intros s; cbn [fold_result].
  { destruct s, s'. cbn. fields. }
  rewrite !result_bind_ok. setoid_rewrite IH. setoid_rewrite payload_entry_fields. split.
  - intros (s1 & ? & ?). destruct_and?. split_and!; eexists; by split.
  - intros ((m & ? & ?) & (t & ? & ?) & (d & ? & ?) & (p & ? & ?) & (c & ? & ?) & (cb & ? & ?) & (pk & ? & ?)
      & (ud & ? & ?) & (n & ? & ?)).
    exists (Build_PayloadFields m t d p c cb pk ud n). by split_and!.
Qed.

(** A variable that must be assigned, and one that need not. *)
Lemma required_fold {X} (R : CborValue → X → Prop) parse key es x :
  (∀ v y, parse v = Ok y ↔ R v y) →
  fold_result (field_step Some parse key) None es = Ok (Some x) ↔ required R key es x.
Proof.
  intros HR. rewrite field_fold. unfold required. setoid_rewrite HR. apply and_iff_compat_l.
  destruct (last (at_key key es)) as [v|].
  - split; [intros (y & Hy%HR & [= ->]); by exists v|]. intros (v' & [= <-] & Hx%HR). by exists x.
  - split; [done|]. by intros (v' & [= ] & _).
Qed.
Lemma optional_fold f key es x :
  fold_result (field_step id (λ v, as_optional_bytes v f) key) [] es = Ok x ↔ optional key es x.
Proof.
  rewrite field_fold. unfold optional. setoid_rewrite as_optional_bytes_ok. apply and_iff_compat_l.
  destruct (last (at_key key es)) as [v|]; [|done].
  split; [by intros (y & Hy%as_optional_bytes_ok & ->)|]. intros Hx%(as_optional_bytes_ok _ f). by exists x.
Qed.

Lemma finish_payload_ok s p :
  finish_payload s = Ok p ↔
  s = {| f_module_id := Some (np_module_id p); f_timestamp := Some (np_timestamp p); f_digest := Some (np_digest p);
         f_pcrs := Some (np_pcrs p); f_certificate := Some (np_certificate p); f_cabundle := Some (np_cabundle p);
         f_public_key := np_public_key p; f_user_data := np_user_data p; f_nonce := np_nonce p |}.
Proof.
  split; [|intros ->; by destruct p]. unfold finish_payload. repeat setoid_rewrite result_bind_ok.
  intros (mi & ?%ok_or_ok & t & ?%ok_or_ok & di & ?%ok_or_ok & pc & ?%ok_or_ok & ce & ?%ok_or_ok & cb & ?%ok_or_ok
    & [= <-]). destruct s. by simplify_eq/=.
Qed.

Lemma payload_of_entries es p : payload_of_value (CMap es) = Ok p ↔ payload_read es p.
Proof.
  unfold payload_read. cbn [payload_of_value]. rewrite result_bind_ok. setoid_rewrite finish_payload_ok.
  rewrite <-(required_fold is_text (λ v, as_text v "module_id")) by (intros; apply as_text_ok).
  rewrite <-(required_fold is_int (λ v, as_i64 v "timestamp")) by (intros; apply as_i64_ok).
  rewrite <-(required_fold is_text (λ v, as_text v "digest")) by (intros; apply as_text_ok).
  rewrite <-(required_fold is_pcrs decode_pcr_map) by (intros; apply decode_pcr_map_spec).
  rewrite <-(required_fold is_bytes (λ v, as_bytes v "certificate")) by (intros; apply as_bytes_ok).
  rewrite <-(required_fold is_bundle decode_cabundle) by (intros; apply decode_cabundle_ok).
  rewrite <-(optional_fold "public_key"), <-(optional_fold "user_data"), <-(optional_fold "nonce").
  split.
  - intros (s & Hs & ->). exact (proj1 (payload_fold_fields es _ _) Hs).
  - intros Hall. eexists. split; [|done]. by apply payload_fold_fields.
Qed.

Section properties.
Context `{CborCrate, CosetCrate, P384Crate, X509Crate, Ed25519Crate}.

Lemma decode_encode_payload `{!CborLaws} p :
  payload_wf p → ∃ bs, encode_payload p = Ok bs ∧ decode_payload_map bs = Ok p.
Proof.
  intros Hp. destruct (cbor_round_trip (payload_value p)) as (bs & Hw & Hr).
  { by apply payload_value_plain. }
  exists bs. unfold encode_payload, decode_payload_map. rewrite Hw, Hr. split; [done|].
  by apply payload_of_value_enc.
Qed.

Lemma decode_payload_ok bs p :
  decode_payload_map bs = Ok p ↔ ∃ es, cbor_from_reader bs = Ok (CMap es) ∧ payload_read es p.
Proof.
  unfold decode_payload_map. rewrite result_bind_ok. setoid_rewrite map_err_ok. split.
  - intros (v & Hv & Hp). destruct v as [| | | | | | | |es]; try done. exists es. by rewrite <-payload_of_entries.
  - intros (es & Hv & Hp). exists (CMap es). by rewrite payload_of_entries.
Qed.

(** A decoded payload is in range. *)
Lemma decoded_payload_wf bs p : decode_payload_map bs = Ok p → payload_wf p.
Proof.
  intros (es & _ & _ & (_ & v & _ & _ & Ht) & _ & (_ & v' & _ & (l & _ & Hl & Hw & Hm)) & _)%decode_payload_ok.
  split; [done|]. split; [done|]. apply Forall_forall. intros [k b] Hin%Hm.
  apply last_Some_elem_of, list_elem_of_omap in Hin as ([k' b'] & Hin & Hk). cbn in Hk.
  destruct (Z.eqb_spec k' k) as [->|]; [|done]. rewrite Forall_forall in Hl. exact (Hl _ Hin).
Qed.

(** C40. The decoder reads a payload exactly: it returns [p] iff the bytes are a CBOR
    map in which every value under a known text key has that key's type, the last
    one under each key is the field of [p], and a key that is absent leaves its
    field empty, which the six required ones may not.  A timestamp must fit an
    [i64]; the registers must be numbered 0 to 255 with byte values, and what is
    returned is their sorted map, the last value of each index.  Entries under
    other keys are ignored. *)
Theorem decoded_payload_exact bs p :
  decode_payload_map bs = Ok p ↔ ∃ es, cbor_from_reader bs = Ok (CMap es) ∧ payload_read es p.
Proof. apply decode_payload_ok. Qed.

(** A built envelope parses back, with its payload and a signature over the
    bytes the verifier recomputes. *)
Lemma built_envelope_parses `{!CborLaws, !CosetLaws} alg p f :
  payload_wf p → ∃ pb bs c,
    encode_payload p = Ok pb
    ∧ cose_to_vec (cose_create_signature [] f (cose_builder alg pb)) = Ok bs
    ∧ parse_cose_sign1 bs = Ok {| env_raw := bs; env_cose := c |}
    ∧ extract_payload {| env_raw := bs; env_cose := c |} = Ok p
    ∧ cose_alg c = Some alg ∧ cose_signature c = f (cose_tbs_data c []).
Proof.
  intros (pb & He & Hd)%decode_encode_payload.
  destruct (cose_build_parse alg pb (f (cose_tbs_data (cose_builder alg pb) [])))
    as (bs & c & Hv & [e Htag] & Hs & Hp & Hsig & Ha & Ht).
  exists pb, bs, c. split_and!; [done..| | | |].
  - unfold parse_cose_sign1. by rewrite Htag, Hs.
  - unfold extract_payload. cbn. by rewrite Hp.
  - done.
  - by rewrite Ht.
Qed.

Lemma build_test_envelope_ok `{!CborLaws, !CosetLaws, !Ed25519Laws} p sk :
  payload_wf p → ∃ bs env,
    build_test_envelope p sk = Ok bs ∧ parse_cose_sign1 bs = Ok env ∧ env_raw env = bs
    ∧ extract_payload env = Ok p ∧ cose_alg (env_cose env) = Some EdDSA
    ∧ verify_cose_signature env (ed_public sk) = Ok ().
Proof.
  intros Hp. destruct (built_envelope_parses EdDSA p (λ tbs, ed_sign sk tbs) Hp) as (pb & bs & c & He & Hv & Hc & Hx & Ha & Hs).
  exists bs, {| env_raw := bs; env_cose := c |}. unfold build_test_envelope. rewrite He.
  cbn [mbind result_bind]. rewrite Hv. split_and!; [done..|].
  unfold verify_cose_signature, cose_verify_signature. cbn [env_cose].
  rewrite ed_public_length, ed_public_valid, Hs, ed_sign_length, ed_verify_sign. done.
Qed.

Lemma build_test_envelope_es384_ok `{!CborLaws, !CosetLaws, !P384Laws} p sk der cert key cder :
  payload_wf p → cert_from_der der = Some cert → cert_public_key cert = Some key →
  p384_from_sec1 key = Some (p384_public sk) → cert_to_der cert = Some cder →
  ∃ bs env,
    build_test_envelope_es384 p sk = Ok bs ∧ parse_cose_sign1 bs = Ok env ∧ env_raw env = bs
    ∧ extract_payload env = Ok p ∧ cose_alg (env_cose env) = Some ES384
    ∧ verify_cose_signature_es384 env der = Ok ().
Proof.
  intros Hp Hder Hkey Hvk Hto.
  destruct (built_envelope_parses ES384 p (λ t, p384_sig_bytes (p384_sign sk t)) Hp)
    as (pb & bs & c & He & Hv & Hc & Hx & Ha & Hs).
  exists bs, {| env_raw := bs; env_cose := c |}. unfold build_test_envelope_es384. rewrite He.
  cbn [mbind result_bind]. rewrite Hv. split_and!; [done..|].
  unfold verify_cose_signature_es384, cose_verify_signature. rewrite Hder. cbn. rewrite Hkey. cbn.
  rewrite Hvk, Hto. cbn. rewrite Hs, p384_sig_length. cbn.
  rewrite p384_sig_round_trip. cbn. by rewrite p384_verify_sign.
Qed.

(** Both signature checks are exact: an envelope passes the ed25519 check iff
    the key is a valid 32-byte point and the 64-byte signature verifies over the
    COSE signed bytes, and the ES384 check iff the leaf certificate carries a
    P-384 key under which the 96-byte signature verifies over them. *)
Theorem cose_signature_checks_exact env key :
  (verify_cose_signature env key = Ok () ↔
     length key = 32%nat ∧ ed_key_valid key = true ∧ length (cose_signature (env_cose env)) = 64%nat
     ∧ ed_verify key (cose_tbs_data (env_cose env) []) (cose_signature (env_cose env)) = true)
  ∧ (verify_cose_signature_es384 env key = Ok () ↔
     ∃ cert sec1 vk der sig, cert_from_der key = Some cert ∧ cert_public_key cert = Some sec1
       ∧ p384_from_sec1 sec1 = Some vk ∧ cert_to_der cert = Some der
       ∧ length (cose_signature (env_cose env)) = 96%nat
       ∧ p384_sig_from_slice (cose_signature (env_cose env)) = Some sig
       ∧ p384_verify vk (cose_tbs_data (env_cose env) []) sig = true).
Proof.
  unfold verify_cose_signature, verify_cose_signature_es384, cose_verify_signature. split.
  - rewrite !ensure_bind_ok, ensure_ok, !bool_decide_eq_true. done.
  - repeat setoid_rewrite result_bind_ok. setoid_rewrite ensure_ok. setoid_rewrite ok_or_ok.
    setoid_rewrite bool_decide_eq_true. naive_solver.
Qed.
End properties.

Module CoseWitness.
Import Concrete ConcreteCodecs.

Definition payload : NitroPayload := {|
  np_module_id := "i-0123"; np_timestamp := 1700000000000; np_digest := "SHA384";
  np_pcrs := [(0, replicate 48 x11); (2, replicate 48 x22)];
  np_certificate := ed_public [x07]; np_cabundle := [[x01]]; np_public_key := [];
  np_user_data := [xaa]; np_nonce := [] |}.

Lemma cose_payload_ok : payload_wf payload.
Proof.
  split; [split; vm_compute; done|]. split; repeat constructor; vm_compute; done.
Qed.

Example duplicate_key_last_wins :
  payload_of_value (CMap [(CText "module_id", CText "a"); (CText "module_id", CText "b");
    (CInteger 1, CNull); (CText "timestamp", CInteger 5); (CText "digest", CText "SHA384");
    (CText "pcrs", CMap [(CInteger 0, CBytes [x01]); (CInteger 0, CBytes [x02])]);
    (CText "certificate", CBytes []); (CText "cabundle", CArray []); (CText "nonce", CNull)])
  = Ok {| np_module_id := "b"; np_timestamp := 5; np_digest := "SHA384"; np_pcrs := [(0, [x02])];
          np_certificate := []; np_cabundle := []; np_public_key := []; np_user_data := []; np_nonce := [] |}.
Proof. reflexivity. Qed.
Example pcr_index_out_of_range :
  payload_of_value (CMap [(CText "pcrs", CMap [(CInteger 256, CBytes [])])]) = Err (WrongFieldType "pcrs").
Proof. reflexivity. Qed.
End CoseWitness.
