(* ===== verification/NitroVerify.v ===== *)
(** * NitroVerify: the attestation verifier

    Models [crates/qfc-enclave/src/verify_attestation.rs]: the Nitro attestation
    document, its parser, the PCR constraint, the certificate-chain walk to the
    trust anchor and the verifier with its back-compatible and mock variants.
    [i64] arithmetic wraps, as in the release build. *)

From S2P Require Import Prelude Text External Codecs Attestation Cose.
#[local] Open Scope string_scope.
#[local] Open Scope list_scope.
#[local] Open Scope Z_scope.

Inductive AttestationVerifyError :=
  | AvMalformedCose (why : string)
  | AvPayloadMismatch
  | AvPcrMismatch (index : Z)
  | AvStaleAttestation (timestamp_ms now_ms max_age_ms : Z)
  | AvFromTheFuture
  | AvInvalidSignature
  | AvCertChain
  | AvMalformedLeafCert
  | AvMalformedIntermediate (index : nat)
  | AvMalformedRoot
  | AvCertChainBroken (index : nat) (reason : string)
  | AvEmptyCabundle
  | AvRefusesMockAttestation.

(** The embedded AWS Nitro G1 root. *)
Definition AWS_NITRO_ROOT_G1_PEM : bytes := string_bytes
"-----BEGIN CERTIFICATE-----
MIICETCCAZagAwIBAgIRAPkxdWgbkK/hHUbMtOTn+FYwCgYIKoZIzj0EAwMwSTEL
MAkGA1UEBhMCVVMxDzANBgNVBAoMBkFtYXpvbjEMMAoGA1UECwwDQVdTMRswGQYD
VQQDDBJhd3Mubml0cm8tZW5jbGF2ZXMwHhcNMTkxMDI4MTMyODA1WhcNNDkxMDI4
MTQyODA1WjBJMQswCQYDVQQGEwJVUzEPMA0GA1UECgwGQW1hem9uMQwwCgYDVQQL
DANBV1MxGzAZBgNVBAMMEmF3cy5uaXRyby1lbmNsYXZlczB2MBAGByqGSM49AgEG
BSuBBAAiA2IABPwCVOumCMHzaHDimtqQvkY4MpJzbolL//Zy2YlES1BR5TSksfbb
48C8WBoyt7F2Bw7eEtaaP+ohG2bnUs990d0JX28TcPQXCEPZ3BABIeTPYwEoCWZE
h8l5YoQwTcU/9KNCMEAwDwYDVR0TAQH/BAUwAwEB/zAdBgNVHQ4EFgQUkCW1DdkF
R+eWw5b6cp3PmanfS5YwDgYDVR0PAQH/BAQDAgGGMAoGCCqGSM49BAMDA2kAMGYC
MQCjfy+Rocm9Xue4YnwWmNJVA44fA0P5W2OpYow9OYCVRaEevL8uO1XYru5xtMPW
rfMCMQCi85sWBbJwKKXdS6BptQFuZbT73o/gBh1qUxl/nNr12UO8Yfwr6wPLb+6N
IwLz3/Y=
-----END CERTIFICATE-----
".

Inductive RootAnchor := AwsNitroG1 | Custom (root : bytes) | NoAnchor.

Definition root_bytes (a : RootAnchor) : option bytes :=
  match a with
  | AwsNitroG1 => Some AWS_NITRO_ROOT_G1_PEM
  | Custom bs => Some bs
  | NoAnchor => None
  end.

(** ** PCR constraints *)

Record PcrConstraint := {
  pcr0 : option bytes; pcr1 : option bytes; pcr2 : option bytes;
  pcr3 : option bytes; pcr4 : option bytes;
}.

Definition pcr_any : PcrConstraint := {|
  pcr0 := None; pcr1 := None; pcr2 := None; pcr3 := None; pcr4 := None |}.
Definition pcr0_only (p : bytes) : PcrConstraint := {|
  pcr0 := Some p; pcr1 := None; pcr2 := None; pcr3 := None; pcr4 := None |}.

(** [BTreeMap::get]. *)
Definition btree_get {V} (k : Z) (m : list (Z * V)) : option V :=
  snd <$> find (λ e, e.1 =? k) m.

(** The registers in the order the loop visits them. *)
Definition pcr_entries (c : PcrConstraint) : list (Z * option bytes) :=
  [(0, pcr0 c); (1, pcr1 c); (2, pcr2 c); (3, pcr3 c); (4, pcr4 c)].

Definition pcr_check (c : PcrConstraint) (observed : list (Z * bytes)) : result AttestationVerifyError () :=
  iter_result (λ e : Z * option bytes,
    match e.2 with
    | None => Ok ()
    | Some expected =>
        observed_bytes ← ok_or (btree_get e.1 observed) (AvPcrMismatch e.1);
        ensure (bool_decide (observed_bytes = expected)) (AvPcrMismatch e.1)
    end) (pcr_entries c).

(** ** Documents *)

Inductive SignatureKind := KindMock | CoseSign1Ed25519 | CoseSign1Es384.
#[export] Instance SignatureKind_eq_dec : EqDecision SignatureKind.
Proof. solve_decision. Defined.

Record NitroAttestationPayload := {
  nap_module_id : string;
  nap_timestamp_unix_ms : Z;
  nap_pcrs : list (Z * bytes);
  nap_public_key : bytes;
  nap_user_data : bytes;
  nap_nonce : bytes;
}.

#[export] Instance NitroAttestationPayload_eq_dec : EqDecision NitroAttestationPayload.
Proof. solve_decision. Defined.

Record NitroAttestationDoc := {
  doc_cose_sign1 : bytes;
  doc_parsed_payload : NitroAttestationPayload;
  doc_leaf_certificate : bytes;
  doc_cabundle : list bytes;
  doc_signature : bytes;
  doc_signature_kind : SignatureKind;
}.

Record VerifiedAttestation := { verified_payload : NitroAttestationPayload }.

(** [NitroAttestationDoc::mock]. *)
Definition doc_mock (cose_sign1 : bytes) (parsed_payload : NitroAttestationPayload)
    (leaf_certificate : bytes) (cabundle : list bytes) (signature : bytes) : NitroAttestationDoc := {|
  doc_cose_sign1 := cose_sign1; doc_parsed_payload := parsed_payload;
  doc_leaf_certificate := leaf_certificate; doc_cabundle := cabundle;
  doc_signature := signature; doc_signature_kind := KindMock |}.

Definition map_parse_err (e : CoseParseError) : AttestationVerifyError :=
  match e with
  | MalformedEnvelope _ | MalformedPayload _ | MissingPayload => AvMalformedCose "CBOR parse"
  | MissingField _ | WrongFieldType _ => AvMalformedCose "missing or mistyped payload field"
  end.

Definition map_verify_err (e : CoseVerifyError) : AttestationVerifyError :=
  match e with
  | CoseInvalidPublicKey | CoseInvalidSignature | CoseMalformedSignature | CoseSignatureMismatch =>
      AvInvalidSignature
  | CoseMalformedLeafCert => AvMalformedCose "leaf certificate is malformed"
  | CoseAlgorithmNotImplemented _ => AvMalformedCose "signature algorithm not implemented"
  end.

(** [[0u8; 32]], overwritten by a 32-byte nonce; an empty nonce leaves it. *)
Definition nonce_array (nonce : bytes) : result AttestationVerifyError bytes :=
  if bool_decide (length nonce = 32%nat) then Ok nonce
  else if negb (bool_decide (nonce = [])) then Err (AvMalformedCose "nonce length is not 32")
  else Ok (replicate 32 x00).

(** ** serde of the payload, for the mock format *)

Definition payload_field_names : list string :=
  ["module_id"; "timestamp_unix_ms"; "pcrs"; "public_key"; "user_data"; "nonce"].

Definition pcrs_of_json (j : Json) : option (list (Z * bytes)) :=
  match j with
  | JObject kvs => l ← mapM pcr_of_field kvs; Some (foldl (λ m kv, btree_insert kv.1 kv.2 m) [] l)
  | _ => None
  end.

Definition nitro_payload_of_json (j : Json) : option NitroAttestationPayload :=
  vs ← struct_values payload_field_names j;
  match vs with
  | [m; t; p; k; u; n] =>
      m ← match m with JString s => Some s | _ => None end;
      t ← match t with JNumber z => integer_to_i64 z | _ => None end;
      p ← pcrs_of_json p;
      k ← serde_bytes_of_json k;
      u ← serde_bytes_of_json u;
      n ← (bs ← bytes_of_json n; if bool_decide (length bs = 32%nat) then Some bs else None);
      mret {| nap_module_id := m; nap_timestamp_unix_ms := t; nap_pcrs := p;
              nap_public_key := k; nap_user_data := u; nap_nonce := n |}
  | _ => None
  end.

(** ** Freshness *)

(** Step 3 of [verify_attestation_inner]. *)
Definition check_freshness (ts now_ms max_age_ms : Z) : result AttestationVerifyError () :=
  _ ← ensure (negb (i64_wrap (now_ms + 60000) <? ts)) AvFromTheFuture;
  ensure (negb (max_age_ms <? i64_wrap (now_ms - ts))) (AvStaleAttestation ts now_ms max_age_ms).

Section verify.
Context `{CborCrate, CosetCrate, P384Crate, X509Crate, Ed25519Crate, JsonCrate, DigestCrate}.

Definition signature_kind_from_envelope (e : CoseSign1Envelope) : SignatureKind :=
  match cose_alg (env_cose e) with Some ES384 => CoseSign1Es384 | _ => CoseSign1Ed25519 end.

Definition from_cose_sign1 (bs : bytes) : result AttestationVerifyError NitroAttestationDoc :=
  envelope ← map_err map_parse_err (parse_cose_sign1 bs);
  inner ← map_err map_parse_err (extract_payload envelope);
  nonce_arr ← nonce_array (np_nonce inner);
  let parsed_payload := {|
    nap_module_id := np_module_id inner; nap_timestamp_unix_ms := np_timestamp inner;
    nap_pcrs := np_pcrs inner; nap_public_key := np_public_key inner;
    nap_user_data := np_user_data inner; nap_nonce := nonce_arr |} in
  let kind := signature_kind_from_envelope envelope in
  mret {| doc_cose_sign1 := env_raw envelope; doc_parsed_payload := parsed_payload;
          doc_leaf_certificate := np_certificate inner; doc_cabundle := np_cabundle inner;
          doc_signature := cose_signature (env_cose envelope); doc_signature_kind := kind |}.

Definition doc_parse (bs : bytes) : result AttestationVerifyError NitroAttestationDoc :=
  match from_cose_sign1 bs with
  | Ok doc => Ok doc
  | Err _ => Err (AvMalformedCose "input is neither COSE_Sign1 CBOR nor recognized format")
  end.

(** ** The chain walk *)

(** [i64::try_from(u128)]. *)
Definition i64_from_u128 (z : Z) : option Z := if z <=? i64_max then Some z else None.

Definition check_validity (cert : Certificate) (index : nat) (now_ms : Z)
    : result AttestationVerifyError () :=
  not_before_ms ← ok_or (i64_from_u128 (cert_not_before_ms cert))
    (AvCertChainBroken index "not_before exceeds i64 millis range");
  not_after_ms ← ok_or (i64_from_u128 (cert_not_after_ms cert))
    (AvCertChainBroken index "not_after exceeds i64 millis range");
  _ ← ensure (negb (now_ms <? not_before_ms)) (AvCertChainBroken index "not yet valid (now < not_before)");
  ensure (negb (not_after_ms <? now_ms)) (AvCertChainBroken index "expired (now > not_after)").

Definition verify_p384_signature (child parent : Certificate) (index : nat) (mismatch_reason : string)
    : result AttestationVerifyError () :=
  sec1_bytes ← ok_or (cert_public_key parent)
    (AvCertChainBroken index "parent SubjectPublicKeyInfo bit string is not byte-aligned");
  vk ← ok_or (p384_from_sec1 sec1_bytes)
    (AvCertChainBroken index "parent SubjectPublicKeyInfo is not a P-384 public key");
  tbs_der ← ok_or (cert_tbs_der child)
    (AvCertChainBroken index "could not re-encode child TBS to DER");
  sig_bytes ← ok_or (cert_signature child)
    (AvCertChainBroken index "child signature bit string is not byte-aligned");
  sig ← ok_or (p384_sig_from_der sig_bytes)
    (AvCertChainBroken index "child signature is not a valid DER ECDSA signature");
  ensure (p384_verify vk tbs_der sig) (AvCertChainBroken index mismatch_reason).

Definition check_pair (child parent : Certificate) (index : nat) (now_ms : Z)
    : result AttestationVerifyError () :=
  _ ← ensure (bool_decide (cert_issuer child = cert_subject parent))
    (AvCertChainBroken index "issuer DN does not match parent subject DN");
  _ ← check_validity child index now_ms;
  verify_p384_signature child parent index "signature did not verify".

(** Step 5 of the walk: the adjacent pairs, from index [i]. *)
Fixpoint check_pairs (i : nat) (chain : list Certificate) (now_ms : Z) : result AttestationVerifyError () :=
  match chain with
  | child :: (parent :: _) as rest =>
      _ ← check_pair child parent i now_ms; check_pairs (S i) rest now_ms
  | _ => Ok ()
  end.

Fixpoint parse_intermediates (idx : nat) (cabundle : list bytes)
    : result AttestationVerifyError (list Certificate) :=
  match cabundle with
  | [] => Ok []
  | der_bytes :: rest =>
      cert ← ok_or (cert_from_der der_bytes) (AvMalformedIntermediate idx);
      certs ← parse_intermediates (S idx) rest;
      mret (cert :: certs)
  end.

(** PEM first (the last block), DER as a fallback. *)
Definition parse_root (root : bytes) : result AttestationVerifyError Certificate :=
  match cert_load_pem_chain root with
  | Some chain => ok_or (last chain) AvMalformedRoot
  | None => ok_or (cert_from_der root) AvMalformedRoot
  end.

Definition verify_root_chain (leaf_cert : bytes) (cabundle : list bytes) (root : bytes) (now_ms : Z)
    : result AttestationVerifyError () :=
  leaf ← ok_or (cert_from_der leaf_cert) AvMalformedLeafCert;
  intermediates ← parse_intermediates 0 cabundle;
  root_cert ← parse_root root;
  let chain := leaf :: intermediates ++ [root_cert] in
  _ ← check_pairs 0 chain now_ms;
  let root_index := (length chain - 1)%nat in
  _ ← ensure (bool_decide (cert_issuer root_cert = cert_subject root_cert))
    (AvCertChainBroken root_index "root certificate is not self-signed (issuer != subject)");
  _ ← check_validity root_cert root_index now_ms;
  _ ← verify_p384_signature root_cert root_cert root_index "root self-signature did not verify";
  _ ← ok_or (cert_to_der leaf) AvMalformedLeafCert;
  _ ← ok_or (cert_to_der root_cert) AvMalformedRoot;
  mret tt.

Definition verify_aws_nitro_root_chain (leaf_cert : bytes) (cabundle : list bytes) (now_ms : Z)
    : result AttestationVerifyError () :=
  verify_root_chain leaf_cert cabundle AWS_NITRO_ROOT_G1_PEM now_ms.

(** ** The verifier *)

Definition verify_ed25519_signature (public_key message signature : bytes)
    : result AttestationVerifyError () :=
  _ ← ensure (bool_decide (length public_key = 32%nat)) AvInvalidSignature;
  _ ← ensure (ed_key_valid public_key) AvInvalidSignature;
  _ ← ensure (bool_decide (length signature = 64%nat)) AvInvalidSignature;
  ensure (ed_verify public_key message signature) AvInvalidSignature.

(** Step 1: the parsed payload mirrors the raw bytes. *)
Definition check_mirror (doc : NitroAttestationDoc) : result AttestationVerifyError () :=
  let p := doc_parsed_payload doc in
  match doc_signature_kind doc with
  | KindMock =>
      reparsed ← ok_or (j ← json_from_slice (doc_cose_sign1 doc); nitro_payload_of_json j)
        (AvMalformedCose "payload not JSON");
      ensure (bool_decide (reparsed = p)) AvPayloadMismatch
  | CoseSign1Ed25519 | CoseSign1Es384 =>
      envelope ← map_err map_parse_err (parse_cose_sign1 (doc_cose_sign1 doc));
      inner ← map_err map_parse_err (extract_payload envelope);
      ensure (bool_decide (np_module_id inner = nap_module_id p)
              && bool_decide (np_timestamp inner = nap_timestamp_unix_ms p)
              && bool_decide (np_pcrs inner = nap_pcrs p)
              && bool_decide (np_public_key inner = nap_public_key p)
              && bool_decide (np_user_data inner = nap_user_data p)) AvPayloadMismatch
  end.

(** Step 4: the signature, by kind. *)
Definition check_signature (doc : NitroAttestationDoc) : result AttestationVerifyError () :=
  match doc_signature_kind doc with
  | KindMock =>
      verify_ed25519_signature (doc_leaf_certificate doc) (doc_cose_sign1 doc) (doc_signature doc)
  | CoseSign1Ed25519 =>
      envelope ← map_err map_parse_err (parse_cose_sign1 (doc_cose_sign1 doc));
      map_err map_verify_err (verify_cose_signature envelope (doc_leaf_certificate doc))
  | CoseSign1Es384 =>
      envelope ← map_err map_parse_err (parse_cose_sign1 (doc_cose_sign1 doc));
      map_err map_verify_err (verify_cose_signature_es384 envelope (doc_leaf_certificate doc))
  end.

Definition verify_attestation_inner (doc : NitroAttestationDoc) (expected_pcrs : PcrConstraint)
    (root_anchor : RootAnchor) (now_ms max_age_ms : Z) : result AttestationVerifyError VerifiedAttestation :=
  _ ← check_mirror doc;
  _ ← pcr_check expected_pcrs (nap_pcrs (doc_parsed_payload doc));
  _ ← check_freshness (nap_timestamp_unix_ms (doc_parsed_payload doc)) now_ms max_age_ms;
  _ ← check_signature doc;
  _ ← ensure (negb (bool_decide (doc_cabundle doc = []))) AvCertChain;
  _ ← match root_bytes root_anchor with
      | Some root => verify_root_chain (doc_leaf_certificate doc) (doc_cabundle doc) root now_ms
      | None => Ok ()
      end;
  mret {| verified_payload := doc_parsed_payload doc |}.

Definition verify_attestation_with_root := verify_attestation_inner.

Definition verify_attestation (doc : NitroAttestationDoc) (expected_pcrs : PcrConstraint)
    (_trust_anchor : bytes) (now_ms max_age_ms : Z) : result AttestationVerifyError VerifiedAttestation :=
  verify_attestation_inner doc expected_pcrs NoAnchor now_ms max_age_ms.

Definition verify_mock_attestation (why : string) (doc : AttestationDoc) (enforce_non_production : bool)
    : result AttestationVerifyError () :=
  _ ← ensure (negb (enforce_non_production && String.eqb (backend (att_payload doc)) "mock"))
    AvRefusesMockAttestation;
  map_err (λ e, match e with
                | PayloadParse _ | PayloadMismatch => AvPayloadMismatch
                | InvalidKey _ | InvalidSignature => AvInvalidSignature
                end) (verify_doc why doc).

(** ** What a certificate chain shows *)

(** [child]'s signature is made by [parent]'s P-384 key over its signed part. *)
Definition signed_by (child parent : Certificate) : Prop :=
  ∃ key vk tbs sig_bytes sig,
    cert_public_key parent = Some key ∧ p384_from_sec1 key = Some vk
    ∧ cert_tbs_der child = Some tbs ∧ cert_signature child = Some sig_bytes
    ∧ p384_sig_from_der sig_bytes = Some sig ∧ p384_verify vk tbs sig = true.

Definition valid_at (now_ms : Z) (c : Certificate) : Prop :=
  cert_not_before_ms c ≤ now_ms ≤ cert_not_after_ms c ∧ cert_not_after_ms c ≤ i64_max.

Definition issued_by (now_ms : Z) (child parent : Certificate) : Prop :=
  cert_issuer child = cert_subject parent ∧ valid_at now_ms child ∧ signed_by child parent.

(** Every certificate of the list is issued by the next one. *)
Definition linked (now_ms : Z) (chain : list Certificate) : Prop :=
  ∀ i child parent, chain !! i = Some child → chain !! S i = Some parent → issued_by now_ms child parent.

Lemma check_validity_ok c i now : is_i64 now → check_validity c i now = Ok () ↔ valid_at now c.
Proof.
  intros Hnow. unfold check_validity, valid_at, i64_from_u128, is_i64 in *.
  destruct (Z.leb_spec (cert_not_before_ms c) i64_max); cbn; [|split; [done|lia]].
  destruct (Z.leb_spec (cert_not_after_ms c) i64_max); cbn; [|split; [done|lia]].
  rewrite ensure_bind_ok, ensure_ok, !negb_true_iff, !Z.ltb_ge. lia.
Qed.

Lemma verify_p384_signature_ok child parent i why :
  verify_p384_signature child parent i why = Ok () ↔ signed_by child parent.
Proof.
  unfold verify_p384_signature, signed_by. repeat setoid_rewrite result_bind_ok.
  setoid_rewrite ensure_ok. setoid_rewrite ok_or_ok. naive_solver.
Qed.

Lemma check_pair_ok child parent i now :
  is_i64 now → check_pair child parent i now = Ok () ↔ issued_by now child parent.
Proof.
  intros Hnow. unfold check_pair, issued_by. rewrite ensure_bind_ok, bool_decide_eq_true, result_bind_ok.
  rewrite <-(check_validity_ok child i) by done. rewrite <-(verify_p384_signature_ok _ _ i "signature did not verify").
  split; [intros (? & [] & ? & ?)|intros (? & ? & ?)]; eauto.
Qed.

Lemma check_pairs_ok chain i now : is_i64 now → check_pairs i chain now = Ok () ↔ linked now chain.
Proof.
  intros Hnow. unfold linked. revert i. induction chain as [|c [|p chain] IH]; intros i.
  - split; [by intros _ ? ? ? ?|done].
  - split; [|done]. intros _ [|i'] ? ? Ha Hb; by rewrite ?lookup_cons, ?lookup_nil in *.
  - change (check_pairs i (c :: p :: chain) now)
      with (_ ← check_pair c p i now; check_pairs (S i) (p :: chain) now).
    rewrite result_bind_ok. split.
    + intros ([] & Hc & Hr) [|j] child parent.
      * cbn. intros [= <-] [= <-]. by apply check_pair_ok in Hc.
      * cbn. intros Ha Hb. by eapply (proj1 (IH (S i)) Hr j).
    + intros Hall. exists tt. split.
      * apply check_pair_ok; [done|]. by apply (Hall 0%nat).
      * apply IH. intros j child parent Ha Hb. by apply (Hall (S j)).
Qed.

Lemma parse_intermediates_ok i cab certs :
  parse_intermediates i cab = Ok certs ↔ Forall2 (λ d c, cert_from_der d = Some c) cab certs.
Proof.
  revert i certs. induction cab as [|d cab IH]; intros i certs; cbn.
  - split; [by intros [= <-]|]. by intros ->%Forall2_nil_inv_l.
  - rewrite result_bind_ok. setoid_rewrite result_bind_ok. setoid_rewrite ok_or_ok. setoid_rewrite IH. split.
    + intros (c & Hc & cs & Hcs & [= <-]). by constructor.
    + intros (c & cs & Hc & Hcs & ->)%Forall2_cons_inv_l. eauto.
Qed.

(** The anchored chain of a document: the certificates parse, each is issued by
    the next, the last one is the anchor and is self-issued. *)
Definition chains_to (leaf_cert : bytes) (cabundle : list bytes) (root : bytes) (now_ms : Z) : Prop :=
  ∃ leaf ints root_cert leaf_der root_der,
    cert_from_der leaf_cert = Some leaf
    ∧ Forall2 (λ d c, cert_from_der d = Some c) cabundle ints
    ∧ parse_root root = Ok root_cert
    ∧ linked now_ms (leaf :: ints ++ [root_cert])
    ∧ issued_by now_ms root_cert root_cert
    ∧ cert_to_der leaf = Some leaf_der ∧ cert_to_der root_cert = Some root_der.

Lemma verify_root_chain_ok leaf cab root now :
  is_i64 now → verify_root_chain leaf cab root now = Ok () ↔ chains_to leaf cab root now.
Proof.
  intros Hnow. unfold verify_root_chain, chains_to. split.
  - intros (lc & Hl%ok_or_ok & (ints & Hi%parse_intermediates_ok & (rc & Hr & Hrest)%result_bind_ok)%result_bind_ok)%result_bind_ok.
    apply result_bind_ok in Hrest as ([] & Hp%check_pairs_ok & Hrest); [|done].
    apply ensure_bind_ok in Hrest as [Hn%bool_decide_eq_true Hrest].
    apply result_bind_ok in Hrest as ([] & Hv%check_validity_ok & Hrest); [|done].
    apply result_bind_ok in Hrest as ([] & Hs%verify_p384_signature_ok & Hrest).
    apply result_bind_ok in Hrest as (ld & Hld%ok_or_ok & Hrest).
    apply result_bind_ok in Hrest as (rd & Hrd%ok_or_ok & _).
    exists lc, ints, rc, ld, rd. by split_and!.
  - intros (lc & ints & rc & ld & rd & Hl & Hi & Hr & Hlink & (Hn & Hv & Hs) & Hld & Hrd).
    rewrite Hl. cbn [ok_or mbind result_bind]. rewrite (proj2 (parse_intermediates_ok 0 cab ints) Hi).
    cbn [mbind result_bind]. rewrite Hr. cbn [mbind result_bind].
    rewrite (proj2 (check_pairs_ok _ _ _ Hnow) Hlink). cbn [mbind result_bind].
    rewrite bool_decide_eq_true_2 by done. cbn [ensure mbind result_bind].
    rewrite (proj2 (check_validity_ok _ _ _ Hnow) Hv). cbn [mbind result_bind].
    rewrite (proj2 (verify_p384_signature_ok _ _ _ _) Hs). cbn [mbind result_bind].
    by rewrite Hld, Hrd.
Qed.

(** The chain walk accepts exactly the anchored chains: every certificate
    parses, names and is signed by its successor's P-384 key, is inside its
    validity window at [now], and the anchor is self-signed and valid. *)
Theorem root_chain_exact leaf cab root now :
  is_i64 now → verify_root_chain leaf cab root now = Ok () ↔ chains_to leaf cab root now.
Proof. apply verify_root_chain_ok. Qed.

(** ** PCRs and freshness *)

(** Every constrained register has the expected value. *)
Definition pcrs_match (c : PcrConstraint) (observed : list (Z * bytes)) : Prop :=
  ∀ i expected, (i, Some expected) ∈ pcr_entries c → btree_get i observed = Some expected.

Lemma pcr_check_ok c observed : pcr_check c observed = Ok () ↔ pcrs_match c observed.
Proof.
  unfold pcr_check, pcrs_match. rewrite iter_result_ok, Forall_forall. split.
  - intros Hall i e Hin. specialize (Hall _ Hin). cbn in Hall.
    apply result_bind_ok in Hall as (o & Ho%ok_or_ok & He%ensure_ok%bool_decide_eq_true). by subst.
  - intros Hall [i [e|]] Hin; cbn; [|done]. rewrite (Hall _ _ Hin). cbn.
    by rewrite bool_decide_eq_true_2.
Qed.

(** The failing register is the first one, in order, that differs. *)
Lemma pcr_check_err c observed e :
  pcr_check c observed = Err e →
  ∃ i expected, e = AvPcrMismatch i ∧ (i, Some expected) ∈ pcr_entries c
    ∧ btree_get i observed ≠ Some expected.
Proof.
  unfold pcr_check. generalize (pcr_entries c) as l.
  induction l as [|[i [x|]] l IH]; cbn; [done| |].
  - destruct (btree_get i observed) as [o|] eqn:Ho; cbn.
    + case_bool_decide as Hx; cbn.
      * intros (j & y & ? & ? & ?)%IH. exists j, y. split_and!; [done|by right|done].
      * intros [= <-]. exists i, x. split_and!; [done|left|congruence].
    + intros [= <-]. exists i, x. split_and!; [done|left|congruence].
  - intros (j & y & ? & ? & ?)%IH. exists j, y. split_and!; [done|by right|done].
Qed.

(** The age that is compared: [now - ts], and [2^64] less where the subtraction
    leaves the [i64] range. *)
Definition measured_age (now ts : Z) : Z := if now - ts <=? i64_max then now - ts else now - ts - 2 ^ 64.

(** Not more than a minute from the future, and of a measured age of at most [age]. *)
Definition fresh_at (now age ts : Z) : Prop := ts ≤ now + 60000 ∧ measured_age now ts ≤ age.

Lemma check_freshness_ok ts now age :
  is_i64 ts → is_i64 now → now + 60000 ≤ i64_max → check_freshness ts now age = Ok () ↔ fresh_at now age ts.
Proof.
  unfold is_i64, i64_min, i64_max. intros Hts Hnow Hf.
  assert (ts ≤ now + 60000 → i64_wrap (now - ts) = measured_age now ts) as Hage.
  { intros Hskew. unfold measured_age, i64_max. destruct (Z.leb_spec (now - ts) (2 ^ 63 - 1)).
    - by rewrite i64_wrap_id by (unfold i64_min, i64_max; lia).
    - unfold i64_wrap. rewrite <-(Z_mod_plus_full (now - ts + 2 ^ 63) (-1)), Z.mod_small by lia. lia. }
  unfold check_freshness, fresh_at. rewrite (i64_wrap_id (now + 60000)) by (unfold i64_min, i64_max; lia).
  rewrite ensure_bind_ok, ensure_ok, !negb_true_iff, !Z.ltb_ge.
  split; intros [Hskew ?]; (split; [done|]); [rewrite <-Hage|rewrite Hage]; done.
Qed.

(** Where the subtraction does not overflow, freshness is the documented window. *)
Lemma fresh_window ts now age : now - ts ≤ i64_max → fresh_at now age ts ↔ now - age ≤ ts ≤ now + 60000.
Proof. intros Hs. unfold fresh_at, measured_age. rewrite (proj2 (Z.leb_le _ _) Hs). lia. Qed.

(** ** The verifier's contract *)

Lemma verify_inner_ok doc c anchor now age v :
  verify_attestation_inner doc c anchor now age = Ok v ↔
  check_mirror doc = Ok () ∧ pcrs_match c (nap_pcrs (doc_parsed_payload doc))
  ∧ check_freshness (nap_timestamp_unix_ms (doc_parsed_payload doc)) now age = Ok ()
  ∧ check_signature doc = Ok () ∧ doc_cabundle doc ≠ []
  ∧ (∀ root, root_bytes anchor = Some root →
       verify_root_chain (doc_leaf_certificate doc) (doc_cabundle doc) root now = Ok ())
  ∧ v = {| verified_payload := doc_parsed_payload doc |}.
Proof.
  unfold verify_attestation_inner. rewrite result_bind_ok. rewrite <-pcr_check_ok. split.
  - intros ([] & Hm & ([] & Hp & ([] & Hf & ([] & Hs & Hr)%result_bind_ok)%result_bind_ok)%result_bind_ok).
    apply ensure_bind_ok in Hr as [Hc%negb_true_iff%bool_decide_eq_false Hr].
    apply result_bind_ok in Hr as ([] & Hr & [= <-]). split_and!; try done.
    intros root Hroot. by rewrite Hroot in Hr.
  - intros (Hm & Hp & Hf & Hs & Hc & Hr & ->). exists tt. split; [done|].
    rewrite Hp. cbn [mbind result_bind]. rewrite Hf. cbn [mbind result_bind]. rewrite Hs.
    cbn [mbind result_bind]. rewrite bool_decide_eq_false_2 by done. cbn [ensure negb mbind result_bind].
    destruct (root_bytes anchor) as [root|]; [by rewrite Hr|done].
Qed.

(** The fields of the signed payload that the mirror must repeat. *)
Definition mirrors (inner : NitroPayload) (p : NitroAttestationPayload) : Prop :=
  np_module_id inner = nap_module_id p ∧ np_timestamp inner = nap_timestamp_unix_ms p
  ∧ np_pcrs inner = nap_pcrs p ∧ np_public_key inner = nap_public_key p
  ∧ np_user_data inner = nap_user_data p.

Lemma check_mirror_cose doc :
  doc_signature_kind doc ≠ KindMock →
  check_mirror doc = Ok () ↔
  ∃ env inner, parse_cose_sign1 (doc_cose_sign1 doc) = Ok env ∧ extract_payload env = Ok inner
    ∧ mirrors inner (doc_parsed_payload doc).
Proof.
  intros Hk. unfold check_mirror, mirrors.
  destruct (doc_signature_kind doc) eqn:Hkind; [done| |]; (split;
    [intros (env & He%map_err_ok & (inner & Hi%map_err_ok & Hm%ensure_ok)%result_bind_ok)%result_bind_ok;
     exists env, inner; rewrite !andb_true_iff, !bool_decide_eq_true in Hm; naive_solver
    |intros (env & inner & He & Hi & Hm); rewrite He; cbn [map_err mbind result_bind]; rewrite Hi;
     cbn [map_err mbind result_bind]; apply ensure_ok; rewrite !andb_true_iff, !bool_decide_eq_true; naive_solver]).
Qed.

Lemma ed_key_is_not_a_certificate `{!X509Laws} key c :
  length key = 32%nat → cert_from_der key = Some c → False.
Proof. intros Hl Hc%cert_der_length. lia. Qed.

(** With a trust anchor, only an ES384 envelope can be accepted: the other two
    kinds need a 32-byte leaf, which is no certificate. *)
Lemma anchored_is_es384 `{!X509Laws} doc root now :
  is_i64 now → check_signature doc = Ok () →
  verify_root_chain (doc_leaf_certificate doc) (doc_cabundle doc) root now = Ok () →
  doc_signature_kind doc = CoseSign1Es384.
Proof.
  intros Hnow Hs (lc & _ & _ & _ & _ & Hl & _)%verify_root_chain_ok; [|done].
  unfold check_signature in Hs. destruct (doc_signature_kind doc); [| |done]; exfalso.
  - apply ensure_bind_ok in Hs as [Hk%bool_decide_eq_true _]. by eapply ed_key_is_not_a_certificate.
  - apply result_bind_ok in Hs as (e & _ & Hs%map_err_ok).
    apply ensure_bind_ok in Hs as [Hk%bool_decide_eq_true _]. by eapply ed_key_is_not_a_certificate.
Qed.

(** The leaf certificate parses and re-encodes, and the envelope's 96-byte signature
    is one of its P-384 key over the bytes COSE signs. *)
Definition leaf_signed (env : CoseSign1Envelope) (leaf : bytes) : Prop :=
  ∃ cert sec1 vk der sig, cert_from_der leaf = Some cert ∧ cert_public_key cert = Some sec1
    ∧ p384_from_sec1 sec1 = Some vk ∧ cert_to_der cert = Some der
    ∧ length (cose_signature (env_cose env)) = 96%nat
    ∧ p384_sig_from_slice (cose_signature (env_cose env)) = Some sig
    ∧ p384_verify vk (cose_tbs_data (env_cose env) []) sig = true.

Lemma leaf_signed_ok env leaf : verify_cose_signature_es384 env leaf = Ok () ↔ leaf_signed env leaf.
Proof. apply cose_signature_checks_exact. Qed.

(** The timestamp of a mirror of a signed payload is an [i64]. *)
Lemma mirrored_timestamp env inner p :
  extract_payload env = Ok inner → mirrors inner p → is_i64 (nap_timestamp_unix_ms p).
Proof.
  intros (pb & _ & [Ht _]%decoded_payload_wf)%result_bind_ok (_ & <- & _). exact Ht.
Qed.

(** What an accepted, anchored document guarantees. *)
Definition anchored_evidence (doc : NitroAttestationDoc) (c : PcrConstraint) (root : bytes)
    (now age : Z) : Prop :=
  doc_signature_kind doc = CoseSign1Es384
  ∧ (∃ env inner,
       parse_cose_sign1 (doc_cose_sign1 doc) = Ok env ∧ extract_payload env = Ok inner
       ∧ mirrors inner (doc_parsed_payload doc)
       ∧ leaf_signed env (doc_leaf_certificate doc))
  ∧ pcrs_match c (nap_pcrs (doc_parsed_payload doc))
  ∧ fresh_at now age (nap_timestamp_unix_ms (doc_parsed_payload doc))
  ∧ doc_cabundle doc ≠ []
  ∧ chains_to (doc_leaf_certificate doc) (doc_cabundle doc) root now.

Lemma anchored_verification_ok `{!X509Laws} doc c anchor root now age v :
  is_i64 now → now + 60000 ≤ i64_max → root_bytes anchor = Some root →
  verify_attestation_with_root doc c anchor now age = Ok v ↔
  anchored_evidence doc c root now age ∧ v = {| verified_payload := doc_parsed_payload doc |}.
Proof.
  intros Hnow Hskew Hroot. unfold verify_attestation_with_root, anchored_evidence. rewrite verify_inner_ok. split.
  - intros (Hm & Hp & Hf & Hs & Hc & Hr & ->). specialize (Hr root Hroot). split; [|done].
    pose proof (anchored_is_es384 doc root now Hnow Hs Hr) as Hk.
    apply check_mirror_cose in Hm as (env & inner & He & Hx & Hi); [|by rewrite Hk].
    unfold check_signature in Hs. rewrite Hk, He in Hs. cbn [map_err mbind result_bind] in Hs.
    apply map_err_ok, leaf_signed_ok in Hs. apply verify_root_chain_ok in Hr; [|done].
    pose proof (mirrored_timestamp _ _ _ Hx Hi) as Hts. apply check_freshness_ok in Hf; [|done..].
    split_and!; [done|by exists env, inner|done..].
  - intros ((Hk & (env & inner & He & Hx & Hi & Hs) & Hp & Hf & Hc & Hr) & ->).
    split_and!; try done.
    + apply check_mirror_cose; [by rewrite Hk|]. by exists env, inner.
    + apply check_freshness_ok; [by eapply mirrored_timestamp|done..].
    + unfold check_signature. rewrite Hk, He. cbn [map_err mbind result_bind].
      by rewrite (proj2 (leaf_signed_ok _ _) Hs).
    + intros r. rewrite Hroot. intros [= <-]. by apply verify_root_chain_ok.
Qed.

(** C12. Anchored verification is exact: a document is accepted iff it is tagged ES384,
    its envelope parses with a payload the mirror repeats in the compared fields,
    the envelope's signature over the COSE bytes verifies under the P-384 key of
    the leaf certificate, every constrained PCR has its value, the timestamp is
    at most a minute ahead of [now] and its age, as the code measures it (reduced
    by [2^64] when [now - ts] leaves the [i64] range), is at most the maximum,
    the bundle of certificates is not empty, and the leaf chains through it to
    the anchor, every certificate valid at [now]; what is returned is the
    mirror. *)
Theorem anchored_verification_exact `{!X509Laws} doc c anchor root now age v :
  is_i64 now → now + 60000 ≤ i64_max → root_bytes anchor = Some root →
  verify_attestation_with_root doc c anchor now age = Ok v ↔
  anchored_evidence doc c root now age ∧ v = {| verified_payload := doc_parsed_payload doc |}.
Proof. apply anchored_verification_ok. Qed.

Lemma es384_document_ok `{!CborLaws, !CosetLaws, !P384Laws, !X509Laws}
    p sk cert key cder c anchor root now age :
  payload_wf p → length (np_nonce p) = 32%nat →
  cert_from_der (np_certificate p) = Some cert → cert_public_key cert = Some key →
  p384_from_sec1 key = Some (p384_public sk) → cert_to_der cert = Some cder →
  is_i64 now → now + 60000 ≤ i64_max → root_bytes anchor = Some root → np_cabundle p ≠ [] →
  chains_to (np_certificate p) (np_cabundle p) root now →
  pcrs_match c (np_pcrs p) → fresh_at now age (np_timestamp p) →
  ∃ bs doc v, build_test_envelope_es384 p sk = Ok bs ∧ doc_parse bs = Ok doc
    ∧ verify_attestation_with_root doc c anchor now age = Ok v
    ∧ nap_user_data (verified_payload v) = np_user_data p
    ∧ nap_nonce (verified_payload v) = np_nonce p.
Proof.
  intros Hp Hn Hder Hkey Hvk Hto Hnow Hskew Hroot Hcab Hchain Hpcr Hfresh.
  destruct (build_test_envelope_es384_ok p sk _ cert key cder Hp Hder Hkey Hvk Hto)
    as (bs & env & Hb & Hparse & Hraw & Hx & Ha & Hv).
  set (payload := {| nap_module_id := np_module_id p; nap_timestamp_unix_ms := np_timestamp p;
    nap_pcrs := np_pcrs p; nap_public_key := np_public_key p; nap_user_data := np_user_data p;
    nap_nonce := np_nonce p |}).
  set (doc := {| doc_cose_sign1 := bs; doc_parsed_payload := payload;
    doc_leaf_certificate := np_certificate p; doc_cabundle := np_cabundle p;
    doc_signature := cose_signature (env_cose env); doc_signature_kind := CoseSign1Es384 |}).
  exists bs, doc, {| verified_payload := payload |}. split; [done|]. split; [|split; [|done]].
  - unfold doc_parse, from_cose_sign1. rewrite Hparse. cbn [map_err mbind result_bind]. rewrite Hx.
    cbn [map_err mbind result_bind]. unfold nonce_array. rewrite bool_decide_eq_true_2 by done.
    cbn [mbind result_bind]. unfold signature_kind_from_envelope. by rewrite Ha, Hraw.
  - apply (anchored_verification_ok doc c anchor root now age _ Hnow Hskew Hroot). split; [|done].
    unfold anchored_evidence. split_and!; try done. exists env, p. split_and!; try done. by apply leaf_signed_ok.
Qed.

(** An enclave's document is accepted: the ES384 envelope signed by the key of a
    leaf certificate that chains to the anchor parses into a document, and the
    verifier accepts it whenever its PCRs match and it is fresh. *)
Theorem es384_document_accepted `{!CborLaws, !CosetLaws, !P384Laws, !X509Laws}
    p sk cert key cder c anchor root now age :
  payload_wf p → length (np_nonce p) = 32%nat →
  cert_from_der (np_certificate p) = Some cert → cert_public_key cert = Some key →
  p384_from_sec1 key = Some (p384_public sk) → cert_to_der cert = Some cder →
  is_i64 now → now + 60000 ≤ i64_max → root_bytes anchor = Some root → np_cabundle p ≠ [] →
  chains_to (np_certificate p) (np_cabundle p) root now →
  pcrs_match c (np_pcrs p) → fresh_at now age (np_timestamp p) →
  ∃ bs doc v, build_test_envelope_es384 p sk = Ok bs ∧ doc_parse bs = Ok doc
    ∧ verify_attestation_with_root doc c anchor now age = Ok v
    ∧ nap_user_data (verified_payload v) = np_user_data p
    ∧ nap_nonce (verified_payload v) = np_nonce p.
Proof. apply es384_document_ok. Qed.

(** ** What the verifier leaves open *)

Definition with_nonce (n : bytes) (p : NitroAttestationPayload) : NitroAttestationPayload := {|
  nap_module_id := nap_module_id p; nap_timestamp_unix_ms := nap_timestamp_unix_ms p;
  nap_pcrs := nap_pcrs p; nap_public_key := nap_public_key p; nap_user_data := nap_user_data p;
  nap_nonce := n |}.
Definition doc_with_nonce (n : bytes) (d : NitroAttestationDoc) : NitroAttestationDoc := {|
  doc_cose_sign1 := doc_cose_sign1 d; doc_parsed_payload := with_nonce n (doc_parsed_payload d);
  doc_leaf_certificate := doc_leaf_certificate d; doc_cabundle := doc_cabundle d;
  doc_signature := doc_signature d; doc_signature_kind := doc_signature_kind d |}.

(** The nonce of a COSE document is not compared with the signed one: an
    accepted document stays accepted, and is returned, with any other nonce in
    its mirror. *)
Theorem cose_nonce_unchecked doc c anchor now age v n :
  doc_signature_kind doc ≠ KindMock →
  verify_attestation_with_root doc c anchor now age = Ok v →
  verify_attestation_with_root (doc_with_nonce n doc) c anchor now age
  = Ok {| verified_payload := with_nonce n (verified_payload v) |}.
Proof.
  intros Hk. unfold verify_attestation_with_root. rewrite !verify_inner_ok.
  intros (Hm & Hp & Hf & Hs & Hc & Hr & ->). split_and!; try done.
  by apply check_mirror_cose in Hm; [apply check_mirror_cose|].
Qed.

(** A timestamp more than [i64::MAX] milliseconds in the past passes the
    freshness check whatever the maximal age: the subtraction wraps. *)
Theorem ancient_timestamp_passes ts now age :
  is_i64 ts → is_i64 now → is_i64 (now + 60000) → i64_max < now - ts → 0 ≤ age →
  check_freshness ts now age = Ok ().
Proof.
  intros Hts Hnow [_ Hskew] Hold Hage. apply check_freshness_ok; [done..|]. unfold fresh_at, measured_age.
  rewrite (proj2 (Z.leb_gt _ _) Hold). unfold is_i64, i64_min, i64_max in *. lia.
Qed.

(** A bundle that lists the issuing certificates from the root down (its first
    entry did not issue the leaf) is refused at the leaf. *)
Theorem root_first_bundle_refused leaf cab root now lc first ints rc :
  cert_from_der leaf = Some lc → Forall2 (λ d c, cert_from_der d = Some c) cab (first :: ints) →
  parse_root root = Ok rc → cert_issuer lc ≠ cert_subject first →
  verify_root_chain leaf cab root now
  = Err (AvCertChainBroken 0 "issuer DN does not match parent subject DN").
Proof.
  intros Hl Hc Hr Hne. unfold verify_root_chain. rewrite Hl. cbn [ok_or mbind result_bind].
  rewrite (proj2 (parse_intermediates_ok 0 cab _) Hc). cbn [mbind result_bind]. rewrite Hr.
  cbn [mbind result_bind app check_pairs]. unfold check_pair.
  rewrite (bool_decide_eq_false_2 (cert_issuer lc = _)) by exact Hne. reflexivity.
Qed.

(** A mock attestation is refused exactly by a caller that enforces production,
    and is otherwise verified. *)
Theorem mock_attestation_gate `{!JsonLaws, !Ed25519Laws} now k n ud why enforce :
  is_i64 now → length n = 32%nat →
  ∃ d, sign_attestation now k n ud = Ok d
    ∧ verify_mock_attestation why d enforce = if enforce then Err AvRefusesMockAttestation else Ok ().
Proof.
  intros Hnow Hn. destruct (sign_attestation_ok now k n ud Hnow Hn) as (d & Hd & _ & _ & _ & Hv).
  exists d. split; [done|]. injection Hd as <-. specialize (Hv why).
  unfold verify_mock_attestation. destruct enforce; [done|].
  cbn [andb negb ensure mbind result_bind]. by rewrite Hv.
Qed.
End verify.

Module NitroWitness.
Import Concrete ConcreteCodecs.

(** A root, one intermediate and a leaf, each issued by the one above. *)
Definition root_sk : @p384_sk p384_crate := [x0a].
Definition int_sk : @p384_sk p384_crate := [x0b].
Definition leaf_sk : @p384_sk p384_crate := [x0c].
Definition root_c : @Certificate x509_crate := issue root_sk "root" "root" (p384_public root_sk) 0 10000000000000.
Definition int_c : @Certificate x509_crate := issue root_sk "root" "zone" (p384_public int_sk) 0 10000000000000.
Definition leaf_c : @Certificate x509_crate := issue int_sk "zone" "enclave" (p384_public leaf_sk) 0 10000000000000.
Definition now : Z := 1700000000500.

Definition payload : NitroPayload := {|
  np_module_id := "i-0123"; np_timestamp := 1700000000000; np_digest := "SHA384";
  np_pcrs := [(0, replicate 48 x11)]; np_certificate := cert_der leaf_c;
  np_cabundle := [cert_der int_c]; np_public_key := []; np_user_data := [xaa];
  np_nonce := replicate 32 x07 |}.

Lemma payload_ok : payload_wf payload.
Proof. split; [split; vm_compute; done|]. split; repeat constructor; vm_compute; done. Qed.

Lemma issue_issued t ik s sk parent nb na :
  c_key parent = p384_public ik → nb ≤ t ≤ na → na ≤ i64_max →
  issued_by t (issue ik (c_subject parent) s (p384_public sk) nb na) parent.
Proof.
  intros Hkey Ht Hna. split; [done|]. split; [done|].
  set (c := issue _ _ _ _ _ _).
  exists (p384_public ik), (p384_public ik), (cert_tbs c), (c_signature c), (p384_sign ik (cert_tbs c)).
  split_and!.
  - cbn. by rewrite Hkey.
  - unfold p384_from_sec1, p384_crate. rewrite bool_decide_eq_true_2; [done|apply pad_to_length].
  - done.
  - done.
  - apply (p384_sig_round_trip (p384_sign ik (cert_tbs c))).
  - apply p384_verify_sign.
Qed.

Lemma chain_ok : chains_to (cert_der leaf_c) [cert_der int_c] (cert_der root_c) now.
Proof.
  exists leaf_c, [int_c], root_c, (cert_der leaf_c), (cert_der root_c). split_and!.
  - apply cert_from_der_enc.
  - constructor; [apply cert_from_der_enc|constructor].
  - unfold parse_root. cbn [cert_load_pem_chain x509_crate]. by rewrite cert_from_der_enc.
  - intros [|[|[|i]]] child parent; [| | |done]; cbn [app lookup list_lookup];
      try done; intros [= <-] [= <-].
    + by apply (issue_issued now int_sk "enclave" leaf_sk int_c).
    + by apply (issue_issued now root_sk "zone" int_sk root_c).
  - by apply (issue_issued now root_sk "root" root_sk root_c).
  - done.
  - done.
Qed.

(** The chain walk accepts the concrete chain. *)
Example root_chain_exact_witness :
  verify_root_chain (cert_der leaf_c) [cert_der int_c] (cert_der root_c) now = Ok ().
Proof. apply (proj2 (root_chain_exact _ _ _ now ltac:(split; vm_compute; done)) chain_ok). Defined.

Lemma key_of_leaf : p384_from_sec1 (c_key leaf_c) = Some (p384_public leaf_sk).
Proof. unfold p384_from_sec1, p384_crate. rewrite bool_decide_eq_true_2; [done|apply pad_to_length]. Qed.

Lemma now_ok : is_i64 now.
Proof. split; vm_compute; done. Qed.

Lemma pcrs_ok_here : pcrs_match (pcr0_only (replicate 48 x11)) (np_pcrs payload).
Proof. apply pcr_check_ok. reflexivity. Qed.

Lemma accepted_here :
  ∃ bs doc v, build_test_envelope_es384 payload leaf_sk = Ok bs ∧ doc_parse bs = Ok doc
    ∧ verify_attestation_with_root doc (pcr0_only (replicate 48 x11)) (Custom (cert_der root_c)) now 1000 = Ok v
    ∧ nap_user_data (verified_payload v) = np_user_data payload
    ∧ nap_nonce (verified_payload v) = np_nonce payload.
Proof.
  eapply (es384_document_ok payload leaf_sk leaf_c); [apply payload_ok|reflexivity|apply cert_from_der_enc
    |reflexivity|apply key_of_leaf|reflexivity|apply now_ok|done|reflexivity|done|apply chain_ok
    |apply pcrs_ok_here|by vm_compute].
Qed.

(** The document of the leaf's enclave is accepted under the custom root. *)
Example es384_document_accepted_witness :
  ∃ bs doc v, build_test_envelope_es384 payload leaf_sk = Ok bs ∧ doc_parse bs = Ok doc
    ∧ verify_attestation_with_root doc (pcr0_only (replicate 48 x11)) (Custom (cert_der root_c)) now 1000 = Ok v
    ∧ nap_user_data (verified_payload v) = np_user_data payload
    ∧ nap_nonce (verified_payload v) = np_nonce payload.
Proof.
  apply (es384_document_accepted payload leaf_sk leaf_c (c_key leaf_c) (cert_der leaf_c)
           (pcr0_only (replicate 48 x11)) (Custom (cert_der root_c)) (cert_der root_c) now 1000);
    [apply payload_ok|reflexivity|apply cert_from_der_enc|reflexivity|apply key_of_leaf|reflexivity
    |apply now_ok|done|reflexivity|done|apply chain_ok|apply pcrs_ok_here|by vm_compute].
Defined.

Lemma some_accepted_doc : ∃ doc v,
  doc_signature_kind doc = CoseSign1Es384
  ∧ verify_attestation_with_root doc (pcr0_only (replicate 48 x11)) (Custom (cert_der root_c)) now 1000 = Ok v.
Proof.
  destruct accepted_here as (bs & doc & v & _ & _ & Hv & _).
  exists doc, v. split; [|done].
  apply (anchored_verification_ok doc _ _ (cert_der root_c)) in Hv as [[Hk _] _]; [done|apply now_ok|done|reflexivity].
Qed.

(** Acceptance is equivalent to the evidence, on a document that is accepted. *)
Example anchored_verification_exact_witness : ∃ doc v,
  verify_attestation_with_root doc (pcr0_only (replicate 48 x11)) (Custom (cert_der root_c)) now 1000 = Ok v
  ∧ anchored_evidence doc (pcr0_only (replicate 48 x11)) (cert_der root_c) now 1000.
Proof.
  destruct some_accepted_doc as (doc & v & _ & Hv). exists doc, v. split; [exact Hv|].
  exact (proj1 (proj1 (anchored_verification_exact doc (pcr0_only (replicate 48 x11))
           (Custom (cert_der root_c)) (cert_der root_c) now 1000 v now_ok ltac:(vm_compute; discriminate) eq_refl) Hv)).
Defined.

(** An accepted document accepted again with the nonce replaced. *)
Example cose_nonce_unchecked_witness : ∃ doc v,
  verify_attestation_with_root doc (pcr0_only (replicate 48 x11)) (Custom (cert_der root_c)) now 1000 = Ok v
  ∧ verify_attestation_with_root (doc_with_nonce [] doc) (pcr0_only (replicate 48 x11))
      (Custom (cert_der root_c)) now 1000 = Ok {| verified_payload := with_nonce [] (verified_payload v) |}.
Proof.
  destruct some_accepted_doc as (doc & v & Hk & Hv). exists doc, v. split; [exact Hv|].
  refine (cose_nonce_unchecked doc _ _ _ _ v [] _ Hv). rewrite Hk. discriminate.
Defined.

(** The smallest timestamp, at the epoch. *)
Example ancient_timestamp_passes_witness : check_freshness i64_min 0 0 = Ok ().
Proof. apply (ancient_timestamp_passes i64_min 0 0); try split; vm_compute; done. Defined.

(** The same chain with the root listed first. *)
Example root_first_bundle_refused_witness :
  verify_root_chain (cert_der leaf_c) [cert_der root_c; cert_der int_c] (cert_der root_c) now
  = Err (AvCertChainBroken 0 "issuer DN does not match parent subject DN").
Proof.
  apply (root_first_bundle_refused (cert_der leaf_c) [cert_der root_c; cert_der int_c] (cert_der root_c)
           now leaf_c root_c [int_c] root_c).
  - apply cert_from_der_enc.
  - constructor; [apply cert_from_der_enc|]. constructor; [apply cert_from_der_enc|constructor].
  - unfold parse_root. cbn [cert_load_pem_chain x509_crate]. by rewrite cert_from_der_enc.
  - done.
Defined.

Example mock_attestation_gate_witness :
  ∃ d, sign_attestation 5 (from_seed [x01]) (replicate 32 x07) [x09] = Ok d
    ∧ verify_mock_attestation "json" d true = Err AvRefusesMockAttestation.
Proof.
  apply (mock_attestation_gate 5 (from_seed [x01]) (replicate 32 x07) [x09] "json" true);
    [split; vm_compute; done|reflexivity].
Defined.
End NitroWitness.
