(* ===== verification/Rlp.v ===== *)
(** * Rlp: recursive-length-prefix encoding

    The RLP format of the Ethereum Yellow Paper (appendix B), the interface of
    the [alloy-rlp] crate the EVM decoder calls with the laws its
    documentation gives, and a concrete decoder that satisfies them. *)

From S2P Require Import Prelude.
#[local] Open Scope string_scope.
#[local] Open Scope list_scope.
#[local] Open Scope Z_scope.

(** ** The format *)

Inductive RlpItem :=
  | RStr (bs : bytes)
  | RList (items : list RlpItem).

(** Drop leading zero bytes. *)
Fixpoint strip_zeros (bs : bytes) : bytes :=
  match bs with
  | [] => []
  | b :: bs' => if bool_decide (b = x00) then strip_zeros bs' else bs
  end.

Definition rlp_prefix (base : Z) (len : nat) : bytes :=
  if (len <=? 55)%nat then [byte_of_Z (base + Z.of_nat len)]
  else let lb := strip_zeros (be_bytes 8 (Z.of_nat len)) in
       byte_of_Z (base + 55 + Z.of_nat (length lb)) :: lb.

Definition rlp_enc_str (bs : bytes) : bytes :=
  match bs with
  | [b] => if byte_val b <? 0x80 then [b] else rlp_prefix 0x80 1 ++ bs
  | _ => rlp_prefix 0x80 (length bs) ++ bs
  end.

Definition rlp_enc_list (payload : bytes) : bytes := rlp_prefix 0xc0 (length payload) ++ payload.

Fixpoint rlp_enc (t : RlpItem) : bytes :=
  match t with
  | RStr bs => rlp_enc_str bs
  | RList items => rlp_enc_list (concat (rlp_enc <$> items))
  end.

(** Every length in the item fits the eight-byte length field. *)
Fixpoint rlp_fits (t : RlpItem) : Prop :=
  match t with
  | RStr bs => Z.of_nat (length bs) < 2 ^ 64
  | RList items => Z.of_nat (length (concat (rlp_enc <$> items))) < 2 ^ 64
                   ∧ foldr (λ t P, rlp_fits t ∧ P) True items
  end.

(** ** [alloy_rlp] *)

Inductive PayloadView :=
  | ViewString (payload : bytes)
  | ViewList (items : list bytes).

Class RlpCrate := {
  (** [Header::decode_raw(&mut buf)]: the view and the rest of the buffer. *)
  rlp_decode_raw : bytes → result string (PayloadView * bytes);
  (** [Header::decode_bytes(&mut buf, false)]. *)
  rlp_decode_bytes : bytes → result string (bytes * bytes);
}.

Class RlpLaws `{RlpCrate} : Prop := {
  rlp_decode_raw_list : ∀ items rest, rlp_fits (RList items) →
    rlp_decode_raw (rlp_enc (RList items) ++ rest) = Ok (ViewList (rlp_enc <$> items), rest);
  rlp_decode_bytes_str : ∀ bs rest, rlp_fits (RStr bs) →
    rlp_decode_bytes (rlp_enc (RStr bs) ++ rest) = Ok (bs, rest);
}.

(** ** Lemmas on the format *)

Lemma be_value_strip bs : be_value (strip_zeros bs) = be_value bs.
Proof.
  induction bs as [|b bs IH]; [done|]. cbn [strip_zeros]. case_bool_decide as Hb; [|done].
  rewrite IH, be_value_cons. subst b. cbn. lia.
Qed.

Lemma strip_zeros_length bs : (length (strip_zeros bs) ≤ length bs)%nat.
Proof. induction bs as [|b bs IH]; [done|]. cbn. case_bool_decide; cbn; lia. Qed.

Lemma strip_zeros_head bs b l : strip_zeros bs = b :: l → b ≠ x00.
Proof.
  induction bs as [|c bs IH]; cbn; [done|]. case_bool_decide; [done|]. by intros [= <- _].
Qed.

Lemma strip_zeros_nil bs : strip_zeros bs = [] → be_value bs = 0.
Proof. intros H. by rewrite <-be_value_strip, H. Qed.

Lemma strip_zeros_len_value bs n :
  be_value bs < 256 ^ Z.of_nat n → (length (strip_zeros bs) ≤ n)%nat.
Proof.
  rewrite <-be_value_strip. destruct (strip_zeros bs) as [|b l] eqn:Hs; [cbn; lia|].
  apply strip_zeros_head in Hs. intros Hv. rewrite be_value_cons in Hv. cbn [length].
  destruct (decide (length l < n)%nat); [done|]. exfalso.
  pose proof (be_value_bound l). pose proof (byte_val_range b).
  assert (0 < byte_val b).
  { destruct (decide (byte_val b = 0)) as [E|]; [|lia]. exfalso. apply Hs. by apply byte_val_inj. }
  assert (256 ^ Z.of_nat n ≤ 256 ^ Z.of_nat (length l)) by (apply Z.pow_le_mono_r; lia).
  nia.
Qed.

(** ** A decoder *)

Module ConcreteRlp.

(** Kind, header length and payload length of the first item. *)
Definition header (buf : bytes) : option (bool * nat * nat) :=
  match buf with
  | [] => None
  | b :: rest =>
      let v := byte_val b in
      if v <? 0x80 then Some (false, 0, 1)%nat
      else if v <=? 0xb7 then Some (false, 1%nat, Z.to_nat (v - 0x80))
      else if v <? 0xc0 then
        let ll := Z.to_nat (v - 0xb7) in Some (false, S ll, Z.to_nat (be_value (take ll rest)))
      else if v <=? 0xf7 then Some (true, 1%nat, Z.to_nat (v - 0xc0))
      else let ll := Z.to_nat (v - 0xf7) in Some (true, S ll, Z.to_nat (be_value (take ll rest)))
  end.

Fixpoint split_items (fuel : nat) (buf : bytes) : option (list bytes) :=
  match buf, fuel with
  | [], _ => Some []
  | _, O => None
  | _, S fuel =>
      match header buf with
      | Some (_, h, n) => l ← split_items fuel (drop (h + n) buf); Some (take (h + n) buf :: l)
      | None => None
      end
  end.

Definition decode_raw (buf : bytes) : result string (PayloadView * bytes) :=
  match header buf with
  | Some (true, h, n) =>
      match split_items n (take n (drop h buf)) with
      | Some items => Ok (ViewList items, drop (h + n) buf)
      | None => Err "InputTooShort"
      end
  | Some (false, h, n) => Ok (ViewString (take n (drop h buf)), drop (h + n) buf)
  | None => Err "InputTooShort"
  end.

Definition decode_bytes (buf : bytes) : result string (bytes * bytes) :=
  match header buf with
  | Some (false, h, n) => Ok (take n (drop h buf), drop (h + n) buf)
  | Some (true, _, _) => Err "UnexpectedList"
  | None => Err "InputTooShort"
  end.

#[export] Instance rlp_crate : RlpCrate :=
  {| rlp_decode_raw := decode_raw; rlp_decode_bytes := decode_bytes |}.

Lemma prefix_lb len :
  (55 < len)%nat → Z.of_nat len < 2 ^ 64 →
  let lb := strip_zeros (be_bytes 8 (Z.of_nat len)) in
  be_value lb = Z.of_nat len ∧ (1 ≤ length lb ≤ 8)%nat.
Proof.
  intros H1 H2 lb. assert (be_value lb = Z.of_nat len) as Hv.
  { subst lb. rewrite be_value_strip. apply be_value_bytes_small. cbn. lia. }
  split; [done|]. split.
  - destruct lb; [cbn in Hv; lia|cbn; lia].
  - subst lb. etrans; [apply strip_zeros_length|]. by rewrite length_be_bytes.
Qed.

(** The header of a prefixed payload. *)
Lemma header_prefix (is_list : bool) len rest :
  Z.of_nat len < 2 ^ 64 →
  header (rlp_prefix (if is_list then 0xc0 else 0x80) len ++ rest)
  = Some (is_list, length (rlp_prefix (if is_list then 0xc0 else 0x80) len), len).
Proof.
  intros Hl. unfold rlp_prefix. destruct (Nat.leb_spec len 55).
  - cbn [app length]. unfold header. rewrite byte_val_of_Z.
    destruct is_list; rewrite Z.mod_small by lia.
    + rewrite (proj2 (Z.ltb_ge _ 0x80)), (proj2 (Z.leb_gt _ 0xb7)), (proj2 (Z.ltb_ge _ 0xc0)),
        (proj2 (Z.leb_le _ 0xf7)) by lia. do 2 f_equal. lia.
    + rewrite (proj2 (Z.ltb_ge _ 0x80)), (proj2 (Z.leb_le _ 0xb7)) by lia. do 2 f_equal. lia.
  - destruct (prefix_lb len ltac:(lia) Hl) as [Hv Hlen].
    set (lb := strip_zeros _) in *. cbn [app length]. unfold header. rewrite byte_val_of_Z.
    destruct is_list; rewrite Z.mod_small by lia.
    + rewrite (proj2 (Z.ltb_ge _ 0x80)), (proj2 (Z.leb_gt _ 0xb7)), (proj2 (Z.ltb_ge _ 0xc0)),
        (proj2 (Z.leb_gt _ 0xf7)) by lia.
      replace (Z.to_nat (0xc0 + 55 + Z.of_nat (length lb) - 0xf7)) with (length lb) by lia.
      rewrite take_app_exact, Hv by done. by rewrite Nat2Z.id.
    + rewrite (proj2 (Z.ltb_ge _ 0x80)), (proj2 (Z.leb_gt _ 0xb7)), (proj2 (Z.ltb_lt _ 0xc0)) by lia.
      replace (Z.to_nat (0x80 + 55 + Z.of_nat (length lb) - 0xb7)) with (length lb) by lia.
      rewrite take_app_exact, Hv by done. by rewrite Nat2Z.id.
Qed.

(** The header of an encoded item delimits it. *)
Lemma header_enc t rest :
  rlp_fits t → ∃ k h n pre body, header (rlp_enc t ++ rest) = Some (k, h, n)
    ∧ rlp_enc t = pre ++ body ∧ length pre = h ∧ length body = n
    ∧ match t with
      | RStr bs => k = false ∧ body = bs
      | RList items => k = true ∧ body = concat (rlp_enc <$> items)
      end.
Proof.
  destruct t as [bs|items].
  - intros Hf. cbn in Hf. cbn [rlp_enc].
    assert ((∃ b, bs = [b] ∧ byte_val b < 0x80 ∧ rlp_enc_str bs = [b])
            ∨ rlp_enc_str bs = rlp_prefix 0x80 (length bs) ++ bs) as [(b & -> & Hb & ->)| ->].
    { unfold rlp_enc_str. destruct bs as [|b [|c bs]]; [by right| |by right].
      destruct (Z.ltb_spec (byte_val b) 0x80); [left; eauto|by right]. }
    + exists false, 0%nat, 1%nat, [], [b]. cbn [app header].
      by rewrite (proj2 (Z.ltb_lt _ 0x80)) by lia.
    + rewrite <-app_assoc. pose proof (header_prefix false (length bs) (bs ++ rest) Hf) as Hh.
      cbn in Hh. do 5 eexists. split; [exact Hh|]. by repeat split.
  - intros [Hf _]. cbn [rlp_enc]. unfold rlp_enc_list. rewrite <-app_assoc.
    pose proof (header_prefix true _ (concat (rlp_enc <$> items) ++ rest) Hf) as Hh. cbn in Hh.
    do 5 eexists. split; [exact Hh|]. by repeat split.
Qed.

Lemma rlp_enc_nonempty t : rlp_fits t → rlp_enc t ≠ [].
Proof.
  intros Hf Hn. destruct (header_enc t [] Hf) as (k & h & n & pre & body & Hh & _).
  by rewrite Hn in Hh.
Qed.

Lemma split_items_step fuel buf : buf ≠ [] →
  split_items (S fuel) buf =
    match header buf with
    | Some (_, h, n) => l ← split_items fuel (drop (h + n) buf); Some (take (h + n) buf :: l)
    | None => None
    end.
Proof. by destruct buf. Qed.

Lemma split_items_enc items fuel :
  foldr (λ t P, rlp_fits t ∧ P) True items → (length (concat (rlp_enc <$> items)) ≤ fuel)%nat →
  split_items fuel (concat (rlp_enc <$> items)) = Some (rlp_enc <$> items).
Proof.
  revert fuel. induction items as [|t items IH]; intros fuel; [by destruct fuel|].
  cbn [foldr fmap list_fmap concat]. intros [Ht Hf] Hfuel. rewrite length_app in Hfuel.
  destruct (header_enc t (concat (rlp_enc <$> items)) Ht)
    as (k & h & n & pre & body & Hh & He & Hpre & Hbody & _).
  pose proof (rlp_enc_nonempty t Ht) as Hne.
  assert (length (rlp_enc t) = h + n)%nat as Hlen by (rewrite He, length_app; lia).
  destruct fuel as [|fuel]; [destruct (rlp_enc t); cbn in *; [done|lia]|].
  rewrite split_items_step by (intros [? _]%app_eq_nil; done). rewrite Hh.
  rewrite drop_app_ge, Hlen, Nat.sub_diag, drop_0 by lia.
  unfold fmap in IH. rewrite IH; [|done|].
  - cbn. by rewrite take_app_exact.
  - destruct (rlp_enc t); cbn in *; [done|]. unfold fmap in *. lia.
Qed.

#[export] Instance rlp_laws : RlpLaws.
Proof.
  split.
  - intros items rest Hf. cbn [rlp_decode_raw rlp_crate]. unfold decode_raw.
    destruct (header_enc (RList items) rest Hf) as (k & h & n & pre & body & -> & He & Hpre & Hbody & -> & ->).
    rewrite He, <-!app_assoc. rewrite (drop_app_ge pre), Hpre, Nat.sub_diag, drop_0 by lia.
    rewrite take_app_exact by done.
    rewrite split_items_enc; [|by destruct Hf|by rewrite Hbody].
    rewrite (assoc_L (++)), drop_app_ge by (rewrite length_app; lia).
    rewrite length_app, Hpre, Hbody, Nat.sub_diag. done.
  - intros bs rest Hf. cbn [rlp_decode_bytes rlp_crate]. unfold decode_bytes.
    destruct (header_enc (RStr bs) rest Hf) as (k & h & n & pre & body & -> & He & Hpre & Hbody & -> & ->).
    rewrite He, <-!app_assoc. rewrite (drop_app_ge pre), Hpre, Nat.sub_diag, drop_0 by lia.
    rewrite take_app_exact by done.
    rewrite (assoc_L (++)), drop_app_ge by (rewrite length_app; lia).
    rewrite length_app, Hpre, Hbody, Nat.sub_diag. done.
Qed.

End ConcreteRlp.
