(* ===== verification/EvmDecoder.v ===== *)
(** * EvmDecoder: the structural decoder of EVM envelopes ([decoders/evm.rs]) *)

From S2P Require Import Prelude Text Types PolicyTypes Rlp.
#[local] Open Scope string_scope.
#[local] Open Scope list_scope.
#[local] Open Scope Z_scope.

Inductive EvmTxType := Legacy | Eip2930 | Eip1559 | Eip4844.

Record AccessListItem := { al_address : bytes; storage_keys : list bytes }.

Record DecodedEvmTx := {
  evm_tx_type : EvmTxType;
  evm_chain_id : option Z;
  evm_nonce : Z;
  evm_to : option bytes;
  evm_value : Z;
  evm_gas_limit : Z;
  max_fee_per_gas : option Z;
  max_priority_fee_per_gas : option Z;
  gas_price : option Z;
  evm_data : bytes;
  evm_method_selector : option bytes;
  access_list : list AccessListItem;
  blob_versioned_hashes : list bytes;
}.

Inductive EvmDecodeError :=
  | Empty
  | UnknownType (b : byte)
  | RlpError (why : string)
  | InvalidLength (field : string) (expected got : nat).

Section evm.
Context `{RlpCrate}.

(** ** Field-level helpers *)

(** A list item with nothing after it. *)
Definition decode_view_list (item : bytes) (trailing not_list : string)
    : result EvmDecodeError (list bytes) :=
  r ← map_err RlpError (rlp_decode_raw item);
  let '(view, rest) := r : PayloadView * bytes in
  if negb (bool_decide (rest = [])) then Err (RlpError trailing)
  else match view with
       | ViewList items => Ok items
       | ViewString _ => Err (RlpError not_list)
       end.

Definition decode_list (raw : bytes) (expected : nat) : result EvmDecodeError (list bytes) :=
  items ← decode_view_list raw "trailing bytes after envelope" "expected list at top level";
  if bool_decide (length items = expected) then Ok items
  else Err (InvalidLength "envelope" expected (length items)).

Definition decode_bytes (item : bytes) : result EvmDecodeError bytes :=
  r ← map_err RlpError (rlp_decode_bytes item);
  let '(bs, rest) := r : bytes * bytes in
  if negb (bool_decide (rest = [])) then Err (RlpError "trailing bytes after string item")
  else Ok bs.

(** The shared body of [decode_u64] and [decode_u256]: at most [width] bytes,
    no leading zero. *)
Definition decode_uint (width : nat) (item : bytes) (field : string) : result EvmDecodeError Z :=
  bs ← decode_bytes item;
  if (width <? length bs)%nat then Err (InvalidLength field width (length bs))
  else if bool_decide (head bs = Some x00) then
    Err (RlpError ("non-canonical leading zero in " +:+ field))
  else Ok (be_value bs).

Definition decode_u64 : bytes → string → result EvmDecodeError Z := decode_uint 8.
Definition decode_u256 : bytes → string → result EvmDecodeError Z := decode_uint 32.

Definition decode_optional_address (item : bytes) : result EvmDecodeError (option bytes) :=
  bs ← decode_bytes item;
  if bool_decide (bs = []) then Ok None
  else if negb (bool_decide (length bs = 20%nat)) then Err (InvalidLength "to" 20 (length bs))
  else Ok (Some bs).

Definition decode_hash (entry : bytes) : result EvmDecodeError bytes :=
  bs ← decode_bytes entry;
  if negb (bool_decide (length bs = 32%nat)) then Err (InvalidLength "hash" 32 (length bs))
  else Ok bs.

Definition decode_hash_list (item : bytes) : result EvmDecodeError (list bytes) :=
  entries ← decode_view_list item "trailing bytes after hash list" "expected hash list to be a list";
  map_result decode_hash entries.

Definition decode_access_entry (entry : bytes) : result EvmDecodeError AccessListItem :=
  entry_items ← decode_view_list entry "trailing bytes inside access_list entry"
                  "access_list entry must be a list";
  match entry_items with
  | [addr; keys] =>
      addr_bytes ← decode_bytes addr;
      if negb (bool_decide (length addr_bytes = 20%nat)) then
        Err (InvalidLength "access_list_address" 20 (length addr_bytes))
      else
        storage_keys ← decode_hash_list keys;
        mret {| al_address := addr_bytes; storage_keys := storage_keys |}
  | _ => Err (InvalidLength "access_list_entry" 2 (length entry_items))
  end.

Definition decode_access_list (item : bytes) : result EvmDecodeError (list AccessListItem) :=
  entries ← decode_view_list item "trailing bytes after access_list"
              "expected access_list to be a list";
  map_result decode_access_entry entries.

Definition first_four (data : bytes) : option bytes :=
  if (length data <? 4)%nat then None else Some (take 4 data).

(** [items[i]], in range after [decode_list]. *)
Definition item (items : list bytes) (i : nat) : bytes := default [] (items !! i).

(** ** The four envelopes *)

Definition decode_legacy (raw : bytes) : result EvmDecodeError DecodedEvmTx :=
  items ← decode_list raw 9;
  nonce ← decode_u64 (item items 0) "nonce";
  gas_price ← decode_u256 (item items 1) "gas_price";
  gas_limit ← decode_u64 (item items 2) "gas_limit";
  to ← decode_optional_address (item items 3);
  value ← decode_u256 (item items 4) "value";
  data ← decode_bytes (item items 5);
  v ← decode_u64 (item items 6) "v";
  _ ← decode_bytes (item items 7);
  _ ← decode_bytes (item items 8);
  let chain_id := if 35 <=? v then Some ((v - 35) / 2) else None in
  mret {| evm_tx_type := Legacy; evm_chain_id := chain_id; evm_nonce := nonce; evm_to := to;
          evm_value := value; evm_gas_limit := gas_limit; max_fee_per_gas := None;
          max_priority_fee_per_gas := None; gas_price := Some gas_price; evm_data := data;
          evm_method_selector := first_four data; access_list := [];
          blob_versioned_hashes := [] |}.

Definition decode_eip2930 (raw : bytes) : result EvmDecodeError DecodedEvmTx :=
  items ← decode_list raw 11;
  chain_id ← decode_u64 (item items 0) "chain_id";
  nonce ← decode_u64 (item items 1) "nonce";
  gas_price ← decode_u256 (item items 2) "gas_price";
  gas_limit ← decode_u64 (item items 3) "gas_limit";
  to ← decode_optional_address (item items 4);
  value ← decode_u256 (item items 5) "value";
  data ← decode_bytes (item items 6);
  access_list ← decode_access_list (item items 7);
  _ ← decode_u64 (item items 8) "y_parity";
  _ ← decode_bytes (item items 9);
  _ ← decode_bytes (item items 10);
  mret {| evm_tx_type := Eip2930; evm_chain_id := Some chain_id; evm_nonce := nonce; evm_to := to;
          evm_value := value; evm_gas_limit := gas_limit; max_fee_per_gas := None;
          max_priority_fee_per_gas := None; gas_price := Some gas_price; evm_data := data;
          evm_method_selector := first_four data; access_list := access_list;
          blob_versioned_hashes := [] |}.

Definition decode_eip1559 (raw : bytes) : result EvmDecodeError DecodedEvmTx :=
  items ← decode_list raw 12;
  chain_id ← decode_u64 (item items 0) "chain_id";
  nonce ← decode_u64 (item items 1) "nonce";
  priority ← decode_u256 (item items 2) "max_priority_fee_per_gas";
  max_fee ← decode_u256 (item items 3) "max_fee_per_gas";
  gas_limit ← decode_u64 (item items 4) "gas_limit";
  to ← decode_optional_address (item items 5);
  value ← decode_u256 (item items 6) "value";
  data ← decode_bytes (item items 7);
  access_list ← decode_access_list (item items 8);
  _ ← decode_u64 (item items 9) "y_parity";
  _ ← decode_bytes (item items 10);
  _ ← decode_bytes (item items 11);
  mret {| evm_tx_type := Eip1559; evm_chain_id := Some chain_id; evm_nonce := nonce; evm_to := to;
          evm_value := value; evm_gas_limit := gas_limit; max_fee_per_gas := Some max_fee;
          max_priority_fee_per_gas := Some priority; gas_price := None; evm_data := data;
          evm_method_selector := first_four data; access_list := access_list;
          blob_versioned_hashes := [] |}.

Definition decode_eip4844 (raw : bytes) : result EvmDecodeError DecodedEvmTx :=
  items ← decode_list raw 14;
  chain_id ← decode_u64 (item items 0) "chain_id";
  nonce ← decode_u64 (item items 1) "nonce";
  priority ← decode_u256 (item items 2) "max_priority_fee_per_gas";
  max_fee ← decode_u256 (item items 3) "max_fee_per_gas";
  gas_limit ← decode_u64 (item items 4) "gas_limit";
  to ← decode_optional_address (item items 5);
  value ← decode_u256 (item items 6) "value";
  data ← decode_bytes (item items 7);
  access_list ← decode_access_list (item items 8);
  _ ← decode_u256 (item items 9) "max_fee_per_blob_gas";
  hashes ← decode_hash_list (item items 10);
  _ ← decode_u64 (item items 11) "y_parity";
  _ ← decode_bytes (item items 12);
  _ ← decode_bytes (item items 13);
  mret {| evm_tx_type := Eip4844; evm_chain_id := Some chain_id; evm_nonce := nonce; evm_to := to;
          evm_value := value; evm_gas_limit := gas_limit; max_fee_per_gas := Some max_fee;
          max_priority_fee_per_gas := Some priority; gas_price := None; evm_data := data;
          evm_method_selector := first_four data; access_list := access_list;
          blob_versioned_hashes := hashes |}.

Definition decode_evm_tx (raw : bytes) : result EvmDecodeError DecodedEvmTx :=
  match raw with
  | [] => Err Empty
  | first :: rest =>
      if byte_val first =? 1 then decode_eip2930 rest
      else if byte_val first =? 2 then decode_eip1559 rest
      else if byte_val first =? 3 then decode_eip4844 rest
      else if byte_val first <=? 0x7f then Err (UnknownType first)
      else decode_legacy raw
  end.

(** ** The [VmDecoder] shim *)

Definition decoded_tx_from (tx : DecodedEvmTx) : DecodedTx := {|
  tx_chain_id := default 0 (evm_chain_id tx);
  tx_to := evm_to tx;
  tx_value := Some (evm_value tx);
  tx_gas_limit := Some (evm_gas_limit tx);
  tx_method_selector := evm_method_selector tx;
  tx_raw_args := if (4 <? length (evm_data tx))%nat then Some (drop 4 (evm_data tx)) else None;
|}.

Definition EvmDecoder : VmDecoder := λ vm raw,
  if negb (bool_decide (vm = Evm)) then None
  else match decode_evm_tx raw with Ok d => Some (decoded_tx_from d) | Err _ => None end.

(** ** The envelopes as RLP trees: the table in the module's documentation *)

Definition scalar (n : Z) : RlpItem := RStr (strip_zeros (be_bytes 32 n)).
Definition address (to : option bytes) : RlpItem := RStr (default [] to).
Definition hashes_item (hs : list bytes) : RlpItem := RList (RStr <$> hs).
Definition access_item (l : list AccessListItem) : RlpItem :=
  RList ((λ a, RList [RStr (al_address a); hashes_item (storage_keys a)]) <$> l).

(** [sig] is (v or y_parity, r, s); [blob_fee] is used by type 3 only. *)
Definition envelope (tx : DecodedEvmTx) (sig : Z * bytes * bytes) (blob_fee : Z) : RlpItem :=
  let '(v, r, s) := sig in
  let chain := scalar (default 0 (evm_chain_id tx)) in
  let fee o := scalar (default 0 o) in
  let common := [scalar (evm_gas_limit tx); address (evm_to tx); scalar (evm_value tx);
                 RStr (evm_data tx)] in
  let tail := [scalar v; RStr r; RStr s] in
  RList match evm_tx_type tx with
        | Legacy => [scalar (evm_nonce tx); fee (gas_price tx)] ++ common ++ tail
        | Eip2930 => [chain; scalar (evm_nonce tx); fee (gas_price tx)] ++ common
                     ++ [access_item (access_list tx)] ++ tail
        | Eip1559 => [chain; scalar (evm_nonce tx); fee (max_priority_fee_per_gas tx);
                      fee (max_fee_per_gas tx)] ++ common ++ [access_item (access_list tx)] ++ tail
        | Eip4844 => [chain; scalar (evm_nonce tx); fee (max_priority_fee_per_gas tx);
                      fee (max_fee_per_gas tx)] ++ common ++ [access_item (access_list tx); scalar blob_fee;
                      hashes_item (blob_versioned_hashes tx)] ++ tail
        end.

Definition type_prefix (t : EvmTxType) : bytes :=
  match t with Legacy => [] | Eip2930 => [x01] | Eip1559 => [x02] | Eip4844 => [x03] end.

Definition u64_ok (n : Z) : Prop := 0 ≤ n ≤ u64_max.
Definition u256_ok (n : Z) : Prop := 0 ≤ n < 2 ^ 256.
Definition to_ok (o : option bytes) : Prop :=
  match o with Some a => length a = 20%nat | None => True end.
Definition access_ok (a : AccessListItem) : Prop :=
  length (al_address a) = 20%nat ∧ Forall (λ k, length k = 32%nat) (storage_keys a).

(** The values a [DecodedEvmTx] of each type can hold. *)
Definition tx_ok (tx : DecodedEvmTx) : Prop :=
  u64_ok (evm_nonce tx) ∧ u64_ok (evm_gas_limit tx) ∧ u256_ok (evm_value tx)
  ∧ to_ok (evm_to tx)
  ∧ evm_method_selector tx = first_four (evm_data tx)
  ∧ Forall access_ok (access_list tx)
  ∧ Forall (λ h, length h = 32%nat) (blob_versioned_hashes tx)
  ∧ match evm_chain_id tx with Some c => u64_ok c | None => True end
  ∧ match evm_tx_type tx with
    | Legacy => (∃ p, gas_price tx = Some p ∧ u256_ok p) ∧ max_fee_per_gas tx = None
                ∧ max_priority_fee_per_gas tx = None ∧ access_list tx = []
                ∧ blob_versioned_hashes tx = []
    | Eip2930 => is_Some (evm_chain_id tx) ∧ (∃ p, gas_price tx = Some p ∧ u256_ok p)
                 ∧ max_fee_per_gas tx = None ∧ max_priority_fee_per_gas tx = None
                 ∧ blob_versioned_hashes tx = []
    | Eip1559 | Eip4844 =>
        is_Some (evm_chain_id tx) ∧ gas_price tx = None
        ∧ (∃ p, max_fee_per_gas tx = Some p ∧ u256_ok p)
        ∧ (∃ p, max_priority_fee_per_gas tx = Some p ∧ u256_ok p)
        ∧ (evm_tx_type tx = Eip1559 → blob_versioned_hashes tx = [])
    end.

(** The signature value of the envelope: EIP-155 folds the chain id into v. *)
Definition sig_ok (tx : DecodedEvmTx) (v : Z) : Prop :=
  u64_ok v ∧ (evm_tx_type tx = Legacy →
              evm_chain_id tx = if 35 <=? v then Some ((v - 35) / 2) else None).

(** ** Soundness lemmas *)

Lemma decode_uint_range w i f n : decode_uint w i f = Ok n → 0 ≤ n < 256 ^ Z.of_nat w.
Proof.
  unfold decode_uint. intros (bs & _ & Hbs)%result_bind_ok.
  destruct (Nat.ltb_spec w (length bs)); [done|]. case_bool_decide; [done|]. injection Hbs as <-.
  pose proof (be_value_bound bs).
  assert (256 ^ Z.of_nat (length bs) ≤ 256 ^ Z.of_nat w) by (apply Z.pow_le_mono_r; lia). lia.
Qed.

Lemma decode_u64_ok i f n : decode_u64 i f = Ok n → u64_ok n.
Proof. intros Hn%decode_uint_range. unfold u64_ok, u64_max. cbn in Hn. lia. Qed.

Lemma decode_u256_ok i f n : decode_u256 i f = Ok n → u256_ok n.
Proof. intros Hn%decode_uint_range. done. Qed.

Lemma decode_optional_address_ok i o :
  decode_optional_address i = Ok o → to_ok o.
Proof.
  unfold decode_optional_address. intros (bs & _ & Hbs)%result_bind_ok.
  case_bool_decide; [by injection Hbs as <-|]. case_bool_decide; cbn in Hbs; [|done].
  by injection Hbs as <-.
Qed.

Lemma decode_hash_list_ok i hs : decode_hash_list i = Ok hs → Forall (λ h, length h = 32%nat) hs.
Proof.
  unfold decode_hash_list. intros (es & _ & Hf%map_result_ok)%result_bind_ok.
  induction Hf as [|e h es hs He _ IH]; constructor; [|done].
  unfold decode_hash in He. apply result_bind_ok in He as (bs & _ & He).
  case_bool_decide; cbn in He; [|done]. by injection He as <-.
Qed.

Lemma decode_access_list_ok i l : decode_access_list i = Ok l → Forall access_ok l.
Proof.
  unfold decode_access_list. intros (es & _ & Hf%map_result_ok)%result_bind_ok.
  induction Hf as [|e a es l He _ IH]; constructor; [|done].
  unfold decode_access_entry in He. apply result_bind_ok in He as ([|x [|y [|]]] & _ & He); try done.
  apply result_bind_ok in He as (ad & _ & He). case_bool_decide; cbn in He; [|done].
  apply result_bind_ok in He as (ks & Hks & [= <-]). split; [done|]. by eapply decode_hash_list_ok.
Qed.

(** Peel the binds of a decoder that returned. *)
Ltac peel H :=
  repeat match type of H with
         | _ ≫= _ = Ok _ =>
             let x := fresh "x" in let Hx := fresh "Hx" in
             apply result_bind_ok in H as (x & Hx & H)
         end.

#[local] Hint Resolve decode_u64_ok decode_u256_ok decode_optional_address_ok
  decode_hash_list_ok decode_access_list_ok : wallet.

Lemma decode_legacy_ok raw tx : decode_legacy raw = Ok tx → tx_ok tx.
Proof.
  unfold decode_legacy. intros Hd. peel Hd. injection Hd as <-.
  unfold tx_ok; cbn. repeat split; eauto with wallet; try (eapply decode_u64_ok; eassumption);
    try (eapply decode_u256_ok; eassumption).
  match goal with |- context [35 <=? ?v] => destruct (Z.leb_spec 35 v) as [Hv|]; [|done];
    assert (u64_ok v) as [_ Hm] by eauto with wallet end.
  split; [apply Z.div_pos; lia|apply Z.div_le_upper_bound; lia].
Qed.

Lemma decode_eip2930_ok raw tx : decode_eip2930 raw = Ok tx → tx_ok tx.
Proof.
  unfold decode_eip2930. intros Hd. peel Hd. injection Hd as <-.
  unfold tx_ok; cbn. repeat split; eauto with wallet; try (eapply decode_u64_ok; eassumption);
    try (eapply decode_u256_ok; eassumption).
Qed.

Lemma decode_eip1559_ok raw tx : decode_eip1559 raw = Ok tx → tx_ok tx.
Proof.
  unfold decode_eip1559. intros Hd. peel Hd. injection Hd as <-.
  unfold tx_ok; cbn. repeat split; eauto with wallet; try (eapply decode_u64_ok; eassumption);
    try (eapply decode_u256_ok; eassumption).
Qed.

Lemma decode_eip4844_ok raw tx : decode_eip4844 raw = Ok tx → tx_ok tx.
Proof.
  unfold decode_eip4844. intros Hd. peel Hd. injection Hd as <-.
  unfold tx_ok; cbn. repeat split; eauto with wallet; try (eapply decode_u64_ok; eassumption);
    try (eapply decode_u256_ok; eassumption); done.
Qed.

(** ** Completeness lemmas *)

Context `{!RlpLaws}.

Lemma decode_bytes_enc bs : rlp_fits (RStr bs) → decode_bytes (rlp_enc (RStr bs)) = Ok bs.
Proof.
  intros Hf. unfold decode_bytes. pose proof (rlp_decode_bytes_str bs [] Hf) as Hd.
  rewrite app_nil_r in Hd. by rewrite Hd.
Qed.

Lemma decode_view_list_enc items t n :
  rlp_fits (RList items) → decode_view_list (rlp_enc (RList items)) t n = Ok (rlp_enc <$> items).
Proof.
  intros Hf. unfold decode_view_list. pose proof (rlp_decode_raw_list items [] Hf) as Hd.
  rewrite app_nil_r in Hd. by rewrite Hd.
Qed.

Lemma scalar_fits n : rlp_fits (scalar n).
Proof.
  change (Z.of_nat (length (strip_zeros (be_bytes 32 n))) < 2 ^ 64).
  pose proof (strip_zeros_length (be_bytes 32 n)) as Hl. rewrite length_be_bytes in Hl. lia.
Qed.

Lemma decode_uint_scalar w n f :
  (w ≤ 32)%nat → 0 ≤ n < 256 ^ Z.of_nat w → decode_uint w (rlp_enc (scalar n)) f = Ok n.
Proof.
  intros Hw Hn. unfold decode_uint, scalar. rewrite (decode_bytes_enc (strip_zeros (be_bytes 32 n))) by apply scalar_fits.
  cbn [mbind result_bind].
  assert (256 ^ Z.of_nat w ≤ 256 ^ Z.of_nat 32) by (apply Z.pow_le_mono_r; lia).
  assert (be_value (be_bytes 32 n) = n) as Hv by (apply be_value_bytes_small; lia).
  rewrite (proj2 (Nat.ltb_ge _ _)) by (apply strip_zeros_len_value; rewrite Hv; lia).
  case_bool_decide as Hh.
  - destruct (strip_zeros (be_bytes 32 n)) as [|b l] eqn:Hs; [done|].
    injection Hh as ->. by apply strip_zeros_head in Hs.
  - by rewrite be_value_strip, Hv.
Qed.

Lemma decode_u64_scalar n f : u64_ok n → decode_u64 (rlp_enc (scalar n)) f = Ok n.
Proof. unfold u64_ok, u64_max. intros. apply decode_uint_scalar; [lia|]. cbn. lia. Qed.

Lemma decode_u256_scalar n f : u256_ok n → decode_u256 (rlp_enc (scalar n)) f = Ok n.
Proof. intros. by apply decode_uint_scalar. Qed.

Lemma decode_address_enc o :
  to_ok o → decode_optional_address (rlp_enc (address o)) = Ok o.
Proof.
  intros Ho. unfold decode_optional_address, address. rewrite decode_bytes_enc.
  - destruct o as [a|]; cbn in *; [|done]. rewrite bool_decide_eq_false_2 by (by destruct a).
    by rewrite Ho.
  - destruct o as [a|]; cbn in *; [rewrite Ho|]; lia.
Qed.

Lemma decode_hash_list_enc hs :
  rlp_fits (hashes_item hs) → Forall (λ h, length h = 32%nat) hs →
  decode_hash_list (rlp_enc (hashes_item hs)) = Ok hs.
Proof.
  intros Hf Hhs. unfold decode_hash_list, hashes_item. rewrite decode_view_list_enc by done.
  cbn [mbind result_bind]. apply map_result_ok. clear Hf.
  induction Hhs as [|h hs Hh _ IH]; cbn [fmap list_fmap]; constructor; [|done].
  unfold decode_hash. rewrite decode_bytes_enc by (cbn; lia). cbn.
  by rewrite (bool_decide_eq_true_2 _ Hh).
Qed.

Lemma decode_access_list_enc l :
  rlp_fits (access_item l) → Forall access_ok l →
  decode_access_list (rlp_enc (access_item l)) = Ok l.
Proof.
  intros Hf Hl. unfold decode_access_list, access_item. rewrite decode_view_list_enc by done.
  cbn [mbind result_bind]. apply map_result_ok. destruct Hf as [_ Hf].
  induction Hl as [|a l [Ha Hk] _ IH]; cbn [fmap list_fmap]; constructor.
  - cbn in Hf. destruct Hf as [Hfa _]. unfold decode_access_entry.
    rewrite decode_view_list_enc by done. cbn [mbind result_bind fmap list_fmap].
    rewrite decode_bytes_enc by (cbn; lia). cbn [mbind result_bind].
    rewrite (bool_decide_eq_true_2 _ Ha). cbn [negb].
    rewrite decode_hash_list_enc; [by destruct a|apply Hfa|done].
  - apply IH. by destruct Hf.
Qed.

Lemma decode_list_enc items n :
  rlp_fits (RList items) → length items = n → decode_list (rlp_enc (RList items)) n = Ok (rlp_enc <$> items).
Proof.
  intros Hf Hn. unfold decode_list. rewrite decode_view_list_enc by done. cbn.
  by rewrite length_fmap, (bool_decide_eq_true_2 _ Hn).
Qed.

(** The first byte of an encoded list is at least 0xc0. *)
Lemma rlp_list_first items :
  ∃ b rest, rlp_enc (RList items) = b :: rest ∧ 0xc0 ≤ byte_val b.
Proof.
  cbn [rlp_enc]. unfold rlp_enc_list, rlp_prefix. set (p := concat _).
  destruct (Nat.leb_spec (length p) 55); cbn [app]; do 2 eexists; (split; [done|]);
    rewrite byte_val_of_Z.
  - rewrite Z.mod_small by lia. lia.
  - pose proof (strip_zeros_length (be_bytes 8 (Z.of_nat (length p)))) as Hl.
    rewrite length_be_bytes in Hl. rewrite Z.mod_small by lia. lia.
Qed.

(** Read the fields of an encoded envelope one by one. *)
Ltac read_fields Hf :=
  rewrite decode_list_enc by (exact Hf || reflexivity);
  destruct Hf as [_ Hf]; cbn [foldr app] in Hf; destruct_and? Hf;
  cbn [mbind result_bind];
  unfold item; cbn [fmap list_fmap lookup list_lookup default from_option id];
  repeat (first [ rewrite decode_u64_scalar by assumption
                | rewrite decode_u256_scalar by assumption
                | rewrite decode_address_enc by assumption
                | rewrite decode_access_list_enc by assumption
                | rewrite decode_hash_list_enc by assumption
                | rewrite decode_bytes_enc by assumption ];
          cbn [mbind result_bind]).

Lemma decode_legacy_enc nonce gp gas to value data v r s :
  let t := RList [scalar nonce; scalar gp; scalar gas; address to; scalar value; RStr data;
                  scalar v; RStr r; RStr s] in
  u64_ok nonce → u256_ok gp → u64_ok gas → to_ok to → u256_ok value → u64_ok v → rlp_fits t →
  decode_legacy (rlp_enc t) = Ok {|
    evm_tx_type := Legacy; evm_chain_id := if 35 <=? v then Some ((v - 35) / 2) else None;
    evm_nonce := nonce; evm_to := to; evm_value := value; evm_gas_limit := gas;
    max_fee_per_gas := None; max_priority_fee_per_gas := None; gas_price := Some gp;
    evm_data := data; evm_method_selector := first_four data; access_list := [];
    blob_versioned_hashes := [] |}.
Proof. intros t Hn Hgp Hg Hto Hv Hvv Hf. subst t. unfold decode_legacy. by read_fields Hf. Qed.

Lemma decode_eip2930_enc chain nonce gp gas to value data al v r s :
  let t := RList [scalar chain; scalar nonce; scalar gp; scalar gas; address to; scalar value;
                  RStr data; access_item al; scalar v; RStr r; RStr s] in
  u64_ok chain → u64_ok nonce → u256_ok gp → u64_ok gas → to_ok to → u256_ok value →
  Forall access_ok al → u64_ok v → rlp_fits t →
  decode_eip2930 (rlp_enc t) = Ok {|
    evm_tx_type := Eip2930; evm_chain_id := Some chain; evm_nonce := nonce; evm_to := to;
    evm_value := value; evm_gas_limit := gas; max_fee_per_gas := None;
    max_priority_fee_per_gas := None; gas_price := Some gp; evm_data := data;
    evm_method_selector := first_four data; access_list := al; blob_versioned_hashes := [] |}.
Proof.
  intros t Hc Hn Hgp Hg Hto Hv Hal Hvv Hf. subst t. unfold decode_eip2930. by read_fields Hf.
Qed.

Lemma decode_eip1559_enc chain nonce mp mf gas to value data al v r s :
  let t := RList [scalar chain; scalar nonce; scalar mp; scalar mf; scalar gas; address to;
                  scalar value; RStr data; access_item al; scalar v; RStr r; RStr s] in
  u64_ok chain → u64_ok nonce → u256_ok mp → u256_ok mf → u64_ok gas → to_ok to → u256_ok value →
  Forall access_ok al → u64_ok v → rlp_fits t →
  decode_eip1559 (rlp_enc t) = Ok {|
    evm_tx_type := Eip1559; evm_chain_id := Some chain; evm_nonce := nonce; evm_to := to;
    evm_value := value; evm_gas_limit := gas; max_fee_per_gas := Some mf;
    max_priority_fee_per_gas := Some mp; gas_price := None; evm_data := data;
    evm_method_selector := first_four data; access_list := al; blob_versioned_hashes := [] |}.
Proof.
  intros t Hc Hn Hmp Hmf Hg Hto Hv Hal Hvv Hf. subst t. unfold decode_eip1559. by read_fields Hf.
Qed.

Lemma decode_eip4844_enc chain nonce mp mf gas to value data al fee bh v r s :
  let t := RList [scalar chain; scalar nonce; scalar mp; scalar mf; scalar gas; address to;
                  scalar value; RStr data; access_item al; scalar fee; hashes_item bh;
                  scalar v; RStr r; RStr s] in
  u64_ok chain → u64_ok nonce → u256_ok mp → u256_ok mf → u64_ok gas → to_ok to → u256_ok value →
  Forall access_ok al → u256_ok fee → Forall (λ h, length h = 32%nat) bh → u64_ok v → rlp_fits t →
  decode_eip4844 (rlp_enc t) = Ok {|
    evm_tx_type := Eip4844; evm_chain_id := Some chain; evm_nonce := nonce; evm_to := to;
    evm_value := value; evm_gas_limit := gas; max_fee_per_gas := Some mf;
    max_priority_fee_per_gas := Some mp; gas_price := None; evm_data := data;
    evm_method_selector := first_four data; access_list := al; blob_versioned_hashes := bh |}.
Proof.
  intros t Hc Hn Hmp Hmf Hg Hto Hv Hal Hfee Hbh Hvv Hf. subst t. unfold decode_eip4844.
  by read_fields Hf.
Qed.

(** A legacy envelope goes to the legacy decoder. *)
Lemma decode_evm_tx_list items : decode_evm_tx (rlp_enc (RList items)) = decode_legacy (rlp_enc (RList items)).
Proof.
  destruct (rlp_list_first items) as (b & rest & He & Hb). rewrite He. unfold decode_evm_tx.
  rewrite (proj2 (Z.eqb_neq _ 1)), (proj2 (Z.eqb_neq _ 2)), (proj2 (Z.eqb_neq _ 3)),
    (proj2 (Z.leb_gt _ 0x7f)) by lia. done.
Qed.

(** ** Properties *)

(** What decodes is well formed: integers are within their widths, addresses
    have 20 bytes and hashes 32, the selector is the first four bytes of the
    calldata, and each type carries exactly the fee, access-list and blob
    fields its EIP gives it. *)
Theorem evm_decode_well_formed raw tx : decode_evm_tx raw = Ok tx → tx_ok tx.
Proof.
  unfold decode_evm_tx. destruct raw as [|b raw]; [done|].
  destruct (byte_val b =? 1); [apply decode_eip2930_ok|].
  destruct (byte_val b =? 2); [apply decode_eip1559_ok|].
  destruct (byte_val b =? 3); [apply decode_eip4844_ok|].
  destruct (byte_val b <=? 0x7f); [done|apply decode_legacy_ok].
Qed.

(** C29. The decoder reads every envelope of the four types: encoding a transaction
    as its EIP prescribes (RLP list of the documented fields, canonical
    scalars, type byte in front) and decoding it gives the transaction back. *)
Theorem evm_decode_envelope tx v r s blob_fee :
  tx_ok tx → sig_ok tx v → u256_ok blob_fee → rlp_fits (envelope tx (v, r, s) blob_fee) →
  decode_evm_tx (type_prefix (evm_tx_type tx) ++ rlp_enc (envelope tx (v, r, s) blob_fee)) = Ok tx.
Proof.
  intros (Hn & Hg & Hv & Hto & Hsel & Hal & Hbh & Hc & Hty) [Hsv Hleg] Hbf Hf.
  destruct tx as [ty ch nonce to value gas mf mp gp data sel al bh].
  cbn [evm_tx_type evm_chain_id evm_nonce evm_to evm_value evm_gas_limit max_fee_per_gas
       max_priority_fee_per_gas gas_price evm_data evm_method_selector access_list
       blob_versioned_hashes] in *. subst sel.
  destruct ty; cbn [envelope type_prefix evm_tx_type app default from_option id evm_chain_id
    evm_nonce evm_to evm_value evm_gas_limit max_fee_per_gas max_priority_fee_per_gas gas_price
    evm_data access_list blob_versioned_hashes] in *.
  - destruct Hty as ((p & -> & Hp) & -> & -> & -> & ->). rewrite decode_evm_tx_list.
    rewrite (Hleg eq_refl). by apply decode_legacy_enc.
  - destruct Hty as ([c ->] & (p & -> & Hp) & -> & -> & ->). by apply decode_eip2930_enc.
  - destruct Hty as ([c ->] & -> & (p & -> & Hp) & (q & -> & Hq) & Hb). rewrite (Hb eq_refl).
    by apply decode_eip1559_enc.
  - destruct Hty as ([c ->] & -> & (p & -> & Hp) & (q & -> & Hq) & _).
    by eapply decode_eip4844_enc.
Qed.

(** An envelope without its signature fields does not decode: the bytes a
    wallet hashes to sign an EIP-1559 transaction (type byte and the first nine
    fields) are refused, so a policy sees no decoded view of them. *)
Theorem unsigned_1559_undecoded items :
  rlp_fits (RList items) → length items = 9%nat →
  EvmDecoder Evm (x02 :: rlp_enc (RList items)) = None.
Proof.
  intros Hf Hl. unfold EvmDecoder. cbn [bool_decide negb]. unfold decode_evm_tx.
  change (byte_val x02 =? 1) with false. change (byte_val x02 =? 2) with true. cbn iota.
  unfold decode_eip1559, decode_list. rewrite decode_view_list_enc by done. cbn [mbind result_bind].
  rewrite length_fmap, Hl. done.
Qed.

End evm.

Module EvmWitness.
Import ConcreteRlp.

Definition tx : DecodedEvmTx := {|
  evm_tx_type := Eip1559; evm_chain_id := Some 9001; evm_nonce := 3;
  evm_to := Some (replicate 20 x11); evm_value := 1000; evm_gas_limit := 21000;
  max_fee_per_gas := Some 7; max_priority_fee_per_gas := Some 2; gas_price := None;
  evm_data := [xa9; x05; x9c; xbb; x01]; evm_method_selector := Some [xa9; x05; x9c; xbb];
  access_list := [{| al_address := replicate 20 x22; storage_keys := [replicate 32 x33] |}];
  blob_versioned_hashes := [] |}.
Definition raw : bytes := type_prefix Eip1559 ++ rlp_enc (envelope tx (1, [x09], [x08]) 0).

Example evm_decode_envelope_witness : decode_evm_tx raw = Ok tx.
Proof.
  apply (evm_decode_envelope tx 1 [x09] [x08] 0).
  - unfold tx_ok, u64_ok, u256_ok, u64_max; cbn.
    repeat split; try lia; try done; try (repeat constructor; done); eauto with lia.
  - split; [unfold u64_ok, u64_max; cbn; lia|done].
  - unfold u256_ok. lia.
  - vm_compute. repeat split; congruence.
Defined.

Example evm_decode_well_formed_witness : tx_ok tx.
Proof. apply (evm_decode_well_formed raw). vm_compute. reflexivity. Defined.

Example unsigned_1559_undecoded_witness :
  EvmDecoder Evm (x02 :: rlp_enc (RList (scalar <$> [9001; 3; 2; 7; 21000; 0; 1000; 0; 0]))) = None.
Proof. apply unsigned_1559_undecoded; [vm_compute; repeat split; congruence|reflexivity]. Defined.

End EvmWitness.
