(* ===== verification/QvmDecoder.v ===== *)
(** * QvmDecoder: the envelope decoder of QVM transactions

    Models [crates/qfc-policy/src/decoders/qvm.rs].  The borsh readers are the
    parameters of Codecs.v; the decoder, its tolerance of trailing bytes and the
    saturating value are the code's. *)

From S2P Require Import Prelude Text External Codecs PolicyTypes.
#[local] Open Scope string_scope.
#[local] Open Scope list_scope.
#[local] Open Scope Z_scope.

Inductive QvmTxType := Transfer | ContractCreate | ContractCall | Other (d : Z).

Definition from_discriminant (d : Z) : QvmTxType :=
  if d =? 0 then Transfer else if d =? 1 then ContractCreate
  else if d =? 2 then ContractCall else Other d.

Record DecodedQvmTx := {
  qvm_tx_type : QvmTxType;
  qvm_chain_id : Z;
  qvm_to : bytes;
  qvm_value : Z;
  qvm_gas_limit : Z;
}.

Record QvmTxEnvelope := {
  env_tx_type_disc : Z;
  env_chain_id : Z;
  env_to : bytes;
  env_value : bytes;
  env_gas_limit : Z;
}.

Inductive QvmDecodeError := QvmEmpty | QvmBorsh (e : string).

(** [U256::MAX]. *)
Definition U256_MAX : Z := 2 ^ 256 - 1.

(** The value copied into a zeroed 32-byte buffer and read little-endian. *)
Definition value_bytes_to_u256 (bs : bytes) : Z :=
  if bool_decide (bs = []) then 0
  else if bool_decide (32 < length bs)%nat then U256_MAX
  else le_value (bs ++ replicate (32 - length bs) x00).

Section qvm.
Context `{BorshCrate}.

(** [QvmTxEnvelope::from_slice].  The read of [data] is the last one and its
    outcome is dropped, so it leaves no trace in the result. *)
Definition envelope_from_slice (buf : bytes) : result QvmDecodeError QvmTxEnvelope :=
  '(tx_type_disc, buf) ← map_err QvmBorsh (borsh_u8 buf);
  '(chain_id, buf) ← map_err QvmBorsh (borsh_u64 buf);
  '(to, buf) ← map_err QvmBorsh (borsh_vec_u8 buf);
  '(value, buf) ← map_err QvmBorsh (borsh_vec_u8 buf);
  '(gas_limit, buf) ← map_err QvmBorsh (borsh_u64 buf);
  let _data := match buf with [] => None | _ => result_ok (borsh_vec_u8 buf) end in
  mret {| env_tx_type_disc := tx_type_disc; env_chain_id := chain_id; env_to := to;
          env_value := value; env_gas_limit := gas_limit |}.

Definition decode_qvm_tx (raw : bytes) : result QvmDecodeError DecodedQvmTx :=
  _ ← ensure (negb (bool_decide (raw = []))) QvmEmpty;
  env ← envelope_from_slice raw;
  let value := value_bytes_to_u256 (env_value env) in
  mret {| qvm_tx_type := from_discriminant (env_tx_type_disc env);
          qvm_chain_id := env_chain_id env; qvm_to := env_to env;
          qvm_value := value; qvm_gas_limit := env_gas_limit env |}.

(** [From<DecodedQvmTx> for DecodedTx]. *)
Definition decoded_tx_from_qvm (tx : DecodedQvmTx) : DecodedTx := {|
  tx_chain_id := qvm_chain_id tx;
  tx_to := if bool_decide (qvm_to tx = []) then None else Some (qvm_to tx);
  tx_value := Some (qvm_value tx);
  tx_gas_limit := Some (qvm_gas_limit tx);
  tx_method_selector := None;
  tx_raw_args := None;
|}.

Definition QvmDecoder : VmDecoder := λ vm raw,
  if bool_decide (vm = Qvm) then decoded_tx_from_qvm <$> result_ok (decode_qvm_tx raw) else None.

(** ** The wire format *)

(** The borsh form of a byte vector. *)
Definition borsh_enc_vec (bs : bytes) : bytes := le_bytes 4 (Z.of_nat (length bs)) ++ bs.

(** The envelope as [qfc-core] writes it, up to the gas limit. *)
Definition qvm_prefix (disc : byte) (chain : Z) (to value : bytes) (gas : Z) : bytes :=
  disc :: le_bytes 8 chain ++ borsh_enc_vec to ++ borsh_enc_vec value ++ le_bytes 8 gas.

Definition fits_u32 (bs : bytes) : Prop := Z.of_nat (length bs) ≤ u32_max.
Definition fits_u64 (z : Z) : Prop := 0 ≤ z ≤ u64_max.

Context `{!BorshLaws}.

Lemma borsh_u8_ok bs v rest :
  borsh_u8 bs = Ok (v, rest) ↔ ∃ b, v = byte_val b ∧ bs = b :: rest.
Proof using Type*.
  destruct bs as [|b bs].
  - destruct borsh_u8_nil as [e ->]. split; [done|]. by intros (? & _ & ?).
  - rewrite borsh_u8_cons. split; [intros [= <- <-]; eauto|]. intros (b' & -> & [= -> ->]). done.
Qed.

Lemma borsh_u64_ok bs v rest :
  borsh_u64 bs = Ok (v, rest) ↔ fits_u64 v ∧ bs = le_bytes 8 v ++ rest.
Proof using Type*.
  unfold fits_u64, u64_max. destruct (decide (8 ≤ length bs)%nat) as [Hl|Hl].
  - rewrite borsh_u64_enough by done.
    assert (length (take 8 bs) = 8%nat) as H8 by (rewrite length_take; lia). split.
    + intros [= <- <-]. pose proof (le_value_bound (take 8 bs)) as Hb. rewrite H8 in Hb.
      split; [lia|]. rewrite <-H8 at 1. by rewrite le_bytes_value, take_drop.
    + intros [Hv ->]. rewrite take_app_exact by apply length_le_bytes.
      rewrite le_value_bytes, Z.mod_small by lia.
      by rewrite drop_app_ge, length_le_bytes, Nat.sub_diag, drop_0 by (rewrite length_le_bytes; lia).
  - destruct (borsh_u64_short bs) as [e ->]; [lia|]. split; [done|].
    intros [_ ->]. rewrite length_app, length_le_bytes in Hl. lia.
Qed.

Lemma borsh_vec_ok bs v rest :
  borsh_vec_u8 bs = Ok (v, rest) ↔ fits_u32 v ∧ bs = borsh_enc_vec v ++ rest.
Proof using Type*.
  unfold fits_u32, u32_max, borsh_enc_vec. split.
  - intros Hok. destruct (decide (4 ≤ length bs)%nat) as [H4|H4];
      [|destruct (borsh_vec_short bs) as [e He]; [lia|congruence]].
    destruct (decide (le_value (take 4 bs) ≤ Z.of_nat (length (drop 4 bs)))) as [Hl|Hl];
      [|destruct (borsh_vec_short bs) as [e He]; [lia|congruence]].
    rewrite borsh_vec_enough in Hok by done. injection Hok as <- <-.
    assert (length (take 4 bs) = 4%nat) as Ht by (rewrite length_take; lia).
    pose proof (le_value_bound (take 4 bs)) as Hb. rewrite Ht in Hb.
    rewrite length_take, Nat.min_l by lia. rewrite Z2Nat.id by lia.
    split; [lia|]. rewrite <-app_assoc, take_drop. rewrite <-Ht at 1.
    by rewrite le_bytes_value, take_drop.
  - intros [Hv ->]. rewrite <-app_assoc.
    assert (take 4 (le_bytes 4 (Z.of_nat (length v)) ++ v ++ rest) = le_bytes 4 (Z.of_nat (length v))) as Ht
      by (apply take_app_exact, length_le_bytes).
    assert (drop 4 (le_bytes 4 (Z.of_nat (length v)) ++ v ++ rest) = v ++ rest) as Hd.
    { by rewrite drop_app_ge, length_le_bytes, Nat.sub_diag, drop_0 by (rewrite length_le_bytes; lia). }
    rewrite borsh_vec_enough.
    + rewrite Ht, Hd, le_value_bytes, Z.mod_small, Nat2Z.id by lia.
      by rewrite take_app_exact, drop_app_ge, Nat.sub_diag, drop_0 by lia.
    + rewrite length_app, length_le_bytes. lia.
    + rewrite Ht, Hd, le_value_bytes, Z.mod_small, length_app by lia. lia.
Qed.

Lemma envelope_from_slice_ok buf env :
  envelope_from_slice buf = Ok env ↔
  ∃ disc rest,
    env_tx_type_disc env = byte_val disc
    ∧ fits_u64 (env_chain_id env) ∧ fits_u64 (env_gas_limit env)
    ∧ fits_u32 (env_to env) ∧ fits_u32 (env_value env)
    ∧ buf = qvm_prefix disc (env_chain_id env) (env_to env) (env_value env) (env_gas_limit env) ++ rest.
Proof using Type*.
  unfold envelope_from_slice, qvm_prefix. split.
  - intros ([d b1] & Hd & ([c b2] & Hc & ([t b3] & Ht & ([v b4] & Hv & ([g b5] & Hg & [= <-])
      %result_bind_ok)%result_bind_ok)%result_bind_ok)%result_bind_ok)%result_bind_ok.
    apply map_err_ok, borsh_u8_ok in Hd as (disc & -> & ->).
    apply map_err_ok, borsh_u64_ok in Hc as [Hc ->].
    apply map_err_ok, borsh_vec_ok in Ht as [Ht ->].
    apply map_err_ok, borsh_vec_ok in Hv as [Hv ->].
    apply map_err_ok, borsh_u64_ok in Hg as [Hg ->].
    exists disc, b5. cbn -[le_bytes]. by rewrite <-!app_assoc.
  - destruct env as [d c t v g]. cbn [env_tx_type_disc env_chain_id env_to env_value env_gas_limit].
    intros (disc & rest & -> & Hc & Hg & Ht & Hv & ->).
    rewrite <-app_comm_cons, borsh_u8_cons. cbn -[le_bytes]. rewrite <-!app_assoc.
    rewrite (proj2 (borsh_u64_ok _ c _)) by done. cbn -[le_bytes].
    rewrite (proj2 (borsh_vec_ok _ t _)) by done. cbn -[le_bytes].
    rewrite (proj2 (borsh_vec_ok _ v _)) by done. cbn -[le_bytes].
    by rewrite (proj2 (borsh_u64_ok _ g _)) by done.
Qed.

(** The decoder accepts exactly the byte strings that begin with a borsh
    envelope, whatever follows it, and returns that envelope's fields: encoded
    transactions decode to themselves, nothing else decodes. *)
Theorem qvm_decode_exact raw tx :
  decode_qvm_tx raw = Ok tx ↔
  ∃ disc value rest,
    raw = qvm_prefix disc (qvm_chain_id tx) (qvm_to tx) value (qvm_gas_limit tx) ++ rest
    ∧ fits_u64 (qvm_chain_id tx) ∧ fits_u64 (qvm_gas_limit tx) ∧ fits_u32 (qvm_to tx) ∧ fits_u32 value
    ∧ qvm_tx_type tx = from_discriminant (byte_val disc)
    ∧ qvm_value tx = value_bytes_to_u256 value.
Proof using Type*.
  unfold decode_qvm_tx. rewrite ensure_bind_ok, result_bind_ok. split.
  - intros (_ & env & (disc & rest & Hd & Hc & Hg & Ht & Hv & ->)%envelope_from_slice_ok & [= <-]).
    exists disc, (env_value env), rest. cbn. by rewrite Hd.
  - destruct tx as [ty c t v g]. cbn [qvm_tx_type qvm_chain_id qvm_to qvm_value qvm_gas_limit].
    intros (disc & value & rest & -> & Hc & Hg & Ht & Hv & -> & ->). split; [done|].
    exists {| env_tx_type_disc := byte_val disc; env_chain_id := c; env_to := t;
              env_value := value; env_gas_limit := g |}.
    split; [|done]. apply envelope_from_slice_ok. exists disc, rest. by split_and!.
Qed.
End qvm.

Lemma le_value_zeros n : le_value (replicate n x00) = 0.
Proof. induction n as [|n IH]; cbn; [done|]. by rewrite IH. Qed.

Lemma le_value_app a b : le_value (a ++ b) = le_value a + 256 ^ Z.of_nat (length a) * le_value b.
Proof.
  induction a as [|x a IH]; cbn [le_value app length]; [lia|].
  rewrite IH, Nat2Z.inj_succ, Z.pow_succ_r by lia. lia.
Qed.

(** The value the policy sees is a [U256], equals the encoded amount whenever
    that is at most 32 bytes wide, and never understates it: a wider encoding
    counts as [U256::MAX]. *)
Theorem qvm_value_never_understated bs :
  0 ≤ value_bytes_to_u256 bs ≤ U256_MAX
  ∧ ((length bs ≤ 32)%nat → value_bytes_to_u256 bs = le_value bs)
  ∧ Z.min (le_value bs) U256_MAX ≤ value_bytes_to_u256 bs.
Proof.
  pose proof (le_value_bound bs) as Hb. unfold value_bytes_to_u256, U256_MAX.
  case_bool_decide as H0; [subst; cbn; lia|]. case_bool_decide as H32; [lia|].
  rewrite le_value_app, le_value_zeros, Z.mul_0_r, Z.add_0_r.
  assert (256 ^ Z.of_nat (length bs) ≤ 256 ^ 32) by (apply Z.pow_le_mono_r; lia).
  change (256 ^ 32) with (2 ^ 256) in *. lia.
Qed.

Module QvmWitness.
Import Concrete ConcreteCodecs.

Definition tx : DecodedQvmTx := {|
  qvm_tx_type := ContractCall; qvm_chain_id := 9000; qvm_to := [x11; x22];
  qvm_value := 513; qvm_gas_limit := 21000 |}.
Definition raw : bytes := qvm_prefix x02 9000 [x11; x22] [x01; x02] 21000 ++ [xff; xee].

(** A contract call with two trailing bytes decodes to its fields. *)
Lemma qvm_decode_exact_witness : decode_qvm_tx raw = Ok tx.
Proof.
  apply (proj2 (qvm_decode_exact raw tx)). exists x02, [x01; x02], [xff; xee].
  unfold fits_u64, fits_u32. cbn. split_and!; try done; vm_compute; try done; split; done.
Defined.

Example empty_payload : decode_qvm_tx [] = Err QvmEmpty.
Proof. reflexivity. Qed.
Example truncated_payload : decode_qvm_tx [x00] = Err (QvmBorsh "Unexpected length of input").
Proof. reflexivity. Qed.
Example evm_tag_declined : QvmDecoder Evm raw = None ∧ QvmDecoder Qvm raw = Some (decoded_tx_from_qvm tx).
Proof. split; reflexivity. Qed.
Example oversized_value : value_bytes_to_u256 (replicate 33 x00) = U256_MAX.
Proof. reflexivity. Qed.
End QvmWitness.
