(* ===== verification/HybridVerifier.v ===== *)
(** * HybridVerifier: the enclave-side re-check ([hybrid_verifier.rs])

    Types of [enclave.rs] the verifier reads, [verify] with its seven numbered
    steps, the approval check and the hard ceilings. *)

From S2P Require Import Prelude Text Types External PolicyTypes SignedDecision Signers Rlp EvmDecoder.
#[local] Open Scope string_scope.
#[local] Open Scope list_scope.
#[local] Open Scope Z_scope.

(** ** [enclave.rs]: approvals as the enclave sees them *)

Inductive EnclaveApprovalDecision := EnclaveApprove | EnclaveReject.
#[export] Instance EnclaveApprovalDecision_eq_dec : EqDecision EnclaveApprovalDecision.
Proof. solve_decision. Defined.

Record EnclaveApproval := {
  ap_approval_id : ApprovalId;
  ap_public_key : bytes;
  ap_scheme : SigningScheme;
  ap_request_id : RequestId;
  ap_message_hash : bytes;
  ap_decision : EnclaveApprovalDecision;
  ap_timestamp_unix_ms : Z;
  ap_signature : bytes;
}.

(** ** Configuration and errors *)

Record WalletCeilings := {
  ceil_wallet_id : WalletId;
  max_value_per_tx : option Z;
  contract_allowlist : list bytes;
  chain_allowlist : list Z;
}.

Definition MAX_DECISION_AGE_SECS : Z := 24 * 60 * 60.
Definition MAX_APPROVALS : nat := 64.
Definition MAX_APPROVAL_AGE_SECS_VERIFIER : Z := 3600.

Inductive HybridVerifyError :=
  | MissingPolicyDecision
  | InvalidPolicyServiceSignature
  | PolicyDecisionRawPayloadMismatch
  | RequestIdMismatch (expected got : RequestId)
  | WalletIdMismatch (expected got : WalletId)
  | DecisionStale (age_secs max_age_secs : Z)
  | DecisionFromTheFuture (signed_at_ms : Z)
  | PolicyDeny
  | ValueCapExceeded (payload : string) (cap : Z)
  | TargetNotAllowed (target_hex : string)
  | HvChainNotAllowed (chain_id : Z)
  | NotEnoughApprovals (provided threshold : Z)
  | InvalidApproval (why : string)
  | TooManyApprovals (count limit : nat)
  | ApprovalSignerError (e : SignerError)
  | UnsupportedVmForCeilings (vm : VmType).

Record HybridVerifier := { policy_service_pubkey : bytes; require_signed_decision : bool }.

Definition HybridVerifier_new (pk : bytes) : HybridVerifier :=
  {| policy_service_pubkey := pk; require_signed_decision := true |}.
Definition with_require_signed_decision (v : HybridVerifier) (require : bool) : HybridVerifier :=
  {| policy_service_pubkey := policy_service_pubkey v; require_signed_decision := require |}.

Section hybrid.
Context `{UlidCrate, JsonCrate, DigestCrate, Ed25519Crate, K256Crate, MlDsaCrate, RlpCrate}.

(** ** Helpers *)

Definition approval_preimage (ap : EnclaveApproval) : bytes :=
  string_bytes (ulid_to_string (ApprovalId_ulid (ap_approval_id ap))) ++ string_bytes "|"
  ++ string_bytes (ulid_to_string (RequestId_ulid (ap_request_id ap))) ++ string_bytes "|"
  ++ ap_message_hash ap ++ string_bytes "|"
  ++ [match ap_decision ap with EnclaveApprove => x01 | EnclaveReject => x00 end] ++ string_bytes "|"
  ++ be_bytes 8 (ap_timestamp_unix_ms ap).

Definition approval_hash_alg (s : SigningScheme) : HashAlg :=
  match s with
  | Ed25519 | MlDsa44 | MlDsa65 | MlDsa87 => HashNone
  | Secp256k1 | Secp256k1Recoverable => Sha256
  end.

Definition canonical_signing_message (p : SigningPayload) : bytes :=
  match p with
  | Raw bs | PersonalSign bs => bs
  | TypedData json => json_to_vec json
  | VmTransaction _ _ _ raw => raw
  end.

Definition verify_ed25519 (pk message signature : bytes) : result HybridVerifyError () :=
  _ ← ensure (bool_decide (length pk = 32%nat)) InvalidPolicyServiceSignature;
  _ ← ensure (ed_key_valid pk) InvalidPolicyServiceSignature;
  _ ← ensure (bool_decide (length signature = 64%nat)) InvalidPolicyServiceSignature;
  ensure (ed_verify pk message signature) InvalidPolicyServiceSignature.

(** ** Hard ceilings *)

Definition check_chain_allowlist (request : SigningRequest) (w : WalletCeilings)
    : result HybridVerifyError () :=
  if bool_decide (chain_allowlist w = []) then Ok ()
  else match payload_chain_id (payload request) with
  | Some chain_id => if contains (chain_allowlist w) chain_id then Ok ()
                     else Err (HvChainNotAllowed chain_id)
  | None => Ok ()
  end.

Definition check_contract_allowlist (request : SigningRequest) (w : WalletCeilings)
    : result HybridVerifyError () :=
  if bool_decide (contract_allowlist w = []) then Ok ()
  else match payload request with
  | VmTransaction Evm _ (Some to) _ =>
      if negb (bool_decide (length to = 20%nat)) then Err (TargetNotAllowed (hex_encode to))
      else if contains (contract_allowlist w) to then Ok ()
      else Err (TargetNotAllowed (hex_encode to))
  | _ => Ok ()
  end.

Definition check_value_cap (request : SigningRequest) (w : WalletCeilings)
    : result HybridVerifyError () :=
  match max_value_per_tx w with
  | None => Ok ()
  | Some cap =>
      match payload request with
      | VmTransaction Evm _ _ raw =>
          decoded ← map_err (λ _, InvalidApproval "could not decode EVM tx for ceiling check")
                      (decode_evm_tx raw);
          if cap <? evm_value decoded then
            Err (ValueCapExceeded (show_dec (evm_value decoded)) cap)
          else Ok ()
      | _ => Ok ()
      end
  end.

Definition check_hard_ceilings (request : SigningRequest) (w : WalletCeilings)
    : result HybridVerifyError () :=
  _ ← check_chain_allowlist request w;
  _ ← check_contract_allowlist request w;
  check_value_cap request w.

(** ** Approvals *)

(** The body of the loop. *)
Definition check_approval (signing_request : SigningRequest) (expected_hash : bytes) (now : Z)
    (ap : EnclaveApproval) : result HybridVerifyError () :=
  _ ← ensure (bool_decide (ap_request_id ap = request_id signing_request))
        (InvalidApproval "wrong request_id");
  _ ← ensure (bool_decide (ap_message_hash ap = expected_hash)) (InvalidApproval "wrong message_hash");
  let age_ms := i64_saturating_sub now (ap_timestamp_unix_ms ap) in
  _ ← ensure (negb (age_ms <? 0)) (InvalidApproval "approval timestamp is in the future");
  _ ← ensure (negb (MAX_APPROVAL_AGE_SECS_VERIFIER <? i64_div age_ms 1000))
        (InvalidApproval "approval is stale");
  _ ← ensure (negb (bool_decide (ap_decision ap = EnclaveReject))) (InvalidApproval "approver rejected");
  map_err ApprovalSignerError
    (dispatch_signer (ap_scheme ap) (λ sg,
       Signers.verify sg (ap_public_key ap) (approval_preimage ap) (ap_signature ap)
         (approval_hash_alg (ap_scheme ap)))).

(** [valid] is a saturating [u8] counter. *)
Fixpoint count_approvals (check : EnclaveApproval → result HybridVerifyError ()) (valid : Z)
    (approvals : list EnclaveApproval) : result HybridVerifyError Z :=
  match approvals with
  | [] => Ok valid
  | ap :: approvals => _ ← check ap; count_approvals check (Z.min u8_max (valid + 1)) approvals
  end.

Definition check_approvals (approvals : list EnclaveApproval) (signing_request : SigningRequest)
    (threshold now : Z) : result HybridVerifyError () :=
  let canonical_msg := canonical_signing_message (payload signing_request) in
  let expected_hash := sha256 canonical_msg in
  valid ← count_approvals (check_approval signing_request expected_hash now) 0 approvals;
  if valid <? threshold then Err (NotEnoughApprovals valid threshold) else Ok ().

(** ** [verify] *)

(** Steps 2 to 4: the signature covers the canonical preimage and the decision
    is for this request and wallet. *)
Definition check_binding (self : HybridVerifier) (signed : SignedPolicyDecision)
    (signing_request : SigningRequest) (w : WalletCeilings) : result HybridVerifyError () :=
  let canonical := build_preimage (decision signed) (sd_request_id signed) (sd_wallet_id signed)
                     (signed_at_unix_ms signed) (max_age_secs signed) in
  _ ← ensure (bool_decide (canonical = raw_payload signed)) PolicyDecisionRawPayloadMismatch;
  _ ← ensure (bool_decide (string_bytes POLICY_DECISION_DOMAIN `prefix_of` raw_payload signed))
        PolicyDecisionRawPayloadMismatch;
  _ ← verify_ed25519 (policy_service_pubkey self) (raw_payload signed)
        (policy_service_signature signed);
  _ ← ensure (bool_decide (sd_request_id signed = request_id signing_request))
        (RequestIdMismatch (request_id signing_request) (sd_request_id signed));
  ensure (bool_decide (sd_wallet_id signed = ceil_wallet_id w))
    (WalletIdMismatch (ceil_wallet_id w) (sd_wallet_id signed)).

(** [u32::try_from(age_ms / 1000).unwrap_or(u32::MAX)], for [age_ms >= 0]. *)
Definition age_secs_of (age_ms : Z) : Z := Z.min u32_max (i64_div age_ms 1000).

Definition check_freshness (signed : SignedPolicyDecision) (now : Z) : result HybridVerifyError () :=
  let age_ms := i64_saturating_sub now (signed_at_unix_ms signed) in
  if age_ms <? 0 then Err (DecisionFromTheFuture (signed_at_unix_ms signed))
  else
    let age_secs := age_secs_of age_ms in
    let effective_max := Z.min (max_age_secs signed) MAX_DECISION_AGE_SECS in
    if effective_max <? age_secs then Err (DecisionStale age_secs effective_max) else Ok ().

Definition verify (self : HybridVerifier) (signed_decision : option SignedPolicyDecision)
    (approvals : list EnclaveApproval) (signing_request : SigningRequest) (w : WalletCeilings)
    (now : Z) : result HybridVerifyError () :=
  if (MAX_APPROVALS <? length approvals)%nat then
    Err (TooManyApprovals (length approvals) MAX_APPROVALS)
  else match signed_decision, require_signed_decision self with
  | None, true => Err MissingPolicyDecision
  | None, false => check_hard_ceilings signing_request w
  | Some signed, _ =>
      _ ← check_binding self signed signing_request w;
      _ ← check_freshness signed now;
      _ ← match decision signed with
          | Deny _ _ _ _ => Err PolicyDeny
          | RequireQuorum _ _ threshold _ _ _ =>
              check_approvals approvals signing_request threshold now
          | Allow _ _ _ => Ok ()
          end;
      check_hard_ceilings signing_request w
  end.

(** ** What the checks establish *)

(** An approval that counts. *)
Definition approval_ok (req : SigningRequest) (now : Z) (ap : EnclaveApproval) : Prop :=
  ap_request_id ap = request_id req
  ∧ ap_message_hash ap = sha256 (canonical_signing_message (payload req))
  ∧ ap_decision ap = EnclaveApprove
  ∧ ap_timestamp_unix_ms ap ≤ now < ap_timestamp_unix_ms ap + 3601 * 1000
  ∧ ∃ sg, signer_for_scheme (ap_scheme ap) = Ok sg
      ∧ Signers.verify sg (ap_public_key ap) (approval_preimage ap) (ap_signature ap)
          (approval_hash_alg (ap_scheme ap)) = Ok ().

(** The ceilings, on the fields of the declared payload. *)
Definition ceilings_hold (req : SigningRequest) (w : WalletCeilings) : Prop :=
  (∀ c, chain_allowlist w ≠ [] → payload_chain_id (payload req) = Some c → c ∈ chain_allowlist w)
  ∧ (∀ c to raw, contract_allowlist w ≠ [] → payload req = VmTransaction Evm c (Some to) raw →
       length to = 20%nat ∧ to ∈ contract_allowlist w)
  ∧ (∀ cap c to raw, max_value_per_tx w = Some cap → payload req = VmTransaction Evm c to raw →
       ∃ tx, decode_evm_tx raw = Ok tx ∧ evm_value tx ≤ cap).

Lemma dispatch_for_scheme {T} s (f : Signer → result SignerError T) :
  ∃ sg, signer_for_scheme s = Ok sg ∧ dispatch_signer s f = f sg.
Proof. destruct s; by eexists. Qed.

(** A non-negative saturated age is the exact difference unless it is huge. *)
Lemma saturated_age now at_ms limit :
  is_i64 now → is_i64 at_ms → 0 ≤ limit < 2 ^ 40 →
  let age := i64_saturating_sub now at_ms in
  0 ≤ age → i64_div age 1000 ≤ limit → at_ms ≤ now < at_ms + (limit + 1) * 1000.
Proof.
  intros Hn Ha Hl age Hge Hq. subst age.
  unfold is_i64, i64_saturating_sub, i64_div, i64_min, i64_max in *. rewrite Z.quot_div_nonneg in Hq by lia.
  pose proof (Z.div_mod (Z.max (- 2 ^ 63) (Z.min (2 ^ 63 - 1) (now - at_ms))) 1000).
  pose proof (Z.mod_pos_bound (Z.max (- 2 ^ 63) (Z.min (2 ^ 63 - 1) (now - at_ms))) 1000). lia.
Qed.

Lemma check_approval_ok req now ap :
  is_i64 now → is_i64 (ap_timestamp_unix_ms ap) →
  check_approval req (sha256 (canonical_signing_message (payload req))) now ap = Ok () →
  approval_ok req now ap.
Proof.
  intros Hnow Hts. unfold check_approval.
  intros (? & Hr%ensure_ok%bool_decide_eq_true & Hc)%result_bind_ok.
  apply result_bind_ok in Hc as (? & Hh%ensure_ok%bool_decide_eq_true & Hc).
  apply result_bind_ok in Hc as (? & Hf%ensure_ok%negb_true_iff%Z.ltb_ge & Hc).
  apply result_bind_ok in Hc as (? & Hs%ensure_ok%negb_true_iff%Z.ltb_ge & Hc).
  apply result_bind_ok in Hc as (? & Hd%ensure_ok%negb_true_iff%bool_decide_eq_false & Hc).
  apply map_err_ok in Hc.
  destruct (dispatch_for_scheme (ap_scheme ap) (λ sg, Signers.verify sg (ap_public_key ap)
    (approval_preimage ap) (ap_signature ap) (approval_hash_alg (ap_scheme ap)))) as (sg & Hsg & Heq).
  rewrite Heq in Hc. split; [done|]. split; [done|]. split; [by destruct (ap_decision ap)|].
  split; [|eauto]. apply (saturated_age now _ 3600); done.
Qed.

Lemma count_approvals_ok check n l v :
  0 ≤ n ≤ u8_max → count_approvals check n l = Ok v →
  Forall (λ ap, check ap = Ok ()) l ∧ v = Z.min u8_max (n + Z.of_nat (length l)).
Proof.
  revert n. induction l as [|ap l IH]; intros n Hn; cbn.
  - intros [= <-]. split; [by constructor|lia].
  - intros (u & Hap & Hl)%result_bind_ok. destruct u. apply IH in Hl as [Hl ->]; [|lia].
    split; [by constructor|lia].
Qed.

Lemma count_approvals_all check n l :
  0 ≤ n ≤ u8_max → Forall (λ ap, check ap = Ok ()) l →
  count_approvals check n l = Ok (Z.min u8_max (n + Z.of_nat (length l))).
Proof.
  intros Hn Hl. revert n Hn. induction Hl as [|ap l Hap _ IH]; intros n Hn; cbn.
  - f_equal. lia.
  - rewrite Hap. cbn. rewrite IH by lia. f_equal. lia.
Qed.

Lemma chain_allowlist_spec req w :
  check_chain_allowlist req w = Ok () ↔
  ∀ c, chain_allowlist w ≠ [] → payload_chain_id (payload req) = Some c → c ∈ chain_allowlist w.
Proof.
  unfold check_chain_allowlist, contains. case_bool_decide as He; [split; [|done]; by intros|].
  destruct (payload_chain_id (payload req)) as [c|]; [|by split].
  case_bool_decide as Hc; split; try done.
  - by intros _ c' _ [= <-].
  - intros Hall. by destruct Hc; apply Hall.
Qed.

Lemma contract_allowlist_spec req w :
  check_contract_allowlist req w = Ok () ↔
  ∀ c to raw, contract_allowlist w ≠ [] → payload req = VmTransaction Evm c (Some to) raw →
    length to = 20%nat ∧ to ∈ contract_allowlist w.
Proof.
  unfold check_contract_allowlist, contains. case_bool_decide as He; [split; [|done]; by intros|].
  destruct (payload req) as [| | |[] c [to|] raw]; try (split; [|done]; intros; discriminate).
  destruct (bool_decide_reflect (length to = 20%nat)) as [Hl|Hl]; cbn [negb].
  - case_bool_decide as Hc; split; try done.
    + by intros _ ??? _ [= <- <- <-].
    + intros Hall. destruct Hc. by eapply Hall.
  - split; [done|]. intros Hall. destruct Hl. by eapply Hall.
Qed.

Lemma value_cap_spec req w :
  check_value_cap req w = Ok () ↔
  ∀ cap c to raw, max_value_per_tx w = Some cap → payload req = VmTransaction Evm c to raw →
    ∃ tx, decode_evm_tx raw = Ok tx ∧ evm_value tx ≤ cap.
Proof.
  unfold check_value_cap. destruct (max_value_per_tx w) as [cap|]; [|by split].
  destruct (payload req) as [| | |[] c to raw]; try (split; [|done]; intros; discriminate).
  destruct (decode_evm_tx raw) as [tx|e] eqn:Hd; cbn [map_err mbind result_bind].
  - destruct (Z.ltb_spec cap (evm_value tx)) as [Hlt|Hle]; split; try done.
    + intros Hall. destruct (Hall cap c to raw eq_refl eq_refl) as (tx' & Hd' & Hv).
      rewrite Hd in Hd'. injection Hd' as <-. lia.
    + intros _ ? ? ? ? [= <-] [= <- <- <-]. eauto.
  - split; [done|]. intros Hall. destruct (Hall cap c to raw eq_refl eq_refl) as (tx' & Hd' & _).
    congruence.
Qed.

Lemma ceilings_spec req w : check_hard_ceilings req w = Ok () ↔ ceilings_hold req w.
Proof.
  unfold check_hard_ceilings, ceilings_hold.
  rewrite <-chain_allowlist_spec, <-contract_allowlist_spec, <-value_cap_spec.
  rewrite result_bind_ok. split.
  - intros ([] & Ha & Hb). apply result_bind_ok in Hb as ([] & Hb & Hc). done.
  - intros (Ha & Hb & Hc). exists (). split; [done|]. apply result_bind_ok. eauto.
Qed.

(** A decision as the local signer issues it. *)
Definition issued (key : bytes) (d : PolicyDecision) (r : RequestId) (w : WalletId)
    (at_ms max_age : Z) : SignedPolicyDecision :=
  let pre := build_preimage d r w at_ms max_age in
  {| decision := d; sd_request_id := r; sd_wallet_id := w; raw_payload := pre;
     policy_service_signature := ed_sign key pre; signed_at_unix_ms := at_ms;
     max_age_secs := max_age |}.

Lemma check_binding_issued `{!UlidLaws, !Ed25519Laws} key d t max_age req ceil :
  check_binding (HybridVerifier_new (ed_public key))
    (issued key d (request_id req) (ceil_wallet_id ceil) t max_age) req ceil = Ok ().
Proof.
  unfold check_binding, verify_ed25519, issued. cbn -[build_preimage POLICY_DECISION_DOMAIN].
  rewrite (bool_decide_eq_true_2 (build_preimage _ _ _ _ _ = _)) by done. cbn [ensure mbind result_bind].
  destruct (preimage_domain d (request_id req) (ceil_wallet_id ceil) t max_age) as [rest Hp].
  rewrite (bool_decide_eq_true_2 (_ `prefix_of` _)) by (rewrite Hp; by eexists).
  cbn [ensure mbind result_bind].
  rewrite (bool_decide_eq_true_2 (length (ed_public key) = _)) by apply ed_public_length.
  rewrite ed_public_valid. cbn [ensure mbind result_bind].
  rewrite (bool_decide_eq_true_2 (length (ed_sign _ _) = _)) by apply ed_sign_length.
  cbn [ensure mbind result_bind]. rewrite ed_verify_sign. cbn [ensure mbind result_bind].
  by rewrite !bool_decide_eq_true_2.
Qed.

Lemma check_freshness_issued key d r w t max_age now :
  is_i64 t → is_i64 now → t ≤ now ≤ t + Z.min max_age MAX_DECISION_AGE_SECS * 1000 →
  check_freshness (issued key d r w t max_age) now = Ok ().
Proof.
  intros Ht Hnow Hage.
  unfold check_freshness, age_secs_of, i64_saturating_sub, i64_div. cbn [issued signed_at_unix_ms max_age_secs].
  unfold is_i64, i64_min, i64_max, MAX_DECISION_AGE_SECS, u32_max in *.
  rewrite Z.min_r, Z.max_r by lia. rewrite (proj2 (Z.ltb_ge _ 0)) by lia.
  rewrite Z.quot_div_nonneg by lia.
  assert ((now - t) / 1000 ≤ Z.min max_age (24 * 60 * 60)) by (apply Z.div_le_upper_bound; lia).
  rewrite (proj2 (Z.ltb_ge _ _)) by lia. done.
Qed.

Lemma verify_issued `{!UlidLaws, !Ed25519Laws} key d t max_age aps req ceil now :
  (length aps ≤ MAX_APPROVALS)%nat → is_i64 t → is_i64 now →
  t ≤ now ≤ t + Z.min max_age MAX_DECISION_AGE_SECS * 1000 →
  verify (HybridVerifier_new (ed_public key))
    (Some (issued key d (request_id req) (ceil_wallet_id ceil) t max_age)) aps req ceil now =
    (_ ← match d with
         | Deny _ _ _ _ => Err PolicyDeny
         | RequireQuorum _ _ t _ _ _ => check_approvals aps req t now
         | Allow _ _ _ => mret ()
         end; check_hard_ceilings req ceil).
Proof.
  intros Haps Ht Hnow Hage. unfold verify. rewrite (proj2 (Nat.ltb_ge _ _)) by done.
  rewrite check_binding_issued. cbn [mbind result_bind].
  rewrite check_freshness_issued by done. done.
Qed.

Lemma verify_ok self sd aps req w now :
  is_i64 now → is_i64 (signed_at_unix_ms sd) →
  Forall (λ ap, is_i64 (ap_timestamp_unix_ms ap)) aps →
  verify self (Some sd) aps req w now = Ok () →
  ed_verify (policy_service_pubkey self)
    (build_preimage (decision sd) (request_id req) (ceil_wallet_id w)
       (signed_at_unix_ms sd) (max_age_secs sd)) (policy_service_signature sd) = true
  ∧ signed_at_unix_ms sd ≤ now
    < signed_at_unix_ms sd + (Z.min (max_age_secs sd) MAX_DECISION_AGE_SECS + 1) * 1000
  ∧ is_deny (decision sd) = false
  ∧ (∀ i p t n s r, decision sd = RequireQuorum i p t n s r →
       t ≤ Z.of_nat (length aps) ∧ Forall (approval_ok req now) aps)
  ∧ ceilings_hold req w.
Proof.
  intros Hnow Hat Hts. unfold verify. destruct (Nat.ltb_spec MAX_APPROVALS (length aps)); [done|].
  intros ([] & Hb & Hv)%result_bind_ok. apply result_bind_ok in Hv as ([] & Hf & Hv).
  apply result_bind_ok in Hv as ([] & Hd & Hc%ceilings_spec).
  unfold check_binding in Hb. apply result_bind_ok in Hb as (? & Hraw%ensure_ok%bool_decide_eq_true & Hb).
  apply result_bind_ok in Hb as (? & _ & Hb). apply result_bind_ok in Hb as (? & Hsig & Hb).
  apply result_bind_ok in Hb as (? & Hr%ensure_ok%bool_decide_eq_true & Hw%ensure_ok%bool_decide_eq_true).
  unfold verify_ed25519 in Hsig. apply result_bind_ok in Hsig as (? & _ & Hsig).
  apply result_bind_ok in Hsig as (? & _ & Hsig). apply result_bind_ok in Hsig as (? & _ & Hsig%ensure_ok).
  rewrite Hr, Hw in Hraw. rewrite Hraw. split; [done|].
  unfold check_freshness, age_secs_of in Hf.
  destruct (Z.ltb_spec (i64_saturating_sub now (signed_at_unix_ms sd)) 0); [done|].
  match type of Hf with context [?a <? ?b] => destruct (Z.ltb_spec a b) as [|Hage]; [done|] end.
  assert (Z.min (max_age_secs sd) MAX_DECISION_AGE_SECS < u32_max) as Hm
    by (unfold MAX_DECISION_AGE_SECS, u32_max; lia).
  assert (0 ≤ Z.min (max_age_secs sd) MAX_DECISION_AGE_SECS) as Hm0.
  { assert (0 ≤ i64_div (i64_saturating_sub now (signed_at_unix_ms sd)) 1000)
      by (apply Z.quot_pos; lia). unfold u32_max in *. lia. }
  split.
  { apply saturated_age; [done|done| |done|]; unfold u32_max in *; lia. }
  split; [by destruct (decision sd)|]. split; [|done].
  intros i p t n s r Heq. rewrite Heq in Hd. unfold check_approvals in Hd.
  apply result_bind_ok in Hd as (v & Hcount & Hlt).
  apply count_approvals_ok in Hcount as [Hall ->]; [|unfold u8_max; lia].
  match type of Hlt with context [?a <? ?b] => destruct (Z.ltb_spec a b); [done|] end.
  split; [lia|]. rewrite Forall_forall in Hall, Hts |- *. intros ap Hap.
  apply check_approval_ok; auto.
Qed.

(** ** Properties *)

(** C10. What an accepted signing call guarantees.  If [verify] accepts a signed
    decision, the pinned key's signature covers the canonical preimage of
    exactly this decision, request, wallet, issue time and maximal age; the
    decision is for the request and wallet at hand; it was issued at most the
    smaller of its own maximal age and 24 hours before now and not in the
    future; it is not a denial; a required quorum is met by at least
    [threshold] supplied approvals, each of them an unexpired, correctly signed
    Approve of this request's message; and the wallet's ceilings hold. *)
Theorem hybrid_verify_sound self sd aps req w now :
  is_i64 now → is_i64 (signed_at_unix_ms sd) →
  Forall (λ ap, is_i64 (ap_timestamp_unix_ms ap)) aps →
  verify self (Some sd) aps req w now = Ok () →
  ed_verify (policy_service_pubkey self)
    (build_preimage (decision sd) (request_id req) (ceil_wallet_id w)
       (signed_at_unix_ms sd) (max_age_secs sd)) (policy_service_signature sd) = true
  ∧ signed_at_unix_ms sd ≤ now
    < signed_at_unix_ms sd + (Z.min (max_age_secs sd) MAX_DECISION_AGE_SECS + 1) * 1000
  ∧ is_deny (decision sd) = false
  ∧ (∀ i p t n s r, decision sd = RequireQuorum i p t n s r →
       t ≤ Z.of_nat (length aps) ∧ Forall (approval_ok req now) aps)
  ∧ ceilings_hold req w.
Proof. apply verify_ok. Qed.

(** The local policy signer and the verifier agree: a decision the signer signs,
    presented within its age limit for the request and wallet it names, passes
    every gate on the decision's origin, so that the verdict is the decision's
    own content: a denial is refused, a quorum is counted, and the wallet's
    ceilings are checked. *)
Theorem signer_verifier_agree `{!UlidLaws, !Ed25519Laws} overflow key nanos d r w max_age sd now req ceil aps :
  sign_decision overflow (LocalPolicyServiceSigner_new key) nanos d r w max_age = Ok sd →
  request_id req = r → ceil_wallet_id ceil = w → (length aps ≤ MAX_APPROVALS)%nat →
  is_i64 now →
  signed_at_unix_ms sd ≤ now ≤ signed_at_unix_ms sd + Z.min max_age MAX_DECISION_AGE_SECS * 1000 →
  verify (HybridVerifier_new (ed_public key)) (Some sd) aps req ceil now =
    match d with
    | Deny _ _ _ _ => Err PolicyDeny
    | RequireQuorum _ _ t _ _ _ =>
        _ ← check_approvals aps req t now; check_hard_ceilings req ceil
    | Allow _ _ _ => check_hard_ceilings req ceil
    end.
Proof.
  intros Hs <- <- Haps Hnow Hage. unfold sign_decision in Hs.
  apply result_bind_ok in Hs as (t & Ht & [= <-]). cbn [signed_at_unix_ms max_age_secs] in *.
  assert (is_i64 t) as Ht64.
  { unfold current_unix_ms in Ht. case_match eqn:Hb; [|done]. injection Ht as <-.
    apply andb_true_iff in Hb as [?%Z.leb_le ?%Z.leb_le]. done. }
  fold (issued key d (request_id req) (ceil_wallet_id ceil) t max_age).
  rewrite verify_issued by done. by destruct d.
Qed.

(** Nothing makes the counted approvals distinct: one approval that passes its
    own checks, repeated, meets any quorum of up to 64. *)
Theorem repeated_approval_meets_quorum req now ap t :
  check_approval req (sha256 (canonical_signing_message (payload req))) now ap = Ok () →
  (1 ≤ t ≤ MAX_APPROVALS)%nat →
  check_approvals (replicate t ap) req (Z.of_nat t) now = Ok ().
Proof.
  intros Hap Ht. unfold check_approvals, MAX_APPROVALS in *.
  rewrite count_approvals_all; [|done|by apply Forall_replicate].
  cbn [mbind result_bind]. rewrite length_replicate. unfold u8_max.
  rewrite (proj2 (Z.ltb_ge _ _)) by lia. done.
Qed.

(** The exact content of the ceiling check: chain and target are read from the
    declared payload, and only the value from the transaction bytes. *)
Theorem hard_ceilings_exact req w : check_hard_ceilings req w = Ok () ↔ ceilings_hold req w.
Proof. apply ceilings_spec. Qed.

End hybrid.

Module HybridWitness.
Import Concrete ConcreteRlp.

Definition key : bytes := be_bytes 32 11.
Definition dec : PolicyDecision :=
  Allow (DecisionId_from_ulid 1) (PolicyId_from_ulid 2)
    [{| rule_id := "default-allow"; effect := EffectAllow; reason := None |}].
Definition req : SigningRequest := {|
  request_id := RequestId_from_ulid 3; wallet_id := WalletId_from_ulid 4;
  requester := ApiKey "k"; payload := Raw [x01; x02]; hd_path := None; received_at_unix_ms := 0 |}.
Definition ceil : WalletCeilings := {|
  ceil_wallet_id := WalletId_from_ulid 4; max_value_per_tx := Some 5;
  contract_allowlist := [replicate 20 x11]; chain_allowlist := [9001] |}.
Definition quorum : PolicyDecision :=
  RequireQuorum (DecisionId_from_ulid 1) (PolicyId_from_ulid 2) 2 3 (ApproverSetId_from_ulid 6) [].

Definition signed (d : PolicyDecision) : SignedPolicyDecision :=
  issued key d (RequestId_from_ulid 3) (WalletId_from_ulid 4) 1000 60.

Lemma signed_verify d aps (r : SigningRequest) (c : WalletCeilings) :
  request_id r = RequestId_from_ulid 3 → ceil_wallet_id c = WalletId_from_ulid 4 →
  (length aps ≤ MAX_APPROVALS)%nat →
  verify (HybridVerifier_new (ed_public key)) (Some (signed d)) aps r c 3000 =
    (_ ← match d with
         | Deny _ _ _ _ => Err PolicyDeny
         | RequireQuorum _ _ t _ _ _ => check_approvals aps r t 3000
         | Allow _ _ _ => mret ()
         end; check_hard_ceilings r c).
Proof.
  intros Hr Hw Haps. unfold signed. rewrite <-Hr, <-Hw.
  apply verify_issued; [done|split; vm_compute; congruence..|unfold MAX_DECISION_AGE_SECS; lia].
Qed.

Definition unsigned_approval (i : N) : EnclaveApproval := {|
  ap_approval_id := ApprovalId_from_ulid i; ap_public_key := ed_public key; ap_scheme := Ed25519;
  ap_request_id := RequestId_from_ulid 3; ap_message_hash := sha256 [x01; x02];
  ap_decision := EnclaveApprove; ap_timestamp_unix_ms := 2000; ap_signature := [] |}.
Definition approval (i : N) : EnclaveApproval := {|
  ap_approval_id := ApprovalId_from_ulid i; ap_public_key := ed_public key; ap_scheme := Ed25519;
  ap_request_id := RequestId_from_ulid 3; ap_message_hash := sha256 [x01; x02];
  ap_decision := EnclaveApprove; ap_timestamp_unix_ms := 2000;
  ap_signature := ed_sign key (approval_preimage (unsigned_approval i)) |}.

Definition verifier : HybridVerifier := HybridVerifier_new (ed_public key).

Example hybrid_verify_sound_witness :
  verify verifier (Some (signed quorum)) [approval 7; approval 8] req ceil 3000 = Ok ()
  ∧ is_deny (decision (signed quorum)) = false.
Proof.
  assert (verify verifier (Some (signed quorum)) [approval 7; approval 8] req ceil 3000 = Ok ()) as Hv.
  { unfold verifier. rewrite signed_verify by (done || (unfold MAX_APPROVALS; cbn; lia)). vm_compute. reflexivity. }
  split; [exact Hv|].
  refine (proj1 (proj2 (proj2 (hybrid_verify_sound verifier (signed quorum) [approval 7; approval 8]
            req ceil 3000 _ _ _ Hv)))).
  - split; vm_compute; congruence.
  - split; vm_compute; congruence.
  - repeat constructor; vm_compute; congruence.
Defined.

Example signer_verifier_agree_witness :
  verify verifier (Some (signed dec)) [] req ceil 3000 = check_hard_ceilings req ceil.
Proof.
  apply (signer_verifier_agree "overflow" key 1000000000 dec (RequestId_from_ulid 3)
           (WalletId_from_ulid 4) 60 (signed dec) 3000 req ceil []);
    try reflexivity; try (split; vm_compute; congruence).
  vm_compute. lia.
Defined.

Example repeated_approval_meets_quorum_witness :
  check_approvals (replicate 3 (approval 7)) req 3 3000 = Ok ().
Proof.
  apply (repeated_approval_meets_quorum req 3000 (approval 7) 3);
    [vm_compute; reflexivity|vm_compute; lia].
Defined.

End HybridWitness.
