(* ===== verification/MockEnclave.v ===== *)
(** * MockEnclave: the in-process enclave ([enclave.rs], [enclaves/mock.rs])

    The whole signing and wallet-generation handlers: hybrid verification,
    share checks, reconstruction, derivation, signing and attestation.  Clock
    readings and random draws are arguments ([Entropy]). *)

From S2P Require Import Prelude Text Types External PolicyTypes SignedDecision Signers Derivation Attestation Rlp EvmDecoder HybridVerifier Shamir.
#[local] Open Scope string_scope.
#[local] Open Scope list_scope.
#[local] Open Scope Z_scope.

(** ** [enclave.rs] *)

Inductive EnclaveError :=
  | MockNotAllowed
  | EncNotEnoughShares (threshold : Z) (provided : nat)
  | EncInconsistentShares (why : string)
  | Sss (e : ShareError)
  | EncDerivation (e : DerivationError)
  | EncSigner (e : SignerError)
  | EncAttestation (e : AttestationError)
  | SchemeNotImplemented (what : string)
  | InvalidRequest (why : string)
  | HybridVerification (e : HybridVerifyError)
  | EncNotImplemented (what : string).

Record SigningContext := { ctx_chain_id : option Z; ctx_vm_type : option string; ctx_extra : Json }.

Record EnclaveSignRequest := {
  esr_request_id : RequestId;
  esr_wallet_id : WalletId;
  esr_shares : list ShamirShare;
  esr_scheme : SigningScheme;
  esr_hd_path : option HdPath.HdPath;
  esr_message : bytes;
  esr_hash_alg : HashAlg;
  esr_context : SigningContext;
  esr_policy_decision : option SignedPolicyDecision;
  esr_approvals : list EnclaveApproval;
  esr_wallet_ceilings : option WalletCeilings;
  esr_policy_signing_payload : option SigningPayload;
}.

Record EnclaveSignResponse := {
  resp_signature : bytes; resp_public_key : bytes; resp_attestation : AttestationDoc }.

Record GenerateWalletRequest := {
  gen_wallet_id : WalletId;
  gen_scheme : SigningScheme;
  gen_threshold : Z;
  gen_total : Z;
  gen_master_hd_path : option HdPath.HdPath;
}.

Record GenerateWalletResponse := {
  gen_shares : list ShamirShare; gen_master_public_key : bytes; gen_attestation : AttestationDoc }.

(** ** [enclaves/mock.rs] *)

Definition MOCK_ENABLE_VALUE : string := "yes-i-know".
Definition env_gate_open (env_value : option string) : bool :=
  bool_decide (env_value = Some MOCK_ENABLE_VALUE).

Section enclave.
Context `{UlidCrate, JsonCrate, DigestCrate, Ed25519Crate, K256Crate, MlDsaCrate, RlpCrate,
          Bip32Crate, VsssCrate}.

Record MockEnclave := {
  attestation_key : MockAttestationKey;
  me_policy_service_pubkey : option bytes;
  me_require_signed_decision : bool;
}.

(** What one call draws from the system: the clock readings for the request
    projection, the verifier and the attestation, a nonce, seed bytes of the
    length asked for, and the randomness of the sharing. *)
Record Entropy := {
  received_ms : Z;
  verify_ms : Z;
  attest_ms : Z;
  fill_nonce : bytes;
  fill_seed : nat → bytes;
  share_rng : nat → Rng;
}.

Definition MockEnclave_new (env : option string) (key : MockAttestationKey)
    : result EnclaveError MockEnclave :=
  if env_gate_open env then
    Ok {| attestation_key := key; me_policy_service_pubkey := None;
          me_require_signed_decision := false |}
  else Err MockNotAllowed.

Definition new_for_testing_with_seed (seed : bytes) : MockEnclave :=
  {| attestation_key := from_seed seed; me_policy_service_pubkey := None;
     me_require_signed_decision := false |}.

Definition with_policy_service_pubkey (e : MockEnclave) (pk : bytes) : MockEnclave :=
  {| attestation_key := attestation_key e; me_policy_service_pubkey := Some pk;
     me_require_signed_decision := me_require_signed_decision e |}.

Definition me_with_require_signed_decision (e : MockEnclave) (require : bool) : MockEnclave :=
  {| attestation_key := attestation_key e; me_policy_service_pubkey := me_policy_service_pubkey e;
     me_require_signed_decision := require |}.

Definition check_share_params (shares : list ShamirShare) : result EnclaveError ShamirParams :=
  match shares with
  | [] => Err (EncNotEnoughShares 1 0)
  | first :: _ =>
      let p := params first in
      let indices := dedup (merge_sort Z.le (index <$> shares)) in
      if Z.of_nat (length shares) <? threshold p then
        Err (EncNotEnoughShares (threshold p) (length shares))
      else if any (λ s, negb (bool_decide (params s = p))) shares then
        Err (EncInconsistentShares "parameters mismatch")
      else if negb (bool_decide (length indices = length shares)) then
        Err (EncInconsistentShares "duplicate share indices")
      else Ok p
  end.

Definition derive_signing_key (s : SigningScheme) (seed : bytes) (hd_path : option HdPath.HdPath)
    : result EnclaveError bytes :=
  match s with
  | Ed25519 | Secp256k1 | Secp256k1Recoverable =>
      match hd_path with
      | None =>
          if (length seed <? 32)%nat then Err (InvalidRequest "seed too short for classical scheme")
          else Ok (take 32 seed)
      | Some path => d ← map_err EncDerivation (derive_classical s seed path); mret (secret d)
      end
  | MlDsa44 | MlDsa65 | MlDsa87 =>
      match hd_path with
      | Some _ => Err (EncDerivation (SchemeNotHd "ml_dsa"))
      | None =>
          if (length seed <? SEED_BYTES)%nat then
            Err (InvalidRequest "seed too short for ML-DSA (need 32 bytes)")
          else Ok (take SEED_BYTES seed)
      end
  end.

(** Step 0 of [sign_in_enclave]. *)
Definition hybrid_step (self : MockEnclave) (ent : Entropy) (req : EnclaveSignRequest)
    : result EnclaveError () :=
  match me_policy_service_pubkey self with
  | None => Ok ()
  | Some pubkey =>
      let verifier := with_require_signed_decision (HybridVerifier_new pubkey)
                        (me_require_signed_decision self) in
      let payload := default (Raw (esr_message req)) (esr_policy_signing_payload req) in
      let verifier_request := {|
        request_id := esr_request_id req; wallet_id := esr_wallet_id req;
        requester := ApiKey "mock-enclave"; PolicyTypes.payload := payload;
        PolicyTypes.hd_path := esr_hd_path req; received_at_unix_ms := received_ms ent |} in
      let ceilings := default {| ceil_wallet_id := esr_wallet_id req; max_value_per_tx := None;
                                 contract_allowlist := []; chain_allowlist := [] |}
                        (esr_wallet_ceilings req) in
      map_err HybridVerification
        (HybridVerifier.verify verifier (esr_policy_decision req) (esr_approvals req)
           verifier_request ceilings (verify_ms ent))
  end.

Definition option_json {A} (f : A → Json) (o : option A) : Json :=
  match o with Some a => f a | None => JNull end.

Definition context_json (c : SigningContext) : Json :=
  JObject [("chain_id", option_json JNumber (ctx_chain_id c));
           ("vm_type", option_json JString (ctx_vm_type c)); ("extra", ctx_extra c)].

(** The attestation's user data: what was signed, for whom, under which path. *)
Definition sign_user_data (req : EnclaveSignRequest) (signature : bytes) : bytes :=
  string_bytes (ulid_to_string (RequestId_ulid (esr_request_id req))) ++ string_bytes "|"
  ++ string_bytes (ulid_to_string (WalletId_ulid (esr_wallet_id req))) ++ string_bytes "|"
  ++ sha256_32 (esr_message req) ++ string_bytes "|"
  ++ sha256_32 signature ++ string_bytes "|"
  ++ match esr_hd_path req with Some p => string_bytes (HdPath.to_string p) | None => [] end
  ++ string_bytes "|" ++ json_to_vec (context_json (esr_context req)).

(** Steps 3 to 5: derive, sign, attest. *)
Definition sign_with_seed (self : MockEnclave) (ent : Entropy) (req : EnclaveSignRequest)
    (seed : bytes) : result EnclaveError EnclaveSignResponse :=
  signing_key ← derive_signing_key (esr_scheme req) seed (esr_hd_path req);
  signer ← map_err EncSigner (signer_for_scheme (esr_scheme req));
  pubkey ← map_err EncSigner (Signers.public_key signer signing_key);
  signature ← map_err EncSigner (Signers.sign signer signing_key (esr_message req) (esr_hash_alg req));
  attestation ← map_err EncAttestation
    (sign_attestation (attest_ms ent) (attestation_key self) (fill_nonce ent)
       (sign_user_data req signature));
  mret {| resp_signature := signature; resp_public_key := pubkey; resp_attestation := attestation |}.

Definition sign_in_enclave (self : MockEnclave) (ent : Entropy) (req : EnclaveSignRequest)
    : panics (result EnclaveError EnclaveSignResponse) :=
  match (_ ← hybrid_step self ent req; check_share_params (esr_shares req)) with
  | Err e => Returns (Err e)
  | Ok _ =>
      combined ← combine_shares (esr_shares req);
      Returns (seed ← map_err Sss combined; sign_with_seed self ent req seed)
  end.

Definition generate_user_data (w : WalletId) (pubkey : bytes) (shares : list ShamirShare) : bytes :=
  string_bytes (ulid_to_string (WalletId_ulid w)) ++ string_bytes "|"
  ++ sha256_32 pubkey ++ string_bytes "|" ++ ((λ s, byte_of_Z (index s)) <$> shares).

(** [seed_len]: ML-DSA takes its 32-byte xi, the classical schemes a 64-byte seed. *)
Definition seed_len (s : SigningScheme) : nat := if is_post_quantum s then SEED_BYTES else 64%nat.

Definition generate_wallet (self : MockEnclave) (ent : Entropy) (req : GenerateWalletRequest)
    : panics (result EnclaveError GenerateWalletResponse) :=
  if (gen_threshold req <? 2) || (gen_total req <? gen_threshold req) then
    Returns (Err (InvalidRequest "invalid (threshold, total) — need 2 <= threshold <= total"))
  else if is_post_quantum (gen_scheme req) && bool_decide (is_Some (gen_master_hd_path req)) then
    Returns (Err (EncDerivation (SchemeNotHd "ml_dsa")))
  else
    let seed := fill_seed ent (seed_len (gen_scheme req)) in
    match (signing_key ← derive_signing_key (gen_scheme req) seed (gen_master_hd_path req);
           signer ← map_err EncSigner (signer_for_scheme (gen_scheme req));
           map_err EncSigner (Signers.public_key signer signing_key)) with
    | Err e => Returns (Err e)
    | Ok pubkey =>
        split ← split_secret seed {| threshold := gen_threshold req; total := gen_total req |}
                  (share_rng ent);
        Returns (
          shares ← map_err Sss split;
          attestation ← map_err EncAttestation
            (sign_attestation (attest_ms ent) (attestation_key self) (fill_nonce ent)
               (generate_user_data (gen_wallet_id req) pubkey shares));
          mret {| gen_shares := shares; gen_master_public_key := pubkey;
                  gen_attestation := attestation |})
    end.

(** ** Lemmas *)

Context `{!VsssLaws, !DigestLaws, !Ed25519Laws, !K256Laws, !MlDsaLaws, !JsonLaws}.

(** Entropy as the operating system delivers it. *)
Definition entropy_ok (ent : Entropy) : Prop :=
  is_i64 (attest_ms ent) ∧ length (fill_nonce ent) = 32%nat ∧ ∀ n, length (fill_seed ent n) = n.

Lemma check_share_params_ok shares p :
  shares ≠ [] → Forall (λ s, params s = p) shares → threshold p ≤ Z.of_nat (length shares) →
  NoDup (index <$> shares) → check_share_params shares = Ok p.
Proof.
  intros Hne Hp Ht Hnd. destruct shares as [|first rest]; [done|].
  assert (params first = p) as Hf by (by apply Forall_cons in Hp as [? _]).
  unfold check_share_params. rewrite Hf. rewrite (proj2 (Z.ltb_ge _ _)) by done.
  rewrite (proj2 (any_false _ _)).
  2: { intros s Hs. apply negb_false_iff, bool_decide_eq_true. by apply (Forall_forall _ _) with s in Hp. }
  rewrite bool_decide_eq_true_2; [done|]. rewrite (proj2 (dedup_sort_length _) Hnd).
  by rewrite length_fmap.
Qed.

Lemma pick_NoDup {A} (l : list A) sel : NoDup l → NoDup sel → NoDup (pick l sel).
Proof.
  intros Hl. induction 1 as [|i sel Hi Hsel IH]; [constructor|].
  unfold pick in *. cbn. destruct (l !! i) as [x|] eqn:Hx; [|done]. cbn. constructor; [|done].
  intros (j & Hj & Hjx)%list_elem_of_omap. assert (j = i) as -> by (eapply NoDup_lookup; [exact Hl|exact Hjx|exact Hx]). done.
Qed.

Lemma pick_Forall {A} (P : A → Prop) (l : list A) sel : Forall P l → Forall P (pick l sel).
Proof. rewrite !Forall_forall. intros Hl x Hx%pick_elem. auto. Qed.

Lemma generate_wallet_inv self ent req resp :
  entropy_ok ent →
  generate_wallet self ent req = Returns (Ok resp) →
  let seed := fill_seed ent (seed_len (gen_scheme req)) in
  let p := {| threshold := gen_threshold req; total := gen_total req |} in
  2 ≤ gen_threshold req ≤ gen_total req
  ∧ (∃ sk sg, derive_signing_key (gen_scheme req) seed (gen_master_hd_path req) = Ok sk
       ∧ signer_for_scheme (gen_scheme req) = Ok sg
       ∧ Signers.public_key sg sk = Ok (gen_master_public_key resp))
  ∧ split_secret seed p (share_rng ent) = Returns (Ok (gen_shares resp)).
Proof.
  intros He. unfold generate_wallet.
  destruct (Z.ltb_spec (gen_threshold req) 2), (Z.ltb_spec (gen_total req) (gen_threshold req));
    cbn [orb]; try done.
  destruct (is_post_quantum (gen_scheme req) && _); [done|].
  set (seed := fill_seed ent _). cbv zeta.
  destruct (_ ≫= _) as [pubkey|] eqn:Hk; [|done].
  apply result_bind_ok in Hk as (sk & Hsk & Hk). apply result_bind_ok in Hk as (sg & Hsg%map_err_ok & Hk%map_err_ok).
  destruct (split_secret seed _ _) as [split|] eqn:Hs; cbn; [|done].
  destruct split as [shares|]; cbn; [|done]. intros [= <-]. cbn. split; [lia|]. split; [|done].
  eauto.
Qed.

(** Signing with shares of a split seed: any [threshold] of them, in any order,
    reconstruct the seed, and the response verifies. *)
Lemma shares_sign self ent' req seed p rng shares sel sk sg pk :
  entropy_ok ent' → params_ok p → seed ≠ [] → Z.of_nat (length seed) ≤ u32_max →
  split_secret seed p rng = Returns (Ok shares) →
  derive_signing_key (esr_scheme req) seed (esr_hd_path req) = Ok sk →
  signer_for_scheme (esr_scheme req) = Ok sg → Signers.public_key sg sk = Ok pk →
  good_hash (esr_scheme req) (esr_hash_alg req) = true →
  hybrid_step self ent' req = Ok () →
  NoDup sel → Forall (λ i, (i < length shares)%nat) sel → threshold p ≤ Z.of_nat (length sel) →
  esr_shares req = pick shares sel →
  ∃ r, sign_in_enclave self ent' req = Returns (Ok r)
    ∧ resp_public_key r = pk
    ∧ Signers.verify sg pk (esr_message req) (resp_signature r) (esr_hash_alg req) = Ok ()
    ∧ user_data (att_payload (resp_attestation r)) = sign_user_data req (resp_signature r)
    ∧ ∀ why, verify_doc why (resp_attestation r) = Ok ().
Proof.
  intros He' Hp Hne Hlen Hsplit Hsk Hsg Hpk Hhash Hno Hnd Hsel Ht Hshares.
  assert (combine_shares (pick shares sel) = Returns (Ok seed)) as Hcomb
    by (by eapply sharing_combine).
  destruct (sharing_split seed p rng Hp Hne Hlen) as (shares' & Hs & Hn & Hidx & Hall).
  rewrite Hs in Hsplit. injection Hsplit as ->.
  destruct (public_signs _ sg sk pk (esr_message req) (esr_hash_alg req) Hsg Hpk Hhash) as (sig & Hsig & Hver).
  destruct (sign_attestation_ok (attest_ms ent') (attestation_key self) (fill_nonce ent')
              (sign_user_data req sig)) as (doc & Hdoc & Hud & _ & _ & Hdv); [apply He'..|].
  exists {| resp_signature := sig; resp_public_key := pk; resp_attestation := doc |}.
  split; [|by repeat split]. unfold sign_in_enclave. rewrite Hno. cbn [mbind result_bind].
  rewrite Hshares, (check_share_params_ok _ p), Hcomb.
  - cbn [mbind panics_bind map_err result_bind]. unfold sign_with_seed.
    rewrite Hsk. cbn [mbind result_bind]. rewrite Hsg. cbn [map_err mbind result_bind].
    rewrite Hpk. cbn [map_err mbind result_bind]. rewrite Hsig. cbn [map_err mbind result_bind].
    by rewrite Hdoc.
  - pose proof (proj1 Hp). intros Hnil. apply (f_equal length) in Hnil.
    rewrite pick_length in Hnil by done. cbn in Hnil. rewrite Hnil in Ht. cbn in Ht. lia.
  - by apply pick_Forall.
  - rewrite pick_length by done. done.
  - rewrite pick_fmap. by apply pick_NoDup.
Qed.

Lemma seed_bounds ent s :
  entropy_ok ent → fill_seed ent (seed_len s) ≠ []
    ∧ Z.of_nat (length (fill_seed ent (seed_len s))) ≤ u32_max.
Proof.
  intros He. assert (length (fill_seed ent (seed_len s)) = seed_len s) as Hl by apply He.
  assert (0 < seed_len s ≤ 64)%nat as Hb by (unfold seed_len, SEED_BYTES; destruct (is_post_quantum s); lia).
  split; [intros Hn; rewrite Hn in Hl; cbn in Hl; lia|rewrite Hl; unfold u32_max; lia].
Qed.

(** ** Properties *)

(** C7. Key custody end to end: a wallet generated by the enclave signs through any
    [threshold] of its shares.  In an enclave that pins no policy key, whatever
    the selection and its order, a request with the scheme and the derivation
    path of the generation and a hash that scheme takes returns (it neither fails
    nor panics) a signature that verifies under the public key reported at
    generation, together with an attestation that verifies and binds request,
    wallet, message and signature. *)
Theorem generated_wallet_signs self ent ent' gen resp req sel :
  entropy_ok ent → entropy_ok ent' → gen_total gen ≤ 255 →
  generate_wallet self ent gen = Returns (Ok resp) →
  me_policy_service_pubkey self = None →
  NoDup sel → Forall (λ i, (i < length (gen_shares resp))%nat) sel →
  gen_threshold gen ≤ Z.of_nat (length sel) →
  esr_shares req = pick (gen_shares resp) sel →
  esr_scheme req = gen_scheme gen → esr_hd_path req = gen_master_hd_path gen →
  good_hash (gen_scheme gen) (esr_hash_alg req) = true →
  ∃ r sg, sign_in_enclave self ent' req = Returns (Ok r)
    ∧ resp_public_key r = gen_master_public_key resp
    ∧ signer_for_scheme (gen_scheme gen) = Ok sg
    ∧ Signers.verify sg (gen_master_public_key resp) (esr_message req) (resp_signature r)
        (esr_hash_alg req) = Ok ()
    ∧ user_data (att_payload (resp_attestation r)) = sign_user_data req (resp_signature r)
    ∧ ∀ why, verify_doc why (resp_attestation r) = Ok ().
Proof.
  intros He He' Htot Hgen Hno Hnd Hsel Ht Hshares Hsch Hpath Hhash.
  apply generate_wallet_inv in Hgen as (Hparams & (sk & sg & Hsk & Hsg & Hpk) & Hsplit); [|done].
  destruct (seed_bounds ent (gen_scheme gen) He) as [Hne Hlen].
  rewrite <-?Hsch, <-?Hpath in *.
  assert (params_ok {| threshold := gen_threshold gen; total := gen_total gen |}) as Hp by done.
  assert (hybrid_step self ent' req = Ok ()) as Hhyb by (unfold hybrid_step; by rewrite Hno).
  destruct (shares_sign self ent' req _ _ _ _ sel sk sg _ He' Hp Hne Hlen Hsplit Hsk Hsg Hpk
              Hhash Hhyb Hnd Hsel Ht Hshares) as (r & Hr & Hrest).
  exists r, sg. by destruct Hrest as (? & ? & ? & ?).
Qed.

(** The request with another message. *)
Definition with_message (req : EnclaveSignRequest) (m : bytes) : EnclaveSignRequest := {|
  esr_request_id := esr_request_id req; esr_wallet_id := esr_wallet_id req;
  esr_shares := esr_shares req; esr_scheme := esr_scheme req; esr_hd_path := esr_hd_path req;
  esr_message := m; esr_hash_alg := esr_hash_alg req; esr_context := esr_context req;
  esr_policy_decision := esr_policy_decision req; esr_approvals := esr_approvals req;
  esr_wallet_ceilings := esr_wallet_ceilings req;
  esr_policy_signing_payload := esr_policy_signing_payload req |}.

Lemma sign_in_enclave_inv self ent req r :
  sign_in_enclave self ent req = Returns (Ok r) →
  hybrid_step self ent req = Ok () ∧ (∃ p, check_share_params (esr_shares req) = Ok p)
  ∧ ∃ seed, combine_shares (esr_shares req) = Returns (Ok seed)
      ∧ sign_with_seed self ent req seed = Ok r.
Proof.
  unfold sign_in_enclave. destruct (_ ≫= _) as [p|] eqn:Hh; [|done].
  apply result_bind_ok in Hh as ([] & Hh & Hp).
  destruct (combine_shares _) as [[seed|]|] eqn:Hc; cbn; try done.
  intros [= Hr]. eauto 10.
Qed.

(** C8. With a pinned policy key the enclave touches the shares only after the
    hybrid verifier accepted this request's decision, approvals and ceilings;
    when it is also told to require a decision, there is one. *)
Theorem enclave_signs_only_verified self ent req r pk :
  me_policy_service_pubkey self = Some pk → me_require_signed_decision self = true →
  sign_in_enclave self ent req = Returns (Ok r) →
  ∃ sd, esr_policy_decision req = Some sd
    ∧ HybridVerifier.verify (HybridVerifier_new pk) (Some sd) (esr_approvals req)
        {| request_id := esr_request_id req; wallet_id := esr_wallet_id req;
           requester := ApiKey "mock-enclave";
           PolicyTypes.payload := default (Raw (esr_message req)) (esr_policy_signing_payload req);
           PolicyTypes.hd_path := esr_hd_path req; received_at_unix_ms := received_ms ent |}
        (default {| ceil_wallet_id := esr_wallet_id req; max_value_per_tx := None;
                    contract_allowlist := []; chain_allowlist := [] |} (esr_wallet_ceilings req))
        (verify_ms ent) = Ok ().
Proof.
  intros Hpk Hreq (Hh & _)%sign_in_enclave_inv. unfold hybrid_step in Hh.
  rewrite Hpk, Hreq in Hh. apply map_err_ok in Hh.
  destruct (esr_policy_decision req) as [sd|] eqn:Hsd; [eauto|].
  unfold HybridVerifier.verify in Hh. by destruct (_ <? _)%nat.
Qed.

(** The message that is signed is not tied to the payload that is verified:
    once a request with a structured payload is accepted, the same request with
    any other message is accepted as well and yields a valid signature over
    that message under the wallet's key. *)
Theorem enclave_message_unbound self ent req r payload m :
  entropy_ok ent → esr_policy_signing_payload req = Some payload →
  sign_in_enclave self ent req = Returns (Ok r) →
  ∃ r' sg, sign_in_enclave self ent (with_message req m) = Returns (Ok r')
    ∧ resp_public_key r' = resp_public_key r
    ∧ signer_for_scheme (esr_scheme req) = Ok sg
    ∧ Signers.verify sg (resp_public_key r) m (resp_signature r') (esr_hash_alg req) = Ok ().
Proof.
  intros He Hp (Hh & (p & Hsp) & seed & Hc & Hs)%sign_in_enclave_inv.
  unfold sign_with_seed in Hs. apply result_bind_ok in Hs as (sk & Hsk & Hs).
  apply result_bind_ok in Hs as (sg & Hsg%map_err_ok & Hs).
  apply result_bind_ok in Hs as (pk & Hpk%map_err_ok & Hs).
  apply result_bind_ok in Hs as (sig & Hsig%map_err_ok & Hs).
  apply result_bind_ok in Hs as (doc & _ & [= <-]). cbn [resp_public_key].
  destruct (signer_signs_all _ _ _ _ _ m _ _ Hsg Hpk Hsig) as (sig' & Hsig' & Hver).
  destruct (sign_attestation_ok (attest_ms ent) (attestation_key self) (fill_nonce ent)
              (sign_user_data (with_message req m) sig')) as (doc' & Hdoc & _); [apply He..|].
  exists {| resp_signature := sig'; resp_public_key := pk; resp_attestation := doc' |}, sg.
  split; [|done]. unfold sign_in_enclave.
  assert (hybrid_step self ent (with_message req m) = Ok ()) as ->.
  { unfold hybrid_step in *. cbn. rewrite Hp in *. done. }
  cbn [mbind result_bind with_message esr_shares]. rewrite Hsp, Hc.
  cbn [mbind panics_bind map_err result_bind]. unfold sign_with_seed.
  cbn [with_message esr_scheme esr_hd_path esr_message esr_hash_alg]. rewrite Hsk. cbn [mbind result_bind].
  rewrite Hsg. cbn [map_err mbind result_bind]. rewrite Hpk. cbn [map_err mbind result_bind].
  rewrite Hsig'. cbn [map_err mbind result_bind]. by rewrite Hdoc.
Qed.

End enclave.

Module EnclaveWitness.
Import Concrete ConcreteRlp.

Definition enclave : MockEnclave := new_for_testing_with_seed [x01].
Definition ent : Entropy := {|
  received_ms := 3000; verify_ms := 3000; attest_ms := 3000; fill_nonce := replicate 32 x05;
  fill_seed n := replicate n x07; share_rng _ := tt |}.
Lemma ent_ok : entropy_ok ent.
Proof. split; [split; vm_compute; congruence|]. split; [done|]. intros n. apply length_replicate. Qed.

Definition gen : GenerateWalletRequest := {|
  gen_wallet_id := WalletId_from_ulid 4; gen_scheme := Ed25519; gen_threshold := 2; gen_total := 3;
  gen_master_hd_path := None |}.
Definition wallet : GenerateWalletResponse :=
  match generate_wallet enclave ent gen with
  | Returns (Ok r) => r
  | _ => {| gen_shares := []; gen_master_public_key := [];
            gen_attestation := {| att_raw_payload := []; att_signature := [];
              att_payload := {| backend := ""; timestamp_unix_ms := 0; nonce := []; pcrs := [];
                                attestation_public_key := []; user_data := [] |} |} |}
  end.
Definition sign_req : EnclaveSignRequest := {|
  esr_request_id := RequestId_from_ulid 3; esr_wallet_id := WalletId_from_ulid 4;
  esr_shares := pick (gen_shares wallet) [2%nat; 0%nat]; esr_scheme := Ed25519; esr_hd_path := None;
  esr_message := [x01; x02]; esr_hash_alg := HashNone;
  esr_context := {| ctx_chain_id := None; ctx_vm_type := None; ctx_extra := JNull |};
  esr_policy_decision := Some (HybridWitness.signed HybridWitness.dec); esr_approvals := [];
  esr_wallet_ceilings := None; esr_policy_signing_payload := Some (Raw [x01; x02]) |}.

Example generated_wallet_signs_witness :
  ∃ r sg, sign_in_enclave enclave ent sign_req = Returns (Ok r)
    ∧ resp_public_key r = gen_master_public_key wallet
    ∧ signer_for_scheme Ed25519 = Ok sg
    ∧ Signers.verify sg (gen_master_public_key wallet) [x01; x02] (resp_signature r) HashNone = Ok ()
    ∧ user_data (att_payload (resp_attestation r)) = sign_user_data sign_req (resp_signature r)
    ∧ ∀ why, verify_doc why (resp_attestation r) = Ok ().
Proof.
  apply (generated_wallet_signs enclave ent ent gen wallet sign_req [2%nat; 0%nat]);
    try reflexivity; try apply ent_ok.
  - apply (bool_decide_eq_true_1 _). vm_compute. reflexivity.
  - repeat constructor; apply Nat.ltb_lt; vm_compute; reflexivity.
Defined.

Definition pinned : MockEnclave :=
  me_with_require_signed_decision
    (with_policy_service_pubkey enclave (ed_public HybridWitness.key)) true.
Definition pinned_response : EnclaveSignResponse :=
  match sign_in_enclave enclave ent sign_req with
  | Returns (Ok r) => r
  | _ => {| resp_signature := []; resp_public_key := []; resp_attestation := gen_attestation wallet |}
  end.

Lemma pinned_hybrid_step : hybrid_step pinned ent sign_req = Ok ().
Proof.
  unfold hybrid_step. cbn [pinned me_with_require_signed_decision with_policy_service_pubkey
    me_policy_service_pubkey me_require_signed_decision].
  unfold HybridVerifier.with_require_signed_decision, HybridVerifier_new at 1.
  change (esr_policy_decision sign_req) with (Some (HybridWitness.signed HybridWitness.dec)).
  rewrite HybridWitness.signed_verify by (done || (unfold MAX_APPROVALS; cbn; lia)). reflexivity.
Qed.

Lemma pinned_signs : sign_in_enclave pinned ent sign_req = Returns (Ok pinned_response).
Proof.
  transitivity (sign_in_enclave enclave ent sign_req); [|reflexivity].
  unfold sign_in_enclave. by rewrite pinned_hybrid_step.
Qed.

Example enclave_signs_only_verified_witness :
  ∃ sd, esr_policy_decision sign_req = Some sd.
Proof.
  destruct (enclave_signs_only_verified pinned ent sign_req pinned_response
              (ed_public HybridWitness.key)) as (sd & Hsd & _).
  - reflexivity.
  - reflexivity.
  - exact pinned_signs.
  - exists sd. exact Hsd.
Defined.

Example enclave_message_unbound_witness :
  ∃ r' sg, sign_in_enclave pinned ent (with_message sign_req [xff]) = Returns (Ok r')
    ∧ resp_public_key r' = resp_public_key pinned_response
    ∧ signer_for_scheme Ed25519 = Ok sg
    ∧ Signers.verify sg (resp_public_key pinned_response) [xff] (resp_signature r') HashNone = Ok ().
Proof.
  apply (enclave_message_unbound pinned ent sign_req pinned_response (Raw [x01; x02]));
    [apply ent_ok|reflexivity|exact pinned_signs].
Defined.

End EnclaveWitness.
