(* ===== verification/Nitro.v ===== *)
(** * Nitro: the host-side client and the in-enclave server

    Models [crates/qfc-enclave/src/enclaves/nitro.rs] (the wire types, the
    builder and the [Enclave] implementation over vsock) and [enclave/src/main.rs]
    (start-up, dispatch, the signing and wallet-generation handlers and the
    connection loop's body).  The JSON coding of the wire types and the vsock
    stream are parameters; clock readings and random draws are arguments
    ([Entropy] of MockEnclave.v). *)

From S2P Require Import Prelude Text Types External PolicyTypes SignedDecision Signers Derivation Attestation Rlp EvmDecoder HybridVerifier Shamir MockEnclave Codecs Cose NitroVerify.
From Stdlib Require Import Ascii.
#[local] Open Scope string_scope.
#[local] Open Scope list_scope.
#[local] Open Scope Z_scope.

(** ** Wire types *)

Definition VMADDR_CID_PARENT : Z := 3.
Definition NITRO_DEFAULT_PORT : Z := 5005.

Record VsockAddr := VsockAddr_new { cid : Z; port : Z }.

Record NitroSignRequest := {
  nsr_request_id : RequestId;
  nsr_wallet_id : WalletId;
  nsr_shares : list ShamirShare;
  nsr_scheme : SigningScheme;
  nsr_hd_path : option HdPath.HdPath;
  nsr_message : bytes;
  nsr_hash_alg : HashAlg;
  nsr_context : SigningContext;
  nsr_policy_decision : option SignedPolicyDecision;
  nsr_approvals : list EnclaveApproval;
}.

Record NitroGenerateRequest := {
  ngr_wallet_id : WalletId;
  ngr_scheme : SigningScheme;
  ngr_threshold : Z;
  ngr_total : Z;
  ngr_master_hd_path : option HdPath.HdPath;
}.

Inductive NitroWireRequest :=
  | WireAttest (nonce : bytes)
  | WireSign (req : NitroSignRequest)
  | WireGenerateWallet (req : NitroGenerateRequest).

Inductive NitroWireResponse :=
  | RespAttest (attestation : AttestationDoc)
  | RespSign (signature public_key : bytes) (attestation : AttestationDoc)
  | RespGenerateWallet (shares : list ShamirShare) (master_public_key : bytes)
      (attestation : AttestationDoc)
  | RespError (message : string).

(** [serde_json] on the derived wire types. *)
Class WireSerde := {
  request_to_vec : NitroWireRequest → result string bytes;
  request_from_slice : bytes → result string NitroWireRequest;
  response_to_vec : NitroWireResponse → result string bytes;
  response_from_slice : bytes → result string NitroWireResponse;
}.

(** The coding of a message gives the message back. *)
Definition request_survives `{WireSerde} (r : NitroWireRequest) : Prop :=
  ∃ bs, request_to_vec r = Ok bs ∧ request_from_slice bs = Ok r.
Definition response_survives `{WireSerde} (r : NitroWireResponse) : Prop :=
  ∃ bs, response_to_vec r = Ok bs ∧ response_from_slice bs = Ok r.

(** ** The client *)

Record NitroEnclave := { vsock_addr : VsockAddr; expected_pcrs : PcrConstraint }.

Record NitroEnclaveBuilder := { b_vsock_addr : option VsockAddr; b_expected_pcrs : option PcrConstraint }.

Definition builder_new : NitroEnclaveBuilder := {| b_vsock_addr := None; b_expected_pcrs := None |}.
Definition builder_vsock (b : NitroEnclaveBuilder) (addr : VsockAddr) : NitroEnclaveBuilder :=
  {| b_vsock_addr := Some addr; b_expected_pcrs := b_expected_pcrs b |}.
Definition builder_expected_pcrs (b : NitroEnclaveBuilder) (pcrs : PcrConstraint) : NitroEnclaveBuilder :=
  {| b_vsock_addr := b_vsock_addr b; b_expected_pcrs := Some pcrs |}.
Definition builder_build (b : NitroEnclaveBuilder) : result EnclaveError NitroEnclave :=
  vsock_addr ← ok_or (b_vsock_addr b) (InvalidRequest "vsock_addr not set");
  expected_pcrs ← ok_or (b_expected_pcrs b) (InvalidRequest "expected_pcrs not set");
  mret {| vsock_addr := vsock_addr; expected_pcrs := expected_pcrs |}.

Section client.
Context `{WireSerde}.

(** A connection to the server: the request's frame is sent and the next frame
    read; the error is the text of the failed step. *)
Variable exchange : VsockAddr → bytes → result string bytes.

(** The [nitro] feature of the build. *)
Variable nitro_feature : bool.

Definition parse_error (why : string) : EnclaveError := EncAttestation (PayloadParse why).

Definition round_trip (self : NitroEnclave) (req : NitroWireRequest)
    : result EnclaveError NitroWireResponse :=
  if nitro_feature then
    body ← map_err parse_error (request_to_vec req);
    resp_bytes ← map_err parse_error (exchange (vsock_addr self) body);
    map_err parse_error (response_from_slice resp_bytes)
  else Err (EncNotImplemented
         "nitro feature not enabled — build with --features nitro on a Nitro host").

Definition unexpected : EnclaveError := InvalidRequest "unexpected nitro response".

Definition nitro_attest (self : NitroEnclave) (nonce : bytes) : result EnclaveError AttestationDoc :=
  resp ← round_trip self (WireAttest nonce);
  match resp with
  | RespAttest attestation => Ok attestation
  | RespError message => Err (InvalidRequest message)
  | _ => Err unexpected
  end.

(** The projection of a sign request onto the wire. *)
Definition sign_wire (req : EnclaveSignRequest) : NitroSignRequest := {|
  nsr_request_id := esr_request_id req; nsr_wallet_id := esr_wallet_id req;
  nsr_shares := esr_shares req; nsr_scheme := esr_scheme req; nsr_hd_path := esr_hd_path req;
  nsr_message := esr_message req; nsr_hash_alg := esr_hash_alg req;
  nsr_context := esr_context req; nsr_policy_decision := esr_policy_decision req;
  nsr_approvals := esr_approvals req |}.

Definition nitro_sign_in_enclave (self : NitroEnclave) (req : EnclaveSignRequest)
    : result EnclaveError EnclaveSignResponse :=
  resp ← round_trip self (WireSign (sign_wire req));
  match resp with
  | RespSign signature public_key attestation =>
      Ok {| resp_signature := signature; resp_public_key := public_key; resp_attestation := attestation |}
  | RespError message => Err (InvalidRequest message)
  | _ => Err unexpected
  end.

Definition generate_wire (req : GenerateWalletRequest) : NitroGenerateRequest := {|
  ngr_wallet_id := gen_wallet_id req; ngr_scheme := gen_scheme req;
  ngr_threshold := gen_threshold req; ngr_total := gen_total req;
  ngr_master_hd_path := gen_master_hd_path req |}.

Definition nitro_generate_wallet (self : NitroEnclave) (req : GenerateWalletRequest)
    : result EnclaveError GenerateWalletResponse :=
  resp ← round_trip self (WireGenerateWallet (generate_wire req));
  match resp with
  | RespGenerateWallet shares master_public_key attestation =>
      Ok {| gen_shares := shares; gen_master_public_key := master_public_key;
            gen_attestation := attestation |}
  | RespError message => Err (InvalidRequest message)
  | _ => Err unexpected
  end.
End client.

(** ** The server's start-up *)

(** [u8::from_str_radix(&s[i..i + 2], 16)]: a leading plus sign is skipped. *)
Definition from_str_radix_16 (a b : ascii) : result string byte :=
  if Ascii.eqb a "+" then
    match hex_digit b with
    | Some y => Ok (byte_of_Z y)
    | None => Err "invalid digit found in string"
    end
  else
    match hex_digit a, hex_digit b with
    | Some x, Some y => Ok (byte_of_Z (16 * x + y))
    | _, _ => Err "invalid digit found in string"
    end.

(** A byte that continues a UTF-8 character: no slice may start before it. *)
Definition is_continuation (c : ascii) : bool := (128 <=? char_val c) && (char_val c <? 192).
Definition starts_inside (s : string) : bool :=
  match s with String c _ => is_continuation c | EmptyString => false end.

Fixpoint hex_pairs (s : string) : panics (result string bytes) :=
  match s with
  | String a (String b rest) =>
      if is_continuation a || starts_inside rest then
        Panics "byte index is not a char boundary"
      else
        match from_str_radix_16 a b with
        | Err e => Returns (Err e)
        | Ok x =>
            r ← hex_pairs rest;
            Returns (match r with Ok xs => Ok (x :: xs) | Err e => Err e end)
        end
  | _ => Returns (Ok [])
  end.

Definition boot_hex_decode (s : string) : panics (result string bytes) :=
  if negb (String.length s mod 2 =? 0)%nat then Returns (Err "odd hex length")
  else hex_pairs s.

Record BootConfig := { boot_policy_service_pubkey : bytes }.

(** [load_policy_pubkey_from_env] on the value of the variable. *)
Definition load_policy_pubkey (env : option string) : panics (result string bytes) :=
  match env with
  | None => Returns (Err "QFC_POLICY_SERVICE_PUBKEY_HEX env var required")
  | Some v =>
      r ← boot_hex_decode v;
      Returns (bytes ← map_err (λ e, "invalid pubkey hex: " +:+ e) r;
               if negb (bool_decide (length bytes = 32%nat)) then
                 Err ("policy pubkey must be 32 bytes, got " +:+ show_dec (Z.of_nat (length bytes)))
               else Ok bytes)
  end.

(** ** The handlers *)

(** What an [anyhow::Error] of a handler wraps. *)
Inductive BootError :=
  | BootVerify (e : HybridVerifyError)
  | BootSss (e : ShareError)
  | BootDerivation (e : DerivationError)
  | BootSigner (e : SignerError)
  | BootAttestation (e : AttestationError)
  | BootBail (message : string).

Section server.
Context `{UlidCrate, JsonCrate, DigestCrate, Ed25519Crate, K256Crate, MlDsaCrate, RlpCrate,
          Bip32Crate, VsssCrate}.

Definition signing_request_for_verifier (ent : Entropy) (req : NitroSignRequest) : SigningRequest := {|
  request_id := nsr_request_id req; wallet_id := nsr_wallet_id req;
  requester := ApiKey "in-enclave"; PolicyTypes.payload := Raw (nsr_message req);
  PolicyTypes.hd_path := nsr_hd_path req; received_at_unix_ms := received_ms ent |}.

(** [WalletCeilings { wallet_id, ..Default::default() }]. *)
Definition no_ceilings (w : WalletId) : WalletCeilings := {|
  ceil_wallet_id := w; max_value_per_tx := None; contract_allowlist := []; chain_allowlist := [] |}.

(** Step 1 of [handle_sign]. *)
Definition boot_verify (cfg : BootConfig) (ent : Entropy) (req : NitroSignRequest)
    : result HybridVerifyError () :=
  HybridVerifier.verify (HybridVerifier_new (boot_policy_service_pubkey cfg)) (nsr_policy_decision req)
    (nsr_approvals req) (signing_request_for_verifier ent req) (no_ceilings (nsr_wallet_id req))
    (verify_ms ent).

(** The signing key of the combined seed. *)
Definition boot_signing_key (s : SigningScheme) (seed : bytes) (hd_path : option HdPath.HdPath)
    : result BootError bytes :=
  match hd_path with
  | None =>
      if (length seed <? 32)%nat then Err (BootBail "seed too short for classical scheme")
      else Ok (take 32 seed)
  | Some path => d ← map_err BootDerivation (derive_classical s seed path); mret (secret d)
  end.

Definition boot_sign_user_data (req : NitroSignRequest) (signature : bytes) : bytes :=
  string_bytes (ulid_to_string (RequestId_ulid (nsr_request_id req))) ++ string_bytes "|"
  ++ string_bytes (ulid_to_string (WalletId_ulid (nsr_wallet_id req))) ++ string_bytes "|"
  ++ sha256_32 (nsr_message req) ++ string_bytes "|" ++ sha256_32 signature.

(** Steps 2 and 3, on the combined seed. *)
Definition boot_sign_with_seed (key : MockAttestationKey) (ent : Entropy) (req : NitroSignRequest)
    (seed : bytes) : result BootError NitroWireResponse :=
  signing_key ← boot_signing_key (nsr_scheme req) seed (nsr_hd_path req);
  signer ← map_err BootSigner (signer_for_scheme (nsr_scheme req));
  public_key ← map_err BootSigner (Signers.public_key signer signing_key);
  signature ← map_err BootSigner (Signers.sign signer signing_key (nsr_message req) (nsr_hash_alg req));
  attestation ← map_err BootAttestation
    (sign_attestation (attest_ms ent) key (fill_nonce ent) (boot_sign_user_data req signature));
  mret (RespSign signature public_key attestation).

Definition handle_sign (cfg : BootConfig) (key : MockAttestationKey) (ent : Entropy)
    (req : NitroSignRequest) : panics (result BootError NitroWireResponse) :=
  match boot_verify cfg ent req with
  | Err e => Returns (Err (BootVerify e))
  | Ok _ =>
      combined ← combine_shares (nsr_shares req);
      Returns (seed ← map_err BootSss combined; boot_sign_with_seed key ent req seed)
  end.

Definition handle_generate (key : MockAttestationKey) (ent : Entropy) (req : NitroGenerateRequest)
    : panics (result BootError NitroWireResponse) :=
  if (ngr_threshold req <? 2) || (ngr_total req <? ngr_threshold req) then
    Returns (Err (BootBail "invalid (threshold, total)"))
  else if is_post_quantum (ngr_scheme req) then
    Returns (Err (BootBail "post-quantum schemes not implemented (M5)"))
  else
    let seed := fill_seed ent 64 in
    match (signing_key ← match ngr_master_hd_path req with
                         | None => Ok (take 32 seed)
                         | Some path => d ← map_err BootDerivation (derive_classical (ngr_scheme req) seed path);
                                        mret (secret d)
                         end;
           signer ← map_err BootSigner (signer_for_scheme (ngr_scheme req));
           map_err BootSigner (Signers.public_key signer signing_key)) with
    | Err e => Returns (Err e)
    | Ok public_key =>
        split ← split_secret seed {| threshold := ngr_threshold req; total := ngr_total req |}
                  (share_rng ent);
        Returns (
          shares ← map_err BootSss split;
          attestation ← map_err BootAttestation
            (sign_attestation (attest_ms ent) key (fill_nonce ent)
               (generate_user_data (ngr_wallet_id req) public_key shares));
          mret (RespGenerateWallet shares public_key attestation))
    end.

Definition dispatch (cfg : BootConfig) (key : MockAttestationKey) (ent : Entropy)
    (req : NitroWireRequest) : panics (result BootError NitroWireResponse) :=
  match req with
  | WireAttest nonce =>
      Returns (doc ← map_err BootAttestation (sign_attestation (attest_ms ent) key nonce []);
               mret (RespAttest doc))
  | WireSign sign_req => handle_sign cfg key ent sign_req
  | WireGenerateWallet gen_req => handle_generate key ent gen_req
  end.

(** One connection of [serve_vsock]: the frame read, if any, gives the frame
    sent; [display] is the text of the wrapped error. *)
Context `{WireSerde}.
Variable display : BootError → string.

Definition serve_connection (cfg : BootConfig) (key : MockAttestationKey) (ent : Entropy)
    (frame : option bytes) : panics (option bytes) :=
  match frame with
  | None => Returns None
  | Some body =>
      resp ← match request_from_slice body with
             | Ok req =>
                 r ← dispatch cfg key ent req;
                 Returns (match r with Ok r => r | Err e => RespError (display e) end)
             | Err e => Returns (RespError ("parse: " +:+ e))
             end;
      Returns (Some (default [] (result_ok (response_to_vec resp))))
  end.
End server.

(** ** Lemmas *)

Section properties.
Context `{UlidCrate, JsonCrate, DigestCrate, Ed25519Crate, K256Crate, MlDsaCrate, RlpCrate,
          Bip32Crate, VsssCrate}.

(** The in-process enclave with the same attestation key, pinned to the same
    policy key and requiring a decision. *)
Definition mock_twin (cfg : BootConfig) (key : MockAttestationKey) : MockEnclave := {|
  attestation_key := key; me_policy_service_pubkey := Some (boot_policy_service_pubkey cfg);
  me_require_signed_decision := true |}.

(** The request the host was given, without ceilings and structured payload. *)
Definition unwire (req : NitroSignRequest) : EnclaveSignRequest := {|
  esr_request_id := nsr_request_id req; esr_wallet_id := nsr_wallet_id req;
  esr_shares := nsr_shares req; esr_scheme := nsr_scheme req; esr_hd_path := nsr_hd_path req;
  esr_message := nsr_message req; esr_hash_alg := nsr_hash_alg req; esr_context := nsr_context req;
  esr_policy_decision := nsr_policy_decision req; esr_approvals := nsr_approvals req;
  esr_wallet_ceilings := None; esr_policy_signing_payload := None |}.

(** Who asked and when is not looked at by the verifier. *)
Lemma verify_ignores_requester self sd aps w now r1 r2 :
  request_id r1 = request_id r2 → PolicyTypes.payload r1 = PolicyTypes.payload r2 →
  HybridVerifier.verify self sd aps r1 w now = HybridVerifier.verify self sd aps r2 w now.
Proof.
  intros Hid Hp. unfold HybridVerifier.verify, check_binding, check_approvals, check_approval,
    check_hard_ceilings, check_chain_allowlist, check_contract_allowlist, check_value_cap.
  by rewrite Hid, Hp.
Qed.

Lemma boot_verify_is_hybrid_step cfg key ent req :
  map_err HybridVerification (boot_verify cfg ent req) = hybrid_step (mock_twin cfg key) ent (unwire req).
Proof.
  unfold boot_verify, hybrid_step. cbn [mock_twin me_policy_service_pubkey me_require_signed_decision
    unwire esr_wallet_ceilings esr_policy_signing_payload esr_wallet_id esr_message default].
  apply (f_equal (map_err HybridVerification)). by apply verify_ignores_requester.
Qed.

Lemma boot_signing_key_ok s seed path k :
  boot_signing_key s seed path = Ok k ↔ derive_signing_key s seed path = Ok k.
Proof.
  unfold boot_signing_key, derive_signing_key, SEED_BYTES.
  destruct path as [path|].
  - destruct s; cbn; [destruct (derive_ed25519_slip10 seed path)
      |destruct (derive_secp256k1 seed path)|destruct (derive_secp256k1 seed path)| | |];
      cbn; split; by intros [= <-].
  - destruct s; destruct (length seed <? 32)%nat; split; by intros [= <-].
Qed.

Lemma combine_shares_checked shares secret :
  combine_shares shares = Returns (Ok secret) → ∃ p, check_share_params shares = Ok p.
Proof.
  unfold combine_shares, check_share_params. destruct shares as [|first rest]; [done|].
  destruct (_ <? _); [done|]. destruct (any _ _); [done|]. destruct (negb _); [done|]. eauto.
Qed.

Lemma boot_sign_with_seed_ok key ent req seed cfg sig pk :
  (∃ doc, boot_sign_with_seed key ent req seed = Ok (RespSign sig pk doc)) ↔
  (∃ r, sign_with_seed (mock_twin cfg key) ent (unwire req) seed = Ok r
        ∧ resp_signature r = sig ∧ resp_public_key r = pk).
Proof.
  unfold boot_sign_with_seed, sign_with_seed. cbn [unwire esr_scheme esr_hd_path esr_message esr_hash_alg].
  split.
  - intros (doc & (k & Hk%boot_signing_key_ok & Hr)%result_bind_ok).
    apply result_bind_ok in Hr as (sg & Hsg%map_err_ok & Hr).
    apply result_bind_ok in Hr as (pk' & Hpk%map_err_ok & Hr).
    apply result_bind_ok in Hr as (sig' & Hsig%map_err_ok & Hr). cbn in Hr. injection Hr as -> -> _.
    rewrite Hk. cbn [mbind result_bind]. rewrite Hsg. cbn [map_err mbind result_bind].
    rewrite Hpk. cbn [map_err mbind result_bind]. rewrite Hsig. cbn. eauto.
  - intros (r & (k & Hk%boot_signing_key_ok & Hr)%result_bind_ok & <- & <-).
    apply result_bind_ok in Hr as (sg & Hsg%map_err_ok & Hr).
    apply result_bind_ok in Hr as (pk' & Hpk%map_err_ok & Hr).
    apply result_bind_ok in Hr as (sig' & Hsig%map_err_ok & Hr). cbn in Hr. injection Hr as <-.
    rewrite Hk. cbn [mbind result_bind]. rewrite Hsg. cbn [map_err mbind result_bind].
    rewrite Hpk. cbn [map_err mbind result_bind]. rewrite Hsig. cbn. eauto.
Qed.

Lemma boot_sign_resp key ent req seed r :
  boot_sign_with_seed key ent req seed = Ok r → ∃ sig pk doc, r = RespSign sig pk doc.
Proof.
  unfold boot_sign_with_seed. intros (k & _ & Hr)%result_bind_ok.
  apply result_bind_ok in Hr as (sg & _ & Hr). apply result_bind_ok in Hr as (pk' & _ & Hr).
  apply result_bind_ok in Hr as (sig' & _ & Hr). apply result_bind_ok in Hr as (doc & _ & [= <-]). eauto.
Qed.

Lemma handle_sign_inv cfg key ent req r :
  handle_sign cfg key ent req = Returns (Ok r) ↔
  boot_verify cfg ent req = Ok () ∧ ∃ seed, combine_shares (nsr_shares req) = Returns (Ok seed)
    ∧ boot_sign_with_seed key ent req seed = Ok r.
Proof.
  unfold handle_sign. split.
  - destruct (boot_verify cfg ent req) as [[]|]; [|done].
    destruct (combine_shares _) as [[seed|]|]; cbn; [|done..]. intros [= Hr]. eauto.
  - intros (Hv & seed & Hc & Hs). rewrite Hv, Hc. cbn. by rewrite Hs.
Qed.

Lemma boot_sign_iff_mock cfg key ent req sig pk :
  (∃ doc, handle_sign cfg key ent req = Returns (Ok (RespSign sig pk doc))) ↔
  (∃ r, sign_in_enclave (mock_twin cfg key) ent (unwire req) = Returns (Ok r)
        ∧ resp_signature r = sig ∧ resp_public_key r = pk).
Proof.
  split.
  - intros (doc & (Hv & seed & Hc & Hs)%handle_sign_inv).
    destruct (proj1 (boot_sign_with_seed_ok key ent req seed cfg sig pk)) as (r & Hr & Hsig & Hpk); [eauto|].
    exists r. split; [|done]. destruct (combine_shares_checked _ _ Hc) as [p Hp].
    unfold sign_in_enclave. rewrite <-boot_verify_is_hybrid_step, Hv. cbn [map_err mbind result_bind].
    cbn [unwire esr_shares]. rewrite Hp, Hc. cbn [mbind panics_bind map_err result_bind]. by rewrite Hr.
  - intros (r & (Hh & _ & seed & Hc & Hs)%sign_in_enclave_inv & Hsig & Hpk).
    rewrite <-boot_verify_is_hybrid_step in Hh. apply map_err_ok in Hh.
    destruct (proj2 (boot_sign_with_seed_ok key ent req seed cfg sig pk)) as (doc & Hd); [eauto|].
    exists doc. apply handle_sign_inv. eauto.
Qed.

(** ** Properties *)

(** C34. The boot binary signs exactly what the in-process enclave signs: pinned to
    the same policy key and requiring a decision, and without ceilings or a
    structured payload, the two return the same signature and public key on the
    same requests (their attestations differ). *)
Theorem boot_signs_like_mock cfg key ent req sig pk :
  (∃ doc, handle_sign cfg key ent req = Returns (Ok (RespSign sig pk doc))) ↔
  (∃ r, sign_in_enclave (mock_twin cfg key) ent (unwire req) = Returns (Ok r)
        ∧ resp_signature r = sig ∧ resp_public_key r = pk).
Proof. apply boot_sign_iff_mock. Qed.

(** In the boot binary a quorum approves the bytes that are signed: a signature
    under a [RequireQuorum] decision comes with at least [threshold] approvals
    (counted up to 255) of this request, each over the hash of the signed
    message itself. *)
Theorem boot_quorum_binds_message cfg key ent req resp sd did pid threshold total aset rat :
  is_i64 (verify_ms ent) → Forall (λ ap, is_i64 (ap_timestamp_unix_ms ap)) (nsr_approvals req) →
  nsr_policy_decision req = Some sd →
  decision sd = RequireQuorum did pid threshold total aset rat →
  handle_sign cfg key ent req = Returns (Ok resp) →
  threshold ≤ Z.of_nat (length (nsr_approvals req))
  ∧ Forall (λ ap, ap_request_id ap = nsr_request_id req ∧ ap_message_hash ap = sha256 (nsr_message req)
              ∧ ap_decision ap = EnclaveApprove) (nsr_approvals req).
Proof.
  intros Hnow Hts Hsd Hd (Hv & _)%handle_sign_inv. unfold boot_verify in Hv. rewrite Hsd in Hv.
  unfold HybridVerifier.verify in Hv. destruct (_ <? _)%nat; [done|].
  apply result_bind_ok in Hv as (? & _ & Hv). apply result_bind_ok in Hv as (? & _ & Hv).
  rewrite Hd in Hv. apply result_bind_ok in Hv as (? & Ha & _). unfold check_approvals in Ha.
  apply result_bind_ok in Ha as (v & Hc & Ht). apply count_approvals_ok in Hc as [Hall ->]; [|done].
  destruct (Z.ltb_spec (Z.min u8_max (0 + Z.of_nat (length (nsr_approvals req)))) threshold); [done|].
  split; [lia|]. rewrite Forall_forall in *. intros ap Hin.
  specialize (Hall ap Hin). specialize (Hts ap Hin).
  by apply check_approval_ok in Hall as (? & ? & ? & _).
Qed.

(** The same request with ceilings and a structured payload attached. *)
Definition with_ceilings (req : EnclaveSignRequest) (c : option WalletCeilings)
    (p : option SigningPayload) : EnclaveSignRequest := {|
  esr_request_id := esr_request_id req; esr_wallet_id := esr_wallet_id req;
  esr_shares := esr_shares req; esr_scheme := esr_scheme req; esr_hd_path := esr_hd_path req;
  esr_message := esr_message req; esr_hash_alg := esr_hash_alg req; esr_context := esr_context req;
  esr_policy_decision := esr_policy_decision req; esr_approvals := esr_approvals req;
  esr_wallet_ceilings := c; esr_policy_signing_payload := p |}.

(** The wallet's ceilings do not reach the Nitro enclave: attaching any ceilings
    and payload changes nothing in what the client does, and the ceiling check
    of the boot binary passes on every request. *)
Theorem nitro_ceilings_dropped `{WireSerde} exchange feature self req c p ent wire :
  nitro_sign_in_enclave exchange feature self (with_ceilings req c p)
    = nitro_sign_in_enclave exchange feature self req
  ∧ check_hard_ceilings (signing_request_for_verifier ent wire) (no_ceilings (nsr_wallet_id wire)) = Ok ().
Proof. done. Qed.

(** Shares that are only a zero length header take the boot binary down: once
    the decision verifies, the handler panics instead of returning an error. *)
Theorem malformed_shares_crash_boot cfg key ent req p i j :
  boot_verify cfg ent req = Ok () → threshold p = 2 → i ≠ j →
  nsr_shares req = [ {| index := i; params := p; blob := be_bytes 4 0 |};
                     {| index := j; params := p; blob := be_bytes 4 0 |} ] →
  handle_sign cfg key ent req = Panics "range end index out of range for slice".
Proof.
  intros Hv Hp Hij Hs. unfold handle_sign. rewrite Hv, Hs, combine_shares_panics; done.
Qed.

Context `{!VsssLaws, !DigestLaws, !Ed25519Laws, !K256Laws, !MlDsaLaws, !JsonLaws}.

Lemma handle_generate_inv key ent req shares pk doc :
  entropy_ok ent → handle_generate key ent req = Returns (Ok (RespGenerateWallet shares pk doc)) →
  2 ≤ ngr_threshold req ≤ ngr_total req ∧ is_post_quantum (ngr_scheme req) = false
  ∧ (∃ sk sg, derive_signing_key (ngr_scheme req) (fill_seed ent 64) (ngr_master_hd_path req) = Ok sk
       ∧ signer_for_scheme (ngr_scheme req) = Ok sg ∧ Signers.public_key sg sk = Ok pk)
  ∧ split_secret (fill_seed ent 64) {| threshold := ngr_threshold req; total := ngr_total req |}
      (share_rng ent) = Returns (Ok shares).
Proof.
  intros He. unfold handle_generate.
  destruct (Z.ltb_spec (ngr_threshold req) 2), (Z.ltb_spec (ngr_total req) (ngr_threshold req));
    cbn [orb]; try done.
  destruct (is_post_quantum (ngr_scheme req)) eqn:Hpq; [done|]. cbv zeta.
  destruct (_ ≫= _) as [pubkey|] eqn:Hk; [|done].
  apply result_bind_ok in Hk as (sk & Hsk & Hk). apply result_bind_ok in Hk as (sg & Hsg%map_err_ok & Hk%map_err_ok).
  destruct (split_secret _ _ _) as [[shares'|]|] eqn:Hsp; cbn; [|done..]. intros [= <- <- _].
  split; [lia|]. split; [done|]. split; [|done]. exists sk, sg. split; [|done].
  apply boot_signing_key_ok. unfold boot_signing_key.
  destruct (ngr_master_hd_path req); [done|].
  destruct (Nat.ltb_spec (length (fill_seed ent 64)) 32) as [Hlt|]; [|done].
  destruct He as (_ & _ & Hseed). rewrite Hseed in Hlt. lia.
Qed.

Lemma boot_wallet_signs_ok cfg key ent ent' gen shares pk doc req sel :
  entropy_ok ent → entropy_ok ent' → ngr_total gen ≤ 255 →
  handle_generate key ent gen = Returns (Ok (RespGenerateWallet shares pk doc)) →
  boot_verify cfg ent' req = Ok () →
  NoDup sel → Forall (λ i, (i < length shares)%nat) sel → ngr_threshold gen ≤ Z.of_nat (length sel) →
  nsr_shares req = pick shares sel →
  nsr_scheme req = ngr_scheme gen → nsr_hd_path req = ngr_master_hd_path gen →
  good_hash (ngr_scheme gen) (nsr_hash_alg req) = true →
  ∃ sig doc' sg, handle_sign cfg key ent' req = Returns (Ok (RespSign sig pk doc'))
    ∧ signer_for_scheme (ngr_scheme gen) = Ok sg
    ∧ Signers.verify sg pk (nsr_message req) sig (nsr_hash_alg req) = Ok ().
Proof.
  intros He He' Htot Hgen Hv Hnd Hsel Ht Hshares Hsch Hpath Hhash.
  apply handle_generate_inv in Hgen as (Hparams & Hpq & (sk & sg & Hsk & Hsg & Hpk) & Hsplit); [|done].
  destruct (seed_bounds ent (ngr_scheme gen) He) as [Hne Hlen].
  unfold seed_len in Hne, Hlen. rewrite Hpq in Hne, Hlen.
  rewrite <-?Hsch, <-?Hpath in *.
  assert (params_ok {| threshold := ngr_threshold gen; total := ngr_total gen |}) as Hp by done.
  assert (hybrid_step (mock_twin cfg key) ent' (unwire req) = Ok ()) as Hh
    by (rewrite <-boot_verify_is_hybrid_step, Hv; done).
  destruct (shares_sign (mock_twin cfg key) ent' (unwire req) _ _ _ _ sel sk sg pk He' Hp Hne Hlen Hsplit
              Hsk Hsg Hpk Hhash Hh Hnd Hsel Ht Hshares) as (r & Hr & Hrpk & Hver & _).
  destruct (proj2 (boot_sign_iff_mock cfg key ent' req (resp_signature r) pk)) as (doc' & Hd).
  { exists r. by split_and!. }
  exists (resp_signature r), doc', sg. by split_and!.
Qed.
(** Key custody in the boot binary: a wallet it generates signs, through any
    [threshold] of its shares in any order, every request whose decision
    verifies, and the signature verifies under the public key reported at
    generation. *)
Theorem boot_wallet_signs cfg key ent ent' gen shares pk doc req sel :
  entropy_ok ent → entropy_ok ent' → ngr_total gen ≤ 255 →
  handle_generate key ent gen = Returns (Ok (RespGenerateWallet shares pk doc)) →
  boot_verify cfg ent' req = Ok () →
  NoDup sel → Forall (λ i, (i < length shares)%nat) sel → ngr_threshold gen ≤ Z.of_nat (length sel) →
  nsr_shares req = pick shares sel →
  nsr_scheme req = ngr_scheme gen → nsr_hd_path req = ngr_master_hd_path gen →
  good_hash (ngr_scheme gen) (nsr_hash_alg req) = true →
  ∃ sig doc' sg, handle_sign cfg key ent' req = Returns (Ok (RespSign sig pk doc'))
    ∧ signer_for_scheme (ngr_scheme gen) = Ok sg
    ∧ Signers.verify sg pk (nsr_message req) sig (nsr_hash_alg req) = Ok ().
Proof. apply boot_wallet_signs_ok. Qed.
End properties.

(** ** Start-up and errors over the wire *)

Lemma hex_char_plain d : 0 ≤ d < 16 →
  is_continuation (hex_char d) = false ∧ Ascii.eqb (hex_char d) "+" = false ∧ hex_digit (hex_char d) = Some d.
Proof.
  intros Hd. assert (d ∈ seqZ 0 16) as Hin by (apply elem_of_seqZ; lia).
  assert (Forall (λ d, is_continuation (hex_char d) = false ∧ Ascii.eqb (hex_char d) "+" = false
            ∧ hex_digit (hex_char d) = Some d) (seqZ 0 16)) as HF.
  { repeat constructor. }
  by rewrite Forall_forall in HF; apply HF.
Qed.

Lemma byte_nibbles b : 0 ≤ byte_val b / 16 < 16 ∧ 0 ≤ byte_val b mod 16 < 16
  ∧ byte_of_Z (16 * (byte_val b / 16) + byte_val b mod 16) = b.
Proof.
  pose proof (byte_val_range b). split; [|split].
  - split; [apply Z.div_pos|apply Z.div_lt_upper_bound]; lia.
  - apply Z.mod_pos_bound. lia.
  - rewrite <-Z.div_mod by lia. apply byte_of_Z_val.
Qed.

Lemma hex_pairs_encode bs :
  starts_inside (hex_encode bs) = false ∧ hex_pairs (hex_encode bs) = Returns (Ok bs).
Proof.
  induction bs as [|b bs [IHs IH]]; [done|]. cbn [hex_encode starts_inside hex_pairs].
  destruct (byte_nibbles b) as (Hh & Hl & Hb).
  destruct (hex_char_plain _ Hh) as (-> & Hp & Hdh). destruct (hex_char_plain _ Hl) as (_ & _ & Hdl).
  split; [done|]. rewrite IHs. cbn [orb]. unfold from_str_radix_16. rewrite Hp, Hdh, Hdl.
  rewrite Hb, IH. done.
Qed.

Lemma hex_encode_even bs : (String.length (hex_encode bs) mod 2 = 0)%nat.
Proof.
  induction bs as [|b bs IH]; [done|]. cbn [hex_encode String.length].
  replace (S (S (String.length (hex_encode bs)))) with (String.length (hex_encode bs) + 1 * 2)%nat by lia.
  by rewrite Nat.Div0.mod_add.
Qed.

(** The server starts with exactly a 32-byte policy key: the lower-case hex of
    32 bytes loads as those bytes, other lengths and a missing variable are
    refused, and whatever loads is 32 bytes long. *)
Theorem policy_pubkey_loads :
  (∀ bs, length bs = 32%nat → load_policy_pubkey (Some (hex_encode bs)) = Returns (Ok bs))
  ∧ (∀ bs, length bs ≠ 32%nat → ∃ e, load_policy_pubkey (Some (hex_encode bs)) = Returns (Err e))
  ∧ (∀ env bs, load_policy_pubkey env = Returns (Ok bs) → length bs = 32%nat).
Proof.
  split_and!.
  - intros bs Hl. unfold load_policy_pubkey, boot_hex_decode. rewrite hex_encode_even.
    rewrite (proj2 (hex_pairs_encode bs)). cbn. by rewrite bool_decide_eq_true_2.
  - intros bs Hl. unfold load_policy_pubkey, boot_hex_decode. rewrite hex_encode_even.
    rewrite (proj2 (hex_pairs_encode bs)). cbn. rewrite bool_decide_eq_false_2 by done. eauto.
  - intros [v|] bs; [|done]. cbn. destruct (boot_hex_decode v) as [[x|]|]; cbn; [|done..].
    case_bool_decide; cbn; [by intros [= <-]|done].
Qed.

Section wire.
Context `{UlidCrate, JsonCrate, DigestCrate, Ed25519Crate, K256Crate, MlDsaCrate, RlpCrate,
          Bip32Crate, VsssCrate, WireSerde}.

(** The client connected to the server: the reply is the frame the connection
    sends; a server that dies closes the stream. *)
Definition connected (display : BootError → string) (cfg : BootConfig) (key : MockAttestationKey)
    (ent : Entropy) (_ : VsockAddr) (body : bytes) : result string bytes :=
  match serve_connection display cfg key ent (Some body) with
  | Returns (Some resp) => Ok resp
  | _ => Err "vsock closed"
  end.

(** A request the enclave refuses is refused by the client with the enclave's
    message, and a crash of the handler surfaces as a closed stream: in neither
    case does the client return a signature. *)
Theorem nitro_refusal_propagates display cfg key ent self req :
  request_survives (WireSign (sign_wire req)) → (∀ m, response_survives (RespError m)) →
  (∀ e, handle_sign cfg key ent (sign_wire req) = Returns (Err e) →
     nitro_sign_in_enclave (connected display cfg key ent) true self req = Err (InvalidRequest (display e)))
  ∧ (∀ w, handle_sign cfg key ent (sign_wire req) = Panics w →
     nitro_sign_in_enclave (connected display cfg key ent) true self req = Err (parse_error "vsock closed")).
Proof.
  intros (body & Hto & Hfrom) Herr.
  unfold nitro_sign_in_enclave, round_trip, connected, serve_connection. rewrite Hto.
  cbn [map_err mbind result_bind]. rewrite Hfrom. cbn [dispatch]. split.
  - intros e ->. cbn. destruct (Herr (display e)) as (bs & -> & Hb). cbn. by rewrite Hb.
  - intros w ->. done.
Qed.
End wire.

Module NitroWitness2.
Import Concrete ConcreteRlp.

Definition cfg : BootConfig := {| boot_policy_service_pubkey := ed_public HybridWitness.key |}.
Definition akey : MockAttestationKey := from_seed [x01].
Definition gen : NitroGenerateRequest := {|
  ngr_wallet_id := WalletId_from_ulid 4; ngr_scheme := Ed25519; ngr_threshold := 2; ngr_total := 3;
  ngr_master_hd_path := None |}.
Definition wallet : list ShamirShare * bytes * AttestationDoc :=
  match handle_generate akey EnclaveWitness.ent gen with
  | Returns (Ok (RespGenerateWallet s p d)) => (s, p, d)
  | _ => ([], [], gen_attestation EnclaveWitness.wallet)
  end.

(** A sign request for the message [01 02]. *)
Definition sign_req (shares : list ShamirShare) (d : PolicyDecision) (aps : list EnclaveApproval)
    : NitroSignRequest := {|
  nsr_request_id := RequestId_from_ulid 3; nsr_wallet_id := WalletId_from_ulid 4;
  nsr_shares := shares; nsr_scheme := Ed25519; nsr_hd_path := None; nsr_message := [x01; x02];
  nsr_hash_alg := HashNone;
  nsr_context := {| ctx_chain_id := None; ctx_vm_type := None; ctx_extra := JNull |};
  nsr_policy_decision := Some (HybridWitness.signed d); nsr_approvals := aps |}.

Lemma boot_verify_allow shares : boot_verify cfg EnclaveWitness.ent (sign_req shares HybridWitness.dec []) = Ok ().
Proof.
  unfold boot_verify. cbn [nsr_policy_decision sign_req nsr_approvals cfg boot_policy_service_pubkey].
  change (verify_ms EnclaveWitness.ent) with 3000.
  rewrite HybridWitness.signed_verify by (done || (unfold MAX_APPROVALS; cbn; lia)). reflexivity.
Qed.

Definition picked : list ShamirShare := pick wallet.1.1 [2%nat; 0%nat].

Example boot_wallet_signs_witness :
  ∃ sig doc' sg,
    handle_sign cfg akey EnclaveWitness.ent (sign_req picked HybridWitness.dec [])
      = Returns (Ok (RespSign sig wallet.1.2 doc'))
    ∧ signer_for_scheme Ed25519 = Ok sg
    ∧ Signers.verify sg wallet.1.2 [x01; x02] sig HashNone = Ok ().
Proof.
  apply (boot_wallet_signs cfg akey EnclaveWitness.ent EnclaveWitness.ent gen wallet.1.1 wallet.1.2 wallet.2
           (sign_req picked HybridWitness.dec []) [2%nat; 0%nat]);
    [apply EnclaveWitness.ent_ok|apply EnclaveWitness.ent_ok|done|reflexivity|apply boot_verify_allow
    |apply (bool_decide_eq_true_1 _); vm_compute; reflexivity
    |repeat constructor; apply Nat.ltb_lt; vm_compute; reflexivity
    |done|reflexivity|reflexivity|reflexivity|reflexivity].
Defined.

Definition aps : list EnclaveApproval := [HybridWitness.approval 7; HybridWitness.approval 8].

Lemma boot_verify_quorum shares :
  boot_verify cfg EnclaveWitness.ent (sign_req shares HybridWitness.quorum aps) = Ok ().
Proof.
  unfold boot_verify. cbn [nsr_policy_decision sign_req nsr_approvals cfg boot_policy_service_pubkey].
  change (verify_ms EnclaveWitness.ent) with 3000.
  rewrite HybridWitness.signed_verify by (done || (unfold MAX_APPROVALS; cbn; lia)). reflexivity.
Qed.

Lemma quorum_signed : ∃ resp,
  handle_sign cfg akey EnclaveWitness.ent (sign_req picked HybridWitness.quorum aps) = Returns (Ok resp).
Proof.
  destruct (boot_wallet_signs_ok cfg akey EnclaveWitness.ent EnclaveWitness.ent gen wallet.1.1 wallet.1.2 wallet.2
           (sign_req picked HybridWitness.quorum aps) [2%nat; 0%nat]) as (sig & doc & sg & Hh & _);
    [apply EnclaveWitness.ent_ok|apply EnclaveWitness.ent_ok|done|reflexivity|apply boot_verify_quorum
    |apply (bool_decide_eq_true_1 _); vm_compute; reflexivity
    |repeat constructor; apply Nat.ltb_lt; vm_compute; reflexivity
    |done|reflexivity|reflexivity|reflexivity|reflexivity
    |eauto].
Qed.

Example boot_quorum_binds_message_witness :
  2 ≤ Z.of_nat (length aps)
  ∧ Forall (λ ap, ap_request_id ap = RequestId_from_ulid 3 ∧ ap_message_hash ap = sha256 [x01; x02]
              ∧ ap_decision ap = EnclaveApprove) aps.
Proof.
  destruct quorum_signed as [resp Hresp].
  refine (boot_quorum_binds_message cfg akey EnclaveWitness.ent (sign_req picked HybridWitness.quorum aps) resp
            (HybridWitness.signed HybridWitness.quorum) _ _ 2 _ _ _ _ _ eq_refl eq_refl Hresp).
  - split; vm_compute; done.
  - repeat constructor; vm_compute; done.
Defined.

Definition bad_share (i : Z) : ShamirShare :=
  {| index := i; params := {| threshold := 2; total := 2 |}; blob := be_bytes 4 0 |}.

Example malformed_shares_crash_boot_witness :
  handle_sign cfg akey EnclaveWitness.ent (sign_req [bad_share 1; bad_share 2] HybridWitness.dec [])
  = Panics "range end index out of range for slice".
Proof.
  apply (malformed_shares_crash_boot cfg akey EnclaveWitness.ent _ {| threshold := 2; total := 2 |} 1 2);
    [apply boot_verify_allow|reflexivity|discriminate|reflexivity].
Defined.

(** A coding of one request and of the error messages. *)
Definition denied : EnclaveSignRequest := unwire {|
  nsr_request_id := RequestId_from_ulid 3; nsr_wallet_id := WalletId_from_ulid 4;
  nsr_shares := []; nsr_scheme := Ed25519; nsr_hd_path := None; nsr_message := [];
  nsr_hash_alg := HashNone;
  nsr_context := {| ctx_chain_id := None; ctx_vm_type := None; ctx_extra := JNull |};
  nsr_policy_decision := None; nsr_approvals := [] |}.

#[local] Instance toy_serde : WireSerde := {|
  request_to_vec _ := Ok [];
  request_from_slice _ := Ok (WireSign (sign_wire denied));
  response_to_vec r := match r with RespError m => Ok (string_bytes m) | _ => Err "unsupported" end;
  response_from_slice bs := Ok (RespError (String.string_of_list_byte bs));
|}.

Example nitro_refusal_propagates_witness :
  nitro_sign_in_enclave (connected (λ _, "no signed policy decision") cfg akey EnclaveWitness.ent) true
    {| vsock_addr := VsockAddr_new 16 5005; expected_pcrs := pcr_any |} denied
  = Err (InvalidRequest "no signed policy decision").
Proof.
  refine (proj1 (nitro_refusal_propagates (λ _, "no signed policy decision") cfg akey EnclaveWitness.ent
            {| vsock_addr := VsockAddr_new 16 5005; expected_pcrs := pcr_any |} denied _ _)
            (BootVerify MissingPolicyDecision) eq_refl).
  - exists []. split; reflexivity.
  - intros m. exists (string_bytes m). split; [reflexivity|]. cbn.
    by rewrite String.string_of_list_byte_of_string.
Defined.

Example plus_sign_is_a_digit : boot_hex_decode "+a0f" = Returns (Ok [x0a; x0f]).
Proof. reflexivity. Qed.
End NitroWitness2.
