(* ===== verification/Boot.v ===== *)
(** * Boot: the life of the enclave image ([enclave/src/main.rs])

    [main] from the environment to the listening image, and the accept loop with
    the tasks it spawns.  Tasks run in any order; the image is built with
    [panic = "abort"], so that a panic in one of them ends it.  Binding the
    port, accepting and the frames that arrive are outcomes of the system. *)

From S2P Require Import Prelude Text Types External Shamir PolicyTypes Signers SignedDecision Derivation Attestation Rlp EvmDecoder HybridVerifier MockEnclave Nitro.
#[local] Open Scope string_scope.
#[local] Open Scope list_scope.
#[local] Open Scope Z_scope.

(** [std::env::var("QFC_ENCLAVE_VSOCK_PORT").ok().and_then(parse).unwrap_or(5005)]. *)
Definition vsock_port (env : option string) : Z := default 5005 (env ≫= parse_uint u32_max).

(** What [main] comes to: an image that listens, or, built without the [nitro]
    feature, a message and a clean exit. *)
Inductive Boot := Listening (cfg : BootConfig) (port : Z) | NothingToServe.

Definition boot_main (nitro_feature : bool) (env : string → option string) (bind : Z → result string ())
    : panics (result string Boot) :=
  pubkey ← load_policy_pubkey (env "QFC_POLICY_SERVICE_PUBKEY_HEX");
  Returns (
    policy_service_pubkey ← pubkey;
    let cfg := {| boot_policy_service_pubkey := policy_service_pubkey |} in
    if nitro_feature then
      let port := vsock_port (env "QFC_ENCLAVE_VSOCK_PORT") in
      _ ← bind port;
      mret (Listening cfg port)
    else mret NothingToServe).

(** Different answers are written differently, none as the empty frame, and the
    [i64] fields of a request are read in range. *)
Class WireSerdeLaws `{WireSerde} : Prop := {
  response_injective r r' bs : response_to_vec r = Ok bs → response_to_vec r' = Ok bs → r = r';
  response_nonempty r : response_to_vec r ≠ Ok [];
  request_times bs req : request_from_slice bs = Ok (WireSign req) →
    (∀ sd, nsr_policy_decision req = Some sd → is_i64 (signed_at_unix_ms sd))
    ∧ Forall (λ ap, is_i64 (ap_timestamp_unix_ms ap)) (nsr_approvals req);
}.

Section image.
Context `{UlidCrate, JsonCrate, DigestCrate, Ed25519Crate, K256Crate, MlDsaCrate, RlpCrate,
          Bip32Crate, VsssCrate, WireSerde}.
Variable display : BootError → string.
Variables (cfg : BootConfig) (key : MockAttestationKey).

(** A frame that was answered: what was sent, what was replied, and the clock
    reading the verifier made on the way. *)
Record Answer := { ans_frame : bytes; ans_reply : bytes; ans_now_ms : Z }.

(** The image: connections whose task has not run, each with the frame it will
    read (if it gets one), and the frames answered so far. *)
Inductive Image :=
  | Up (tasks : list (option bytes)) (answered : list Answer)
  | Down.

(** One turn of the accept loop, or one task run to its end. *)
Inductive image_step : Image → Image → Prop :=
  | step_accept tasks answered frame : image_step (Up tasks answered) (Up (tasks ++ [frame]) answered)
  | step_accept_err tasks answered : image_step (Up tasks answered) Down
  | step_answer pre body post answered ent reply :
      is_i64 (verify_ms ent) → serve_connection display cfg key ent (Some body) = Returns (Some reply) →
      image_step (Up (pre ++ Some body :: post) answered)
        (Up (pre ++ post) (answered ++ [{| ans_frame := body; ans_reply := reply; ans_now_ms := verify_ms ent |}]))
  | step_no_frame pre post answered : image_step (Up (pre ++ None :: post) answered) (Up (pre ++ post) answered)
  | step_panic pre body post answered ent why :
      serve_connection display cfg key ent (Some body) = Panics why →
      image_step (Up (pre ++ Some body :: post) answered) Down.

(** ** Answers *)

(** An approval of the request over the message to be signed, at most an hour old
    at [now] and signed by the key it names. *)
Definition approved (req : NitroSignRequest) (now : Z) (ap : EnclaveApproval) : Prop :=
  ap_request_id ap = nsr_request_id req ∧ ap_message_hash ap = sha256 (nsr_message req)
  ∧ ap_decision ap = EnclaveApprove ∧ ap_timestamp_unix_ms ap ≤ now < ap_timestamp_unix_ms ap + 3601 * 1000
  ∧ ∃ sg, signer_for_scheme (ap_scheme ap) = Ok sg
      ∧ Signers.verify sg (ap_public_key ap) (approval_preimage ap) (ap_signature ap)
          (approval_hash_alg (ap_scheme ap)) = Ok ().

(** What stands behind a signature answered to [body], when the clock read [now]. *)
Definition authorised (now : Z) (body : bytes) : Prop :=
  ∃ req sd, request_from_slice body = Ok (WireSign req) ∧ nsr_policy_decision req = Some sd
    ∧ ed_verify (boot_policy_service_pubkey cfg)
        (build_preimage (decision sd) (nsr_request_id req) (nsr_wallet_id req)
           (signed_at_unix_ms sd) (max_age_secs sd)) (policy_service_signature sd) = true
    ∧ signed_at_unix_ms sd ≤ now
      < signed_at_unix_ms sd + (Z.min (max_age_secs sd) MAX_DECISION_AGE_SECS + 1) * 1000
    ∧ is_deny (decision sd) = false
    ∧ ∀ i p t n s r, decision sd = RequireQuorum i p t n s r →
        t ≤ Z.of_nat (length (nsr_approvals req)) ∧ Forall (approved req now) (nsr_approvals req).

Context `{!WireSerdeLaws}.

Definition signs (reply : bytes) : Prop := ∃ sig pk doc, response_to_vec (RespSign sig pk doc) = Ok reply.

Lemma boot_verify_sound ent req :
  is_i64 (verify_ms ent) → (∀ sd, nsr_policy_decision req = Some sd → is_i64 (signed_at_unix_ms sd)) →
  Forall (λ ap, is_i64 (ap_timestamp_unix_ms ap)) (nsr_approvals req) → boot_verify cfg ent req = Ok () →
  ∃ sd, nsr_policy_decision req = Some sd
    ∧ ed_verify (boot_policy_service_pubkey cfg)
        (build_preimage (decision sd) (nsr_request_id req) (nsr_wallet_id req)
           (signed_at_unix_ms sd) (max_age_secs sd)) (policy_service_signature sd) = true
    ∧ signed_at_unix_ms sd ≤ verify_ms ent
      < signed_at_unix_ms sd + (Z.min (max_age_secs sd) MAX_DECISION_AGE_SECS + 1) * 1000
    ∧ is_deny (decision sd) = false
    ∧ ∀ i p t n s r, decision sd = RequireQuorum i p t n s r →
        t ≤ Z.of_nat (length (nsr_approvals req)) ∧ Forall (approved req (verify_ms ent)) (nsr_approvals req).
Proof.
  intros Hnow Hat Hts. unfold boot_verify. destruct (nsr_policy_decision req) as [sd|].
  - intros Hv. apply verify_ok in Hv as (Hsig & Hage & Hdeny & Hq & _); [|done|by apply Hat|done].
    exists sd. repeat (split; [done|]). exact Hq.
  - unfold HybridVerifier.verify. by destruct (_ <? _)%nat.
Qed.

(** Only a sign request is answered with a signature. *)
Lemma dispatch_signs ent req sig pk doc :
  dispatch cfg key ent req = Returns (Ok (RespSign sig pk doc)) →
  ∃ r, req = WireSign r ∧ boot_verify cfg ent r = Ok ().
Proof.
  destruct req as [nonce|r|g]; cbn [dispatch].
  - intros [= (? & _ & [= ])%result_bind_ok].
  - intros (Hv & _)%handle_sign_inv. eauto.
  - unfold handle_generate. destruct (_ || _); [done|]. destruct (is_post_quantum _); [done|]. cbv zeta.
    destruct (_ ≫= _) as [pubkey|]; [|done]. by destruct (split_secret _ _ _) as [[shares|]|].
Qed.

Lemma reply_signs resp :
  signs (default [] (result_ok (response_to_vec resp))) → ∃ sig pk doc, resp = RespSign sig pk doc.
Proof.
  intros (sig & pk & doc & Hr). destruct (response_to_vec resp) as [bs|] eqn:Hb; cbn [result_ok default] in Hr.
  - rewrite (response_injective _ _ _ Hb Hr). eauto.
  - by apply response_nonempty in Hr.
Qed.

Lemma answer_authorised ent body reply :
  is_i64 (verify_ms ent) → serve_connection display cfg key ent (Some body) = Returns (Some reply) →
  signs reply → authorised (verify_ms ent) body.
Proof.
  intros Hnow Hs Hr. unfold serve_connection in Hs.
  destruct (request_from_slice body) as [req|e] eqn:Hq; unfold mbind, panics_bind in Hs.
  - destruct (dispatch cfg key ent req) as [res|] eqn:Hd; [|done]. injection Hs as <-.
    apply reply_signs in Hr as (sig & pk & doc & Hr). destruct res as [r|e]; [|done]. subst r.
    apply dispatch_signs in Hd as (r & -> & Hv). destruct (request_times _ _ Hq) as [Hat Hts].
    destruct (boot_verify_sound ent r Hnow Hat Hts Hv) as (sd & Hsd & Hrest).
    exists r, sd. by split.
  - injection Hs as <-. by apply reply_signs in Hr as (sig & pk & doc & Hr).
Qed.

(** ** The image's life *)

Definition answers_authorised (i : Image) : Prop :=
  match i with Up _ answered => Forall (λ a, signs (ans_reply a) → authorised (ans_now_ms a) (ans_frame a)) answered | Down => True end.

Lemma image_step_authorised i j : image_step i j → answers_authorised i → answers_authorised j.
Proof.
  intros []; cbn [answers_authorised]; try done. intros Ha. apply Forall_app_2; [done|].
  constructor; [|done]. by apply answer_authorised.
Qed.

(** An image that is up can always run its next task: a connection is answered,
    dropped because it sent nothing, or ends the image by a panic. *)
Lemma task_runs pre frame post answered ent :
  is_i64 (verify_ms ent) → ∃ j, image_step (Up (pre ++ frame :: post) answered) j
    ∧ (j = Down ∨ ∃ more, j = Up (pre ++ post) (answered ++ more) ∧ (length more ≤ 1)%nat
        ∧ ∀ b, frame = Some b → ∃ reply, more = [{| ans_frame := b; ans_reply := reply; ans_now_ms := verify_ms ent |}]).
Proof.
  intros Hnow. destruct frame as [b|].
  - destruct (serve_connection display cfg key ent (Some b)) as [[reply|]|why] eqn:Hs.
    + eexists. split; [by eapply step_answer|]. right. eexists [_]. split; [done|]. split; [done|].
      intros b' [= <-]. eauto.
    + exfalso. unfold serve_connection, mbind, panics_bind in Hs. destruct (request_from_slice b); [|done].
      by destruct (dispatch _ _ _ _).
    + eexists. split; [by eapply step_panic|by left].
  - eexists. split; [apply step_no_frame|]. right. exists []. rewrite app_nil_r. split; [done|]. split; [cbn; lia|done].
Qed.
End image.

(** ** Properties *)

Section life.
Context `{UlidCrate, JsonCrate, DigestCrate, Ed25519Crate, K256Crate, MlDsaCrate, RlpCrate,
          Bip32Crate, VsssCrate, WireSerde, !WireSerdeLaws}.

(** C11. The image signs for its policy service only.  An image that listens was
    given a 32-byte policy key in its environment; whatever connections it
    accepts, whatever they send and in whichever order their tasks run, every
    frame it answered with a signature was a sign request with a decision that
    this key signed for exactly that request and wallet, neither from the future
    nor past its age limit when the image read the clock to verify it, not a
    denial, and, where it demands a quorum, with at least that many approvals
    attached, each an unexpired, correctly signed Approve of this request over
    the hash of the message that was signed. *)
Theorem image_signs_authorised display key env bind cfg port tasks answered :
  boot_main true env bind = Returns (Ok (Listening cfg port)) →
  rtc (image_step display cfg key) (Up [] []) (Up tasks answered) →
  (∃ hex, env "QFC_POLICY_SERVICE_PUBKEY_HEX" = Some hex
     ∧ boot_hex_decode hex = Returns (Ok (boot_policy_service_pubkey cfg)))
  ∧ length (boot_policy_service_pubkey cfg) = 32%nat ∧ 0 ≤ port ≤ u32_max
  ∧ Forall (λ a, signs (ans_reply a) → authorised cfg (ans_now_ms a) (ans_frame a)) answered.
Proof.
  intros Hb Hr.
  assert (answers_authorised cfg (Up tasks answered)) as Ha.
  { remember (Up [] []) as i eqn:Hi. assert (answers_authorised cfg i) as H0' by (subst i; constructor). clear Hi.
    induction Hr as [|i j k Hs _ IH]; [done|]. by apply IH, (image_step_authorised display cfg key i). }
  unfold boot_main, load_policy_pubkey in Hb. destruct (env "QFC_POLICY_SERVICE_PUBKEY_HEX") as [hex|]; [|done].
  cbn [mbind panics_bind] in Hb. destruct (boot_hex_decode hex) as [[pk|]|] eqn:Hh; cbn in Hb; [|done..].
  destruct (decide (length pk = 32%nat)) as [Hl|Hl]; [|by rewrite (bool_decide_eq_false_2 _ Hl) in Hb].
  rewrite (bool_decide_eq_true_2 _ Hl) in Hb. cbn in Hb.
  destruct (bind _); [|done]. injection Hb as <- <-. cbn [boot_policy_service_pubkey].
  split; [by exists hex|]. split; [done|]. split; [|exact Ha].
  unfold vsock_port. destruct (env "QFC_ENCLAVE_VSOCK_PORT") as [s|]; [|by unfold u32_max; cbn].
  cbn [mbind option_bind]. destruct (parse_uint u32_max s) as [v|] eqn:Hv; [|by unfold u32_max; cbn].
  by apply parse_uint_bound in Hv; [|unfold u32_max].
Qed.
End life.

Module BootWitness.
Import Concrete ConcreteRlp NitroWitness2.

#[local] Instance ShamirParams_eq : EqDecision ShamirParams.
Proof. solve_decision. Defined.
#[local] Instance ShamirShare_eq : EqDecision ShamirShare.
Proof. solve_decision. Defined.
#[local] Instance AttestationPayload_eq : EqDecision AttestationPayload.
Proof. solve_decision. Defined.
#[local] Instance AttestationDoc_eq : EqDecision AttestationDoc.
Proof. solve_decision. Defined.
#[local] Instance NitroWireResponse_eq : EqDecision NitroWireResponse.
Proof. solve_decision. Defined.

(** A coding of one request and of the answer to it. *)
Definition request : NitroSignRequest := sign_req picked HybridWitness.dec [].
Definition response : NitroWireResponse :=
  match handle_sign cfg akey EnclaveWitness.ent request with Returns (Ok r) => r | _ => RespError "" end.
#[local] Instance serde : WireSerde := {|
  request_to_vec _ := Err "unused";
  request_from_slice bs := if bool_decide (bs = [x07]) then Ok (WireSign request) else Err "unknown";
  response_to_vec r := if bool_decide (r = response) then Ok [x08] else Err "unknown";
  response_from_slice _ := Err "unused";
|}.
Lemma request_in_range :
  (∀ sd, nsr_policy_decision request = Some sd → is_i64 (signed_at_unix_ms sd))
  ∧ Forall (λ ap, is_i64 (ap_timestamp_unix_ms ap)) (nsr_approvals request).
Proof.
  split; [|constructor]. change (nsr_policy_decision request) with (Some (HybridWitness.signed HybridWitness.dec)).
  intros sd Hsd. assert (sd = HybridWitness.signed HybridWitness.dec) as -> by congruence. split; discriminate.
Qed.
Lemma response_is r : handle_sign cfg akey EnclaveWitness.ent request = Returns (Ok r) → response = r.
Proof. unfold response. by intros ->. Qed.
Lemma answered : ∃ sig doc, response = RespSign sig wallet.1.2 doc
  ∧ handle_sign cfg akey EnclaveWitness.ent request = Returns (Ok response).
Proof.
  destruct (boot_wallet_signs_ok cfg akey EnclaveWitness.ent EnclaveWitness.ent gen wallet.1.1 wallet.1.2 wallet.2
           request [2%nat; 0%nat]) as (sig & doc & sg & Hh & _);
    [apply EnclaveWitness.ent_ok|apply EnclaveWitness.ent_ok|done|reflexivity|apply boot_verify_allow
    |apply (bool_decide_eq_true_1 _); vm_compute; reflexivity
    |repeat constructor; apply Nat.ltb_lt; vm_compute; reflexivity
    |done|reflexivity|reflexivity|reflexivity|reflexivity|].
  pose proof (response_is _ Hh) as Hr. exists sig, doc. split; [exact Hr|]. rewrite Hr. exact Hh.
Qed.
#[local] Opaque request response.
Lemma response_coded : response_to_vec response = Ok [x08].
Proof. cbn. by rewrite bool_decide_eq_true_2. Qed.
Lemma request_coded : request_from_slice [x07] = Ok (WireSign request).
Proof. cbn. by rewrite bool_decide_eq_true_2. Qed.
#[local] Instance serde_laws : WireSerdeLaws.
Proof.
  split; cbn.
  - intros r r' bs. case_bool_decide as Hr; [|discriminate]. case_bool_decide as Hr'; [|discriminate]. intros _ _. exact (eq_trans Hr (eq_sym Hr')).
  - intros r. case_bool_decide; discriminate.
  - intros bs req. case_bool_decide; [|discriminate]. intros Heq. injection Heq as <-. exact request_in_range.
Qed.

Definition env (name : string) : option string :=
  if String.eqb name "QFC_POLICY_SERVICE_PUBKEY_HEX" then Some (hex_encode (ed_public HybridWitness.key)) else None.

Lemma served_frame : serve_connection (λ _, "") cfg akey EnclaveWitness.ent (Some [x07]) = Returns (Some [x08]).
Proof.
  destruct answered as (_ & _ & _ & Hh). unfold serve_connection. rewrite request_coded. cbn [dispatch].
  rewrite Hh. unfold mbind, panics_bind. rewrite response_coded. reflexivity.
Qed.

Definition one : Answer := {| ans_frame := [x07]; ans_reply := [x08]; ans_now_ms := verify_ms EnclaveWitness.ent |}.

Example image_signs_authorised_witness :
  signs [x08] ∧ Forall (λ a, signs (ans_reply a) → authorised cfg (ans_now_ms a) (ans_frame a)) [one].
Proof.
  split.
  - destruct answered as (sig & doc & Hr & _). exists sig, wallet.1.2, doc. rewrite <-Hr. exact response_coded.
  - refine (proj2 (proj2 (proj2 (image_signs_authorised (λ _, "") akey env (λ _, Ok ()) cfg 5005 [] [one] _ _)))).
    + vm_compute. reflexivity.
    + eapply rtc_l; [apply (step_accept _ _ _ [] [] (Some [x07]))|].
      eapply rtc_l; [|apply rtc_refl].
      apply (step_answer _ _ _ [] [x07] [] [] EnclaveWitness.ent [x08]); [split; discriminate|exact served_frame].
Defined.
End BootWitness.
