(* ===== verification/Approval.v ===== *)
(** * Approval: approver identities and signed approvals (crate qfc-quorum)

    [identity.rs], [approval.rs] and the [verify_approval] hook of
    [approver.rs].  The enclave re-implements the approval preimage, hash choice
    and checks (HybridVerifier.v); the theorems here say the two copies agree. *)

From S2P Require Import Prelude Text Types External PolicyTypes SignedDecision Signers Rlp EvmDecoder HybridVerifier.
#[local] Open Scope string_scope.
#[local] Open Scope list_scope.
#[local] Open Scope Z_scope.

(** ** [identity.rs] *)

Record HardwareApproverHandle := {
  handle : string;
  hw_public_key : bytes;
  hw_scheme : SigningScheme;
}.

Inductive ApproverIdentity :=
  | Chain (chain_id : Z) (address public_key : bytes) (scheme : SigningScheme)
  | External (id : string) (public_key : bytes) (scheme : SigningScheme)
  | Hardware (h : HardwareApproverHandle)
  | NestedWallet (wallet_id : WalletId) (public_key : bytes) (scheme : SigningScheme).

#[export] Instance HardwareApproverHandle_eq_dec : EqDecision HardwareApproverHandle.
Proof. solve_decision. Defined.
#[export] Instance ApproverIdentity_eq_dec : EqDecision ApproverIdentity.
Proof. solve_decision. Defined.

Definition identity_public_key (i : ApproverIdentity) : bytes :=
  match i with
  | Chain _ _ pk _ | External _ pk _ | NestedWallet _ pk _ => pk
  | Hardware h => hw_public_key h
  end.

Definition identity_scheme (i : ApproverIdentity) : SigningScheme :=
  match i with
  | Chain _ _ _ s | External _ _ s | NestedWallet _ _ s => s
  | Hardware h => hw_scheme h
  end.

(** ** [approval.rs] *)

Definition MAX_APPROVAL_AGE_SECS : Z := 3600.

Inductive ApprovalDecision := Approve | Reject.
#[export] Instance ApprovalDecision_eq_dec : EqDecision ApprovalDecision.
Proof. solve_decision. Defined.

Record SignedApproval := {
  sa_approval_id : ApprovalId;
  sa_approver : ApproverIdentity;
  sa_request_id : RequestId;
  sa_message_hash : bytes;
  sa_decision : ApprovalDecision;
  sa_timestamp_unix_ms : Z;
  sa_signature : bytes;
}.

#[export] Instance SignedApproval_eq_dec : EqDecision SignedApproval.
Proof. solve_decision. Defined.

Inductive ApprovalVerifyError :=
  | WrongRequest
  | WrongMessage
  | Stale
  | FromTheFuture
  | AveSigner (e : SignerError).

(** [hash_alg_for]. *)
Definition hash_alg_for (s : SigningScheme) : HashAlg :=
  match s with
  | Ed25519 | MlDsa44 | MlDsa65 | MlDsa87 => HashNone
  | Secp256k1 | Secp256k1Recoverable => Sha256
  end.

Record ApprovalRequest := {
  ar_request_id : RequestId;
  ar_message_hash : bytes;
  ar_approver_set : list ApproverIdentity;
  ar_threshold : Z;
}.

(** ** [approver.rs] *)

Inductive QuorumError :=
  | Transport (why : string)
  | Timeout (after_ns : Z)
  | QeInvalidApproval (e : ApprovalVerifyError)
  | UnknownApprover (key : string).

Section approval.
Context `{UlidCrate, JsonCrate, DigestCrate, Ed25519Crate, K256Crate, MlDsaCrate, RlpCrate}.

(** [ApproverIdentity::key]. *)
Definition identity_key (i : ApproverIdentity) : string :=
  match i with
  | Chain chain_id address _ _ => "chain:" +:+ show_dec chain_id +:+ ":" +:+ hex_encode address
  | External id _ _ => "external:" +:+ id
  | Hardware h => "hardware:" +:+ handle h
  | NestedWallet w _ _ => "nested:" +:+ ulid_to_string (WalletId_ulid w)
  end.

Definition signing_preimage (a : ApprovalId) (r : RequestId) (message_hash : bytes)
    (d : ApprovalDecision) (timestamp_unix_ms : Z) : bytes :=
  string_bytes (ulid_to_string (ApprovalId_ulid a)) ++ string_bytes "|"
  ++ string_bytes (ulid_to_string (RequestId_ulid r)) ++ string_bytes "|"
  ++ message_hash ++ string_bytes "|"
  ++ [match d with Approve => x01 | Reject => x00 end] ++ string_bytes "|"
  ++ be_bytes 8 timestamp_unix_ms.

(** [SignedApproval::preimage]. *)
Definition preimage (a : SignedApproval) : bytes :=
  signing_preimage (sa_approval_id a) (sa_request_id a) (sa_message_hash a) (sa_decision a)
    (sa_timestamp_unix_ms a).

(** [SignedApproval::verify]. *)
Definition approval_verify (a : SignedApproval) (expected_request_id : RequestId)
    (expected_message_hash : bytes) (now : Z) : result ApprovalVerifyError () :=
  _ ← ensure (bool_decide (sa_request_id a = expected_request_id)) WrongRequest;
  _ ← ensure (bool_decide (sa_message_hash a = expected_message_hash)) WrongMessage;
  let age_ms := i64_saturating_sub now (sa_timestamp_unix_ms a) in
  _ ← ensure (negb (age_ms <? 0)) FromTheFuture;
  _ ← ensure (negb (MAX_APPROVAL_AGE_SECS <? i64_div age_ms 1000)) Stale;
  map_err AveSigner
    (dispatch_signer (identity_scheme (sa_approver a)) (λ sg,
       Signers.verify sg (identity_public_key (sa_approver a)) (preimage a) (sa_signature a)
         (hash_alg_for (identity_scheme (sa_approver a))))).

(** [ApprovalRequest::message_hash_for]. *)
Definition message_hash_for (message : bytes) : bytes := sha256 message.

(** The default body of [QuorumApprover::verify_approval]; it checks the
    approval against its own request id. *)
Definition verify_approval (a : SignedApproval) (expected : ApproverIdentity)
    (expected_message_hash : bytes) (now : Z) : result QuorumError () :=
  if bool_decide (expected = sa_approver a) then
    map_err QeInvalidApproval (approval_verify a (sa_request_id a) expected_message_hash now)
  else Err (UnknownApprover (identity_key (sa_approver a))).

(** ** The enclave's view of an approval *)

Definition enclave_view (a : SignedApproval) : EnclaveApproval := {|
  ap_approval_id := sa_approval_id a;
  ap_public_key := identity_public_key (sa_approver a);
  ap_scheme := identity_scheme (sa_approver a);
  ap_request_id := sa_request_id a;
  ap_message_hash := sa_message_hash a;
  ap_decision := match sa_decision a with Approve => EnclaveApprove | Reject => EnclaveReject end;
  ap_timestamp_unix_ms := sa_timestamp_unix_ms a;
  ap_signature := sa_signature a |}.

Lemma enclave_preimage a : approval_preimage (enclave_view a) = preimage a.
Proof. unfold approval_preimage, preimage, signing_preimage. by destruct a as [????[]??]. Qed.

Lemma enclave_hash_alg s : approval_hash_alg s = hash_alg_for s.
Proof. by destruct s. Qed.

Lemma approval_verify_ok a r h now :
  approval_verify a r h now = Ok () ↔
  sa_request_id a = r ∧ sa_message_hash a = h
  ∧ 0 ≤ i64_saturating_sub now (sa_timestamp_unix_ms a)
  ∧ i64_div (i64_saturating_sub now (sa_timestamp_unix_ms a)) 1000 ≤ MAX_APPROVAL_AGE_SECS
  ∧ dispatch_signer (identity_scheme (sa_approver a)) (λ sg,
       Signers.verify sg (identity_public_key (sa_approver a)) (preimage a) (sa_signature a)
         (hash_alg_for (identity_scheme (sa_approver a)))) = Ok ().
Proof.
  unfold approval_verify.
  by rewrite !ensure_bind_ok, map_err_ok, !bool_decide_eq_true, !negb_true_iff, !Z.ltb_ge.
Qed.

Lemma check_approval_iff req h now ap :
  check_approval req h now ap = Ok () ↔
  ap_request_id ap = request_id req ∧ ap_message_hash ap = h
  ∧ 0 ≤ i64_saturating_sub now (ap_timestamp_unix_ms ap)
  ∧ i64_div (i64_saturating_sub now (ap_timestamp_unix_ms ap)) 1000 ≤ MAX_APPROVAL_AGE_SECS_VERIFIER
  ∧ ap_decision ap = EnclaveApprove
  ∧ dispatch_signer (ap_scheme ap) (λ sg,
       Signers.verify sg (ap_public_key ap) (approval_preimage ap) (ap_signature ap)
         (approval_hash_alg (ap_scheme ap))) = Ok ().
Proof.
  unfold check_approval.
  rewrite !ensure_bind_ok, map_err_ok, !bool_decide_eq_true, !negb_true_iff, !Z.ltb_ge,
    bool_decide_eq_false.
  assert (ap_decision ap ≠ EnclaveReject ↔ ap_decision ap = EnclaveApprove) as -> by
    (destruct (ap_decision ap); naive_solver).
  done.
Qed.

(** ** Properties *)

(** C28. The enclave's copy of the approval check agrees with the quorum crate's: its
    preimage is byte-for-byte the one the approver signed, and it counts an
    approval exactly when the quorum crate verifies it for the same request,
    message hash and time and it is an [Approve]. *)
Theorem enclave_agrees_with_quorum a req h now :
  approval_preimage (enclave_view a) = preimage a
  ∧ (check_approval req h now (enclave_view a) = Ok () ↔
     approval_verify a (request_id req) h now = Ok () ∧ sa_decision a = Approve).
Proof.
  split; [apply enclave_preimage|].
  rewrite check_approval_iff, approval_verify_ok, enclave_preimage, enclave_hash_alg.
  cbn [enclave_view ap_request_id ap_message_hash ap_timestamp_unix_ms ap_decision ap_scheme
       ap_public_key ap_signature].
  unfold MAX_APPROVAL_AGE_SECS_VERIFIER, MAX_APPROVAL_AGE_SECS.
  destruct (sa_decision a); naive_solver.
Qed.

(** The preimage binds every signed field: approvals with the same preimage are
    for the same approval action, request, message hash, decision and time. *)
Theorem approval_preimage_binds `{!UlidLaws} a b :
  is_ulid (ApprovalId_ulid (sa_approval_id a)) → is_ulid (ApprovalId_ulid (sa_approval_id b)) →
  is_ulid (RequestId_ulid (sa_request_id a)) → is_ulid (RequestId_ulid (sa_request_id b)) →
  length (sa_message_hash a) = 32%nat → length (sa_message_hash b) = 32%nat →
  is_i64 (sa_timestamp_unix_ms a) → is_i64 (sa_timestamp_unix_ms b) →
  preimage a = preimage b →
  sa_approval_id a = sa_approval_id b ∧ sa_request_id a = sa_request_id b
  ∧ sa_message_hash a = sa_message_hash b ∧ sa_decision a = sa_decision b
  ∧ sa_timestamp_unix_ms a = sa_timestamp_unix_ms b.
Proof.
  intros Ha Hb Hra Hrb Hha Hhb Hta Htb. unfold preimage, signing_preimage.
  intros [Hid Heq]%app_inj_1; [|by rewrite !ulid_bytes_length].
  apply app_inj_1 in Heq as [_ Heq]; [|done].
  apply app_inj_1 in Heq as [Hr Heq]; [|by rewrite !ulid_bytes_length].
  apply app_inj_1 in Heq as [_ Heq]; [|done].
  apply app_inj_1 in Heq as [Hh Heq]; [|by rewrite Hha].
  apply app_inj_1 in Heq as [_ Heq]; [|done].
  apply app_inj_1 in Heq as [Hd Heq]; [|done].
  apply app_inj_1 in Heq as [_ Ht]; [|done].
  apply ulid_bytes_inj in Hid; [|done..]. apply ulid_bytes_inj in Hr; [|done..].
  apply be_bytes_i64_inj in Ht; [|done..].
  destruct a as [[?] ? [?] ? [] ? ?], b as [[?] ? [?] ? [] ? ?]; cbn in *; naive_solver.
Qed.

End approval.

Module ApprovalWitness.
Import Concrete.

Definition unsigned : SignedApproval := {|
  sa_approval_id := ApprovalId_from_ulid 1;
  sa_approver := External "alice" (ed_public (be_bytes 32 9)) Ed25519;
  sa_request_id := RequestId_from_ulid 3; sa_message_hash := replicate 32 x07;
  sa_decision := Approve; sa_timestamp_unix_ms := 2000; sa_signature := [] |}.

Example approval_preimage_binds_witness :
  preimage unsigned = preimage unsigned
  ∧ sa_timestamp_unix_ms unsigned = sa_timestamp_unix_ms unsigned.
Proof.
  split; [reflexivity|].
  apply (approval_preimage_binds unsigned unsigned); try reflexivity; split; vm_compute; congruence.
Defined.

End ApprovalWitness.
