(* ===== verification/Registry.v ===== *)
(** * Registry: approvers and approver sets ([registry/types.rs], [registry/memory.rs])

    The in-memory registry's two tables, its operations, and the depth-first
    walk over nested-wallet membership.  A [HashMap] is a [gmap]; the order in
    which its values are visited is unspecified in Rust and is a parameter
    ([HashOrder]).  Identifiers and times an operation draws are arguments. *)

From S2P Require Import Prelude Text Types External Approval.
#[local] Open Scope string_scope.
#[local] Open Scope list_scope.
#[local] Open Scope Z_scope.

(** ** [registry/types.rs] *)

Definition MAX_NESTING_DEPTH : Z := 3.

Inductive ApproverStatus := Active | Revoked.
#[export] Instance ApproverStatus_eq_dec : EqDecision ApproverStatus.
Proof. solve_decision. Defined.

Record ApproverRecord := {
  rec_approver_id : ApproverId;
  identity : ApproverIdentity;
  rec_scheme : SigningScheme;
  rec_label : string;
  rec_owner_id : OwnerId;
  webhook_url : option string;
  status : ApproverStatus;
  added_at_unix_ms : Z;
}.

Record ApproverSet := {
  set_id : ApproverSetId;
  set_name : string;
  set_owner_id : OwnerId;
  members : list ApproverId;
  set_threshold : Z;
  set_total : Z;
  quorum_timeout_secs : option Z;
  created_at_unix_ms : Z;
}.

Record ApproverCreate := {
  ac_identity : ApproverIdentity;
  ac_label : string;
  ac_owner_id : OwnerId;
  ac_webhook_url : option string;
}.

Record ApproverSetCreate := {
  sc_name : string;
  sc_owner_id : OwnerId;
  sc_members : list ApproverId;
  sc_threshold : Z;
  sc_total : Z;
  sc_quorum_timeout_secs : option Z;
}.

Inductive RegistryError :=
  | RegIo (why : string)
  | ApproverNotFound (id : ApproverId)
  | ApproverSetNotFound (id : ApproverSetId)
  | UnknownMember (id : ApproverId)
  | RevokedMember (id : ApproverId)
  | MemberCountMismatch (members : nat) (total : Z)
  | InvalidThreshold (threshold total : Z)
  | DuplicateMember (id : ApproverId)
  | NestingCycle (w : WalletId)
  | NestingTooDeep (limit : Z).

(** The duplicate scan: [seen] is the set built so far. *)
Fixpoint check_unique (seen : gset ApproverId) (ms : list ApproverId) : result RegistryError () :=
  match ms with
  | [] => Ok ()
  | m :: ms => if bool_decide (m ∈ seen) then Err (DuplicateMember m)
               else check_unique ({[m]} ∪ seen) ms
  end.

Definition validate_set_shape (create : ApproverSetCreate) : result RegistryError () :=
  if (sc_threshold create =? 0) || (sc_total create <? sc_threshold create)
  then Err (InvalidThreshold (sc_threshold create) (sc_total create))
  else if negb (Z.of_nat (length (sc_members create)) =? sc_total create)
  then Err (MemberCountMismatch (length (sc_members create)) (sc_total create))
  else check_unique ∅ (sc_members create).

(** ** [registry/memory.rs] *)

Record Inner := {
  approvers : gmap ApproverId ApproverRecord;
  sets : gmap ApproverSetId ApproverSet;
}.

Definition registry_new : Inner := {| approvers := ∅; sets := ∅ |}.

(** The order in which a hash map's values come out. *)
Class HashOrder := { hash_order : ∀ {A : Type}, list A → list A }.
Class HashOrderLaws `{HashOrder} : Prop :=
  { hash_order_perm : ∀ A (l : list A), hash_order l ≡ₚ l }.

(** [HashMap::values]. *)
Definition values `{HashOrder} {K A} `{Countable K} (m : gmap K A) : list A :=
  hash_order (map_to_list m).*2.

Definition add_approver (fresh : ApproverId) (now : Z) (create : ApproverCreate) (st : Inner)
    : result RegistryError ApproverRecord * Inner :=
  let record := {|
    rec_approver_id := fresh; identity := ac_identity create;
    rec_scheme := identity_scheme (ac_identity create); rec_label := ac_label create;
    rec_owner_id := ac_owner_id create; webhook_url := ac_webhook_url create;
    status := Active; added_at_unix_ms := now |} in
  (Ok record, {| approvers := <[fresh := record]> (approvers st); sets := sets st |}).

Definition with_status (r : ApproverRecord) (s : ApproverStatus) : ApproverRecord := {|
  rec_approver_id := rec_approver_id r; identity := identity r; rec_scheme := rec_scheme r;
  rec_label := rec_label r; rec_owner_id := rec_owner_id r; webhook_url := webhook_url r;
  status := s; added_at_unix_ms := added_at_unix_ms r |}.

Definition revoke_approver (id : ApproverId) (st : Inner) : result RegistryError () * Inner :=
  match approvers st !! id with
  | None => (Err (ApproverNotFound id), st)
  | Some rec =>
      (Ok (), {| approvers := <[id := with_status rec Revoked]> (approvers st); sets := sets st |})
  end.

Definition get_approver (id : ApproverId) (st : Inner) : result RegistryError ApproverRecord :=
  ok_or (approvers st !! id) (ApproverNotFound id).

Definition get_approver_set (id : ApproverSetId) (st : Inner) : result RegistryError ApproverSet :=
  ok_or (sets st !! id) (ApproverSetNotFound id).

(** The wallet a member stands for, when it is a nested wallet. *)
Definition nested_of (aps : gmap ApproverId ApproverRecord) (m : ApproverId) : option WalletId :=
  match aps !! m with
  | Some rec => match identity rec with NestedWallet w _ _ => Some w | _ => None end
  | None => None
  end.

(** What the three inner loops push, in order, when [w] is visited at depth
    [d]: once per member of a set that stands for [w], every other nested
    wallet of that set. *)
Definition push_others (aps : gmap ApproverId ApproverRecord) (s : ApproverSet) (w : WalletId) (d : Z)
    : list (WalletId * Z) :=
  flat_map (λ other,
    match nested_of aps other with
    | Some ow => if bool_decide (ow = w) then [] else [(ow, d + 1)]
    | None => []
    end) (members s).

Definition continuations (aps : gmap ApproverId ApproverRecord) (ss : list ApproverSet)
    (w : WalletId) (d : Z) : list (WalletId * Z) :=
  flat_map (λ s,
    flat_map (λ member,
      match nested_of aps member with
      | Some wallet_id => if bool_decide (wallet_id = w) then push_others aps s w d else []
      | None => []
      end) (members s)) ss.

(** The [while let Some(..) = stack.pop()] loop; the head of the list is the top
    of the stack, [None] is running out of fuel. *)
Fixpoint walk_loop (fuel : nat) (ss : list ApproverSet) (aps : gmap ApproverId ApproverRecord)
    (visited : gset WalletId) (stack : list (WalletId * Z)) : option (result RegistryError ()) :=
  match fuel with
  | O => None
  | S fuel =>
      match stack with
      | [] => Some (Ok ())
      | (w, d) :: stack =>
          if MAX_NESTING_DEPTH <? d then Some (Err (NestingTooDeep MAX_NESTING_DEPTH))
          else if bool_decide (w ∈ visited) then Some (Err (NestingCycle w))
          else walk_loop fuel ss aps ({[w]} ∪ visited) (rev (continuations aps ss w d) ++ stack)
      end
  end.

(** Every wallet popped is [start] or named by an approver record, and a wallet
    popped twice ends the loop. *)
Definition walk_fuel (aps : gmap ApproverId ApproverRecord) : nat := S (S (size aps)).

Definition walk_nested (start : WalletId) (ss : list ApproverSet)
    (aps : gmap ApproverId ApproverRecord) (depth : Z) : option (result RegistryError ()) :=
  walk_loop (walk_fuel aps) ss aps ∅ [(start, depth)].

(** The member loop of [create_approver_set]: the nested wallets, in order. *)
Fixpoint resolve_members (aps : gmap ApproverId ApproverRecord) (ms : list ApproverId)
    : result RegistryError (list WalletId) :=
  match ms with
  | [] => Ok []
  | m :: ms =>
      rec ← ok_or (aps !! m) (UnknownMember m);
      _ ← ensure (bool_decide (status rec = Active)) (RevokedMember m);
      rest ← resolve_members aps ms;
      mret (match identity rec with NestedWallet w _ _ => w :: rest | _ => rest end)
  end.

Fixpoint walk_all (ss : list ApproverSet) (aps : gmap ApproverId ApproverRecord)
    (ws : list WalletId) : option (result RegistryError ()) :=
  match ws with
  | [] => Some (Ok ())
  | w :: ws =>
      r ← walk_nested w ss aps 0;
      match r with Ok _ => walk_all ss aps ws | Err e => Some (Err e) end
  end.

Definition new_set (fresh : ApproverSetId) (now : Z) (create : ApproverSetCreate) : ApproverSet := {|
  set_id := fresh; set_name := sc_name create; set_owner_id := sc_owner_id create;
  members := sc_members create; set_threshold := sc_threshold create;
  set_total := sc_total create; quorum_timeout_secs := sc_quorum_timeout_secs create;
  created_at_unix_ms := now |}.

Section registry.
Context `{HashOrder}.

Definition create_approver_set (fresh : ApproverSetId) (now : Z) (create : ApproverSetCreate)
    (st : Inner) : option (result RegistryError ApproverSet * Inner) :=
  match validate_set_shape create with
  | Err e => Some (Err e, st)
  | Ok _ =>
      match resolve_members (approvers st) (sc_members create) with
      | Err e => Some (Err e, st)
      | Ok nested_wallets =>
          r ← walk_all (values (sets st)) (approvers st) nested_wallets;
          match r with
          | Err e => Some (Err e, st)
          | Ok _ =>
              let set := new_set fresh now create in
              Some (Ok set, {| approvers := approvers st; sets := <[fresh := set]> (sets st) |})
          end
      end
  end.

Definition added_before (a b : ApproverRecord) : Prop := added_at_unix_ms a ≤ added_at_unix_ms b.
#[local] Instance added_before_dec a b : Decision (added_before a b) := Z_le_dec _ _.

Definition list_approvers_by_owner (owner : OwnerId) (include_revoked : bool) (st : Inner)
    : list ApproverRecord :=
  merge_sort added_before
    (List.filter (λ r, include_revoked || bool_decide (status r = Active))
      (List.filter (λ r, bool_decide (rec_owner_id r = owner)) (values (approvers st)))).

Definition created_before (a b : ApproverSet) : Prop := created_at_unix_ms a ≤ created_at_unix_ms b.
#[local] Instance created_before_dec a b : Decision (created_before a b) := Z_le_dec _ _.

Definition list_approver_sets (owner : OwnerId) (st : Inner) : list ApproverSet :=
  merge_sort created_before
    (List.filter (λ s, bool_decide (set_owner_id s = owner)) (values (sets st))).

(** ** Lemmas *)

Lemma check_unique_ok seen ms :
  check_unique seen ms = Ok () ↔ NoDup ms ∧ ∀ m, m ∈ ms → m ∉ seen.
Proof.
  revert seen. induction ms as [|m ms IH]; intros seen; cbn.
  - split; [|done]. intros _. split; [constructor|]. by intros m ?%elem_of_nil.
  - case_bool_decide as Hm.
    { split; [done|]. intros [_ Hn]. destruct (Hn m); [by left|done]. }
    rewrite IH, NoDup_cons. split.
    + intros [Hnd Hn]. split; [split; [|done]|].
      * intros Hin. apply (Hn m Hin). set_solver.
      * intros x [->|Hx]%elem_of_cons; [done|]. specialize (Hn x Hx). set_solver.
    + intros [[Hni Hnd] Hn]. split; [done|]. intros x Hx.
      assert (x ≠ m) by congruence. specialize (Hn x ltac:(by right)). set_solver.
Qed.

(** What [validate_set_shape] accepts. *)
Definition shape_ok (create : ApproverSetCreate) : Prop :=
  sc_threshold create ≠ 0 ∧ sc_threshold create ≤ sc_total create
  ∧ Z.of_nat (length (sc_members create)) = sc_total create ∧ NoDup (sc_members create).

Lemma validate_set_shape_ok create : validate_set_shape create = Ok () ↔ shape_ok create.
Proof.
  unfold validate_set_shape, shape_ok.
  destruct (Z.eqb_spec (sc_threshold create) 0); cbn; [naive_solver|].
  destruct (Z.ltb_spec (sc_total create) (sc_threshold create)); cbn; [naive_solver lia|].
  destruct (Z.eqb_spec (Z.of_nat (length (sc_members create))) (sc_total create)); cbn; [|naive_solver].
  rewrite check_unique_ok. set_solver.
Qed.

Definition member_active (aps : gmap ApproverId ApproverRecord) (m : ApproverId) : Prop :=
  ∃ rec, aps !! m = Some rec ∧ status rec = Active.

Lemma resolve_members_ok aps ms ws :
  resolve_members aps ms = Ok ws ↔ Forall (member_active aps) ms ∧ ws = omap (nested_of aps) ms.
Proof.
  revert ws. induction ms as [|m ms IH]; intros ws; cbn [resolve_members omap list_omap].
  { split; [intros [= <-]; by split; [constructor|]|]. by intros [_ ->]. }
  rewrite result_bind_ok. unfold nested_of at 1. split.
  - intros (rec & Hrec%ok_or_ok & Hr). apply ensure_bind_ok in Hr as [Ha%bool_decide_eq_true Hr].
    apply result_bind_ok in Hr as (rest & Hrest%IH & Heq). destruct Hrest as [Hall ->].
    injection Heq as <-. split; [constructor; [by exists rec|done]|].
    rewrite Hrec. by destruct (identity rec).
  - intros [[(rec & Hrec & Ha) Hall]%Forall_cons ->]. exists rec. rewrite Hrec. split; [done|].
    apply ensure_bind_ok. split; [by apply bool_decide_eq_true|].
    rewrite (proj2 (IH (omap (nested_of aps) ms))) by done. cbn [mbind result_bind].
    by destruct (identity rec).
Qed.

(** *** The walk *)

(** The nested wallets of a set. *)
Definition nested_in (aps : gmap ApproverId ApproverRecord) (s : ApproverSet) (w : WalletId) : Prop :=
  ∃ m, m ∈ members s ∧ nested_of aps m = Some w.

Lemma elem_of_continuations aps ss w d x e :
  (x, e) ∈ continuations aps ss w d ↔
  e = d + 1 ∧ x ≠ w ∧ ∃ s, s ∈ ss ∧ nested_in aps s w ∧ nested_in aps s x.
Proof.
  unfold continuations, push_others, nested_in. rewrite list_elem_of_In, in_flat_map. split.
  - intros (s & Hs & Hin). apply in_flat_map in Hin as (m & Hm & Hin).
    destruct (nested_of aps m) as [w'|] eqn:Hw; [|done]. case_bool_decide; [subst|done].
    apply in_flat_map in Hin as (o & Ho & Hin).
    destruct (nested_of aps o) as [ow|] eqn:How; [|done]. case_bool_decide; [done|].
    destruct Hin as [[= -> <-]|[]]. split; [done|]. split; [done|].
    exists s. rewrite !list_elem_of_In. split; [done|].
    split; [exists m|exists o]; by rewrite list_elem_of_In.
  - intros (-> & Hne & s & Hs & (m & Hm & Hw) & (o & Ho & Hx)).
    exists s. rewrite <-list_elem_of_In. split; [done|]. apply in_flat_map. exists m.
    rewrite <-list_elem_of_In. split; [done|]. rewrite Hw, bool_decide_eq_true_2 by done.
    apply in_flat_map. exists o. rewrite <-list_elem_of_In. split; [done|].
    rewrite Hx, bool_decide_eq_false_2 by done. by left.
Qed.

(** The wallets approver records name. *)
Definition named_wallets (aps : gmap ApproverId ApproverRecord) : gset WalletId :=
  list_to_set (omap (nested_of aps) (map_to_list aps).*1).

Lemma nested_of_named aps m w : nested_of aps m = Some w → w ∈ named_wallets aps.
Proof.
  intros Hw. unfold named_wallets. rewrite elem_of_list_to_set, list_elem_of_omap.
  exists m. split; [|done]. unfold nested_of in Hw. destruct (aps !! m) as [r|] eqn:Hm; [|done].
  apply list_elem_of_fmap. exists (m, r). split; [done|]. by apply elem_of_map_to_list.
Qed.

Lemma named_wallets_size aps : (size (named_wallets aps) ≤ size aps)%nat.
Proof.
  unfold named_wallets. rewrite <-length_map_to_list.
  generalize (map_to_list aps). intros l.
  induction l as [|[k r] l IH]; cbn; [done|]. destruct (nested_of aps k) as [w|]; cbn; [|lia].
  rewrite size_union_alt, size_singleton.
  enough (size (list_to_set (omap (nested_of aps) l.*1) ∖ {[w]} : gset WalletId)
          ≤ size (list_to_set (omap (nested_of aps) l.*1) : gset WalletId))%nat by lia.
  apply subseteq_size. set_solver.
Qed.

Lemma walk_loop_terminates fuel ss aps (U visited : gset WalletId) stack :
  named_wallets aps ⊆ U → (∀ w d, (w, d) ∈ stack → w ∈ U) →
  (size (U ∖ visited) < fuel)%nat → ∃ r, walk_loop fuel ss aps visited stack = Some r.
Proof.
  revert visited stack. induction fuel as [|fuel IH]; intros visited stack HU Hst Hfuel; [lia|].
  cbn. destruct stack as [|[w d] stack]; [by eexists|].
  destruct (MAX_NESTING_DEPTH <? d); [by eexists|]. case_bool_decide as Hw; [by eexists|].
  apply IH; [done| |].
  - intros x e [Hx|Hx]%elem_of_app; [|apply (Hst x e); by right].
    apply list_elem_of_In, in_rev, list_elem_of_In in Hx.
    apply elem_of_continuations in Hx as (_ & _ & s & _ & _ & m & _ & Hm).
    apply HU. by eapply nested_of_named.
  - assert (w ∈ U) by (apply (Hst w d); by left).
    enough (size (U ∖ ({[w]} ∪ visited)) < size (U ∖ visited))%nat by lia.
    apply subset_size. set_solver.
Qed.

Lemma walk_nested_total start ss aps depth : ∃ r, walk_nested start ss aps depth = Some r.
Proof.
  apply (walk_loop_terminates _ _ _ ({[start]} ∪ named_wallets aps)); [set_solver| |].
  - intros w d [= -> ->]%list_elem_of_singleton. set_solver.
  - unfold walk_fuel. rewrite difference_empty_L.
    pose proof (named_wallets_size aps). rewrite (size_union_alt {[start]}), size_singleton.
    pose proof (subseteq_size (named_wallets aps ∖ {[start]}) (named_wallets aps)). set_solver by lia.
Qed.

(** A stack that holds a wallet already visited never empties. *)
Lemma walk_loop_revisit fuel ss aps visited stack w d :
  (w, d) ∈ stack → w ∈ visited → walk_loop fuel ss aps visited stack ≠ Some (Ok ()).
Proof.
  revert visited stack. induction fuel as [|fuel IH]; intros visited stack Hin Hv; cbn; [done|].
  destruct stack as [|[x e] stack]; [by apply elem_of_nil in Hin|].
  destruct (MAX_NESTING_DEPTH <? e); [done|]. case_bool_decide as Hx; [done|].
  apply elem_of_cons in Hin as [[= -> ->]|Hin]; [done|].
  apply IH; [set_solver|set_solver].
Qed.

(** Two wallets of one set: visiting one pushes the other, and visiting the
    other pushes the first again. *)
Lemma walk_loop_pair fuel ss aps visited stack s w x d :
  s ∈ ss → nested_in aps s w → nested_in aps s x → x ≠ w →
  (x, d) ∈ stack → w ∈ visited → walk_loop fuel ss aps visited stack ≠ Some (Ok ()).
Proof.
  intros Hs Hw Hx Hne. revert visited stack.
  induction fuel as [|fuel IH]; intros visited stack Hin Hv; cbn; [done|].
  destruct stack as [|[y e] stack]; [by apply elem_of_nil in Hin|].
  destruct (MAX_NESTING_DEPTH <? e); [done|]. case_bool_decide as Hy; [done|].
  apply elem_of_cons in Hin as [[= -> ->]|Hin].
  - apply (walk_loop_revisit _ _ _ _ _ w (e + 1)); [|set_solver].
    apply elem_of_app. left. apply list_elem_of_In. rewrite <-in_rev. apply list_elem_of_In.
    apply elem_of_continuations. split; [done|]. split; [done|]. eauto.
  - apply IH; set_solver.
Qed.

(** [w] shares no set with another nested wallet. *)
Definition alone (aps : gmap ApproverId ApproverRecord) (ss : list ApproverSet) (w : WalletId) : Prop :=
  ∀ s x, s ∈ ss → nested_in aps s w → nested_in aps s x → x = w.

Lemma walk_nested_ok start ss aps :
  walk_nested start ss aps 0 = Some (Ok ()) ↔ alone aps ss start.
Proof.
  assert (walk_nested start ss aps 0 = walk_loop (S (size aps)) ss aps ({[start]} ∪ ∅)
            (rev (continuations aps ss start 0) ++ [])) as -> by done.
  split.
  - intros Hw s x Hs Hst Hx. destruct (decide (x = start)) as [|Hne]; [done|]. exfalso. revert Hw.
    apply (walk_loop_pair _ _ _ _ _ s start x 1); [done..| |set_solver].
    rewrite app_nil_r. apply list_elem_of_In. rewrite <-in_rev. apply list_elem_of_In.
    apply elem_of_continuations. split; [done|]. split; [done|]. eauto.
  - intros Ha. assert (continuations aps ss start 0 = []) as ->; [|done].
    apply elem_of_nil_inv. intros [x e] Hx.
    apply elem_of_continuations in Hx as (_ & Hne & s & Hs & Hst & Hx). by apply Hne, (Ha s).
Qed.

Lemma walk_all_decides ss aps ws :
  ∃ r, walk_all ss aps ws = Some r ∧ (r = Ok () ↔ Forall (alone aps ss) ws).
Proof.
  induction ws as [|w ws (r & Hr & IH)]; cbn [walk_all]; [by eexists|].
  destruct (walk_nested_total w ss aps 0) as [q Hq]. pose proof (walk_nested_ok w ss aps) as Hw.
  rewrite Hq in Hw |- *. cbn [mbind option_bind]. destruct q as [[]|e].
  - exists r. rewrite Forall_cons, <-Hw, <-IH. naive_solver.
  - exists (Err e). rewrite Forall_cons, <-Hw, <-IH. naive_solver.
Qed.

(** *** The state machine of the registry *)

(** One completed operation that changes the tables; fresh identifiers are
    identifiers no record carries yet. *)
Inductive reg_step : Inner → Inner → Prop :=
  | step_add fresh now create st r st' :
      approvers st !! fresh = None → add_approver fresh now create st = (r, st') → reg_step st st'
  | step_revoke id st r st' : revoke_approver id st = (r, st') → reg_step st st'
  | step_create fresh now create st r st' :
      sets st !! fresh = None → create_approver_set fresh now create st = Some (r, st') →
      reg_step st st'.

(** A stored set: keyed by its own id, a roster of distinct registered members
    whose number is [total], and a threshold a full roster can meet. *)
Definition set_ok (aps : gmap ApproverId ApproverRecord) (id : ApproverSetId) (s : ApproverSet) : Prop :=
  set_id s = id ∧ set_threshold s ≠ 0 ∧ set_threshold s ≤ set_total s
  ∧ Z.of_nat (length (members s)) = set_total s ∧ NoDup (members s)
  ∧ ∀ m, m ∈ members s → is_Some (aps !! m).

Definition record_ok (id : ApproverId) (r : ApproverRecord) : Prop :=
  rec_approver_id r = id ∧ rec_scheme r = identity_scheme (identity r).

Definition registry_ok (st : Inner) : Prop :=
  map_Forall record_ok (approvers st) ∧ map_Forall (set_ok (approvers st)) (sets st).

(** A record never changes except for its status, and never leaves [Revoked]. *)
Definition record_le (r r' : ApproverRecord) : Prop :=
  r' = r ∨ r' = with_status r Revoked.

Definition registry_le (st st' : Inner) : Prop :=
  (∀ id r, approvers st !! id = Some r → ∃ r', approvers st' !! id = Some r' ∧ record_le r r')
  ∧ sets st ⊆ sets st'.

#[export] Instance registry_le_preorder : PreOrder registry_le.
Proof.
  split.
  - intros st. split; [|done]. intros id r Hr. exists r. split; [done|by left].
  - intros a b c [H1' H1s] [H2' H2s]. split; [|by trans (sets b)]. intros id r Hr.
    destruct (H1' _ _ Hr) as (r' & Hr' & Hle'). destruct (H2' _ _ Hr') as (r'' & Hr'' & Hle'').
    exists r''. split; [done|]. destruct Hle' as [->| ->], Hle'' as [->| ->];
      [by left|by right|by right|right; by destruct r].
Qed.

(** The result of [create_approver_set], case by case. *)
Lemma create_approver_set_cases `{!HashOrderLaws} fresh now create st :
  ∃ r, create_approver_set fresh now create st =
         Some (r, match r with
                  | Ok s => {| approvers := approvers st; sets := <[fresh := s]> (sets st) |}
                  | Err _ => st
                  end)
  ∧ (∀ s, r = Ok s → s = new_set fresh now create)
  ∧ ((∃ s, r = Ok s) ↔ shape_ok create ∧ Forall (member_active (approvers st)) (sc_members create)
      ∧ ∀ m w, m ∈ sc_members create → nested_of (approvers st) m = Some w →
          alone (approvers st) (map_to_list (sets st)).*2 w).
Proof.
  unfold create_approver_set. pose proof (validate_set_shape_ok create) as Hshape.
  destruct (validate_set_shape create) as [[]|e]; [|exists (Err e); naive_solver].
  destruct (resolve_members _ _) as [ws|e] eqn:Hres; last first.
  { exists (Err e). split; [done|]. split; [done|]. split; [by intros [? ?]|].
    intros (_ & Hall & _). by rewrite (proj2 (resolve_members_ok _ _ _) (conj Hall eq_refl)) in Hres. }
  apply resolve_members_ok in Hres as [Hall ->].
  destruct (walk_all_decides (values (sets st)) (approvers st)
              (omap (nested_of (approvers st)) (sc_members create))) as (r & -> & Hr).
  cbn [mbind option_bind].
  assert (r = Ok () ↔ ∀ m w, m ∈ sc_members create → nested_of (approvers st) m = Some w →
          alone (approvers st) (map_to_list (sets st)).*2 w) as Hr'.
  { rewrite Hr, Forall_forall. unfold alone, values.
    setoid_rewrite (hash_order_perm _ (map_to_list (sets st)).*2).
    setoid_rewrite list_elem_of_omap. naive_solver. }
  destruct r as [[]|e].
  - exists (Ok (new_set fresh now create)). naive_solver.
  - exists (Err e). naive_solver.
Qed.

Lemma reg_step_ok `{!HashOrderLaws} st st' :
  reg_step st st' → registry_ok st → registry_ok st' ∧ registry_le st st'.
Proof.
  intros Hstep [Hrec Hset].
  destruct Hstep as [fresh now create st r st' Hf [= _ <-]|id st r st' Hr|fresh now create st r st' Hf Hc].
  - split; [split|split].
    + cbn. apply map_Forall_insert_2; [done|done].
    + cbn. intros i s Hs. destruct (Hset i s Hs) as (? & ? & ? & ? & ? & Hm).
      do 5 (split; [done|]). intros m Hin. rewrite lookup_insert_is_Some'. by right; apply Hm.
    + cbn. intros i r0 Hi. exists r0. rewrite lookup_insert_ne by congruence. split; [done|by left].
    + done.
  - unfold revoke_approver in Hr. destruct (approvers st !! id) as [rec|] eqn:Hid.
    2: { injection Hr as _ <-. split; [by split|reflexivity]. }
    injection Hr as _ <-. split; [split|split].
    + cbn. apply map_Forall_insert_2; [|done]. by destruct (Hrec id rec Hid).
    + cbn. intros i s Hs. destruct (Hset i s Hs) as (? & ? & ? & ? & ? & Hm).
      do 5 (split; [done|]). intros m Hin. rewrite lookup_insert_is_Some'. by right; apply Hm.
    + cbn. intros i r0 Hi. destruct (decide (i = id)) as [->|Hne].
      * rewrite lookup_insert_eq. eexists. split; [done|]. right. congruence.
      * rewrite lookup_insert_ne by done. exists r0. split; [done|by left].
    + done.
  - destruct (create_approver_set_cases fresh now create st) as (q & Hq & Hnew & Hiff).
    rewrite Hq in Hc. injection Hc as <- <-. destruct q as [s|e]; [|split; [by split|reflexivity]].
    specialize (Hnew s eq_refl) as ->.
    destruct (proj1 Hiff ltac:(by eexists)) as ((Ht & Htt & Hlen & Hnd) & Hact & _).
    split; [split|split]; cbn; [done| | |].
    + apply map_Forall_insert_2; [|done]. do 5 (split; [done|]).
      intros m Hm. rewrite Forall_forall in Hact. destruct (Hact m Hm) as (rec & Hrec' & _). by eexists.
    + intros i r0 Hi. exists r0. split; [done|by left].
    + by apply insert_subseteq.
Qed.

(** ** Properties *)

(** C26. [create_approver_set] always answers (the nested walk terminates within its
    fuel, whatever the tables and the order the hash map yields), and it answers
    [Ok] exactly when the threshold and roster are well-shaped, every member is a
    registered active approver, and no nested-wallet member already shares an
    existing set with a different nested wallet; only then do the tables change,
    by the new set under its fresh id. *)
Theorem create_set_exact `{!HashOrderLaws} fresh now create st :
  ∃ r st', create_approver_set fresh now create st = Some (r, st')
  ∧ ((∃ s, r = Ok s) ↔ shape_ok create ∧ Forall (member_active (approvers st)) (sc_members create)
      ∧ ∀ m w, m ∈ sc_members create → nested_of (approvers st) m = Some w →
          alone (approvers st) (map_to_list (sets st)).*2 w)
  ∧ (∀ s, r = Ok s → s = new_set fresh now create
       ∧ st' = {| approvers := approvers st; sets := <[fresh := s]> (sets st) |})
  ∧ (∀ e, r = Err e → st' = st).
Proof.
  destruct (create_approver_set_cases fresh now create st) as (r & Hr & Hnew & Hiff).
  eexists r, _. split; [exact Hr|]. split; [done|]. split; [|by intros e ->].
  intros s ->. by split; [apply Hnew|].
Qed.

(** The nested walk refuses more than cycles: once some stored set lists two
    different nested wallets, no later set can list an approver that stands for
    either of them, although nothing in the membership graph is cyclic. *)
Theorem nested_pair_blocks_reuse `{!HashOrderLaws} fresh now create st id s w x m r st' :
  sets st !! id = Some s → nested_in (approvers st) s w → nested_in (approvers st) s x → x ≠ w →
  m ∈ sc_members create → nested_of (approvers st) m = Some w →
  create_approver_set fresh now create st = Some (r, st') →
  ∃ e, r = Err e ∧ st' = st.
Proof.
  intros Hs Hw Hx Hne Hm Hmw Hc.
  destruct (create_approver_set_cases fresh now create st) as (q & Hq & _ & Hiff).
  rewrite Hq in Hc. injection Hc as <- <-. destruct q as [s'|e]; [|eauto]. exfalso.
  destruct (proj1 Hiff ltac:(by eexists)) as (_ & _ & Hal). apply Hne, (Hal m w Hm Hmw s x); [|done..].
  apply list_elem_of_fmap. exists (id, s). split; [done|]. by apply elem_of_map_to_list.
Qed.

(** C25. Over every history of the registry: stored sets are rosters of distinct
    registered approvers with a reachable threshold, a stored set never changes,
    and an approver record keeps its identity and only ever moves from active to
    revoked, never back. *)
Theorem registry_invariant `{!HashOrderLaws} st st' :
  rtc reg_step registry_new st → rtc reg_step st st' → registry_ok st' ∧ registry_le st st'.
Proof.
  intros Hinit Hlater.
  assert (registry_ok st) as Hok.
  { assert (registry_ok registry_new) as Hok0 by (split; apply map_Forall_empty).
    clear Hlater. revert Hok0. induction Hinit as [|a b c Hab _ IH]; [done|]. intros Ha.
    apply IH. by apply (reg_step_ok _ _ Hab). }
  clear Hinit. revert Hok. induction Hlater as [|a b c Hab _ IH]; intros Ha; [by split|].
  destruct (reg_step_ok _ _ Hab Ha) as [Hb Hle]. destruct (IH Hb) as [Hc Hle'].
  split; [done|]. by trans b.
Qed.

End registry.

Module RegistryWitness.

#[export] Instance id_order : HashOrder := {| hash_order _ l := l |}.
#[export] Instance id_order_laws : HashOrderLaws.
Proof. by split. Qed.

Definition nested (w : N) : ApproverCreate := {|
  ac_identity := NestedWallet (WalletId_from_ulid w) [] Ed25519; ac_label := "treasury";
  ac_owner_id := OwnerId_new "o"; ac_webhook_url := None |}.
Definition st2 : Inner :=
  (add_approver (ApproverId_from_ulid 2) 0 (nested 12)
    (add_approver (ApproverId_from_ulid 1) 0 (nested 11) registry_new).2).2.
Definition both : ApproverSetCreate := {|
  sc_name := "both"; sc_owner_id := OwnerId_new "o";
  sc_members := [ApproverId_from_ulid 1; ApproverId_from_ulid 2];
  sc_threshold := 1; sc_total := 2; sc_quorum_timeout_secs := None |}.
Definition single : ApproverSetCreate := {|
  sc_name := "single"; sc_owner_id := OwnerId_new "o"; sc_members := [ApproverId_from_ulid 1];
  sc_threshold := 1; sc_total := 1; sc_quorum_timeout_secs := None |}.
Definition the_set : ApproverSet := new_set (ApproverSetId_from_ulid 5) 0 both.
Definition st3 : Inner := {| approvers := approvers st2; sets := {[ApproverSetId_from_ulid 5 := the_set]} |}.

Lemma st3_created :
  create_approver_set (ApproverSetId_from_ulid 5) 0 both st2 = Some (Ok the_set, st3).
Proof. vm_compute. reflexivity. Qed.

Example create_set_exact_witness :
  ∃ r st', create_approver_set (ApproverSetId_from_ulid 5) 0 both st2 = Some (r, st')
    ∧ ∀ e, r = Err e → st' = st2.
Proof.
  destruct (create_set_exact (ApproverSetId_from_ulid 5) 0 both st2) as (r & st' & Hc & _ & _ & He).
  exists r, st'. split; [exact Hc|exact He].
Defined.

Example nested_pair_blocks_reuse_witness :
  create_approver_set (ApproverSetId_from_ulid 6) 0 single st3
    = Some (Err (NestingCycle (WalletId_from_ulid 11)), st3)
  ∧ ∃ e, Err (A:=ApproverSet) (NestingCycle (WalletId_from_ulid 11)) = Err e ∧ st3 = st3.
Proof.
  split; [vm_compute; reflexivity|].
  apply (nested_pair_blocks_reuse (ApproverSetId_from_ulid 6) 0 single st3 (ApproverSetId_from_ulid 5)
           the_set (WalletId_from_ulid 11) (WalletId_from_ulid 12) (ApproverId_from_ulid 1)).
  - reflexivity.
  - exists (ApproverId_from_ulid 1). split; [left|reflexivity].
  - exists (ApproverId_from_ulid 2). split; [right; left|reflexivity].
  - discriminate.
  - left.
  - reflexivity.
  - vm_compute. reflexivity.
Defined.

Example registry_invariant_witness : registry_ok st3 ∧ registry_le st2 st3.
Proof.
  apply (registry_invariant st2 st3).
  - eapply rtc_l; [eapply (step_add (ApproverId_from_ulid 1) 0 (nested 11)); reflexivity|].
    eapply rtc_l; [eapply (step_add (ApproverId_from_ulid 2) 0 (nested 12)); reflexivity|].
    apply rtc_refl.
  - eapply rtc_l; [|apply rtc_refl].
    eapply (step_create (ApproverSetId_from_ulid 5) 0 both); [reflexivity|exact st3_created].
Defined.

End RegistryWitness.
