(* ===== verification/ApprovalStore.v ===== *)
(** * ApprovalStore: recorded approvals with replay protection ([store/mod.rs],
    [store/memory.rs])

    [record_approval] takes two locks one after the other: it claims the
    [(request, approver)] slot under the first and appends to the per-request
    index under the second.  The two critical sections are separate definitions,
    so that concurrent submissions are interleavings of them ([store_step]). *)

From S2P Require Import Prelude Text Types External Approval.
#[local] Open Scope string_scope.
#[local] Open Scope list_scope.
#[local] Open Scope Z_scope.

Inductive StoreError :=
  | StoreIo (why : string)
  | DuplicateApproval (a : ApproverId) (r : RequestId).

Inductive RecordOutcome := Inserted | AlreadyRecorded.
#[export] Instance RecordOutcome_eq_dec : EqDecision RecordOutcome.
Proof. solve_decision. Defined.

(** ** The trait and what a client may rely on *)

Class ApprovalStore (S : Type) := {
  store_record : SignedApproval → ApproverId → S → result StoreError RecordOutcome * S;
  store_list : RequestId → S → result StoreError (list SignedApproval);
}.

(** [recorded s r a] is the approval on record for request [r] and approver [a];
    [good] are the states the store can be in. *)
Class ApprovalStoreLaws (S : Type) `{ApprovalStore S} := {
  good : S → Prop;
  recorded : S → RequestId → ApproverId → option SignedApproval;
  (** A listing is one recorded approval per approver, for this request. *)
  store_list_law s r l : good s → store_list r s = Ok l →
    ∃ ids, NoDup ids ∧ Forall2 (λ a ap, recorded s r a = Some ap) ids l
      ∧ Forall (λ ap, sa_request_id ap = r) l;
}.

(** ** [MemoryApprovalStore] *)

Record MemoryApprovalStore := {
  inner : gmap (RequestId * ApproverId) (ApprovalId * SignedApproval);
  by_request : gmap RequestId (list (ApproverId * ApprovalId));
}.

Definition store_new : MemoryApprovalStore := {| inner := ∅; by_request := ∅ |}.

(** Under the [inner] lock. *)
Definition record_claim (approval : SignedApproval) (approver_id : ApproverId)
    (st : MemoryApprovalStore) : result StoreError RecordOutcome * MemoryApprovalStore :=
  match inner st !! (sa_request_id approval, approver_id) with
  | Some (prev_id, _) =>
      if bool_decide (prev_id = sa_approval_id approval) then (Ok AlreadyRecorded, st)
      else (Err (DuplicateApproval approver_id (sa_request_id approval)), st)
  | None =>
      (Ok Inserted,
       {| inner := <[(sa_request_id approval, approver_id) := (sa_approval_id approval, approval)]> (inner st);
          by_request := by_request st |})
  end.

(** Under the [by_request] lock: [entry(..).or_default().push(..)]. *)
Definition record_index (approval : SignedApproval) (approver_id : ApproverId)
    (st : MemoryApprovalStore) : MemoryApprovalStore := {|
  inner := inner st;
  by_request := <[sa_request_id approval :=
                   default [] (by_request st !! sa_request_id approval)
                   ++ [(approver_id, sa_approval_id approval)]]> (by_request st) |}.

Definition record_approval (approval : SignedApproval) (approver_id : ApproverId)
    (st : MemoryApprovalStore) : result StoreError RecordOutcome * MemoryApprovalStore :=
  match record_claim approval approver_id st with
  | (Ok Inserted, st) => (Ok Inserted, record_index approval approver_id st)
  | other => other
  end.

Definition list_for_request (request_id : RequestId) (st : MemoryApprovalStore)
    : result StoreError (list SignedApproval) :=
  match by_request st !! request_id with
  | None => Ok []
  | Some l => Ok (omap (λ e, snd <$> inner st !! (request_id, e.1)) l)
  end.

#[export] Instance memory_store : ApprovalStore MemoryApprovalStore := {|
  store_record := record_approval; store_list := list_for_request |}.

(** ** Concurrent submissions *)

(** The store together with the submissions that have claimed a slot and not
    yet appended to the index. *)
Definition Sys : Type := MemoryApprovalStore * list (SignedApproval * ApproverId).

Inductive store_step : Sys → Sys → Prop :=
  | step_claim approval a st st' pend :
      record_claim approval a st = (Ok Inserted, st') →
      store_step (st, pend) (st', (approval, a) :: pend)
  | step_refused approval a st r st' pend :
      record_claim approval a st = (r, st') → r ≠ Ok Inserted →
      store_step (st, pend) (st', pend)
  | step_index approval a st p1 p2 :
      store_step (st, p1 ++ (approval, a) :: p2) (record_index approval a st, p1 ++ p2).

Definition indexed (st : MemoryApprovalStore) (r : RequestId) : list ApproverId :=
  (default [] (by_request st !! r)).*1.
Definition waiting (pend : list (SignedApproval * ApproverId)) (r : RequestId) : list ApproverId :=
  omap (λ x, if bool_decide (sa_request_id x.1 = r) then Some x.2 else None) pend.

Definition slots_ok (st : MemoryApprovalStore) : Prop :=
  ∀ r a i ap, inner st !! (r, a) = Some (i, ap) → sa_request_id ap = r ∧ sa_approval_id ap = i.

(** Every claimed slot is indexed or waiting, exactly once. *)
Definition sys_ok (s : Sys) : Prop :=
  slots_ok s.1 ∧ ∀ r, NoDup (indexed s.1 r ++ waiting s.2 r)
    ∧ ∀ a, a ∈ indexed s.1 r ++ waiting s.2 r ↔ is_Some (inner s.1 !! (r, a)).

Lemma record_claim_inv approval a st r st' :
  record_claim approval a st = (r, st') →
  (r = Ok Inserted ∧ inner st !! (sa_request_id approval, a) = None
   ∧ inner st' = <[(sa_request_id approval, a) := (sa_approval_id approval, approval)]> (inner st)
   ∧ by_request st' = by_request st)
  ∨ (r ≠ Ok Inserted ∧ st' = st
     ∧ ∃ i ap, inner st !! (sa_request_id approval, a) = Some (i, ap)
        ∧ r = if bool_decide (i = sa_approval_id approval) then Ok AlreadyRecorded
              else Err (DuplicateApproval a (sa_request_id approval))).
Proof.
  unfold record_claim. destruct (inner st !! _) as [[i ap]|] eqn:Hl.
  - intros Heq. right. destruct (bool_decide _) eqn:Hb; injection Heq as <- <-;
      (split; [done|]; split; [done|]; exists i, ap; by rewrite Hb).
  - intros [= <- <-]. by left.
Qed.

Lemma indexed_index approval a st r :
  indexed (record_index approval a st) r
  = if bool_decide (sa_request_id approval = r) then indexed st r ++ [a] else indexed st r.
Proof.
  unfold indexed, record_index. cbn. case_bool_decide as Hr.
  - subst. rewrite lookup_insert_eq. cbn. by rewrite fmap_app.
  - by rewrite lookup_insert_ne.
Qed.

Lemma waiting_app p q r : waiting (p ++ q) r = waiting p r ++ waiting q r.
Proof. apply omap_app. Qed.

Lemma waiting_cons approval a p r :
  waiting ((approval, a) :: p) r
  = if bool_decide (sa_request_id approval = r) then a :: waiting p r else waiting p r.
Proof. unfold waiting. cbn. by case_bool_decide. Qed.

Lemma step_preserves_ok s s' : store_step s s' → sys_ok s → sys_ok s'.
Proof.
  intros Hstep [Hslot Hok].
  destruct Hstep as [approval a st st' pend Hc|approval a st r st' pend Hc Hr|approval a st p1 p2].
  - apply record_claim_inv in Hc as [(_ & Hfree & Hin & Hby)|(? & _)]; [|done]. split.
    + intros r b i ap. cbn. rewrite Hin, lookup_insert_Some.
      intros [[[= <- <-] [= <- <-]]|[_ Hl]]; [done|by apply (Hslot r b)].
    + intros r. destruct (Hok r) as [Hnd Hel]. cbn [fst snd] in *.
      assert (indexed st' r = indexed st r) as -> by (unfold indexed; by rewrite Hby).
      rewrite waiting_cons, Hin. case_bool_decide as Hr.
      * subst r. assert (a ∉ indexed st (sa_request_id approval) ++ waiting pend (sa_request_id approval)) as Hni.
        { rewrite Hel, Hfree. by intros [? [=]]. }
        split; [rewrite <-Permutation_middle; by constructor|]. intros b.
        rewrite <-Permutation_middle, lookup_insert_is_Some', <-Hel, elem_of_cons. naive_solver.
      * split; [done|]. intros b. rewrite Hel, lookup_insert_is_Some'. naive_solver.
  - apply record_claim_inv in Hc as [(? & _)|(_ & -> & _)]; [done|by split].
  - split; [done|]. intros r. destruct (Hok r) as [Hnd Hel]. cbn [fst snd] in *.
    rewrite indexed_index. cbn [inner record_index].
    rewrite waiting_app, waiting_cons in Hnd, Hel. rewrite waiting_app.
    case_bool_decide; [|done].
    assert (indexed st r ++ waiting p1 r ++ a :: waiting p2 r
            ≡ₚ (indexed st r ++ [a]) ++ waiting p1 r ++ waiting p2 r) as Hp by solve_Permutation.
    rewrite <-Hp. split; [done|]. intros b. by rewrite <-Hp.
Qed.

Lemma list_for_request_ok s r :
  sys_ok s → ∃ l, list_for_request r s.1 = Ok l
    ∧ Forall2 (λ a ap, inner s.1 !! (r, a) = Some (sa_approval_id ap, ap)) (indexed s.1 r) l.
Proof.
  intros [Hslot Hok]. destruct (Hok r) as [_ Hel]. unfold list_for_request, indexed in *.
  destruct (by_request s.1 !! r) as [l|]; cbn in *; [|eexists; by split; [|constructor]].
  eexists. split; [done|].
  assert (∀ a, a ∈ l.*1 → is_Some (inner s.1 !! (r, a))) as Hin by (intros a Ha; apply Hel; set_solver).
  clear Hel. induction l as [|[a i] l IH]; cbn; [constructor|].
  destruct (Hin a ltac:(set_solver)) as [[j ap] Hl]. rewrite Hl. cbn.
  constructor; [|apply IH; set_solver]. by destruct (Hslot _ _ _ _ Hl) as [_ <-].
Qed.

(** The memory store keeps the trait's promise in every state a run of
    concurrent submissions can reach. *)
#[export] Program Instance memory_store_laws : ApprovalStoreLaws MemoryApprovalStore := {|
  good st := ∃ pend, sys_ok (st, pend);
  recorded st r a := snd <$> inner st !! (r, a) |}.
Next Obligation.
  intros st r l [pend Hok] Hl. destruct (list_for_request_ok (st, pend) r Hok) as (l' & Hl' & Hall).
  cbn in Hl, Hl'. rewrite Hl in Hl'. injection Hl' as <-. destruct Hok as [Hslot Hok].
  exists (indexed st r). destruct (Hok r) as [[Hnd _]%NoDup_app _]. split; [done|]. split.
  - eapply Forall2_impl; [exact Hall|]. intros a ap Ha. cbn in *. by rewrite Ha.
  - apply Forall_forall. intros ap Hap. apply list_elem_of_lookup_1 in Hap as [k Hk].
    destruct (Forall2_lookup_r _ _ _ _ _ Hall Hk) as (a & _ & Ha).
    by destruct (Hslot _ _ _ _ Ha).
Qed.

Lemma reachable_ok s s' : rtc store_step s s' → sys_ok s → sys_ok s'.
Proof. induction 1; [done|]. eauto using step_preserves_ok. Qed.

Lemma store_new_ok : sys_ok (store_new, []).
Proof.
  split; [by intros ????|]. intros r. cbn. split; [constructor|].
  intros a. rewrite lookup_empty. split; [by intros ?%elem_of_nil|by intros [? [=]]].
Qed.

Lemma step_keeps_slot s s' k e : store_step s s' → inner s.1 !! k = Some e → inner s'.1 !! k = Some e.
Proof.
  intros [approval a st st' pend Hc|approval a st r st' pend Hc Hr|approval a st p1 p2] Hk; [| |done].
  - apply record_claim_inv in Hc as [(_ & Hfree & Hin & _)|(? & _)]; [|done]. cbn in *.
    rewrite Hin, lookup_insert_ne by congruence. done.
  - by apply record_claim_inv in Hc as [(? & _)|(_ & -> & _)].
Qed.

Lemma steps_keep_slot s s' k e : rtc store_step s s' → inner s.1 !! k = Some e → inner s'.1 !! k = Some e.
Proof. induction 1; eauto using step_keeps_slot. Qed.

Lemma record_approval_slot approval a st i ap :
  inner st !! (sa_request_id approval, a) = Some (i, ap) →
  record_approval approval a st =
    (if bool_decide (sa_approval_id approval = i) then Ok AlreadyRecorded
     else Err (DuplicateApproval a (sa_request_id approval)), st).
Proof.
  intros Hl. unfold record_approval, record_claim. rewrite Hl.
  destruct (decide (i = sa_approval_id approval)).
  - by rewrite !bool_decide_eq_true_2.
  - by rewrite !bool_decide_eq_false_2 by done.
Qed.

(** ** Properties *)

(** C23. However submissions interleave, a listing for a request is one approval per
    approver (never two from the same approver), each the approval on record for
    that approver and for this request; when no submission is in flight it lists
    every approver with an approval on record. *)
Theorem store_listing_exact st pend r :
  rtc store_step (store_new, []) (st, pend) →
  ∃ ids l, list_for_request r st = Ok l ∧ NoDup ids
    ∧ Forall2 (λ a ap, inner st !! (r, a) = Some (sa_approval_id ap, ap) ∧ sa_request_id ap = r) ids l
    ∧ (pend = [] → ∀ a, a ∈ ids ↔ is_Some (inner st !! (r, a))).
Proof.
  intros Hreach. pose proof (reachable_ok _ _ Hreach store_new_ok) as Hok.
  destruct (list_for_request_ok _ r Hok) as (l & Hl & Hall). destruct Hok as [Hslot Hok].
  destruct (Hok r) as [Hnd Hel]. exists (indexed st r), l. split; [done|]. split.
  { by apply NoDup_app in Hnd as [? _]. }
  split.
  - eapply Forall2_impl; [exact Hall|]. intros a ap Ha. split; [done|]. by destruct (Hslot _ _ _ _ Ha).
  - intros -> a. by rewrite <-Hel, app_nil_r.
Qed.

(** C24. Replay protection: once an approver's approval for a request is on record it
    stays, unchanged, whatever is submitted later; submitting it again is
    reported as already recorded, and a different approval of the same approver
    for the same request is refused; neither changes the store. *)
Theorem replay_protected s s' r a i ap approval :
  inner s.1 !! (r, a) = Some (i, ap) → rtc store_step s s' → sa_request_id approval = r →
  inner s'.1 !! (r, a) = Some (i, ap)
  ∧ record_approval approval a s'.1 =
      (if bool_decide (sa_approval_id approval = i) then Ok AlreadyRecorded
       else Err (DuplicateApproval a r), s'.1).
Proof.
  intros Hl Hsteps <-. pose proof (steps_keep_slot _ _ _ _ Hsteps Hl) as Hl'.
  split; [done|]. by apply record_approval_slot with ap.
Qed.

(** A first submission is listed, last; listings of other requests are untouched. *)
Theorem record_then_list st approval a st' l r :
  sys_ok (st, []) → list_for_request (sa_request_id approval) st = Ok l →
  record_approval approval a st = (Ok Inserted, st') →
  list_for_request (sa_request_id approval) st' = Ok (l ++ [approval])
  ∧ (r ≠ sa_request_id approval → list_for_request r st' = list_for_request r st).
Proof.
  intros [Hslot Hok] Hl Hrec. unfold record_approval in Hrec.
  destruct (record_claim approval a st) as [q st1] eqn:Hc.
  apply record_claim_inv in Hc as [(-> & Hfree & Hin & Hby)|(Hq & -> & _)];
    [|by destruct q as [[]|]; injection Hrec].
  injection Hrec as <-. unfold list_for_request in *. cbn [record_index inner by_request].
  rewrite Hin, Hby. split.
  - rewrite lookup_insert_eq, omap_app. cbn [omap list_omap]. rewrite lookup_insert_eq. cbn.
    do 2 f_equal. destruct (Hok (sa_request_id approval)) as [_ Hel]. unfold indexed in Hel. cbn in Hel.
    destruct (by_request st !! sa_request_id approval) as [k|]; cbn in *; [|by injection Hl as <-].
    injection Hl as <-. apply list_omap_ext, Forall2_same_length_lookup_2; [done|].
    intros j [b x] y Hb Hy. rewrite Hb in Hy. injection Hy as <-. cbn.
    rewrite lookup_insert_ne; [done|]. intros [= <-].
    assert (a ∈ k.*1 ++ []) as [? Hsome]%Hel; [|congruence].
    rewrite app_nil_r. apply list_elem_of_fmap. exists (a, x). split; [done|]. by eapply list_elem_of_lookup_2.
  - intros Hne. rewrite lookup_insert_ne by done. destruct (by_request st !! r) as [k|]; [|done].
    f_equal. apply list_omap_ext, Forall2_same_length_lookup_2; [done|].
    intros j [b x] y Hb Hy. rewrite Hb in Hy. injection Hy as <-. cbn.
    rewrite lookup_insert_ne; [done|]. congruence.
Qed.

Module StoreWitness.
Import ApprovalWitness.

Definition alice : ApproverId := ApproverId_from_ulid 21.
Definition bob : ApproverId := ApproverId_from_ulid 22.
Definition st1 : MemoryApprovalStore := (record_approval unsigned alice store_new).2.

Definition claimed : Sys := ((record_claim unsigned alice store_new).2, [(unsigned, alice)]).
Lemma claimed_reachable : rtc store_step (store_new, []) claimed.
Proof. eapply rtc_l; [|apply rtc_refl]. by apply step_claim. Qed.

Example store_listing_exact_witness :
  ∃ ids l, list_for_request (RequestId_from_ulid 3) claimed.1 = Ok l ∧ NoDup ids
    ∧ Forall2 (λ a ap, inner claimed.1 !! (RequestId_from_ulid 3, a) = Some (sa_approval_id ap, ap)
                       ∧ sa_request_id ap = RequestId_from_ulid 3) ids l
    ∧ (claimed.2 = [] → ∀ a, a ∈ ids ↔ is_Some (inner claimed.1 !! (RequestId_from_ulid 3, a))).
Proof. apply (store_listing_exact claimed.1 claimed.2), claimed_reachable. Defined.

Example replay_protected_witness :
  inner claimed.1 !! (RequestId_from_ulid 3, alice) = Some (ApprovalId_from_ulid 1, unsigned)
  ∧ record_approval unsigned alice claimed.1 = (Ok AlreadyRecorded, claimed.1).
Proof.
  apply (replay_protected claimed claimed (RequestId_from_ulid 3) alice (ApprovalId_from_ulid 1)
           unsigned unsigned); [reflexivity|apply rtc_refl|reflexivity].
Defined.

Example record_then_list_witness :
  list_for_request (RequestId_from_ulid 3) st1 = Ok [unsigned]
  ∧ (RequestId_from_ulid 4 ≠ RequestId_from_ulid 3 →
     list_for_request (RequestId_from_ulid 4) st1 = list_for_request (RequestId_from_ulid 4) store_new).
Proof.
  apply (record_then_list store_new unsigned alice st1 [] (RequestId_from_ulid 4));
    [apply store_new_ok|reflexivity|reflexivity].
Defined.

End StoreWitness.
