(* ===== verification/Orchestrating.v ===== *)
(** * Orchestrating: notifying approvers and collecting a quorum
    ([approvers/orchestrating.rs])

    The collector polls a store that other tasks keep writing to.  A run is
    described by what the collector observes: the store state at its n-th poll
    and the time elapsed when it checks the deadline in that iteration.  The
    collector is written against the store interface of ApprovalStore.v. *)

From S2P Require Import Prelude Text Types External Approval ApprovalStore.
#[local] Open Scope string_scope.
#[local] Open Scope list_scope.
#[local] Open Scope Z_scope.

(** ** [request_approval] *)

(** What awaiting a spawned notifier task yields: the notifier's own result, or
    the text of a join error (a panic or a cancellation). *)
Inductive TaskOutcome :=
  | Joined (r : result QuorumError ())
  | JoinError (why : string).

Definition Notifier : Type := ApprovalRequest → TaskOutcome.

Definition task_error (o : TaskOutcome) : option QuorumError :=
  match o with
  | Joined (Ok _) => None
  | Joined (Err e) => Some e
  | JoinError why => Some (Transport ("notifier task join: " +:+ why))
  end.

(** The loop over the handles with [first_err]. *)
Definition await_all (outcomes : list TaskOutcome) : option QuorumError :=
  foldl (λ first_err o,
           match task_error o with
           | None => first_err
           | Some e => match first_err with None => Some e | Some _ => first_err end
           end) None outcomes.

Definition request_approval (notifiers : list Notifier) (req : ApprovalRequest) : result QuorumError () :=
  match notifiers with
  | [] => Ok ()
  | _ =>
      match await_all ((λ n : Notifier, n req) <$> notifiers) with
      | Some e => Err e
      | None => Ok ()
      end
  end.

(** ** [collect_approvals] *)

(** The [Display] text of a store error. *)
Definition store_error_text `{UlidCrate} (e : StoreError) : string :=
  match e with
  | StoreIo why => "approval store I/O: " +:+ why
  | DuplicateApproval a r =>
      "duplicate approval: " +:+ ulid_to_string (ApproverId_ulid a)
      +:+ " already recorded a decision for request " +:+ ulid_to_string (RequestId_ulid r)
  end.

Section collect.
Context {S : Type} `{UlidCrate, ApprovalStoreLaws S}.

(** One iteration of the loop, at elapsed time [elapsed]: [None] is going to
    sleep for another round.  Durations are in nanoseconds. *)
Definition poll (request_id : RequestId) (threshold timeout : Z) (st : S) (elapsed : Z)
    : option (result QuorumError (list SignedApproval)) :=
  match store_list request_id st with
  | Err e => Some (Err (Transport ("approval store: " +:+ store_error_text e)))
  | Ok approvals =>
      match find (λ a, bool_decide (sa_decision a = Reject)) approvals with
      | Some reject => Some (Ok [reject])
      | None =>
          let approves := List.filter (λ a, bool_decide (sa_decision a = Approve)) approvals in
          if threshold <=? Z.of_nat (length approves) then Some (Ok approves)
          else if Z.max 0 (timeout - elapsed) =? 0 then Some (Err (Timeout timeout))
          else None
      end
  end.

(** The [loop], from the n-th iteration on. *)
Fixpoint collect_from (fuel n : nat) (request_id : RequestId) (threshold timeout : Z)
    (snapshot : nat → S) (elapsed : nat → Z) : option (result QuorumError (list SignedApproval)) :=
  match fuel with
  | O => None
  | Datatypes.S fuel =>
      match poll request_id threshold timeout (snapshot n) (elapsed n) with
      | Some r => Some r
      | None => collect_from fuel (Datatypes.S n) request_id threshold timeout snapshot elapsed
      end
  end.

Definition collect_approvals (fuel : nat) := collect_from fuel 0.

(** ** Lemmas *)

Lemma collect_from_first fuel n rid t timeout snap el r :
  collect_from fuel n rid t timeout snap el = Some r ↔
  ∃ k, (k < fuel)%nat ∧ poll rid t timeout (snap (n + k)%nat) (el (n + k)%nat) = Some r
    ∧ ∀ j, (j < k)%nat → poll rid t timeout (snap (n + j)%nat) (el (n + j)%nat) = None.
Proof.
  revert n. induction fuel as [|fuel IH]; intros n; cbn [collect_from].
  { split; [done|]. intros (k & ? & _). lia. }
  destruct (poll rid t timeout (snap n) (el n)) as [q|] eqn:Hp.
  - split.
    + intros [= <-]. exists 0%nat. rewrite Nat.add_0_r. split; [lia|]. split; [done|]. intros j ?. lia.
    + intros (k & Hk & Hr & Hj). destruct k as [|k]; [rewrite Nat.add_0_r in Hr; congruence|].
      specialize (Hj 0%nat ltac:(lia)). rewrite Nat.add_0_r in Hj. congruence.
  - rewrite IH. split.
    + intros (k & Hk & Hr & Hj). exists (Datatypes.S k). rewrite Nat.add_succ_r. split; [lia|]. split; [done|].
      intros [|j] Hlt; [by rewrite Nat.add_0_r|]. rewrite Nat.add_succ_r. apply Hj. lia.
    + intros (k & Hk & Hr & Hj). destruct k as [|k]; [rewrite Nat.add_0_r in Hr; congruence|].
      exists k. rewrite Nat.add_succ_r in Hr. split; [lia|]. split; [done|]. intros j Hlt.
      specialize (Hj (Datatypes.S j) ltac:(lia)). by rewrite Nat.add_succ_r in Hj.
Qed.

Lemma poll_deadline rid t timeout st el : timeout ≤ el → ∃ r, poll rid t timeout st el = Some r.
Proof.
  intros Hle. unfold poll. destruct (store_list rid st) as [l|]; [|by eexists].
  destruct (find _ l); [by eexists|]. destruct (_ <=? _); [by eexists|].
  rewrite Z.max_l by lia. by eexists.
Qed.

Lemma task_errors_first e outcomes :
  foldl (λ first_err o,
           match task_error o with
           | None => first_err
           | Some e => match first_err with None => Some e | Some _ => first_err end
           end) (Some e) outcomes = Some e.
Proof. induction outcomes as [|o outcomes IH]; cbn; [done|]. by destruct (task_error o). Qed.

Lemma await_all_head outcomes : await_all outcomes = head (omap task_error outcomes).
Proof.
  unfold await_all. induction outcomes as [|o outcomes IH]; cbn; [done|].
  destruct (task_error o) as [e|]; [|done]. apply task_errors_first.
Qed.

(** A decided poll: a rejection, or enough approvals and no rejection. *)
Definition quorum_reached (st : S) (rid : RequestId) (threshold : Z) (l : list SignedApproval) : Prop :=
  threshold ≤ Z.of_nat (length l) ∧ ∃ ids, NoDup ids ∧ Forall2 (λ a ap, recorded st rid a = Some ap
      ∧ sa_decision ap = Approve ∧ sa_request_id ap = rid) ids l.

Lemma poll_ok rid t timeout st el l :
  good st → poll rid t timeout st el = Some (Ok l) →
  (∃ reject a, l = [reject] ∧ sa_decision reject = Reject ∧ recorded st rid a = Some reject)
  ∨ quorum_reached st rid t l.
Proof.
  intros Hg. unfold poll. destruct (store_list rid st) as [all|] eqn:Hl; [|done].
  destruct (store_list_law st rid all Hg Hl) as (ids & Hnd & Hall & Hreq).
  destruct (find _ all) as [rej|] eqn:Hf.
  - intros [= <-]. left. apply List.find_some in Hf as [Hin Hd%bool_decide_eq_true].
    apply list_elem_of_In, list_elem_of_lookup_1 in Hin as [k Hk].
    destruct (Forall2_lookup_r _ _ _ _ _ Hall Hk) as (a & _ & Ha). eauto.
  - destruct (Z.leb_spec t (Z.of_nat (length (List.filter (λ a, bool_decide (sa_decision a = Approve)) all)))) as [Hle|_];
      [|by destruct (_ =? 0)].
    intros [= <-]. right.
    assert (List.filter (λ a, bool_decide (sa_decision a = Approve)) all = all) as Hfil.
    { apply forallb_filter_id, forallb_forall. intros a Ha.
      pose proof (List.find_none _ _ Hf a Ha) as Hn. cbn in Hn. apply bool_decide_eq_false in Hn.
      apply bool_decide_eq_true. by destruct (sa_decision a). }
    rewrite Hfil in Hle |- *. split; [done|]. exists ids. split; [done|].
    apply Forall2_same_length_lookup_2; [by eapply Forall2_length|].
    intros k a ap Ha Hap. split.
    { by eapply (Forall2_lookup_lr _ _ _ _ _ _ Hall). }
    split.
    + assert (ap ∈ List.filter (λ a, bool_decide (sa_decision a = Approve)) all) as Hin
        by (rewrite Hfil; by eapply list_elem_of_lookup_2).
      apply list_elem_of_In, filter_In in Hin as [_ Hd]. by apply bool_decide_eq_true in Hd.
    + by eapply (Forall_lookup_1 _ _ _ _ Hreq).
Qed.

Lemma poll_err rid t timeout st el e :
  poll rid t timeout st el = Some (Err e) →
  (∃ why, e = Transport why) ∨ (e = Timeout timeout ∧ timeout ≤ el).
Proof.
  unfold poll. destruct (store_list rid st) as [all|]; [|intros [= <-]; eauto].
  destruct (find _ all); [done|]. destruct (_ <=? _); [done|].
  destruct (Z.eqb_spec (Z.max 0 (timeout - el)) 0); [|done]. intros [= <-]. right. split; [done|lia].
Qed.

(** ** Properties *)

(** C21. Collection ends, by the first iteration whose deadline check sees the
    timeout elapsed at the latest, and it returns what the first decided poll
    says: later store states cannot change it. *)
Theorem collect_decides N rid t timeout snap el :
  timeout ≤ el N →
  ∃ n r, (n ≤ N)%nat ∧ collect_approvals (Datatypes.S N) rid t timeout snap el = Some r
    ∧ poll rid t timeout (snap n) (el n) = Some r
    ∧ ∀ j, (j < n)%nat → poll rid t timeout (snap j) (el j) = None.
Proof.
  intros HN. destruct (poll_deadline rid t timeout (snap N) (el N) HN) as [r0 Hr0].
  assert (∃ r, collect_approvals (Datatypes.S N) rid t timeout snap el = Some r) as [r Hr].
  { destruct (collect_approvals _ _ _ _ _ _) as [r|] eqn:Hc; [by eexists|]. exfalso.
    assert (∀ k, (k ≤ N)%nat → poll rid t timeout (snap k) (el k) = None) as Hnone.
    { intros k. induction k as [k IH] using lt_wf_ind. intros Hk.
      destruct (poll rid t timeout (snap k) (el k)) as [q|] eqn:Hq; [|done].
      enough (collect_approvals (Datatypes.S N) rid t timeout snap el = Some q) by congruence.
      apply collect_from_first. exists k. split; [lia|]. split; [done|]. intros j Hj. apply IH; lia. }
    rewrite Hnone in Hr0 by lia. done. }
  apply collect_from_first in Hr as Hr'. destruct Hr' as (n & Hn & Hp & Hj).
  exists n, r. split; [lia|]. done.
Qed.

(** C20. What a caller learns.  A successful collection is either a single recorded
    rejection, or at least [threshold] approvals, all [Approve], all for this
    request, from that many different registered approvers; the only errors are a
    store failure and a timeout after the deadline, never a verification failure:
    collection itself verifies no signature. *)
Theorem collect_sound fuel rid t timeout snap el r :
  (∀ n, good (snap n)) → collect_approvals fuel rid t timeout snap el = Some r →
  match r with
  | Ok l => ∃ n, (∃ reject a, l = [reject] ∧ sa_decision reject = Reject
                    ∧ recorded (snap n) rid a = Some reject)
              ∨ quorum_reached (snap n) rid t l
  | Err e => (∃ why, e = Transport why) ∨ (e = Timeout timeout ∧ ∃ n, timeout ≤ el n)
  end.
Proof.
  intros Hg (n & _ & Hp & _)%collect_from_first. destruct r as [l|e].
  - exists (0 + n)%nat. by apply poll_ok in Hp.
  - apply poll_err in Hp as [?|[-> ?]]; eauto.
Qed.

(** Fan-out: the request succeeds exactly when every notifier does, and
    otherwise reports the error of the first failing notifier in registration
    order, whichever task finished first. *)
Theorem request_approval_first_error notifiers req :
  request_approval notifiers req =
    match head (omap (λ n : Notifier, task_error (n req)) notifiers) with
    | Some e => Err e
    | None => Ok ()
    end.
Proof.
  destruct notifiers as [|n ns]; [done|]. unfold request_approval.
  rewrite await_all_head. generalize (n :: ns). clear n ns. intros l.
  assert (omap task_error ((λ n : Notifier, n req) <$> l) = omap (λ n : Notifier, task_error (n req)) l) as ->;
    [|done].
  induction l as [|n l IH]; cbn; [done|]. by rewrite IH.
Qed.

End collect.

Module OrchestratingWitness.
Import Concrete ApprovalWitness StoreWitness.

(** The approval arrives between the first and the second poll. *)
Definition run (n : nat) : MemoryApprovalStore := match n with O => store_new | _ => st1 end.
Definition clock (n : nat) : Z := 50 * Z.of_nat n.

Lemma run_good n : good (run n).
Proof.
  exists []. destruct n as [|n]; [apply store_new_ok|].
  apply (reachable_ok (store_new, [])); [|apply store_new_ok].
  eapply rtc_l; [by apply (step_claim unsigned alice)|]. eapply rtc_l; [|apply rtc_refl].
  apply (step_index unsigned alice _ [] []).
Qed.

Example collect_decides_witness :
  ∃ n r, (n ≤ 2)%nat ∧ collect_approvals 3 (RequestId_from_ulid 3) 1 100 run clock = Some r
    ∧ poll (RequestId_from_ulid 3) 1 100 (run n) (clock n) = Some r
    ∧ ∀ j, (j < n)%nat → poll (RequestId_from_ulid 3) 1 100 (run j) (clock j) = None.
Proof. apply (collect_decides 2). unfold clock. lia. Defined.

Example collect_sound_witness :
  collect_approvals 3 (RequestId_from_ulid 3) 1 100 run clock = Some (Ok [unsigned])
  ∧ ∃ n, (∃ reject a, [unsigned] = [reject] ∧ sa_decision reject = Reject
            ∧ recorded (run n) (RequestId_from_ulid 3) a = Some reject)
       ∨ quorum_reached (run n) (RequestId_from_ulid 3) 1 [unsigned].
Proof.
  split; [vm_compute; reflexivity|].
  apply (collect_sound 3 (RequestId_from_ulid 3) 1 100 run clock (Ok [unsigned]));
    [exact run_good|vm_compute; reflexivity].
Defined.

End OrchestratingWitness.
