(* ===== verification/AuditLog.v ===== *)
(** * AuditLog: the hash-chained audit log (crate qfc-audit)

    [event.rs], [sink.rs] and [file.rs]: events, the signed preimage, the file
    sink's [emit] with every point at which its I/O can fail, [open]
    ([recover_chain_head]) and the verifier [replay_verify].

    The derived [Deserialize] of an event is generated code and is a parameter
    ([EventSerde]); the derived [Serialize] is written out ([event_json]) from
    the attributes in the source. *)

From S2P Require Import Prelude Text Types External SignedDecision.
#[local] Open Scope string_scope.
#[local] Open Scope list_scope.
#[local] Open Scope Z_scope.

(** ** [event.rs] *)

Inductive Actor :=
  | ActorRequester (id : string)
  | ActorApprover (id : string)
  | ActorSystem
  | ActorEnclave.

Inductive AuditKind :=
  | WalletCreated | WalletRevoked | SigningRequested | SigningEvaluated | QuorumNotified
  | QuorumApprovalReceived | QuorumApprovalRejected | QuorumTimedOut | QuorumThresholdReached
  | PolicyDecisionSigned | SigningAttempted | SigningSucceeded | SigningFailed | PolicyChanged
  | ApproverSetChanged | SystemError | EnclaveAttested.

#[export] Instance AuditKind_eq_dec : EqDecision AuditKind.
Proof. solve_decision. Defined.

Definition kind_byte (k : AuditKind) : byte :=
  match k with
  | WalletCreated => x01 | WalletRevoked => x02 | SigningRequested => x03 | SigningEvaluated => x04
  | QuorumNotified => x05 | QuorumApprovalReceived => x06 | QuorumApprovalRejected => x07
  | QuorumTimedOut => x08 | SigningAttempted => x09 | SigningSucceeded => x0a
  | SigningFailed => x0b | PolicyChanged => x0c | ApproverSetChanged => x0d | SystemError => x0e
  | EnclaveAttested => x0f | QuorumThresholdReached => x10 | PolicyDecisionSigned => x11
  end.

Record AuditEvent := {
  event_id : EventId;
  prev_event_hash : bytes;
  event_timestamp_unix_ms : Z;
  event_actor : Actor;
  event_kind : AuditKind;
  event_request_id : option RequestId;
  event_wallet_id : option WalletId;
  event_details : Json;
  server_signature : bytes;
}.

(** [#[serde(rename_all = "snake_case")]]. *)
Definition kind_name (k : AuditKind) : string :=
  match k with
  | WalletCreated => "wallet_created" | WalletRevoked => "wallet_revoked"
  | SigningRequested => "signing_requested" | SigningEvaluated => "signing_evaluated"
  | QuorumNotified => "quorum_notified" | QuorumApprovalReceived => "quorum_approval_received"
  | QuorumApprovalRejected => "quorum_approval_rejected" | QuorumTimedOut => "quorum_timed_out"
  | QuorumThresholdReached => "quorum_threshold_reached"
  | PolicyDecisionSigned => "policy_decision_signed" | SigningAttempted => "signing_attempted"
  | SigningSucceeded => "signing_succeeded" | SigningFailed => "signing_failed"
  | PolicyChanged => "policy_changed" | ApproverSetChanged => "approver_set_changed"
  | SystemError => "system_error" | EnclaveAttested => "enclave_attested"
  end.

Definition actor_json (a : Actor) : Json :=
  match a with
  | ActorRequester id => JObject [("requester", JObject [("id", JString id)])]
  | ActorApprover id => JObject [("approver", JObject [("id", JString id)])]
  | ActorSystem => JString "system"
  | ActorEnclave => JString "enclave"
  end.

(** ** [sink.rs] *)

Inductive AuditError :=
  | AuditIo (why : string)
  | AuditSerde (why : string)
  | AuditCrypto (why : string).

Record AuditEventDraft := {
  draft_actor : Actor;
  draft_kind : AuditKind;
  draft_request_id : option RequestId;
  draft_wallet_id : option WalletId;
  draft_details : Json;
}.

(** ** [file.rs] *)

Record ChainState := { head_hash : bytes; written : Z }.

Definition genesis_hash : bytes := replicate 32 x00.

(** A [u64] counter. *)
Definition u64_wrap (z : Z) : Z := z mod 2 ^ 64.

(** How the file operations of one [emit] end: all succeed; [open] fails; a
    write fails after [k] bytes reached the file; the line is written and a
    [flush] or [sync_all] fails. *)
Inductive IoOutcome :=
  | IoOk
  | IoOpenErr (why : string)
  | IoWriteErr (k : nat) (why : string)
  | IoSyncErr (why : string).

(** One emission: its fresh id, its time, how its I/O ends, and the caller's
    draft. *)
Record Emission := { em_id : EventId; em_at : Z; em_io : IoOutcome; em_draft : AuditEventDraft }.

(** [<[u8]>::split(|b| *b == b'\n')]: always at least one piece. *)
Fixpoint split_newline (bs : bytes) : list bytes :=
  match bs with
  | [] => [[]]
  | b :: bs =>
      if bool_decide (b = x0a) then [] :: split_newline bs
      else match split_newline bs with
           | l :: ls => (b :: l) :: ls
           | [] => [[b]]
           end
  end.

Definition nonempty_lines (content : bytes) : list bytes :=
  List.filter (λ l : bytes, negb (bool_decide (l = []))) (split_newline content).

(** The derived [Deserialize] through [serde_json::from_slice]; the error is its
    text. *)
Class EventSerde := { event_from_slice : bytes → result string AuditEvent }.

Section audit.
Context `{UlidCrate, JsonCrate, DigestCrate, Ed25519Crate, EventSerde}.

Definition event_json (e : AuditEvent) : Json :=
  JObject [("event_id", json_ulid (EventId_ulid (event_id e)));
           ("prev_event_hash", JString (hex_encode (prev_event_hash e)));
           ("timestamp_unix_ms", JNumber (event_timestamp_unix_ms e));
           ("actor", actor_json (event_actor e));
           ("kind", JString (kind_name (event_kind e)));
           ("request_id", from_option (λ r, json_ulid (RequestId_ulid r)) JNull (event_request_id e));
           ("wallet_id", from_option (λ w, json_ulid (WalletId_ulid w)) JNull (event_wallet_id e));
           ("details", event_details e);
           ("server_signature", JString (hex_encode (server_signature e)))].

Definition signing_preimage (prev : bytes) (id : EventId) (k : AuditKind) (details : Json) : bytes :=
  prev ++ string_bytes (ulid_to_string (EventId_ulid id)) ++ string_bytes "|" ++ [kind_byte k]
  ++ string_bytes "|" ++ json_to_vec details.

Definition event_preimage (e : AuditEvent) : bytes :=
  signing_preimage (prev_event_hash e) (event_id e) (event_kind e) (event_details e).

(** [SHA-256(preimage || signature)], what the next event links to. *)
Definition event_digest (e : AuditEvent) : bytes := sha256 (event_preimage e ++ server_signature e).

Definition server_public_key (server_key : bytes) : bytes := ed_public server_key.

(** The line [emit] appends. *)
Definition event_line (e : AuditEvent) : bytes := json_to_vec (event_json e) ++ [x0a].

(** The event [emit] builds. *)
Definition stamp (server_key : bytes) (fresh : EventId) (now : Z) (draft : AuditEventDraft)
    (st : ChainState) : AuditEvent :=
  let preimage := signing_preimage (head_hash st) fresh (draft_kind draft) (draft_details draft) in
  {| event_id := fresh; prev_event_hash := head_hash st; event_timestamp_unix_ms := now;
     event_actor := draft_actor draft; event_kind := draft_kind draft;
     event_request_id := draft_request_id draft; event_wallet_id := draft_wallet_id draft;
     event_details := draft_details draft; server_signature := ed_sign server_key preimage |}.

(** [emit]; the state lock is held throughout.  [file] is the log's content. *)
Definition emit (server_key : bytes) (fresh : EventId) (now : Z) (io : IoOutcome)
    (draft : AuditEventDraft) (st : ChainState) (file : bytes)
    : result AuditError AuditEvent * ChainState * bytes :=
  let event := stamp server_key fresh now draft st in
  let line := event_line event in
  match io with
  | IoOpenErr why => (Err (AuditIo why), st, file)
  | IoWriteErr k why => (Err (AuditIo why), st, file ++ take k line)
  | IoSyncErr why => (Err (AuditIo why), st, file ++ line)
  | IoOk => (Ok event, {| head_hash := event_digest event; written := u64_wrap (written st + 1) |},
             file ++ line)
  end.

(** The default [emit_batch]. *)
Fixpoint emit_batch (server_key : bytes) (ms : list Emission) (st : ChainState) (file : bytes)
    : result AuditError (list AuditEvent) * ChainState * bytes :=
  match ms with
  | [] => (Ok [], st, file)
  | m :: ms =>
      match emit server_key (em_id m) (em_at m) (em_io m) (em_draft m) st file with
      | (Err e, st, file) => (Err e, st, file)
      | (Ok event, st, file) =>
          match emit_batch server_key ms st file with
          | (Err e, st, file) => (Err e, st, file)
          | (Ok events, st, file) => (Ok (event :: events), st, file)
          end
      end
  end.

(** [recover_chain_head], given how reading the file went ([None]: not found). *)
Definition recover_chain_head (read : result string (option bytes))
    : panics (result AuditError (bytes * Z)) :=
  match read with
  | Err why => Returns (Err (AuditIo why))
  | Ok None => Returns (Ok (genesis_hash, 0))
  | Ok (Some content) =>
      if bool_decide (content = []) then Returns (Ok (genesis_hash, 0))
      else
        let lines := nonempty_lines content in
        match last lines with
        | None => Panics "non-empty by earlier check"
        | Some l =>
            Returns (event ← map_err AuditSerde (event_from_slice l);
                     mret (event_digest event, u64_wrap (Z.of_nat (length lines))))
        end
  end.

(** [FileAuditSink::open]. *)
Definition open_sink (read : result string (option bytes)) : panics (result AuditError ChainState) :=
  match recover_chain_head read with
  | Panics why => Panics why
  | Returns (Err e) => Returns (Err e)
  | Returns (Ok (h, n)) => Returns (Ok {| head_hash := h; written := n |})
  end.

Definition verify_event (e : AuditEvent) (verifying_key : bytes) : result AuditError bool :=
  _ ← ensure (bool_decide (length verifying_key = 32%nat)) (AuditCrypto "verifying key must be 32 bytes");
  _ ← ensure (ed_key_valid verifying_key) (AuditCrypto "malformed ed25519 pubkey");
  _ ← ensure (bool_decide (length (server_signature e) = 64%nat)) (AuditCrypto "signature must be 64 bytes");
  mret (ed_verify verifying_key (event_preimage e) (server_signature e)).

Fixpoint replay_lines (verifying_key prev : bytes) (n : Z) (lines : list bytes) : result AuditError Z :=
  match lines with
  | [] => Ok n
  | line :: lines =>
      event ← map_err AuditSerde (event_from_slice line);
      _ ← ensure (bool_decide (prev_event_hash event = prev)) (AuditCrypto "hash chain broken");
      ok ← verify_event event verifying_key;
      _ ← ensure ok (AuditCrypto "signature mismatch");
      replay_lines verifying_key (event_digest event) (u64_wrap (n + 1)) lines
  end.

Definition replay_verify (read : result string bytes) (verifying_key : bytes) : result AuditError Z :=
  content ← map_err AuditIo read;
  if bool_decide (content = []) then Ok 0
  else replay_lines verifying_key genesis_hash 0 (nonempty_lines content).

(** ** Specification: a log is a list of events *)

Fixpoint chained (prev : bytes) (es : list AuditEvent) : Prop :=
  match es with
  | [] => True
  | e :: es => prev_event_hash e = prev ∧ chained (event_digest e) es
  end.

Definition chain_head (prev : bytes) (es : list AuditEvent) : bytes :=
  from_option event_digest prev (last es).

Definition log_content (es : list AuditEvent) : bytes := concat (event_line <$> es).

(** The fields of an event that are in range. *)
Definition event_ok (e : AuditEvent) : Prop :=
  is_ulid (EventId_ulid (event_id e)) ∧ length (prev_event_hash e) = 32%nat
  ∧ is_i64 (event_timestamp_unix_ms e)
  ∧ from_option (λ r, is_ulid (RequestId_ulid r)) True (event_request_id e)
  ∧ from_option (λ w, is_ulid (WalletId_ulid w)) True (event_wallet_id e).

End audit.

(** A serialised event in range parses back to itself. *)
Class EventSerdeLaws `{UlidCrate, JsonCrate, EventSerde} : Prop := {
  event_round_trip : ∀ e, event_ok e → event_from_slice (json_to_vec (event_json e)) = Ok e;
}.

Section audit_proofs.
Context `{UlidCrate, JsonCrate, DigestCrate, Ed25519Crate, EventSerde}.
Context `{!UlidLaws, !JsonLaws, !DigestLaws, !Ed25519Laws, !EventSerdeLaws}.

(** ** Lemmas *)

Lemma split_newline_line l rest :
  x0a ∉ l → split_newline (l ++ x0a :: rest) = l :: split_newline rest.
Proof.
  induction l as [|b l IH]; intros Hni; cbn [split_newline app]; [done|].
  apply not_elem_of_cons in Hni as [Hb Hl]. rewrite bool_decide_eq_false_2 by done.
  by rewrite IH.
Qed.

Lemma nonempty_lines_log es :
  nonempty_lines (log_content es) = (λ e, json_to_vec (event_json e)) <$> es.
Proof.
  unfold nonempty_lines, log_content. induction es as [|e es IH]; [done|].
  cbn [fmap list_fmap concat]. unfold event_line at 1. rewrite <-app_assoc. cbn [app].
  rewrite split_newline_line by apply json_no_newline. cbn [List.filter].
  rewrite bool_decide_eq_false_2 by apply json_nonempty. cbn [negb]. f_equal. exact IH.
Qed.

Lemma log_content_nil es : log_content es = [] ↔ es = [].
Proof.
  destruct es as [|e es]; [done|]. unfold log_content. cbn [fmap list_fmap concat]. unfold event_line.
  split; [|done]. rewrite <-app_assoc. intros Heq%app_eq_nil. by destruct Heq.
Qed.

Lemma log_content_snoc es e : log_content (es ++ [e]) = log_content es ++ event_line e.
Proof. unfold log_content. rewrite fmap_app, concat_app. cbn. by rewrite app_nil_r. Qed.

Lemma chained_snoc prev es e :
  chained prev (es ++ [e]) ↔ chained prev es ∧ prev_event_hash e = chain_head prev es.
Proof.
  revert prev. induction es as [|a es IH]; intros prev; cbn [chained app].
  { cbn. naive_solver. }
  rewrite IH. unfold chain_head. destruct es as [|b es]; [cbn; naive_solver|].
  rewrite last_cons_cons. destruct (last (b :: es)) eqn:Hl; [cbn; naive_solver|].
  by apply last_None in Hl.
Qed.

Lemma chain_head_snoc prev es e : chain_head prev (es ++ [e]) = event_digest e.
Proof. unfold chain_head. by rewrite last_snoc. Qed.

Lemma u64_wrap_add n m : u64_wrap (u64_wrap n + m) = u64_wrap (n + m).
Proof. unfold u64_wrap. by rewrite Z.add_mod_idemp_l by lia. Qed.

Lemma replay_lines_log vk prev n es :
  Forall event_ok es →
  replay_lines vk prev n ((λ e, json_to_vec (event_json e)) <$> es) = Ok (u64_wrap (n + Z.of_nat (length es)))
    ∧ 0 ≤ n < 2 ^ 64
  ↔ 0 ≤ n < 2 ^ 64 ∧ chained prev es ∧ Forall (λ e, verify_event e vk = Ok true) es.
Proof.
  intros Hok. revert prev n. induction Hok as [|e es He _ IH]; intros prev n.
  - cbn. rewrite Z.add_0_r. unfold u64_wrap. split; [|intros [Hn _]; by rewrite Z.mod_small].
    intros [_ Hn]. split; [done|]. by split; [|constructor].
  - cbn [fmap list_fmap replay_lines]. rewrite event_round_trip by done. cbn [map_err mbind result_bind chained].
    rewrite ensure_bind_ok, bool_decide_eq_true, Forall_cons.
    destruct (verify_event e vk) as [[]|err] eqn:Hv; cbn [mbind result_bind ensure]; [|naive_solver..].
    specialize (IH (event_digest e) (u64_wrap (n + 1))).
    rewrite u64_wrap_add in IH. cbn [length].
    replace (n + Z.of_nat (S (length es))) with (n + 1 + Z.of_nat (length es)) by lia.
    assert (0 ≤ u64_wrap (n + 1) < 2 ^ 64) by (apply Z.mod_pos_bound; lia). naive_solver.
Qed.

Lemma replay_lines_count vk prev n lines m :
  0 ≤ n < 2 ^ 64 → replay_lines vk prev n lines = Ok m → m = u64_wrap (n + Z.of_nat (length lines)).
Proof.
  revert prev n. induction lines as [|l lines IH]; intros prev n Hn; cbn [replay_lines].
  { intros [= <-]. cbn. rewrite Z.add_0_r. unfold u64_wrap. by rewrite Z.mod_small. }
  intros (e & _ & Hr)%result_bind_ok. apply ensure_bind_ok in Hr as [_ Hr].
  apply result_bind_ok in Hr as (ok & _ & Hr). apply ensure_bind_ok in Hr as [_ Hr].
  apply IH in Hr; [|apply Z.mod_pos_bound; lia]. subst m. rewrite u64_wrap_add. cbn [length].
  f_equal. lia.
Qed.

(** [replay_verify] accepts a well-formed log exactly when it is chained from the
    genesis hash and every signature verifies. *)
Lemma replay_verify_log vk es m :
  Forall event_ok es →
  replay_verify (Ok (log_content es)) vk = Ok m ↔
  m = u64_wrap (Z.of_nat (length es)) ∧ chained genesis_hash es
    ∧ Forall (λ e, verify_event e vk = Ok true) es.
Proof.
  intros Hok. unfold replay_verify. cbn [map_err mbind result_bind]. case_bool_decide as Hnil.
  { apply log_content_nil in Hnil as ->. cbn. split; [|naive_solver].
    intros [= <-]. by split; [|split; [|constructor]]. }
  rewrite nonempty_lines_log. pose proof (replay_lines_log vk genesis_hash 0 es Hok) as Hiff. split.
  - intros Hm. pose proof (replay_lines_count vk genesis_hash 0 _ m ltac:(lia) Hm) as ->.
    rewrite length_fmap in *. rewrite Z.add_0_l in *. naive_solver.
  - intros (-> & Hc & Hv). rewrite Z.add_0_l in Hiff. apply Hiff. split; [lia|done].
Qed.

(** The log [es] and the sink's in-memory state agree. *)
Definition sink_ok (key : bytes) (st : ChainState) (file : bytes) (es : list AuditEvent) : Prop :=
  file = log_content es ∧ chained genesis_hash es ∧ Forall event_ok es
  ∧ Forall (λ e, server_signature e = ed_sign key (event_preimage e)) es
  ∧ st = {| head_hash := chain_head genesis_hash es; written := u64_wrap (Z.of_nat (length es)) |}.

Lemma chain_head_length es : length (chain_head genesis_hash es) = 32%nat.
Proof. unfold chain_head. destruct (last es); cbn; [apply sha256_length|done]. Qed.

Definition emission_ok (m : Emission) : Prop :=
  is_ulid (EventId_ulid (em_id m)) ∧ is_i64 (em_at m)
  ∧ from_option (λ r, is_ulid (RequestId_ulid r)) True (draft_request_id (em_draft m))
  ∧ from_option (λ w, is_ulid (WalletId_ulid w)) True (draft_wallet_id (em_draft m)).

Lemma stamp_ok key m st es file :
  emission_ok m → sink_ok key st file es →
  let e := stamp key (em_id m) (em_at m) (em_draft m) st in
  event_ok e ∧ prev_event_hash e = chain_head genesis_hash es
  ∧ server_signature e = ed_sign key (event_preimage e).
Proof.
  intros (Hid & Hat & Hr & Hw) (_ & _ & _ & _ & ->). cbn. split; [|done].
  repeat split; try done; try apply Hat. apply chain_head_length.
Qed.

Lemma emit_ok_sink key m st file es :
  emission_ok m → sink_ok key st file es →
  ∃ e st' file', emit key (em_id m) (em_at m) IoOk (em_draft m) st file = (Ok e, st', file')
    ∧ sink_ok key st' file' (es ++ [e]).
Proof.
  intros Hm Hs. destruct (stamp_ok key m st es file Hm Hs) as (He & Hp & Hsig).
  destruct Hs as (-> & Hc & Hok & Hsigs & ->). eexists _, _, _. split; [reflexivity|].
  split; [by rewrite log_content_snoc|]. split; [by apply chained_snoc|].
  split; [apply Forall_app_2; [done|by constructor]|].
  split; [apply Forall_app_2; [done|by constructor]|].
  f_equal.
  - by rewrite chain_head_snoc.
  - cbn [written]. rewrite u64_wrap_add, length_app. cbn. f_equal. lia.
Qed.

Lemma signed_verifies key e :
  server_signature e = ed_sign key (event_preimage e) → verify_event e (server_public_key key) = Ok true.
Proof.
  intros Hs. unfold verify_event, server_public_key.
  rewrite (bool_decide_eq_true_2 (length (ed_public key) = 32%nat)) by apply ed_public_length.
  rewrite ed_public_valid, Hs.
  rewrite (bool_decide_eq_true_2 (length (ed_sign _ _) = 64%nat)) by apply ed_sign_length.
  cbn [ensure mbind result_bind]. by rewrite ed_verify_sign.
Qed.

Lemma emit_batch_sink key ms st file es :
  Forall (λ m, emission_ok m ∧ em_io m = IoOk) ms → sink_ok key st file es →
  ∃ evs st' file', emit_batch key ms st file = (Ok evs, st', file')
    ∧ length evs = length ms ∧ sink_ok key st' file' (es ++ evs).
Proof.
  intros Hms. revert st file es. induction Hms as [|m ms [Hm Hio] _ IH]; intros st file es Hs; cbn [emit_batch].
  { eexists _, _, _. split; [reflexivity|]. by rewrite app_nil_r. }
  rewrite Hio. destruct (emit_ok_sink key m st file es Hm Hs) as (e & st1 & file1 & -> & Hs1).
  destruct (IH _ _ _ Hs1) as (evs & st2 & file2 & -> & Hlen & Hs2).
  eexists _, _, _. split; [reflexivity|]. split; [cbn; by f_equal|]. by rewrite <-app_assoc in Hs2.
Qed.

Lemma fresh_sink_ok key : sink_ok key {| head_hash := genesis_hash; written := 0 |} [] [].
Proof. by repeat split; constructor. Qed.

Lemma open_log es :
  Forall event_ok es →
  open_sink (Ok (Some (log_content es))) =
    Returns (Ok {| head_hash := chain_head genesis_hash es; written := u64_wrap (Z.of_nat (length es)) |}).
Proof.
  intros Hok. unfold open_sink, recover_chain_head. case_bool_decide as Hnil.
  { by apply log_content_nil in Hnil as ->. }
  rewrite nonempty_lines_log, fmap_last, length_fmap. unfold chain_head.
  destruct (last es) as [e|] eqn:Hl.
  2: { apply last_None in Hl. subst. done. }
  cbn [fmap option_fmap option_map]. rewrite event_round_trip; [done|].
  rewrite Forall_forall in Hok. apply Hok. by apply last_Some_elem_of.
Qed.

Lemma signing_preimage_inj p p' i i' k k' d d' :
  length p = length p' → is_ulid (EventId_ulid i) → is_ulid (EventId_ulid i') →
  signing_preimage p i k d = signing_preimage p' i' k' d' → p = p' ∧ i = i' ∧ k = k' ∧ d = d'.
Proof.
  intros Hlen Hi Hi'. unfold signing_preimage.
  intros [-> Heq]%app_inj_1; [|done]. apply app_inj_1 in Heq as [Hid Heq]; [|by rewrite !ulid_bytes_length].
  apply ulid_bytes_inj in Hid; [|done..].
  apply app_inj_1 in Heq as [_ Heq]; [|done]. apply app_inj_1 in Heq as [Hk Heq]; [|done].
  apply app_inj_1 in Heq as [_ Hd]; [|done]. apply json_to_vec_inj in Hd as ->.
  destruct i, i'. cbn in Hid. subst. split; [done|]. split; [done|]. split; [|done].
  by destruct k, k'.
Qed.

(** Two events with the same signed content. *)
Definition same_signed (e e' : AuditEvent) : Prop :=
  prev_event_hash e = prev_event_hash e' ∧ event_id e = event_id e' ∧ event_kind e = event_kind e'
  ∧ event_details e = event_details e' ∧ server_signature e = server_signature e'.

(** What [event_digest] hashes of an event. *)
Definition digested (e : AuditEvent) : bytes := event_preimage e ++ server_signature e.

(** An event of one log and an event of the other were hashed from different
    bytes to the same digest. *)
Definition collide (es es' : list AuditEvent) : Prop :=
  ∃ e e', e ∈ es ∧ e' ∈ es' ∧ digested e ≠ digested e' ∧ sha256 (digested e) = sha256 (digested e').

(** An event was hashed to the 32 zero bytes a log starts from. *)
Definition hits_genesis (es : list AuditEvent) : Prop := ∃ e, e ∈ es ∧ sha256 (digested e) = genesis_hash.

Lemma collide_weaken es es' ds ds' : es ⊆ ds → es' ⊆ ds' → collide es es' → collide ds ds'.
Proof. intros Hs Hs' (e & e' & He & He' & ?). exists e, e'. auto. Qed.

Lemma event_digest_inj e e' :
  event_ok e → event_ok e' → length (server_signature e) = length (server_signature e') →
  event_digest e = event_digest e' → same_signed e e' ∨ collide [e] [e'].
Proof.
  intros (Hi & Hp & _) (Hi' & Hp' & _) Hlen Heq. unfold event_digest in Heq.
  destruct (decide (digested e = digested e')) as [Heq'|Hne].
  2: { right. exists e, e'. by split_and!; [left|left|..]. }
  left. apply app_inj_2 in Heq' as [Hpre Hsig]; [|done].
  apply signing_preimage_inj in Hpre as (? & ? & ? & ?); [|congruence|done..]. done.
Qed.

(** Chains with the same head, from the end: either the last events agree, or they
    collide, or one chain ends where the other starts. *)
Lemma same_head_events es es' :
  Forall event_ok es → Forall event_ok es' →
  Forall (λ e, length (server_signature e) = 64%nat) es →
  Forall (λ e, length (server_signature e) = 64%nat) es' →
  chained genesis_hash es → chained genesis_hash es' →
  chain_head genesis_hash es = chain_head genesis_hash es' →
  Forall2 same_signed es es' ∨ collide es es' ∨ length es ≠ length es' ∧ hits_genesis (es ++ es').
Proof.
  revert es'. induction es as [|e es IH] using rev_ind; intros es' Hok Hok' Hs Hs' Hc Hc' Hh.
  { destruct es' as [|e' es' _] using rev_ind; [by left|]. right; right. rewrite length_app. split; [cbn; lia|].
    rewrite chain_head_snoc in Hh. exists e'. split; [set_solver|done]. }
  destruct es' as [|e' es' _] using rev_ind.
  { right; right. rewrite length_app. split; [cbn; lia|]. rewrite chain_head_snoc in Hh. exists e.
    split; [set_solver|done]. }
  apply Forall_app in Hok as [Hok [He _]%Forall_cons].
  apply Forall_app in Hok' as [Hok' [He' _]%Forall_cons]. apply Forall_app in Hs as [Hs [Hse _]%Forall_cons].
  apply Forall_app in Hs' as [Hs' [Hse' _]%Forall_cons].
  apply chained_snoc in Hc as [Hc Hp]. apply chained_snoc in Hc' as [Hc' Hp'].
  rewrite !chain_head_snoc in Hh.
  destruct (event_digest_inj e e' He He' ltac:(congruence) Hh) as [Hsame|Hcol].
  2: { right; left. eapply collide_weaken; [| |exact Hcol]; set_solver. }
  assert (chain_head genesis_hash es = chain_head genesis_hash es') as Hh' by (rewrite <-Hp, <-Hp'; apply Hsame).
  destruct (IH es' Hok Hok' Hs Hs' Hc Hc' Hh') as [Hall|[Hcol|[Hne (x & Hx & Hz)]]].
  - left. apply Forall2_app; [done|by constructor].
  - right; left. eapply collide_weaken; [| |exact Hcol]; set_solver.
  - right; right. rewrite !length_app. split; [cbn; lia|]. exists x. split; [set_solver|done].
Qed.

Lemma verify_event_sig_length e vk : verify_event e vk = Ok true → length (server_signature e) = 64%nat.
Proof. unfold verify_event. rewrite !ensure_bind_ok, !bool_decide_eq_true. naive_solver. Qed.

Lemma chain_head_cons prev e es : chain_head prev (e :: es) = chain_head (event_digest e) es.
Proof.
  unfold chain_head. destruct es as [|b es]; [done|]. rewrite last_cons_cons.
  destruct (last (b :: es)) eqn:Hl; [done|]. by apply last_None in Hl.
Qed.

Lemma same_signed_chain prev es es' :
  Forall2 same_signed es es' → chained prev es →
  chained prev es' ∧ chain_head prev es = chain_head prev es'.
Proof.
  intros Hs. revert prev. induction Hs as [|e e' es es' He _ IH]; intros prev; [done|].
  cbn [chained]. intros [Hp Hc]. rewrite !chain_head_cons.
  assert (event_digest e = event_digest e') as Heq.
  { destruct He as (? & ? & ? & ? & ?). unfold event_digest, event_preimage. congruence. }
  rewrite <-Heq. destruct (IH _ Hc) as [Hc' Hh]. split; [|done]. split; [|done].
  by rewrite <-(proj1 He).
Qed.

(** ** Properties *)

(** C16. Everything the sink emits verifies, and reopening resumes the chain: after
    any number of emissions to a fresh log whose writes, flushes and syncs all
    succeed, the replay check under the sink's public key accepts the file and
    counts every event, and opening the file again yields exactly the in-memory
    head and count. *)
Theorem emitted_log_replays key ms :
  Forall (λ m, emission_ok m ∧ em_io m = IoOk) ms →
  ∃ evs st file,
    emit_batch key ms {| head_hash := genesis_hash; written := 0 |} [] = (Ok evs, st, file)
    ∧ length evs = length ms
    ∧ replay_verify (Ok file) (server_public_key key) = Ok (u64_wrap (Z.of_nat (length ms)))
    ∧ open_sink (Ok (Some file)) = Returns (Ok st).
Proof.
  intros Hms. destruct (emit_batch_sink key ms _ _ _ Hms (fresh_sink_ok key))
    as (evs & st & file & Hb & Hlen & (-> & Hc & Hok & Hsig & ->)).
  eexists evs, _, _. split; [exact Hb|]. split; [done|]. cbn [app] in *. split; [|by apply open_log].
  apply replay_verify_log; [done|]. rewrite Hlen. split; [done|]. split; [done|].
  eapply Forall_impl; [exact Hsig|]. intros e He. by apply signed_verifies.
Qed.

(** C18. Tamper evidence of an anchored head: two logs that both pass the replay check
    (under whatever keys) and open to the same head hash carry, event by event,
    the same links, ids, kinds, details and signatures, unless an event of one
    and an event of the other were hashed from different bytes to the same
    SHA-256 digest, or, for logs of different length, the bytes of one of their
    events hash to the 32 zero bytes a log starts from. *)
Theorem same_head_same_history vk vk' es es' n n' st st' :
  Forall event_ok es → Forall event_ok es' →
  replay_verify (Ok (log_content es)) vk = Ok n → replay_verify (Ok (log_content es')) vk' = Ok n' →
  open_sink (Ok (Some (log_content es))) = Returns (Ok st) →
  open_sink (Ok (Some (log_content es'))) = Returns (Ok st') →
  head_hash st = head_hash st' →
  Forall2 same_signed es es' ∨ collide es es' ∨ length es ≠ length es' ∧ hits_genesis (es ++ es').
Proof.
  intros Hok Hok' (_ & Hc & Hv)%replay_verify_log (_ & Hc' & Hv')%replay_verify_log; [|done..].
  rewrite !open_log by done. intros [= <-] [= <-] Hhead.
  apply same_head_events; [done|done| | |done|done|done];
    (eapply Forall_impl; [first [exact Hv|exact Hv']|]); cbn; eauto using verify_event_sig_length.
Qed.

(** The actor, the time and the request and wallet references of an event are
    outside the signature and the chain: rewriting them in any way, in every
    event, leaves a log that the replay check still accepts, with the same head. *)
Theorem unsigned_fields_tamperable vk es es' n :
  Forall event_ok es → Forall event_ok es' → Forall2 same_signed es es' →
  replay_verify (Ok (log_content es)) vk = Ok n →
  replay_verify (Ok (log_content es')) vk = Ok n
  ∧ open_sink (Ok (Some (log_content es'))) = open_sink (Ok (Some (log_content es))).
Proof.
  intros Hok Hok' Hsame (-> & Hc & Hv)%replay_verify_log; [|done].
  assert (length es = length es') as Hlen by by eapply Forall2_length.
  destruct (same_signed_chain genesis_hash es es' Hsame Hc) as [Hc' Hhead].
  split; [|by rewrite !open_log, Hhead, Hlen].
  apply replay_verify_log; [done|]. rewrite Hlen. split; [done|]. split; [done|].
  clear -Hsame Hv. induction Hsame as [|e e' es es' He _ IH]; [constructor|].
  apply Forall_cons in Hv as [Hv Hvs]. constructor; [|by apply IH].
  destruct He as (Hp & Hi & Hk & Hd & Hs). unfold verify_event, event_preimage in *.
  by rewrite <-Hp, <-Hi, <-Hk, <-Hd, <-Hs.
Qed.

(** A failed [flush] or [sync_all] corrupts the log for good: the line is in the
    file but the chain head is not advanced, so the next event links to the same
    predecessor and the replay check reports a broken chain (unless the lost
    event's digest equals the hash it embeds). *)
Theorem failed_sync_breaks_log key st file es m1 why m2 :
  sink_ok key st file es → emission_ok m1 → emission_ok m2 →
  event_digest (stamp key (em_id m1) (em_at m1) (em_draft m1) st) ≠ head_hash st →
  let '(r1, st1, file1) := emit key (em_id m1) (em_at m1) (IoSyncErr why) (em_draft m1) st file in
  let '(r2, _, file2) := emit key (em_id m2) (em_at m2) IoOk (em_draft m2) st1 file1 in
  r1 = Err (AuditIo why) ∧ (∃ e, r2 = Ok e)
  ∧ ∀ n, replay_verify (Ok file2) (server_public_key key) ≠ Ok n.
Proof.
  intros Hs Hm1 Hm2 Hne. cbn [emit]. split; [done|]. split; [by eexists|]. intros n.
  destruct (stamp_ok key m1 st es file Hm1 Hs) as (He1 & Hp1 & _).
  destruct (stamp_ok key m2 st es file Hm2 Hs) as (He2 & Hp2 & _).
  destruct Hs as (-> & Hc & Hok & _ & ->). rewrite <-!log_content_snoc.
  intros (_ & Hc' & _)%replay_verify_log; [|repeat (apply Forall_app_2; [|by constructor]); done].
  apply chained_snoc in Hc' as [_ Hlast]. rewrite chain_head_snoc in Hlast.
  apply Hne. rewrite <-Hlast. done.
Qed.

End audit_proofs.

(** Opening a log that holds only newlines panics on the [expect]. *)
Theorem newline_only_log_panics `{UlidCrate, JsonCrate, DigestCrate, EventSerde} k :
  open_sink (Ok (Some (replicate (S k) x0a))) = Panics "non-empty by earlier check".
Proof.
  unfold open_sink, recover_chain_head. rewrite bool_decide_eq_false_2 by done.
  assert (nonempty_lines (replicate (S k) x0a) = []) as ->; [|done].
  unfold nonempty_lines. induction k as [|k IH]; [done|]. exact IH.
Qed.

Module AuditWitness.
Import Concrete.

(** A decoder for exactly the documents the serialiser writes. *)
Definition kinds : list AuditKind :=
  [WalletCreated; WalletRevoked; SigningRequested; SigningEvaluated; QuorumNotified;
   QuorumApprovalReceived; QuorumApprovalRejected; QuorumTimedOut; QuorumThresholdReached;
   PolicyDecisionSigned; SigningAttempted; SigningSucceeded; SigningFailed; PolicyChanged;
   ApproverSetChanged; SystemError; EnclaveAttested].
Definition kind_of_name (s : string) : option AuditKind := find (λ k, String.eqb (kind_name k) s) kinds.

Definition actor_of_json (j : Json) : option Actor :=
  match j with
  | JString s => if String.eqb s "system" then Some ActorSystem else Some ActorEnclave
  | JObject [(k, JObject [(_, JString id)])] =>
      if String.eqb k "requester" then Some (ActorRequester id) else Some (ActorApprover id)
  | _ => None
  end.

Definition id_of_json (j : Json) : option (option N) :=
  match j with
  | JNull => Some None
  | JString s => Some <$> ulid_from_string s
  | _ => None
  end.

Definition event_of_json (j : Json) : option AuditEvent :=
  match j with
  | JObject [(_, JString i); (_, JString p); (_, JNumber t); (_, a); (_, JString k); (_, r); (_, w);
             (_, d); (_, JString s)] =>
      i ← ulid_from_string i; p ← hex_decode p; a ← actor_of_json a; k ← kind_of_name k;
      r ← id_of_json r; w ← id_of_json w; s ← hex_decode s;
      Some {| event_id := EventId_from_ulid i; prev_event_hash := p; event_timestamp_unix_ms := t;
              event_actor := a; event_kind := k; event_request_id := RequestId_from_ulid <$> r;
              event_wallet_id := WalletId_from_ulid <$> w; event_details := d; server_signature := s |}
  | _ => None
  end.

#[export] Instance event_serde : EventSerde := {|
  event_from_slice bs := ok_or (j ← json_from_slice bs; event_of_json j) "invalid event" |}.

Lemma kind_of_kind_name k : kind_of_name (kind_name k) = Some k.
Proof. by destruct k. Qed.
Lemma actor_of_actor_json a : actor_of_json (actor_json a) = Some a.
Proof. by destruct a. Qed.

#[export] Instance event_serde_laws : EventSerdeLaws.
Proof.
  split. intros [i p t a k r w d s] (Hi & _ & _ & Hr & Hw). unfold event_from_slice, event_serde.
  rewrite json_round_trip. cbn [mbind option_bind]. unfold event_json, json_ulid. cbn [event_of_json event_id
    prev_event_hash event_timestamp_unix_ms event_actor event_kind event_request_id event_wallet_id
    event_details server_signature] in *.
  rewrite ulid_parse_to_string by done. cbn [mbind option_bind]. rewrite !hex_decode_encode. cbn [mbind option_bind].
  rewrite actor_of_actor_json. cbn [mbind option_bind]. rewrite kind_of_kind_name. cbn [mbind option_bind].
  destruct i as [i], r as [[r]|], w as [[w]|]; cbn [from_option RequestId_ulid WalletId_ulid] in *;
    cbn [id_of_json]; rewrite ?ulid_parse_to_string by done; done.
Qed.

Definition key : bytes := replicate 32 x0b.
Definition st0 : ChainState := {| head_hash := genesis_hash; written := 0 |}.
Definition m (i : N) : Emission := {|
  em_id := EventId_from_ulid i; em_at := 5; em_io := IoOk;
  em_draft := {| draft_actor := ActorRequester "key-1"; draft_kind := SigningRequested;
                 draft_request_id := None; draft_wallet_id := Some (WalletId_from_ulid 4);
                 draft_details := JNull |} |}.

Lemma m_ok i : is_ulid i → emission_ok (m i).
Proof. intros Hi. split; [done|]. split; [split; vm_compute; congruence|]. split; [done|]. by vm_compute. Qed.

Example emitted_log_replays_witness :
  ∃ evs st file, emit_batch key [m 1; m 2] st0 [] = (Ok evs, st, file)
    ∧ length evs = 2%nat
    ∧ replay_verify (Ok file) (server_public_key key) = Ok 2
    ∧ open_sink (Ok (Some file)) = Returns (Ok st).
Proof.
  apply (emitted_log_replays key [m 1; m 2]).
  repeat constructor; vm_compute; congruence.
Defined.

(** A one-event log, and the same log with another actor and time. *)
Definition e1 : AuditEvent := stamp key (EventId_from_ulid 1) 5 (em_draft (m 1)) st0.
Definition e1' : AuditEvent := {|
  event_id := event_id e1; prev_event_hash := prev_event_hash e1; event_timestamp_unix_ms := 99;
  event_actor := ActorRequester "somebody-else"; event_kind := event_kind e1;
  event_request_id := Some (RequestId_from_ulid 8); event_wallet_id := None;
  event_details := event_details e1; server_signature := server_signature e1 |}.

Lemma e1_sink : sink_ok key {| head_hash := event_digest e1; written := 1 |} (log_content [e1]) [e1].
Proof.
  destruct (emit_ok_sink key (m 1) st0 [] [] (m_ok 1 ltac:(by vm_compute)) (fresh_sink_ok key))
    as (e & st & file & [= <- <- <-] & Hs).
  destruct Hs as (_ & Hs). split; [done|]. exact Hs.
Qed.

Lemma e1_ok : Forall event_ok [e1].
Proof. apply e1_sink. Qed.
Lemma e1'_ok : Forall event_ok [e1'].
Proof.
  constructor; [|constructor]. split; [by vm_compute|]. split; [reflexivity|].
  split; [split; vm_compute; congruence|]. split; by vm_compute.
Qed.
Lemma e1_replays : replay_verify (Ok (log_content [e1])) (server_public_key key) = Ok 1.
Proof.
  apply replay_verify_log; [apply e1_ok|]. split; [done|]. split; [by split|].
  constructor; [|constructor]. by apply signed_verifies.
Qed.

(** The same event with its unsigned fields rewritten. *)
Lemma e1'_replays : replay_verify (Ok (log_content [e1'])) (server_public_key key) = Ok 1.
Proof.
  apply replay_verify_log; [apply e1'_ok|]. split; [done|]. split; [by split|].
  constructor; [|constructor]. pose proof e1_sink as (_ & _ & Hs & _). by apply signed_verifies.
Qed.

Example same_head_same_history_witness :
  Forall2 same_signed [e1] [e1'] ∨ collide [e1] [e1'] ∨ length [e1] ≠ length [e1'] ∧ hits_genesis ([e1] ++ [e1']).
Proof.
  apply (same_head_same_history (server_public_key key) (server_public_key key) [e1] [e1'] 1 1
           {| head_hash := event_digest e1; written := 1 |} {| head_hash := event_digest e1'; written := 1 |}).
  - apply e1_ok.
  - apply e1'_ok.
  - apply e1_replays.
  - apply e1'_replays.
  - apply (open_log [e1]), e1_ok.
  - apply (open_log [e1']), e1'_ok.
  - reflexivity.
Defined.

Example unsigned_fields_tamperable_witness :
  replay_verify (Ok (log_content [e1'])) (server_public_key key) = Ok 1
  ∧ open_sink (Ok (Some (log_content [e1']))) = open_sink (Ok (Some (log_content [e1]))).
Proof.
  apply (unsigned_fields_tamperable (server_public_key key) [e1] [e1'] 1).
  - apply e1_ok.
  - apply e1'_ok.
  - repeat constructor.
  - apply e1_replays.
Defined.

Example failed_sync_breaks_log_witness :
  let '(r1, st1, file1) := emit key (em_id (m 1)) 5 (IoSyncErr "disk full") (em_draft (m 1)) st0 [] in
  let '(r2, _, file2) := emit key (em_id (m 2)) 5 IoOk (em_draft (m 2)) st1 file1 in
  r1 = Err (AuditIo "disk full") ∧ (∃ e, r2 = Ok e)
  ∧ ∀ n, replay_verify (Ok file2) (server_public_key key) ≠ Ok n.
Proof.
  apply (failed_sync_breaks_log key st0 [] [] (m 1) "disk full" (m 2)).
  - apply fresh_sink_ok.
  - apply m_ok. reflexivity.
  - apply m_ok. reflexivity.
  - vm_compute. discriminate.
Defined.

End AuditWitness.
