(* ===== verification/AuditPostgres.v ===== *)
(** * AuditPostgres: the Postgres audit sink and the anchor payload
    ([postgres.rs], [anchor.rs])

    The table is the list of its rows in insertion order; the primary key and
    [ORDER BY timestamp_unix_ms DESC, event_id DESC LIMIT 1] are written out.
    An [emit] runs in one transaction under an advisory lock, so emits are
    atomic and totally ordered; a database error at any statement rolls the
    transaction back. *)

From S2P Require Import Prelude Text Types External SignedDecision AuditLog.
#[local] Open Scope string_scope.
#[local] Open Scope list_scope.
#[local] Open Scope Z_scope.

(** A row of [audit_events]; the [SMALLINT] columns are integers. *)
Record PgRow := {
  col_event_id : string;
  col_prev_event_hash : bytes;
  col_timestamp_unix_ms : Z;
  col_actor_kind : Z;
  col_actor_id : option string;
  col_kind : Z;
  col_request_id : option string;
  col_wallet_id : option string;
  col_details : Json;
  col_server_signature : bytes;
}.

Definition actor_columns (a : Actor) : Z * option string :=
  match a with
  | ActorRequester id => (1, Some id)
  | ActorApprover id => (2, Some id)
  | ActorSystem => (3, None)
  | ActorEnclave => (4, None)
  end.

(** [kind_from_byte] of [postgres.rs]. *)
Definition kind_from_byte (b : Z) : result AuditError AuditKind :=
  match b with
  | 1 => Ok WalletCreated | 2 => Ok WalletRevoked | 3 => Ok SigningRequested
  | 4 => Ok SigningEvaluated | 5 => Ok QuorumNotified | 6 => Ok QuorumApprovalReceived
  | 7 => Ok QuorumApprovalRejected | 8 => Ok QuorumTimedOut | 9 => Ok SigningAttempted
  | 10 => Ok SigningSucceeded | 11 => Ok SigningFailed | 12 => Ok PolicyChanged
  | 13 => Ok ApproverSetChanged | 14 => Ok SystemError | 15 => Ok EnclaveAttested
  | 16 => Ok QuorumThresholdReached
  | other => Err (AuditSerde ("unknown audit kind byte: " +:+ show_dec other))
  end.

(** The copy in [anchor.rs]. *)
Definition kind_from_byte_local (b : Z) : result AuditError AuditKind :=
  match b with
  | 1 => Ok WalletCreated | 2 => Ok WalletRevoked | 3 => Ok SigningRequested
  | 4 => Ok SigningEvaluated | 5 => Ok QuorumNotified | 6 => Ok QuorumApprovalReceived
  | 7 => Ok QuorumApprovalRejected | 8 => Ok QuorumTimedOut | 9 => Ok SigningAttempted
  | 10 => Ok SigningSucceeded | 11 => Ok SigningFailed | 12 => Ok PolicyChanged
  | 13 => Ok ApproverSetChanged | 14 => Ok SystemError | 15 => Ok EnclaveAttested
  | other => Err (AuditSerde ("anchor: unknown audit kind byte: " +:+ show_dec other))
  end.

Definition actor_from_columns (actor_kind : Z) (actor_id : option string) : result AuditError Actor :=
  match actor_kind with
  | 1 => id ← ok_or actor_id (AuditSerde "Requester row missing actor_id"); mret (ActorRequester id)
  | 2 => id ← ok_or actor_id (AuditSerde "Approver row missing actor_id"); mret (ActorApprover id)
  | 3 => Ok ActorSystem
  | 4 => Ok ActorEnclave
  | other => Err (AuditSerde ("unknown actor_kind: " +:+ show_dec other))
  end.

(** The sort order of the chain-head query. *)
Definition row_before (r s : PgRow) : bool :=
  (col_timestamp_unix_ms r <? col_timestamp_unix_ms s)
  || ((col_timestamp_unix_ms r =? col_timestamp_unix_ms s)
      && String.ltb (col_event_id r) (col_event_id s)).

Definition head_row (rows : list PgRow) : option PgRow :=
  foldl (λ best r, match best with
                   | None => Some r
                   | Some b => if row_before b r then Some r else Some b
                   end) None rows.

(** How the database answers during one [emit]. *)
Inductive PgOutcome := PgOk | PgErr (why : string).

Record AnchorPayload := {
  date_utc : string;
  chain_head_hex : string;
  head_event_id : option EventId;
  event_count : Z;
}.

Section postgres.
Context `{UlidCrate, UlidParse, JsonCrate, DigestCrate, Ed25519Crate, EventSerde}.
(** The texts of a malformed-identifier error and of a primary-key violation. *)
Variable ulid_error : string → string.
Variable duplicate_key : string.

(** [insert_event]: the row of an event. *)
Definition row_of (e : AuditEvent) : PgRow :=
  let '(actor_kind, actor_id) := actor_columns (event_actor e) in {|
  col_event_id := ulid_to_string (EventId_ulid (event_id e));
  col_prev_event_hash := prev_event_hash e;
  col_timestamp_unix_ms := event_timestamp_unix_ms e;
  col_actor_kind := actor_kind;
  col_actor_id := actor_id;
  col_kind := byte_val (kind_byte (event_kind e));
  col_request_id := (λ r, ulid_to_string (RequestId_ulid r)) <$> event_request_id e;
  col_wallet_id := (λ w, ulid_to_string (WalletId_ulid w)) <$> event_wallet_id e;
  col_details := event_details e;
  col_server_signature := server_signature e |}.

Definition insert_event (e : AuditEvent) (rows : list PgRow) : result AuditError (list PgRow) :=
  let row := row_of e in
  if existsb (λ r, String.eqb (col_event_id r) (col_event_id row)) rows
  then Err (AuditIo ("insert audit_events: " +:+ duplicate_key))
  else Ok (rows ++ [row]).

(** [u8::try_from] on an [i16]. *)
Definition try_u8 (z : Z) (text : string) : result AuditError Z :=
  if (0 <=? z) && (z <=? u8_max) then Ok z else Err (AuditSerde text).

Definition fetch_chain_head (rows : list PgRow) : result AuditError bytes :=
  match head_row rows with
  | None => Ok genesis_hash
  | Some row =>
      id ← ok_or (ulid_from_string (col_event_id row))
             (AuditSerde ("head event_id ulid parse: " +:+ ulid_error (col_event_id row)));
      b ← try_u8 (col_kind row) ("head kind byte out of range: " +:+ show_dec (col_kind row));
      kind ← kind_from_byte b;
      _ ← ensure (bool_decide (length (col_prev_event_hash row) = 32%nat))
            (AuditSerde ("head prev_event_hash must be 32 bytes, got "
                         +:+ show_dec (Z.of_nat (length (col_prev_event_hash row)))));
      mret (sha256 (signing_preimage (col_prev_event_hash row) (EventId_from_ulid id) kind (col_details row)
                    ++ col_server_signature row))
  end.

(** [PostgresAuditSink::emit].  The event is stamped as in the file sink. *)
Definition pg_emit (server_key : bytes) (fresh : EventId) (now : Z) (db : PgOutcome)
    (draft : AuditEventDraft) (rows : list PgRow) : result AuditError AuditEvent * list PgRow :=
  match db with
  | PgErr why => (Err (AuditIo why), rows)
  | PgOk =>
      match fetch_chain_head rows with
      | Err e => (Err e, rows)
      | Ok prev =>
          let event := stamp server_key fresh now draft {| head_hash := prev; written := 0 |} in
          if negb (bool_decide (length (server_signature event) = 64%nat))
          then (Err (AuditCrypto "ed25519 signature must be 64 bytes"), rows)
          else match insert_event event rows with
               | Err e => (Err e, rows)
               | Ok rows' => (Ok event, rows')
               end
      end
  end.

(** [anchor_payload], on a consistent snapshot of the table. *)
Definition anchor_payload (today : string) (rows : list PgRow) : result AuditError AnchorPayload :=
  '(head, id) ← match head_row rows with
    | None => Ok (hex_encode genesis_hash, None)
    | Some row =>
        id ← ok_or (ulid_from_string (col_event_id row))
               (AuditSerde ("anchor head event_id parse: " +:+ ulid_error (col_event_id row)));
        b ← try_u8 (col_kind row) ("anchor head kind byte: " +:+ show_dec (col_kind row));
        kind ← kind_from_byte_local b;
        _ ← ensure (bool_decide (length (col_prev_event_hash row) = 32%nat))
              (AuditSerde "anchor head prev_event_hash not 32 bytes");
        mret (hex_encode (sha256 (signing_preimage (col_prev_event_hash row) (EventId_from_ulid id) kind
                                    (col_details row) ++ col_server_signature row)),
              Some (EventId_from_ulid id))
    end;
  mret {| date_utc := today; chain_head_hex := head; head_event_id := id;
          event_count := Z.of_nat (length rows) |}.

(** ** Lemmas *)

Context `{!UlidLaws, !UlidParseLaws, !Ed25519Laws, !DigestLaws}.

Lemma kind_from_kind_byte k :
  kind_from_byte (byte_val (kind_byte k)) = Ok k ↔ k ≠ PolicyDecisionSigned.
Proof. destruct k; cbv -[show_dec]; naive_solver. Qed.

Lemma kind_from_kind_byte_local k :
  kind_from_byte_local (byte_val (kind_byte k)) = Ok k
  ↔ k ≠ PolicyDecisionSigned ∧ k ≠ QuorumThresholdReached.
Proof. destruct k; cbv -[show_dec]; naive_solver. Qed.

Lemma try_u8_kind k t : try_u8 (byte_val (kind_byte k)) t = Ok (byte_val (kind_byte k)).
Proof. by destruct k. Qed.

Lemma actor_columns_round_trip a :
  (let '(k, i) := actor_columns a in actor_from_columns k i) = Ok a.
Proof. by destruct a. Qed.

Lemma row_of_columns e :
  col_event_id (row_of e) = ulid_to_string (EventId_ulid (event_id e))
  ∧ col_prev_event_hash (row_of e) = prev_event_hash e
  ∧ col_timestamp_unix_ms (row_of e) = event_timestamp_unix_ms e
  ∧ col_kind (row_of e) = byte_val (kind_byte (event_kind e))
  ∧ col_details (row_of e) = event_details e
  ∧ col_server_signature (row_of e) = server_signature e.
Proof. unfold row_of. by destruct (actor_columns (event_actor e)). Qed.

(** A later row that is newer than every earlier one is the head. *)
Lemma head_row_newest rows r :
  Forall (λ q, row_before q r = true) rows → head_row (rows ++ [r]) = Some r.
Proof.
  intros Hall. unfold head_row. rewrite foldl_app. cbn [foldl].
  destruct (foldl _ None rows) as [b|] eqn:Hb; [|done].
  assert (b ∈ rows) as Hin.
  { assert (∀ o l, foldl (λ best r, match best with
                   | None => Some r
                   | Some b => if row_before b r then Some r else Some b
                   end) o l = Some b → o = Some b ∨ b ∈ l) as Hgen.
    { intros o l. revert o. induction l as [|x l IH]; intros o; cbn; [by left|].
      intros [Ho|Hl]%IH; [|right; by right]. destruct o as [y|]; [|injection Ho as <-; right; apply elem_of_cons; by left].
      destruct (row_before y x); [injection Ho as <-; right; apply elem_of_cons; by left|by left]. }
    by destruct (Hgen _ _ Hb). }
  rewrite Forall_forall in Hall. by rewrite Hall.
Qed.

(** The newest row is not displaced by one that is not newer. *)
Lemma head_row_keeps rows r q :
  head_row rows = Some r → row_before r q = false → head_row (rows ++ [q]) = Some r.
Proof. unfold head_row. intros Hr Hq. rewrite foldl_app. cbn [foldl]. by rewrite Hr, Hq. Qed.

Lemma fetch_chain_head_event rows e :
  head_row rows = Some (row_of e) → event_ok e → event_kind e ≠ PolicyDecisionSigned →
  fetch_chain_head rows = Ok (event_digest e).
Proof.
  intros Hh (Hi & Hp & _) Hk. unfold fetch_chain_head. rewrite Hh.
  destruct (row_of_columns e) as (-> & -> & _ & -> & -> & ->).
  rewrite ulid_parse_to_string by done. cbn [ok_or mbind result_bind].
  rewrite try_u8_kind. cbn [mbind result_bind]. rewrite (proj2 (kind_from_kind_byte _)) by done.
  cbn [mbind result_bind]. rewrite bool_decide_eq_true_2 by done. cbn [ensure mbind result_bind].
  unfold event_digest, event_preimage. by destruct (event_id e).
Qed.

Lemma fetch_chain_head_stuck rows e :
  head_row rows = Some (row_of e) → is_ulid (EventId_ulid (event_id e)) →
  event_kind e = PolicyDecisionSigned →
  fetch_chain_head rows = Err (AuditSerde "unknown audit kind byte: 17").
Proof.
  intros Hh Hi Hk. unfold fetch_chain_head. rewrite Hh.
  destruct (row_of_columns e) as (-> & _ & _ & -> & _ & _). rewrite Hk.
  rewrite ulid_parse_to_string by done. reflexivity.
Qed.

(** The next emission's id and time come after those of every row. *)
Definition newest (fresh : EventId) (now : Z) (rows : list PgRow) : Prop :=
  Forall (λ r, col_timestamp_unix_ms r < now
               ∨ col_timestamp_unix_ms r = now
                 ∧ String.ltb (col_event_id r) (ulid_to_string (EventId_ulid fresh)) = true) rows.

Lemma newest_before key fresh now draft st rows :
  newest fresh now rows →
  Forall (λ q, row_before q (row_of (stamp key fresh now draft st)) = true) rows.
Proof.
  intros Hn. eapply Forall_impl; [exact Hn|]. intros r. unfold row_before.
  destruct (row_of_columns (stamp key fresh now draft st)) as (-> & _ & -> & _). cbn [event_id event_timestamp_unix_ms stamp].
  intros [Hlt|[-> Hs]]; [by rewrite (proj2 (Z.ltb_lt _ _))|]. by rewrite Z.eqb_refl, Hs, orb_true_r.
Qed.

Lemma pg_emit_ok key fresh now draft rows prev :
  fetch_chain_head rows = Ok prev → Forall (λ r, col_event_id r ≠ ulid_to_string (EventId_ulid fresh)) rows →
  let e := stamp key fresh now draft {| head_hash := prev; written := 0 |} in
  pg_emit key fresh now PgOk draft rows = (Ok e, rows ++ [row_of e]).
Proof.
  intros Hf Hnew e. unfold pg_emit. rewrite Hf. fold e.
  rewrite bool_decide_eq_true_2 by (cbn; apply ed_sign_length). cbn [negb].
  unfold insert_event. replace (existsb _ rows) with false; [done|]. symmetry.
  apply not_true_iff_false. intros (r & Hin & Heq%String.eqb_eq)%existsb_exists.
  destruct (row_of_columns e) as (Hid & _). rewrite Hid in Heq.
  rewrite Forall_forall in Hnew. apply (Hnew r); [by apply list_elem_of_In|done].
Qed.

(** ** Runs of the sink *)

(** A history in which every accepted emission carries an unused id that, with
    its time, sorts after all earlier rows; refused emissions may occur
    anywhere.  [es] are the events accepted so far. *)
Inductive pg_run (key : bytes) : list AuditEvent → list PgRow → Prop :=
  | run_nil : pg_run key [] []
  | run_emit es rows m e rows' :
      pg_run key es rows → emission_ok m → newest (em_id m) (em_at m) rows →
      pg_emit key (em_id m) (em_at m) PgOk (em_draft m) rows = (Ok e, rows') →
      pg_run key (es ++ [e]) rows'
  | run_refused es rows fresh now db draft err rows' :
      pg_run key es rows → pg_emit key fresh now db draft rows = (Err err, rows') →
      pg_run key es rows'.

Lemma pg_emit_err key fresh now db draft rows err rows' :
  pg_emit key fresh now db draft rows = (Err err, rows') → rows' = rows.
Proof. unfold pg_emit. intros Heq. repeat case_match; by simplify_eq. Qed.

Lemma pg_emit_inv key fresh now draft rows e rows' :
  pg_emit key fresh now PgOk draft rows = (Ok e, rows') →
  ∃ prev, fetch_chain_head rows = Ok prev
    ∧ e = stamp key fresh now draft {| head_hash := prev; written := 0 |} ∧ rows' = rows ++ [row_of e].
Proof.
  unfold pg_emit, insert_event. destruct (fetch_chain_head rows) as [prev|]; [|done].
  destruct (negb _); [done|]. destruct (existsb _ _); [done|]. intros [= <- <-]. eauto.
Qed.

Lemma fetch_chain_head_last rows es prev :
  rows = row_of <$> es → head_row rows = row_of <$> last es → Forall event_ok es →
  fetch_chain_head rows = Ok prev → prev = chain_head genesis_hash es.
Proof.
  intros -> Hh Hok Hf. unfold chain_head. destruct (last es) as [e|] eqn:Hl.
  2: { unfold fetch_chain_head in Hf. rewrite Hh in Hf. by injection Hf as <-. }
  cbn [fmap option_fmap option_map] in Hh. assert (event_ok e) as He.
  { rewrite Forall_forall in Hok. apply Hok. by apply last_Some_elem_of. }
  destruct (decide (event_kind e = PolicyDecisionSigned)) as [Hk|Hk].
  - erewrite (fetch_chain_head_stuck _ e) in Hf; [done..|apply He|done].
  - rewrite (fetch_chain_head_event _ e) in Hf by done. by injection Hf as <-.
Qed.

Lemma pg_run_ok key es rows :
  pg_run key es rows →
  rows = row_of <$> es ∧ head_row rows = row_of <$> last es ∧ Forall event_ok es
  ∧ chained genesis_hash es ∧ Forall (λ e, server_signature e = ed_sign key (event_preimage e)) es.
Proof.
  induction 1 as [|es rows m e rows' _ (Hrows & Hh & Hok & Hc & Hs) (Hi & Hat & Hr & Hw) Hnew Hemit
                  |es rows fresh now db draft err rows' _ IH Hemit].
  - repeat split; constructor.
  - apply pg_emit_inv in Hemit as (prev & Hf & He & ->).
    pose proof (fetch_chain_head_last _ _ _ Hrows Hh Hok Hf) as ->.
    assert (event_ok e) as Heok.
    { subst e. split; [done|]. split; [apply chain_head_length|]. done. }
    split; [by rewrite fmap_app, <-Hrows|]. split.
    { rewrite last_snoc. apply head_row_newest. subst e. by apply newest_before. }
    split; [apply Forall_app_2; [done|by constructor]|].
    split; [apply chained_snoc; split; [done|by subst e]|].
    apply Forall_app_2; [done|]. constructor; [by subst e|constructor].
  - apply pg_emit_err in Hemit as ->. exact IH.
Qed.

(** ** Properties *)

(** As long as ids and times increase, the Postgres sink keeps one linear chain:
    the table holds exactly the accepted events, in order, each linked to its
    predecessor from the genesis hash, and each verifying under the sink's key. *)
Theorem postgres_chain_linear key es rows :
  pg_run key es rows →
  rows = row_of <$> es ∧ chained genesis_hash es
  ∧ Forall (λ e, verify_event e (server_public_key key) = Ok true) es.
Proof.
  intros (Hrows & _ & _ & Hc & Hs)%pg_run_ok. split; [done|]. split; [done|].
  eapply Forall_impl; [exact Hs|]. intros e He. by apply signed_verifies.
Qed.

(** [PolicyDecisionSigned] is written but cannot be read back: after such an
    event is the newest row, every further emission fails and the table no longer
    changes. *)
Theorem postgres_stuck_after_policy_decision key es rows e fresh now draft :
  pg_run key es rows → last es = Some e → event_kind e = PolicyDecisionSigned →
  pg_emit key fresh now PgOk draft rows = (Err (AuditSerde "unknown audit kind byte: 17"), rows).
Proof.
  intros (_ & Hh & Hok & _)%pg_run_ok Hl Hk. rewrite Hl in Hh.
  assert (event_ok e) as (Hi & _).
  { rewrite Forall_forall in Hok. apply Hok. by apply last_Some_elem_of. }
  unfold pg_emit. by rewrite (fetch_chain_head_stuck rows e).
Qed.

(** Two emissions in the same millisecond can fork the chain: ids drawn within
    one millisecond are not ordered, and when the later one sorts first, the
    event after it links to the earlier one, so that two events share their
    predecessor. *)
Theorem same_millisecond_forks key es rows a fresh1 fresh2 draft1 draft2 now now2 b c rows1 rows2 :
  pg_run key es rows → last es = Some a → event_kind a ≠ PolicyDecisionSigned →
  event_timestamp_unix_ms a = now →
  String.ltb (ulid_to_string (EventId_ulid (event_id a))) (ulid_to_string (EventId_ulid fresh1)) = false →
  pg_emit key fresh1 now PgOk draft1 rows = (Ok b, rows1) →
  pg_emit key fresh2 now2 PgOk draft2 rows1 = (Ok c, rows2) →
  prev_event_hash c = event_digest a ∧ prev_event_hash b = event_digest a.
Proof.
  intros (_ & Hh & Hok & _)%pg_run_ok Hl Hk Hts Hlt Hb Hc. rewrite Hl in Hh. cbn [fmap option_fmap option_map] in Hh.
  assert (event_ok a) as Ha.
  { rewrite Forall_forall in Hok. apply Hok. by apply last_Some_elem_of. }
  apply pg_emit_inv in Hb as (prev & Hf & -> & ->).
  rewrite (fetch_chain_head_event _ a) in Hf by done. injection Hf as <-.
  apply pg_emit_inv in Hc as (prev & Hf & -> & _). cbn [prev_event_hash stamp head_hash].
  split; [|done]. rewrite (fetch_chain_head_event _ a) in Hf; [by injection Hf| |done|done]. apply head_row_keeps; [done|].
  unfold row_before.
  destruct (row_of_columns a) as (-> & _ & -> & _).
  match goal with |- context [row_of ?e] => destruct (row_of_columns e) as (-> & _ & -> & _) end.
  cbn [event_id event_timestamp_unix_ms stamp]. by rewrite Hts, Z.ltb_irrefl, Hlt, andb_false_r.
Qed.

(** The anchor commits to the chain head the next emission would link to, with
    the number of rows. *)
Theorem anchor_commits_head today rows p :
  anchor_payload today rows = Ok p →
  ∃ h, fetch_chain_head rows = Ok h ∧ chain_head_hex p = hex_encode h
    ∧ event_count p = Z.of_nat (length rows) ∧ date_utc p = today.
Proof.
  unfold anchor_payload, fetch_chain_head. destruct (head_row rows) as [row|].
  2: { intros [= <-]. eauto. }
  intros ([head id] & Hr & [= <-])%result_bind_ok. cbn [chain_head_hex event_count date_utc].
  apply result_bind_ok in Hr as (u & Hu%ok_or_ok & Hr). rewrite Hu. cbn [ok_or mbind result_bind].
  apply result_bind_ok in Hr as (b & Hb & Hr). unfold try_u8 in *.
  destruct ((0 <=? col_kind row) && (col_kind row <=? u8_max)); [|done]. injection Hb as <-.
  cbn [mbind result_bind]. apply result_bind_ok in Hr as (k & Hk & Hr).
  assert (kind_from_byte (col_kind row) = Ok k) as ->.
  { unfold kind_from_byte_local, kind_from_byte in *. by repeat case_match. }
  cbn [mbind result_bind]. apply ensure_bind_ok in Hr as [Hlen [= <- <-]].
  rewrite Hlen. cbn. eauto.
Qed.

End postgres.

Module PostgresWitness.
Import Concrete AuditWitness.

Definition uerr (s : string) : string := "invalid length".
Definition dup : string := "duplicate key value".

Definition emission (i : N) (k : AuditKind) : Emission := {|
  em_id := EventId_from_ulid i; em_at := 5; em_io := IoOk;
  em_draft := {| draft_actor := ActorSystem; draft_kind := k; draft_request_id := None;
                 draft_wallet_id := None; draft_details := JNull |} |}.

Definition first (i : N) (k : AuditKind) : AuditEvent :=
  stamp key (EventId_from_ulid i) 5 (em_draft (emission i k)) {| head_hash := genesis_hash; written := 0 |}.

Lemma first_run i k : is_ulid i → pg_run uerr dup key [first i k] [row_of (first i k)].
Proof.
  intros Hi. apply (run_emit uerr dup key [] [] (emission i k)).
  - constructor.
  - split; [done|]. split; [split; vm_compute; congruence|by split].
  - constructor.
  - by apply (pg_emit_ok uerr dup key (EventId_from_ulid i) 5 (em_draft (emission i k)) [] genesis_hash).
Qed.

Example postgres_chain_linear_witness :
  [row_of (first 9 SigningRequested)] = row_of <$> [first 9 SigningRequested]
  ∧ chained genesis_hash [first 9 SigningRequested]
  ∧ Forall (λ e, verify_event e (server_public_key key) = Ok true) [first 9 SigningRequested].
Proof.
  apply (postgres_chain_linear uerr dup key [first 9 SigningRequested] [row_of (first 9 SigningRequested)]).
  apply first_run. reflexivity.
Defined.

Example postgres_stuck_after_policy_decision_witness :
  pg_emit uerr dup key (EventId_from_ulid 10) 6 PgOk (em_draft (emission 10 SigningAttempted))
    [row_of (first 9 PolicyDecisionSigned)]
  = (Err (AuditSerde "unknown audit kind byte: 17"), [row_of (first 9 PolicyDecisionSigned)]).
Proof.
  apply (postgres_stuck_after_policy_decision uerr dup key [first 9 PolicyDecisionSigned]
           [row_of (first 9 PolicyDecisionSigned)] (first 9 PolicyDecisionSigned)).
  - apply first_run. reflexivity.
  - reflexivity.
  - reflexivity.
Defined.

Definition st9 : ChainState := {| head_hash := event_digest (first 9 SigningRequested); written := 0 |}.
Definition second : AuditEvent := stamp key (EventId_from_ulid 8) 5 (em_draft (emission 8 SigningEvaluated)) st9.
Definition third : AuditEvent := stamp key (EventId_from_ulid 7) 6 (em_draft (emission 7 SigningSucceeded)) st9.
Definition rows1 : list PgRow := [row_of (first 9 SigningRequested); row_of second].

Lemma first_ok i k : is_ulid i → event_ok (first i k).
Proof.
  intros Hi. destruct (pg_run_ok uerr dup key _ _ (first_run i k Hi)) as (_ & _ & Hok & _).
  by apply Forall_cons in Hok as [? _].
Qed.

Lemma second_emitted :
  pg_emit uerr dup key (EventId_from_ulid 8) 5 PgOk (em_draft (emission 8 SigningEvaluated))
    [row_of (first 9 SigningRequested)] = (Ok second, rows1).
Proof.
  apply (pg_emit_ok uerr dup key (EventId_from_ulid 8) 5 (em_draft (emission 8 SigningEvaluated))
           [row_of (first 9 SigningRequested)] (event_digest (first 9 SigningRequested))).
  - apply (fetch_chain_head_event uerr dup _ (first 9 SigningRequested)); [vm_compute; reflexivity|apply first_ok; reflexivity|discriminate].
  - constructor; [|constructor]. vm_compute. discriminate.
Qed.

Lemma third_emitted :
  pg_emit uerr dup key (EventId_from_ulid 7) 6 PgOk (em_draft (emission 7 SigningSucceeded)) rows1
  = (Ok third, rows1 ++ [row_of third]).
Proof.
  apply (pg_emit_ok uerr dup key (EventId_from_ulid 7) 6 (em_draft (emission 7 SigningSucceeded))
           rows1 (event_digest (first 9 SigningRequested))).
  - apply (fetch_chain_head_event uerr dup _ (first 9 SigningRequested)); [vm_compute; reflexivity|apply first_ok; reflexivity|discriminate].
  - constructor; [|constructor; [|constructor]]; vm_compute; discriminate.
Qed.

Example same_millisecond_forks_witness :
  prev_event_hash third = event_digest (first 9 SigningRequested)
  ∧ prev_event_hash second = event_digest (first 9 SigningRequested).
Proof.
  apply (same_millisecond_forks uerr dup key [first 9 SigningRequested] [row_of (first 9 SigningRequested)]
    (first 9 SigningRequested) (EventId_from_ulid 8) (EventId_from_ulid 7)
    (em_draft (emission 8 SigningEvaluated)) (em_draft (emission 7 SigningSucceeded)) 5 6
    second third rows1 (rows1 ++ [row_of third])).
  - apply first_run. reflexivity.
  - reflexivity.
  - discriminate.
  - reflexivity.
  - vm_compute. reflexivity.
  - exact second_emitted.
  - exact third_emitted.
Defined.

Example anchor_commits_head_witness :
  ∃ h, fetch_chain_head uerr [] = Ok h ∧ hex_encode genesis_hash = hex_encode h
    ∧ 0 = Z.of_nat (length (@nil PgRow)) ∧ "2026-01-01" = "2026-01-01".
Proof.
  apply (anchor_commits_head uerr "2026-01-01" []
    {| date_utc := "2026-01-01"; chain_head_hex := hex_encode genesis_hash; head_event_id := None;
       event_count := 0 |}). reflexivity.
Defined.

End PostgresWitness.
