(* ===== verification/ChainAnchor.v ===== *)
(** * ChainAnchor: publishing the audit head as an EVM transaction
    ([chain_anchor.rs])

    The hand-rolled RLP writer, the EIP-155 signer, the calldata layout and the
    submission.  The JSON-RPC node is a parameter ([EvmRpc]).  The theorem is
    end to end: what is broadcast decodes, with the policy engine's own decoder
    (EvmDecoder.v), to a zero-value transaction that carries the anchor. *)

From S2P Require Import Prelude Text Types External Rlp EvmDecoder AuditLog AuditPostgres.
#[local] Open Scope string_scope.
#[local] Open Scope list_scope.
#[local] Open Scope Z_scope.

Definition ANCHOR_CALLDATA_TAG : bytes := string_bytes "qfc-audit-anchor-v1" ++ [x00].
Definition DEFAULT_ANCHOR_GAS_LIMIT : Z := 100000.

(** ** RLP *)

(** [iter().position(|&b| b != 0)]. *)
Fixpoint position_nonzero (bs : bytes) : option nat :=
  match bs with
  | [] => None
  | b :: bs => if bool_decide (b = x00) then S <$> position_nonzero bs else Some 0%nat
  end.

(** Each writer returns what it appends to [out]. *)
Definition rlp_len_prefix (len : nat) (short_base : Z) : bytes :=
  if (len <=? 55)%nat then [byte_of_Z (short_base + Z.of_nat len)]
  else
    let be := be_bytes 8 (Z.of_nat len) in
    let first := default (length be - 1)%nat (position_nonzero be) in
    let lb := drop first be in
    byte_of_Z (short_base + 55 + Z.of_nat (length lb)) :: lb.

Definition rlp_string (bs : bytes) : bytes :=
  match bs with
  | [b] => if byte_val b <? 0x80 then [b] else rlp_len_prefix 1 0x80 ++ bs
  | _ => rlp_len_prefix (length bs) 0x80 ++ bs
  end.

Definition rlp_scalar (bytes_be : bytes) : bytes :=
  let start := default (length bytes_be) (position_nonzero bytes_be) in
  rlp_string (drop start bytes_be).

Definition rlp_u64 (v : Z) : bytes := rlp_scalar (be_bytes 8 v).
Definition rlp_u128 (v : Z) : bytes := rlp_scalar (be_bytes 16 v).
Definition rlp_list (payload : bytes) : bytes := rlp_len_prefix (length payload) 0xc0 ++ payload.

Record SignedLegacyTx := { raw_hex : string; tx_hash_hex : string }.

(** [to_encoded_point(false)] of [k256]: the 65-byte uncompressed point. *)
Class K256Point `{K256Crate} := { k256_uncompressed : k256_vk → bytes }.

(** The four JSON-RPC calls. *)
Record EvmRpc := {
  rpc_chain_id : result AuditError Z;
  rpc_transaction_count : bytes → result AuditError Z;
  rpc_gas_price : result AuditError Z;
  rpc_send_raw_transaction : string → result AuditError string;
}.

Section chain_anchor.
Context `{DigestCrate, K256Crate, !K256Point, HexCrate, RlpCrate}.
(** The text of a hex-decoding error. *)
Variable hex_error : string → string.

(** The fields [nonce, gasPrice, gasLimit, to, value, data]. *)
Definition tx_prefix (nonce gas_price gas_limit : Z) (to : bytes) (value : Z) (data : bytes) : bytes :=
  rlp_u64 nonce ++ rlp_u128 gas_price ++ rlp_u64 gas_limit ++ rlp_string to ++ rlp_u128 value
  ++ rlp_string data.

(** The signing hash of EIP-155. *)
Definition sighash (nonce gas_price gas_limit : Z) (to : bytes) (value : Z) (data : bytes)
    (chain_id : Z) : bytes :=
  keccak256 (rlp_list (tx_prefix nonce gas_price gas_limit to value data
                       ++ rlp_u64 chain_id ++ rlp_u64 0 ++ rlp_u64 0)).

(** The broadcast envelope; [v] is computed in [u64], wrapping as a release
    build does. *)
Definition signed_bytes (nonce gas_price gas_limit : Z) (to : bytes) (value : Z) (data : bytes)
    (chain_id : Z) (sig : k256_sig) (recid : Z) : bytes :=
  let r := take 32 (k256_sig_bytes sig) in
  let s := drop 32 (k256_sig_bytes sig) in
  let v := u64_wrap (recid + 35 + chain_id * 2) in
  rlp_list (tx_prefix nonce gas_price gas_limit to value data
            ++ rlp_u64 v ++ rlp_scalar r ++ rlp_scalar s).

Definition sign_legacy_tx (sk : k256_sk) (nonce gas_price gas_limit : Z) (to : bytes) (value : Z)
    (data : bytes) (chain_id : Z) : result AuditError SignedLegacyTx :=
  match k256_sign_recoverable sk (sighash nonce gas_price gas_limit to value data chain_id) with
  | Err _ => Err (AuditCrypto "anchor tx signing failed")
  | Ok (sig, recid) =>
      let signed := signed_bytes nonce gas_price gas_limit to value data chain_id sig recid in
      Ok {| raw_hex := "0x" +:+ hex_encode signed; tx_hash_hex := "0x" +:+ hex_encode (keccak256 signed) |}
  end.

Definition evm_address (sk : k256_sk) : bytes :=
  drop 12 (keccak256 (drop 1 (k256_uncompressed (k256_public sk)))).

Definition anchor_calldata (p : AnchorPayload) : result AuditError bytes :=
  head ← ok_or (hex_decode (chain_head_hex p))
           (AuditSerde ("anchor chain_head_hex not hex: " +:+ hex_error (chain_head_hex p)));
  if negb (bool_decide (length head = 32%nat))
  then Err (AuditSerde ("anchor chain_head_hex must be 32 bytes, got "
                        +:+ show_dec (Z.of_nat (length head))))
  else mret (ANCHOR_CALLDATA_TAG ++ head ++ be_bytes 8 (event_count p) ++ string_bytes (date_utc p)).

Record ChainAnchor := {
  ca_signing_key : k256_sk;
  operator_address : bytes;
  ca_to : bytes;
  ca_chain_id : option Z;
  ca_gas_limit : Z;
  ca_gas_price : option Z;
}.

Definition ChainAnchor_new (operator_key : bytes) (to : option bytes) (chain_id : option Z)
    (gas_limit : Z) (gas_price : option Z) : result AuditError ChainAnchor :=
  sk ← map_err (λ _, AuditCrypto "anchor operator key invalid") (k256_signing_key operator_key);
  let operator_address := evm_address sk in
  mret {| ca_signing_key := sk; operator_address := operator_address;
          ca_to := default operator_address to; ca_chain_id := chain_id;
          ca_gas_limit := gas_limit; ca_gas_price := gas_price |}.

(** [ChainAnchor::submit]. *)
Definition submit (self : ChainAnchor) (rpc : EvmRpc) (payload : AnchorPayload)
    : result AuditError string :=
  chain_id ← match ca_chain_id self with Some c => Ok c | None => rpc_chain_id rpc end;
  nonce ← rpc_transaction_count rpc (operator_address self);
  gas_price ← match ca_gas_price self with Some g => Ok g | None => rpc_gas_price rpc end;
  data ← anchor_calldata payload;
  tx ← sign_legacy_tx (ca_signing_key self) nonce gas_price (ca_gas_limit self) (ca_to self) 0 data chain_id;
  rpc_send_raw_transaction rpc (raw_hex tx).

(** ** The writer agrees with the RLP format *)

Lemma drop_position bs : drop (default (length bs) (position_nonzero bs)) bs = strip_zeros bs.
Proof.
  induction bs as [|b bs IH]; [done|]. cbn [position_nonzero strip_zeros]. case_bool_decide; [|done].
  destruct (position_nonzero bs) as [n|]; exact IH.
Qed.

Lemma position_none bs : position_nonzero bs = None → be_value bs = 0.
Proof.
  intros Hp. apply strip_zeros_nil. rewrite <-drop_position, Hp. cbn. by apply drop_all.
Qed.

Lemma rlp_len_prefix_eq len base :
  Z.of_nat len < 2 ^ 64 → rlp_len_prefix len base = rlp_prefix base len.
Proof.
  intros Hlen. unfold rlp_len_prefix, rlp_prefix. destruct (Nat.leb_spec len 55); [done|].
  rewrite <-drop_position. destruct (position_nonzero (be_bytes 8 (Z.of_nat len))) as [n|] eqn:Hp; [done|].
  apply position_none in Hp. rewrite be_value_bytes_small in Hp by (cbn; lia). lia.
Qed.

Lemma rlp_string_eq bs : Z.of_nat (length bs) < 2 ^ 64 → rlp_string bs = rlp_enc_str bs.
Proof.
  intros Hl. unfold rlp_string, rlp_enc_str.
  destruct bs as [|b [|c bs]]; rewrite ?rlp_len_prefix_eq by (cbn in *; lia); done.
Qed.

Lemma rlp_list_eq p : Z.of_nat (length p) < 2 ^ 64 → rlp_list p = rlp_enc_list p.
Proof. intros Hl. unfold rlp_list, rlp_enc_list. by rewrite rlp_len_prefix_eq. Qed.

Lemma rlp_scalar_eq bs : Z.of_nat (length bs) < 2 ^ 64 → rlp_scalar bs = rlp_enc (RStr (strip_zeros bs)).
Proof.
  intros Hl. unfold rlp_scalar. rewrite drop_position. apply rlp_string_eq.
  pose proof (strip_zeros_length bs). lia.
Qed.

Lemma le_bytes_app m k z : le_bytes (m + k) z = le_bytes m z ++ le_bytes k (z / 256 ^ Z.of_nat m).
Proof.
  revert z. induction m as [|m IH]; intros z; cbn [le_bytes app Nat.add]; [by rewrite Z.div_1_r|].
  rewrite IH. do 3 f_equal. rewrite Nat2Z.inj_succ, Z.pow_succ_r by lia.
  by rewrite Z.div_div by lia.
Qed.

Lemma le_bytes_zero k : le_bytes k 0 = replicate k x00.
Proof. induction k as [|k IH]; [done|]. cbn [le_bytes replicate]. by rewrite Zdiv_0_l, IH. Qed.

Lemma strip_zeros_replicate k bs : strip_zeros (replicate k x00 ++ bs) = strip_zeros bs.
Proof. induction k as [|k IH]; [done|]. exact IH. Qed.

(** The width an integer is written at does not matter once zeros are dropped. *)
Lemma strip_be_bytes m k z :
  0 ≤ z < 256 ^ Z.of_nat m → strip_zeros (be_bytes (m + k) z) = strip_zeros (be_bytes m z).
Proof.
  intros Hz. unfold be_bytes. rewrite le_bytes_app, Z.div_small, le_bytes_zero by done.
  rewrite rev_app_distr.
  assert (rev (replicate k x00) = replicate k x00) as -> by (rewrite rev_alt; apply reverse_replicate).
  apply strip_zeros_replicate.
Qed.

Lemma rlp_u64_eq z : u64_ok z → rlp_u64 z = rlp_enc (scalar z).
Proof.
  intros Hz. unfold rlp_u64, scalar. rewrite rlp_scalar_eq by (rewrite length_be_bytes; lia).
  do 2 f_equal. symmetry. apply (strip_be_bytes 8 24). unfold u64_ok, u64_max in Hz. cbn. lia.
Qed.

Lemma rlp_u128_eq z : 0 ≤ z < 2 ^ 128 → rlp_u128 z = rlp_enc (scalar z).
Proof.
  intros Hz. unfold rlp_u128, scalar. rewrite rlp_scalar_eq by (rewrite length_be_bytes; lia).
  do 2 f_equal. symmetry. apply (strip_be_bytes 16 16). cbn. lia.
Qed.

Lemma rlp_enc_str_length bs : (length (rlp_enc_str bs) ≤ length bs + 9)%nat.
Proof.
  assert (∀ base len, (length (rlp_prefix base len) ≤ 9)%nat) as Hp.
  { intros base len. unfold rlp_prefix. destruct (len <=? 55)%nat; cbn [length]; [lia|].
    pose proof (strip_zeros_length (be_bytes 8 (Z.of_nat len))). rewrite length_be_bytes in *. lia. }
  unfold rlp_enc_str. destruct bs as [|b [|c bs]].
  - cbn. lia.
  - destruct (byte_val b <? 128); rewrite ?length_app; cbn [length]; pose proof (Hp 0x80 1%nat); lia.
  - rewrite length_app. pose proof (Hp 0x80 (length (b :: c :: bs))). lia.
Qed.

Lemma scalar_enc_length z : (length (rlp_enc (scalar z)) ≤ 41)%nat.
Proof.
  cbn [scalar rlp_enc]. pose proof (rlp_enc_str_length (strip_zeros (be_bytes 32 z))).
  pose proof (strip_zeros_length (be_bytes 32 z)). rewrite length_be_bytes in *. lia.
Qed.

(** The broadcast bytes are the EIP-155 envelope. *)
Lemma signed_bytes_envelope nonce gp gas to value data chain_id sig recid :
  let v := recid + 35 + chain_id * 2 in
  let r := strip_zeros (take 32 (k256_sig_bytes sig)) in
  let s := strip_zeros (drop 32 (k256_sig_bytes sig)) in
  let t := RList [scalar nonce; scalar gp; scalar gas; address (Some to); scalar value; RStr data;
                  scalar v; RStr r; RStr s] in
  u64_ok nonce → 0 ≤ gp < 2 ^ 128 → u64_ok gas → length to = 20%nat → 0 ≤ value < 2 ^ 128 →
  u64_ok v → Z.of_nat (length data) < 2 ^ 32 → length (k256_sig_bytes sig) = 64%nat →
  rlp_fits t ∧ signed_bytes nonce gp gas to value data chain_id sig recid = rlp_enc t.
Proof.
  intros v r s t Hn Hgp Hg Hto Hval Hv Hd Hsig.
  assert (Hr : (length r ≤ 32)%nat).
  { subst r. etrans; [apply strip_zeros_length|]. rewrite length_take. lia. }
  assert (Hs : (length s ≤ 32)%nat).
  { subst s. etrans; [apply strip_zeros_length|]. rewrite length_drop. lia. }
  assert (Hfit : rlp_fits t).
  { subst t. cbn [rlp_fits foldr]. split.
    - cbn [fmap list_fmap concat]. rewrite !length_app. cbn [length].
      pose proof (scalar_enc_length nonce). pose proof (scalar_enc_length gp).
      pose proof (scalar_enc_length gas). pose proof (scalar_enc_length value).
      pose proof (scalar_enc_length v). pose proof (rlp_enc_str_length r). pose proof (rlp_enc_str_length s).
      pose proof (rlp_enc_str_length to). pose proof (rlp_enc_str_length data).
      cbn [rlp_enc address default from_option id] in *. lia.
    - repeat (split; [first [apply scalar_fits|cbn; lia]|]). done. }
  split; [exact Hfit|].
  unfold signed_bytes, tx_prefix. unfold u64_wrap. rewrite Z.mod_small by (unfold u64_ok, u64_max in Hv; lia).
  fold v. rewrite !rlp_u64_eq, !rlp_u128_eq by done.
  rewrite (rlp_scalar_eq (take _ _)), (rlp_scalar_eq (drop _ _))
    by (rewrite ?length_take, ?length_drop, Hsig; cbn; lia).
  rewrite !rlp_string_eq by lia. fold r s.
  assert ((rlp_enc (scalar nonce) ++ rlp_enc (scalar gp) ++ rlp_enc (scalar gas) ++ rlp_enc_str to
           ++ rlp_enc (scalar value) ++ rlp_enc_str data)
          ++ rlp_enc (scalar v) ++ rlp_enc (RStr r) ++ rlp_enc (RStr s)
          = concat (rlp_enc <$> [scalar nonce; scalar gp; scalar gas; address (Some to); scalar value;
              RStr data; scalar v; RStr r; RStr s])) as ->.
  { cbn [fmap list_fmap concat address default from_option id rlp_enc]. by rewrite <-!app_assoc, app_nil_r. }
  rewrite rlp_list_eq; [done|]. apply Hfit.
Qed.

(** ** The calldata layout *)

(** What a verifier reads: domain tag, 32-byte head, 8-byte count, date. *)
Definition read_calldata (data : bytes) : option (bytes * Z * bytes) :=
  if bool_decide (take 20 data = ANCHOR_CALLDATA_TAG) then
    Some (slice 20 32 data, be_value (slice 52 8 data), drop 60 data)
  else None.

Lemma read_anchor_calldata p data :
  0 ≤ event_count p ≤ u64_max → anchor_calldata p = Ok data →
  ∃ head, hex_decode (chain_head_hex p) = Some head ∧ length head = 32%nat
    ∧ length data = (60 + String.length (date_utc p))%nat
    ∧ read_calldata data = Some (head, event_count p, string_bytes (date_utc p)).
Proof.
  intros Hc (head & Hh%ok_or_ok & Hd)%result_bind_ok. destruct (decide (length head = 32%nat)) as [Hl|Hl];
    [rewrite bool_decide_eq_true_2 in Hd by done|by rewrite bool_decide_eq_false_2 in Hd].
  assert (ANCHOR_CALLDATA_TAG ++ head ++ be_bytes 8 (event_count p) ++ string_bytes (date_utc p) = data)
    as <- by (by injection Hd). clear Hd. exists head. split; [done|]. split; [done|].
  assert (length ANCHOR_CALLDATA_TAG = 20%nat) as Htag by done. split.
  { rewrite !length_app, Htag, Hl, length_be_bytes, length_string_bytes. lia. }
  unfold read_calldata. rewrite (take_app_exact 20) by done. rewrite bool_decide_eq_true_2 by done.
  rewrite (slice_middle 20 32), (app_assoc _ head), (slice_middle 52 8)
    by (rewrite ?length_app, ?Htag, ?Hl, ?length_be_bytes; done).
  rewrite be_value_bytes_small by (unfold u64_max in Hc; cbn; lia).
  do 2 f_equal. rewrite app_assoc, drop_app_length'; [done|].
  by rewrite !length_app, Htag, Hl, length_be_bytes.
Qed.

(** ** Properties *)

(** [tx] is signed by [sk] for the chain [c].  EIP-155 leaves one bit of [v] to the
    recovery id, so with the ids 2 and 3 the transaction names the next chain. *)
Definition signed_for (sk : k256_sk) (c : Z) (tx : DecodedEvmTx) : Prop :=
  ∃ gp to sig recid, gas_price tx = Some gp ∧ evm_to tx = Some to
    ∧ k256_sign_recoverable sk (sighash (evm_nonce tx) gp (evm_gas_limit tx) to (evm_value tx) (evm_data tx) c)
      = Ok (sig, recid)
    ∧ 0 ≤ recid < 4 ∧ evm_chain_id tx = Some (c + recid / 2).

(** The operator's configuration and the node's answers are in range: chain ids
    leave room for EIP-155's [v] in a [u64]. *)
Definition in_range (self : ChainAnchor) (rpc : EvmRpc) : Prop :=
  (∀ c, ca_chain_id self = Some c ∨ rpc_chain_id rpc = Ok c → 0 ≤ c ∧ c * 2 + 38 ≤ u64_max)
  ∧ (∀ a n, rpc_transaction_count rpc a = Ok n → u64_ok n)
  ∧ (∀ g, ca_gas_price self = Some g ∨ rpc_gas_price rpc = Ok g → 0 ≤ g < 2 ^ 128)
  ∧ u64_ok (ca_gas_limit self) ∧ length (ca_to self) = 20%nat.

Lemma anchor_submission_ok `{!RlpLaws, !DigestLaws, !K256Laws} self rpc p accepted :
  in_range self rpc → 0 ≤ event_count p ≤ u64_max → Z.of_nat (String.length (date_utc p)) < 2 ^ 16 →
  submit self rpc p = Ok accepted →
  ∃ raw tx chain head, rpc_send_raw_transaction rpc ("0x" +:+ hex_encode raw) = Ok accepted
    ∧ decode_evm_tx raw = Ok tx
    ∧ (ca_chain_id self = Some chain ∨ ca_chain_id self = None ∧ rpc_chain_id rpc = Ok chain)
    ∧ evm_tx_type tx = Legacy ∧ signed_for (ca_signing_key self) chain tx ∧ evm_value tx = 0
    ∧ evm_to tx = Some (ca_to self) ∧ evm_gas_limit tx = ca_gas_limit self
    ∧ hex_decode (chain_head_hex p) = Some head
    ∧ read_calldata (evm_data tx) = Some (head, event_count p, string_bytes (date_utc p)).
Proof.
  intros (Hchain & Hnonce & Hgp & Hgl & Hto) Hcount Hdate. unfold submit.
  intros (chain & Hc & Hr)%result_bind_ok. apply result_bind_ok in Hr as (nonce & Hn & Hr).
  apply result_bind_ok in Hr as (gp & Hg & Hr). apply result_bind_ok in Hr as (data & Hd & Hr).
  apply result_bind_ok in Hr as (tx & Htx & Hsend).
  destruct (read_anchor_calldata p data Hcount Hd) as (head & Hh & _ & Hlen & Hread).
  assert (ca_chain_id self = Some chain ∨ ca_chain_id self = None ∧ rpc_chain_id rpc = Ok chain) as Hc'
    by (destruct (ca_chain_id self); [left; congruence|by right]).
  assert (0 ≤ chain ∧ chain * 2 + 38 ≤ u64_max) as Hcr by (apply Hchain; naive_solver).
  assert (0 ≤ gp < 2 ^ 128) as Hgr by (apply Hgp; destruct (ca_gas_price self); naive_solver).
  unfold sign_legacy_tx in Htx. destruct (k256_sign_recoverable _ _) as [[sig recid]|] eqn:Hs; [|done].
  injection Htx as <-. cbn [raw_hex] in Hsend.
  assert (0 ≤ recid < 4 ∧ length (k256_sig_bytes sig) = 64%nat) as [Hrec Hsl].
  { destruct (k256_recoverable_ok (ca_signing_key self) (sighash nonce gp (ca_gas_limit self) (ca_to self) 0 data chain))
      as (sig' & r' & Hs' & ? & ? & _); [apply keccak256_length|]. rewrite Hs in Hs'. by injection Hs' as <- <-. }
  destruct (signed_bytes_envelope nonce gp (ca_gas_limit self) (ca_to self) 0 data chain sig recid)
    as [Hfit Henc]; [by eapply Hnonce|done|done|done|lia|unfold u64_ok; lia|lia|done|].
  eexists _, _, chain, head. split; [exact Hsend|]. split.
  { rewrite Henc, decode_evm_tx_list. apply decode_legacy_enc; [by eapply Hnonce| |done|done|done| |done].
    - unfold u256_ok. lia.
    - unfold u64_ok. lia. }
  unfold signed_for. cbn [evm_tx_type evm_chain_id evm_value evm_to evm_gas_limit evm_data evm_nonce gas_price].
  rewrite (proj2 (Z.leb_le 35 _)) by lia.
  replace ((recid + 35 + chain * 2 - 35) / 2) with (chain + recid / 2); [by eauto 20|].
  replace (recid + 35 + chain * 2 - 35) with (recid + chain * 2) by lia.
  rewrite Z.div_add by lia. lia.
Qed.

(** A submission that the node accepts broadcast a transaction that decodes, with
    the policy engine's decoder, to a legacy zero-value call to the configured
    address, signed by the operator for the configured (or queried) chain, whose
    calldata reads back as
    exactly the payload's chain head, event count and date. *)
Theorem anchor_submission_faithful `{!RlpLaws, !DigestLaws, !K256Laws} self rpc p accepted :
  in_range self rpc → 0 ≤ event_count p ≤ u64_max → Z.of_nat (String.length (date_utc p)) < 2 ^ 16 →
  submit self rpc p = Ok accepted →
  ∃ raw tx chain head, rpc_send_raw_transaction rpc ("0x" +:+ hex_encode raw) = Ok accepted
    ∧ decode_evm_tx raw = Ok tx
    ∧ (ca_chain_id self = Some chain ∨ ca_chain_id self = None ∧ rpc_chain_id rpc = Ok chain)
    ∧ evm_tx_type tx = Legacy ∧ signed_for (ca_signing_key self) chain tx ∧ evm_value tx = 0
    ∧ evm_to tx = Some (ca_to self) ∧ evm_gas_limit tx = ca_gas_limit self
    ∧ hex_decode (chain_head_hex p) = Some head
    ∧ read_calldata (evm_data tx) = Some (head, event_count p, string_bytes (date_utc p)).
Proof. apply anchor_submission_ok. Qed.

End chain_anchor.

Module ChainAnchorWitness.
Import Concrete ConcreteRlp.

#[export] Instance point : K256Point := {| k256_uncompressed vk := replicate 65 x04 |}.
Definition herr (s : string) : string := "odd length".

Definition anchor : @ChainAnchor k256_crate := {|
  ca_signing_key := (replicate 32 x01 : @k256_sk k256_crate); operator_address := replicate 20 x02;
  ca_to := replicate 20 x03; ca_chain_id := Some 9001; ca_gas_limit := 100000; ca_gas_price := None |}.
Definition node : EvmRpc := {|
  rpc_chain_id := Err (AuditIo "down"); rpc_transaction_count _ := Ok 4; rpc_gas_price := Ok 1000000000;
  rpc_send_raw_transaction _ := Ok "0xhash" |}.
Definition payload : AnchorPayload := {|
  date_utc := "2026-01-01"; chain_head_hex := hex_encode genesis_hash; head_event_id := None;
  event_count := 17 |}.

Lemma anchor_in_range : in_range anchor node.
Proof.
  split; [|split; [|split; [|split]]].
  - cbn. unfold u64_max. intros c [[= <-]|[=]]. lia.
  - cbn. unfold u64_ok, u64_max. intros a n [= <-]. lia.
  - cbn. intros g [[=]|[= <-]]. lia.
  - cbn. unfold u64_ok, u64_max. lia.
  - reflexivity.
Qed.

Example anchor_submission_faithful_witness :
  ∃ raw tx chain head, rpc_send_raw_transaction node ("0x" +:+ hex_encode raw) = Ok "0xhash"
    ∧ decode_evm_tx raw = Ok tx
    ∧ (ca_chain_id anchor = Some chain ∨ ca_chain_id anchor = None ∧ rpc_chain_id node = Ok chain)
    ∧ evm_tx_type tx = Legacy ∧ signed_for (ca_signing_key anchor) chain tx ∧ evm_value tx = 0
    ∧ evm_to tx = Some (ca_to anchor) ∧ evm_gas_limit tx = ca_gas_limit anchor
    ∧ hex_decode (chain_head_hex payload) = Some head
    ∧ read_calldata (evm_data tx) = Some (head, 17, string_bytes "2026-01-01").
Proof.
  apply (anchor_submission_faithful herr anchor node payload "0xhash").
  - apply anchor_in_range.
  - cbn. unfold u64_max. lia.
  - cbn. lia.
  - vm_compute. reflexivity.
Defined.

End ChainAnchorWitness.
