(* ===== verification/AuditAnchors.v ===== *)
(** * AuditAnchors: checking the Postgres log, and the anchors
    ([postgres.rs], [anchor.rs], [file.rs], [chain_anchor.rs])

    [replay_verify_postgres] with the reading of a row; the local anchor file;
    the anchor jobs as the sequence of their ticks; and the JSON-RPC client the
    chain anchor runs on, over the HTTP exchange as a parameter. *)

From S2P Require Import Prelude Text Types External SignedDecision AuditLog AuditPostgres Rlp EvmDecoder ChainAnchor.
#[local] Open Scope string_scope.
#[local] Open Scope list_scope.
#[local] Open Scope Z_scope.

(** ** [postgres.rs] *)

(** [ORDER BY timestamp_unix_ms ASC, event_id ASC]. *)
Definition row_le (r s : PgRow) : Prop :=
  col_timestamp_unix_ms r < col_timestamp_unix_ms s
  ∨ col_timestamp_unix_ms r = col_timestamp_unix_ms s ∧ String.le (col_event_id r) (col_event_id s).
#[export] Instance row_le_dec r s : Decision (row_le r s).
Proof. unfold row_le. apply _. Defined.

Section replay.
Context `{UlidCrate, UlidParse, JsonCrate, DigestCrate, Ed25519Crate, EventSerde}.
Variable ulid_error : string → string.

(** [.map(|s| T::from_str(&s)).transpose()]. *)
Definition parse_optional (what : string) (o : option string) : result AuditError (option N) :=
  match o with
  | None => Ok None
  | Some s => u ← ok_or (ulid_from_string s) (AuditSerde (what +:+ " parse: " +:+ ulid_error s)); mret (Some u)
  end.

Definition row_to_event (row : PgRow) : result AuditError AuditEvent :=
  id ← ok_or (ulid_from_string (col_event_id row))
         (AuditSerde ("event_id parse: " +:+ ulid_error (col_event_id row)));
  _ ← ensure (bool_decide (length (col_prev_event_hash row) = 32%nat))
        (AuditSerde ("prev_event_hash must be 32 bytes, got "
                     +:+ show_dec (Z.of_nat (length (col_prev_event_hash row)))));
  b ← try_u8 (col_kind row) ("kind byte out of range: " +:+ show_dec (col_kind row));
  kind ← kind_from_byte b;
  actor ← actor_from_columns (col_actor_kind row) (col_actor_id row);
  request_id ← parse_optional "request_id" (col_request_id row);
  wallet_id ← parse_optional "wallet_id" (col_wallet_id row);
  mret {| event_id := EventId_from_ulid id; prev_event_hash := col_prev_event_hash row;
          event_timestamp_unix_ms := col_timestamp_unix_ms row; event_actor := actor; event_kind := kind;
          event_request_id := RequestId_from_ulid <$> request_id;
          event_wallet_id := WalletId_from_ulid <$> wallet_id;
          event_details := col_details row; server_signature := col_server_signature row |}.

Fixpoint replay_rows (verifying_key prev : bytes) (n : Z) (rows : list PgRow) : result AuditError Z :=
  match rows with
  | [] => Ok n
  | row :: rows =>
      event ← row_to_event row;
      _ ← ensure (bool_decide (prev_event_hash event = prev)) (AuditCrypto "hash chain broken");
      ok ← verify_event event verifying_key;
      _ ← ensure ok (AuditCrypto "signature mismatch");
      replay_rows verifying_key (event_digest event) (u64_wrap (n + 1)) rows
  end.

Definition replay_verify_postgres (db : PgOutcome) (rows : list PgRow) (verifying_key : bytes)
    : result AuditError Z :=
  match db with
  | PgErr why => Err (AuditIo ("replay select: " +:+ why))
  | PgOk => replay_rows verifying_key genesis_hash 0 (merge_sort row_le rows)
  end.

(** [PostgresAuditSink::event_count]. *)
Definition pg_event_count (db : PgOutcome) (rows : list PgRow) : result AuditError Z :=
  match db with
  | PgErr why => Err (AuditIo ("count: " +:+ why))
  | PgOk => Ok (Z.of_nat (length rows))
  end.

(** *** Lemmas *)

Context `{!UlidLaws, !UlidParseLaws, !Ed25519Laws, !DigestLaws}.

Lemma parse_optional_ulid {A} what (f : A → N) (o : option A) :
  from_option (λ a, is_ulid (f a)) True o →
  parse_optional what ((λ a, ulid_to_string (f a)) <$> o) = Ok (f <$> o).
Proof. destruct o as [u|]; [|done]. intros Hu. cbn. by rewrite ulid_parse_to_string. Qed.

Lemma row_to_event_row e :
  event_ok e → event_kind e ≠ PolicyDecisionSigned → row_to_event (row_of e) = Ok e.
Proof.
  intros (Hi & Hp & _ & Hr & Hw) Hk. unfold row_to_event.
  pose proof (actor_columns_round_trip (event_actor e)) as Ha. unfold row_of.
  destruct (actor_columns (event_actor e)) as [ak ai]. cbn -[kind_from_byte actor_from_columns parse_optional try_u8].
  rewrite ulid_parse_to_string by done. cbn [ok_or mbind result_bind]. rewrite bool_decide_eq_true_2 by done.
  cbn [ensure mbind result_bind]. rewrite try_u8_kind. cbn [mbind result_bind].
  rewrite (proj2 (kind_from_kind_byte ulid_error "" _) Hk). cbn [mbind result_bind]. rewrite Ha. cbn [mbind result_bind].
  rewrite !parse_optional_ulid by done. cbn. destruct e as [[] ? ? ? ? [[]|] [[]|] ? ?]; done.
Qed.

Lemma row_to_event_refused e :
  is_ulid (EventId_ulid (event_id e)) → length (prev_event_hash e) = 32%nat → event_kind e = PolicyDecisionSigned →
  row_to_event (row_of e) = Err (AuditSerde "unknown audit kind byte: 17").
Proof.
  intros Hi Hp Hk. unfold row_to_event. destruct (row_of_columns e) as (-> & -> & _ & -> & _).
  rewrite ulid_parse_to_string by done. cbn [ok_or mbind result_bind]. rewrite bool_decide_eq_true_2 by done.
  by rewrite Hk.
Qed.

Lemma replay_rows_ok vk prev n rows m :
  replay_rows vk prev n rows = Ok m →
  ∃ es, Forall2 (λ r e, row_to_event r = Ok e) rows es ∧ chained prev es
    ∧ Forall (λ e, verify_event e vk = Ok true) es ∧ u64_wrap m = u64_wrap (n + Z.of_nat (length rows)).
Proof.
  revert prev n. induction rows as [|row rows IH]; intros prev n; cbn [replay_rows].
  { intros [= <-]. exists []. rewrite Z.add_0_r. by repeat split. }
  intros (e & He & Hr)%result_bind_ok. apply ensure_bind_ok in Hr as [Hp%bool_decide_eq_true Hr].
  apply result_bind_ok in Hr as (ok & Hok & Hr). apply ensure_bind_ok in Hr as [-> Hr].
  destruct (IH _ _ Hr) as (es & Hes & Hc & Hv & Hm). exists (e :: es).
  split; [by constructor|]. split; [done|]. split; [by constructor|].
  rewrite Hm, u64_wrap_add. f_equal. cbn [length]. lia.
Qed.

Lemma replay_rows_accepts vk prev n rows es :
  Forall2 (λ r e, row_to_event r = Ok e) rows es → chained prev es →
  Forall (λ e, verify_event e vk = Ok true) es → 0 ≤ n < 2 ^ 64 →
  replay_rows vk prev n rows = Ok (u64_wrap (n + Z.of_nat (length rows))).
Proof.
  intros Hes. revert prev n. induction Hes as [|r e rows es Hre _ IH]; intros prev n Hc Hv Hn; cbn [replay_rows].
  { rewrite Z.add_0_r. unfold u64_wrap. by rewrite Z.mod_small. }
  destruct Hc as [Hp Hc]. apply Forall_cons in Hv as [Hve Hv]. rewrite Hre. cbn [mbind result_bind].
  rewrite bool_decide_eq_true_2 by done. cbn [ensure mbind result_bind]. rewrite Hve. cbn [mbind result_bind]. cbn [ensure mbind result_bind].
  rewrite IH by (done || (apply Z.mod_pos_bound; lia)). rewrite u64_wrap_add. cbn [length]. do 2 f_equal. lia.
Qed.

(** *** The order of the rows *)

#[local] Instance row_le_trans : Transitive row_le.
Proof.
  intros r s q. unfold row_le. intros [?|[? H1']] [?|[? H2']]; [left; lia..|].
  right. split; [lia|]. by trans (col_event_id s).
Qed.
#[local] Instance row_le_total : Total row_le.
Proof.
  intros r s. unfold row_le. destruct (Z.lt_total (col_timestamp_unix_ms r) (col_timestamp_unix_ms s)) as [?|[?|?]];
    [by left; left| |by right; left].
  destruct (total String.le (col_event_id r) (col_event_id s)); [left|right]; right; done.
Qed.

Lemma row_before_le r s : row_before r s = true → row_le r s ∧ ¬ row_le s r.
Proof.
  unfold row_before, row_le. rewrite orb_true_iff, andb_true_iff, Z.ltb_lt, Z.eqb_eq.
  unfold String.ltb, String.le, String.leb. intros [Hlt|[Heq Hs]]; [split; [by left|]; lia|].
  pose proof (String.compare_antisym (col_event_id r) (col_event_id s)) as Hc.
  destruct (String.compare (col_event_id r) (col_event_id s)); [done| |done].
  destruct (String.compare (col_event_id s) (col_event_id r)); [done..|]. cbn.
  split; [by right|]. intros [?|[_ []]]. lia.
Qed.

Lemma sorted_rows rows : StronglySorted (λ r s, row_before r s = true) rows → merge_sort row_le rows = rows.
Proof.
  intros Hs. apply (StronglySorted_unique_strong row_le).
  - intros r s Hr Hq Hle Hle'. rewrite merge_sort_Permutation in Hr.
    clear -Hs Hr Hq Hle Hle'. induction Hs as [|x l _ IH Hall]; [by apply elem_of_nil in Hr|].
    rewrite Forall_forall in Hall.
    apply elem_of_cons in Hr as [->|Hr]; apply elem_of_cons in Hq as [->|Hq]; [done| | |by apply IH].
    + by destruct (row_before_le _ _ (Hall _ Hq)).
    + by destruct (row_before_le _ _ (Hall _ Hr)).
  - apply StronglySorted_merge_sort; apply _.
  - induction Hs as [|x l _ IH Hall]; constructor; [done|]. eapply Forall_impl; [exact Hall|].
    intros s Hs. by apply row_before_le.
  - apply merge_sort_Permutation.
Qed.

Lemma pg_run_sorted dup key es rows :
  pg_run ulid_error dup key es rows → StronglySorted (λ r s, row_before r s = true) rows.
Proof.
  induction 1 as [|es rows m e rows' _ IH _ Hnew Hemit|es rows fresh now db draft err rows' _ IH Hemit].
  - constructor.
  - apply pg_emit_inv in Hemit as (prev & _ & -> & ->). apply StronglySorted_app_2; [|done|by repeat constructor].
    intros r s Hr Hs%list_elem_of_singleton. subst s.
    pose proof (newest_before key (em_id m) (em_at m) (em_draft m) {| head_hash := prev; written := 0 |} rows Hnew) as Hb.
    rewrite Forall_forall in Hb. by apply Hb.
  - by apply pg_emit_err in Hemit as ->.
Qed.
(** *** Properties *)

(** [replay_verify_postgres] accepts a table exactly when its rows, sorted by time
    and id, read as a chain of events from the genesis hash that all verify
    under the key; it then returns how many there are. *)
Theorem postgres_replay_exact rows vk n :
  replay_verify_postgres PgOk rows vk = Ok n ∧ 0 ≤ n < 2 ^ 64 ↔
  ∃ es, Forall2 (λ r e, row_to_event r = Ok e) (merge_sort row_le rows) es ∧ chained genesis_hash es
    ∧ Forall (λ e, verify_event e vk = Ok true) es ∧ n = u64_wrap (Z.of_nat (length rows)).
Proof.
  cbn [replay_verify_postgres]. split.
  - intros [(es & Hes & Hc & Hv & Hn)%replay_rows_ok Hb]. exists es. do 3 (split; [done|]).
    rewrite merge_sort_Permutation, Z.add_0_l in Hn. rewrite <-Hn. unfold u64_wrap. by rewrite Z.mod_small.
  - intros (es & Hes & Hc & Hv & ->). rewrite (replay_rows_accepts vk genesis_hash 0 _ es) by done.
    rewrite merge_sort_Permutation. split; [done|]. apply Z.mod_pos_bound. lia.
Qed.

(** C30. The log of a Postgres sink whose ids and times increase passes the replay check
    under its key, with every event counted, as long as it holds no signed policy
    decision; once it holds one, the check fails, since the reader does not know
    the kind byte the sink writes. *)
Theorem postgres_log_replays dup key es rows :
  pg_run ulid_error dup key es rows →
  (Forall (λ e, event_kind e ≠ PolicyDecisionSigned) es →
     replay_verify_postgres PgOk rows (server_public_key key) = Ok (u64_wrap (Z.of_nat (length es))))
  ∧ ((∃ e, e ∈ es ∧ event_kind e = PolicyDecisionSigned) →
     ∀ n, replay_verify_postgres PgOk rows (server_public_key key) ≠ Ok n).
Proof.
  intros Hrun. pose proof (pg_run_sorted _ _ _ _ Hrun) as Hsort.
  pose proof (pg_run_ok _ _ _ _ _ Hrun) as (Hrows & _ & Hok & Hc & Hs). cbn [replay_verify_postgres].
  rewrite (sorted_rows _ Hsort). split.
  - intros Hk. rewrite (replay_rows_accepts _ genesis_hash 0 rows es); [|rewrite Hrows|done| |lia].
    + by rewrite Hrows, length_fmap.
    + apply Forall2_fmap_l, Forall_Forall2_diag. rewrite Forall_forall in Hok, Hk |- *.
      intros e He. cbn. apply row_to_event_row; auto.
    + eapply Forall_impl; [exact Hs|]. intros e He. by apply signed_verifies.
  - intros (e & He & Hk) n Hn. apply replay_rows_ok in Hn as (es' & Hes & _).
    rewrite Hrows in Hes. apply list_elem_of_lookup_1 in He as [i Hi].
    destruct (Forall2_lookup_l _ _ _ i (row_of e) Hes) as (e' & _ & He'); [by rewrite list_lookup_fmap, Hi|].
    rewrite Forall_forall in Hok. destruct (Hok e) as (Hid & Hp & _); [by eapply list_elem_of_lookup_2|].
    by rewrite (row_to_event_refused e Hid Hp Hk) in He'.
Qed.
End replay.

(** ** The local anchor file ([anchor.rs]) *)

Definition DEFAULT_ANCHOR_INTERVAL : Z := 24 * 60 * 60.

(** [FileAuditSink::current_anchor_payload]. *)
Definition current_anchor_payload (today : string) (st : ChainState) : AnchorPayload := {|
  date_utc := today; chain_head_hex := hex_encode (head_hash st); head_event_id := None;
  event_count := written st |}.

Section local.
Context `{UlidCrate, JsonCrate, Ed25519Crate}.

Record LocalFileAnchor := { lfa_path : string; lfa_signing_key : bytes }.
Definition lfa_public_key (self : LocalFileAnchor) : bytes := ed_public (lfa_signing_key self).

Definition anchor_preimage (p : AnchorPayload) : bytes :=
  string_bytes "qfc-audit-anchor-v1" ++ [x00]
  ++ string_bytes (date_utc p) ++ [x00]
  ++ string_bytes (chain_head_hex p) ++ [x00]
  ++ match head_event_id p with Some e => string_bytes (ulid_to_string (EventId_ulid e)) | None => [] end ++ [x00]
  ++ be_bytes 8 (event_count p).

Record AnchorJsonl := {
  jl_payload : AnchorPayload;
  jl_anchor_public_key_hex : string;
  jl_signature_hex : string;
}.

(** The derived [Serialize] of both structs. *)
Definition payload_json (p : AnchorPayload) : Json :=
  JObject [("date_utc", JString (date_utc p)); ("chain_head_hex", JString (chain_head_hex p));
           ("head_event_id", from_option (λ e, json_ulid (EventId_ulid e)) JNull (head_event_id p));
           ("event_count", JNumber (event_count p))].
Definition jsonl_json (r : AnchorJsonl) : Json :=
  JObject [("payload", payload_json (jl_payload r));
           ("anchor_public_key_hex", JString (jl_anchor_public_key_hex r));
           ("signature_hex", JString (jl_signature_hex r))].

Definition anchor_row (self : LocalFileAnchor) (p : AnchorPayload) : AnchorJsonl := {|
  jl_payload := p;
  jl_anchor_public_key_hex := hex_encode (lfa_public_key self);
  jl_signature_hex := hex_encode (ed_sign (lfa_signing_key self) (anchor_preimage p)) |}.

(** [LocalFileAnchor::submit]; [file] is the content of the anchor file. *)
Definition lfa_submit (self : LocalFileAnchor) (io : IoOutcome) (p : AnchorPayload) (file : bytes)
    : result AuditError () * bytes :=
  let line := json_to_vec (jsonl_json (anchor_row self p)) ++ [x0a] in
  match io with
  | IoOpenErr why => (Err (AuditIo ("anchor open " +:+ lfa_path self +:+ ": " +:+ why)), file)
  | IoWriteErr k why => (Err (AuditIo ("anchor write: " +:+ why)), file ++ take k line)
  | IoSyncErr why => (Err (AuditIo ("anchor flush: " +:+ why)), file ++ line)
  | IoOk => (Ok (), file ++ line)
  end.

(** *** Lemmas *)

Context `{!UlidLaws, !Ed25519Laws, !JsonLaws}.

(** Fields that hold no NUL and a [u64] count. *)
Definition payload_ok (p : AnchorPayload) : Prop :=
  (x00 ∉ string_bytes (date_utc p)) ∧ (x00 ∉ string_bytes (chain_head_hex p))
  ∧ from_option (λ e, is_ulid (EventId_ulid e) ∧ x00 ∉ string_bytes (ulid_to_string (EventId_ulid e))) True (head_event_id p)
  ∧ 0 ≤ event_count p ≤ u64_max.

Lemma sep_inj (a b r s : bytes) : x00 ∉ a → x00 ∉ b → a ++ x00 :: r = b ++ x00 :: s → a = b ∧ r = s.
Proof.
  revert b. induction a as [|x a IH]; intros [|y b] Ha Hb; cbn; [by intros [= ->]| | |].
  - intros [= <- _]. destruct Hb. by left.
  - intros [= -> _]. destruct Ha. by left.
  - intros [= -> Heq]. apply not_elem_of_cons in Ha as [_ Ha], Hb as [_ Hb].
    destruct (IH b Ha Hb Heq) as [-> ->]. done.
Qed.

(** The preimage determines the payload. *)
Theorem anchor_preimage_binds p q :
  payload_ok p → payload_ok q → anchor_preimage p = anchor_preimage q → p = q.
Proof.
  intros (Hd & Hh & He & Hc) (Hd' & Hh' & He' & Hc') Heq. unfold anchor_preimage in Heq.
  apply app_inv_head in Heq. cbn [app] in Heq. injection Heq as Heq.
  apply sep_inj in Heq as [Hdate Heq]; [|done..]. apply sep_inj in Heq as [Hhead Heq]; [|done..].
  apply sep_inj in Heq as [Hid Heq]; [|by destruct (head_event_id p) as [e|]; [destruct He|apply not_elem_of_nil]
                                       |by destruct (head_event_id q) as [e|]; [destruct He'|apply not_elem_of_nil]].
  apply string_bytes_inj in Hdate, Hhead.
  assert (event_count p = event_count q) as Hcount.
  { apply (f_equal be_value) in Heq. unfold u64_max in *. by rewrite !be_value_bytes_small in Heq by (cbn; lia). }
  assert (head_event_id p = head_event_id q) as Hidq.
  { destruct (head_event_id p) as [e|], (head_event_id q) as [e'|]; [| | |done].
    - apply string_bytes_inj in Hid. destruct He as [He _], He' as [He' _], e, e'. do 2 f_equal. by apply ulid_inj.
    - apply (f_equal length) in Hid. rewrite length_string_bytes, ulid_length in Hid. done.
    - apply (f_equal length) in Hid. rewrite length_string_bytes, ulid_length in Hid. done. }
  destruct p, q. cbn in *. congruence.
Qed.
End local.

(** ** The anchor jobs ([anchor.rs])

    What one tick saw and did: the read failed, or a payload was submitted with
    some result.  [tokio::time::interval] panics on a zero period, in the task. *)

Inductive Tick (R : Type) :=
  | ReadFailed (e : AuditError)
  | Submitted (p : AnchorPayload) (r : R).
Arguments ReadFailed {R} e.
Arguments Submitted {R} p r.

Definition anchor_tick {R} (submit : AnchorPayload → R) (read : result AuditError AnchorPayload) : Tick R :=
  match read with
  | Ok payload => Submitted payload (submit payload)
  | Err e => ReadFailed e
  end.

(** [daily_anchor_commit_job_with_reader], over what its first ticks read. *)
Definition daily_anchor_commit_job_with_reader {R} (interval : Z) (submit : AnchorPayload → R)
    (reads : list (result AuditError AnchorPayload)) : panics (list (Tick R)) :=
  if interval =? 0 then Panics "`period` must be non-zero."
  else Returns (anchor_tick submit <$> reads).

Section jobs.
Context `{UlidCrate, UlidParse, JsonCrate, DigestCrate, Ed25519Crate, EventSerde}.
Variable ulid_error : string → string.

(** [daily_anchor_commit_job]: the table and the date at each tick. *)
Definition daily_anchor_commit_job {R} (interval : Z) (submit : AnchorPayload → R)
    (ticks : list (string * list PgRow)) : panics (list (Tick R)) :=
  daily_anchor_commit_job_with_reader interval submit
    ((λ t, AuditPostgres.anchor_payload ulid_error t.1 t.2) <$> ticks).

Context `{!UlidLaws, !JsonLaws, !DigestLaws, !Ed25519Laws, !EventSerdeLaws}.

(** The job over the file sink: with a positive interval, every tick commits to the
    log as it stands then.  After the emissions so far have all succeeded, the
    payload carries the hash of the last event of the file and the number of its
    events, whatever became of earlier submissions. *)
Theorem file_anchor_commits {R} key ms today interval (submit : AnchorPayload → R) earlier evs st file :
  Forall (λ m, emission_ok m ∧ em_io m = IoOk) ms → 0 < interval →
  emit_batch key ms {| head_hash := genesis_hash; written := 0 |} [] = (Ok evs, st, file) →
  ∃ ticks p, daily_anchor_commit_job_with_reader interval submit (earlier ++ [Ok (current_anchor_payload today st)])
      = Returns (ticks ++ [Submitted p (submit p)])
    ∧ length ticks = length earlier
    ∧ date_utc p = today ∧ chain_head_hex p = hex_encode (chain_head genesis_hash evs)
    ∧ event_count p = u64_wrap (Z.of_nat (length ms)) ∧ file = log_content evs.
Proof.
  intros Hms Hi Hb. destruct (emit_batch_sink key ms _ _ _ Hms (fresh_sink_ok key))
    as (evs' & st' & file' & Hb' & Hlen & (-> & Hc & Hok & Hsig & ->)).
  rewrite Hb' in Hb. injection Hb as <- <- <-. cbn [app] in *.
  unfold daily_anchor_commit_job_with_reader. rewrite (proj2 (Z.eqb_neq interval 0)) by lia.
  eexists _, _. rewrite fmap_app. split; [reflexivity|]. split; [by rewrite length_fmap|].
  cbn. by rewrite Hlen.
Qed.
End jobs.

(** ** JSON-RPC ([chain_anchor.rs])

    One exchange with the node: sending fails, the body is not JSON, or a value
    comes back. *)
Class RpcNode := { rpc_post : string → Json → result string (result string Json) }.

(** [Value::get] on an object. *)
Definition value_get (k : string) (v : Json) : option Json :=
  match v with JObject fs => snd <$> last (List.filter (λ f : string * Json, String.eqb f.1 k) fs) | _ => None end.

Definition is_json_null (v : Json) : bool := match v with JNull => true | _ => false end.
Definition as_str (v : Json) : option string := match v with JString s => Some s | _ => None end.

Definition u128_max : Z := 2 ^ 128 - 1.

Section rpc.
Context `{RpcNode} (json_text : Json → string) (quantity_error : string → string).

Definition rpc_body (method : string) (params : Json) : Json :=
  JObject [("jsonrpc", JString "2.0"); ("id", JNumber 1); ("method", JString method); ("params", params)].

(** [EvmRpc::call]. *)
Definition rpc_call (url method : string) (params : Json) : result AuditError Json :=
  match rpc_post url (rpc_body method params) with
  | Err e => Err (AuditIo ("rpc " +:+ method +:+ " send: " +:+ e))
  | Ok (Err e) => Err (AuditIo ("rpc " +:+ method +:+ " decode: " +:+ e))
  | Ok (Ok value) =>
      match value_get "error" value with
      | Some err =>
          if negb (is_json_null err) then Err (AuditIo ("rpc " +:+ method +:+ " error: " +:+ json_text err))
          else ok_or (value_get "result" value) (AuditIo ("rpc " +:+ method +:+ ": missing result"))
      | None => ok_or (value_get "result" value) (AuditIo ("rpc " +:+ method +:+ ": missing result"))
      end
  end.

Definition parse_quantity (method : string) (v : Json) : result AuditError Z :=
  s ← ok_or (as_str v) (AuditIo ("rpc " +:+ method +:+ ": result not a string"));
  ok_or (parse_hex_uint u128_max (default s (strip_prefix "0x" s)))
    (AuditIo ("rpc " +:+ method +:+ ": bad quantity " +:+ quantity_error s)).

Definition rpc_u64 (q : Z) (text : string) : result AuditError Z :=
  if q <=? u64_max then Ok q else Err (AuditIo text).

Definition client_chain_id (url : string) : result AuditError Z :=
  v ← rpc_call url "eth_chainId" (JArray []);
  q ← parse_quantity "eth_chainId" v;
  rpc_u64 q "eth_chainId overflows u64".

Definition client_transaction_count (url : string) (address : bytes) : result AuditError Z :=
  v ← rpc_call url "eth_getTransactionCount" (JArray [JString ("0x" +:+ hex_encode address); JString "pending"]);
  q ← parse_quantity "eth_getTransactionCount" v;
  rpc_u64 q "nonce overflows u64".

Definition client_gas_price (url : string) : result AuditError Z :=
  v ← rpc_call url "eth_gasPrice" (JArray []);
  parse_quantity "eth_gasPrice" v.

Definition client_send_raw_transaction (url raw_hex : string) : result AuditError string :=
  v ← rpc_call url "eth_sendRawTransaction" (JArray [JString raw_hex]);
  ok_or (as_str v) (AuditIo "eth_sendRawTransaction: result not a tx hash").

Definition EvmRpc_new (url : string) : EvmRpc := {|
  rpc_chain_id := client_chain_id url;
  rpc_transaction_count := client_transaction_count url;
  rpc_gas_price := client_gas_price url;
  rpc_send_raw_transaction := client_send_raw_transaction url |}.

Lemma parse_hex_digits_range max acc s z :
  0 ≤ acc ≤ max → parse_hex_digits max acc s = Some z → 0 ≤ z ≤ max.
Proof.
  revert acc. induction s as [|c s IH]; intros acc Ha; cbn; [by intros [= <-]|].
  destruct (hex_digit c) as [d|] eqn:Hd; [|done]. destruct (Z.ltb_spec max (acc * 16 + d)); [done|].
  apply IH. assert (0 ≤ d); [|lia]. unfold hex_digit in Hd. repeat case_match; simplify_eq; lia.
Qed.

Lemma parse_quantity_range method v q : parse_quantity method v = Ok q → 0 ≤ q ≤ u128_max.
Proof.
  intros (s & _ & Hq%ok_or_ok)%result_bind_ok. unfold parse_hex_uint in Hq.
  assert (∀ t, parse_hex_digits u128_max 0 t = Some q → 0 ≤ q ≤ u128_max) as Hr.
  { intros t. apply parse_hex_digits_range. unfold u128_max. lia. }
  repeat case_match; by eauto.
Qed.

Lemma rpc_u64_range q t r : 0 ≤ q → rpc_u64 q t = Ok r → 0 ≤ r ≤ u64_max.
Proof. unfold rpc_u64. intros Hq. destruct (Z.leb_spec q u64_max); [|done]. intros [= <-]. lia. Qed.

(** Whatever the node sends, the numbers the client hands to the transaction
    builder are in range: chain id and nonce are [u64]s, the gas price is a
    [u128]. *)
Lemma client_in_range url :
  (∀ c, client_chain_id url = Ok c → 0 ≤ c ≤ u64_max)
  ∧ (∀ a n, client_transaction_count url a = Ok n → 0 ≤ n ≤ u64_max)
  ∧ (∀ g, client_gas_price url = Ok g → 0 ≤ g ≤ u128_max).
Proof.
  split; [|split].
  - intros c (v & _ & Hc)%result_bind_ok. apply result_bind_ok in Hc as (q & Hq%parse_quantity_range & Hc).
    eapply rpc_u64_range; [|exact Hc]. lia.
  - intros a n (v & _ & Hc)%result_bind_ok. apply result_bind_ok in Hc as (q & Hq%parse_quantity_range & Hc).
    eapply rpc_u64_range; [|exact Hc]. lia.
  - intros g (v & _ & Hg)%result_bind_ok. by eapply parse_quantity_range.
Qed.
End rpc.

Section published.
Context `{UlidCrate, JsonCrate, DigestCrate, Ed25519Crate, EventSerde, K256Crate, !K256Point, HexCrate, RlpCrate, RpcNode}.
Context (hex_error : string → string) (json_text : Json → string) (quantity_error : string → string).
Context `{!UlidLaws, !JsonLaws, !DigestLaws, !Ed25519Laws, !EventSerdeLaws, !HexLaws, !RlpLaws, !K256Laws}.

Lemma send_raw_transaction_ok url raw accepted :
  client_send_raw_transaction json_text url raw = Ok accepted →
  ∃ value, rpc_post url (rpc_body "eth_sendRawTransaction" (JArray [JString raw])) = Ok (Ok value)
    ∧ value_get "result" value = Some (JString accepted).
Proof.
  intros (v & Hc & Ha%ok_or_ok)%result_bind_ok. unfold rpc_call in Hc.
  destruct (rpc_post _ _) as [[value|]|]; [|done..]. exists value. split; [done|].
  assert (value_get "result" value = Some v) as ->; [|by destruct v; simplify_eq/=].
  destruct (value_get "error" value) as [err|]; [destruct (negb _); [done|]|]; by apply ok_or_ok in Hc.
Qed.

(** C31. The audit log on chain, end to end: when the server's anchor, built from its
    configuration, submits over JSON-RPC the payload of a file log whose
    emissions all succeeded, and the node accepts, then the node was sent a
    legacy zero-value transaction to the configured address, signed by the
    operator's key for the configured or queried chain (of an id whose [v] fits a
    [u64]), and naming that chain unless the signature's recovery id is 2 or 3
    ([signed_for]), from whose calldata a verifier reads the hash of the last
    event of the log, the number of its events, and the date, whatever the node
    answered to the other calls. *)
Theorem published_anchor_commits key ms evs st file today url operator_key to chain gas_limit self accepted :
  Forall (λ m, emission_ok m ∧ em_io m = IoOk) ms →
  emit_batch key ms {| head_hash := genesis_hash; written := 0 |} [] = (Ok evs, st, file) →
  Z.of_nat (String.length today) < 2 ^ 16 →
  from_option (λ t : bytes, length t = 20%nat) True to → u64_ok gas_limit →
  (∀ c, chain = Some c ∨ client_chain_id json_text quantity_error url = Ok c → 0 ≤ c ∧ c * 2 + 38 ≤ u64_max) →
  ChainAnchor_new operator_key to chain gas_limit None = Ok self →
  submit hex_error self (EvmRpc_new json_text quantity_error url) (current_anchor_payload today st) = Ok accepted →
  ∃ raw tx value c,
    rpc_post url (rpc_body "eth_sendRawTransaction" (JArray [JString ("0x" +:+ hex_encode raw)])) = Ok (Ok value)
    ∧ value_get "result" value = Some (JString accepted)
    ∧ decode_evm_tx raw = Ok tx ∧ evm_tx_type tx = Legacy ∧ evm_value tx = 0
    ∧ (chain = Some c ∨ chain = None ∧ client_chain_id json_text quantity_error url = Ok c)
    ∧ signed_for (ca_signing_key self) c tx ∧ evm_to tx = Some (default (operator_address self) to)
    ∧ read_calldata (evm_data tx)
      = Some (chain_head genesis_hash evs, u64_wrap (Z.of_nat (length ms)), string_bytes today).
Proof.
  intros Hms Hb Hdate Hto Hgas Hchain Hnew Hsubmit.
  destruct (emit_batch_sink key ms _ _ _ Hms (fresh_sink_ok key))
    as (evs' & st' & file' & Hb' & Hlen & (-> & Hc & Hok & Hsig & ->)).
  rewrite Hb' in Hb. injection Hb as <- <- <-. cbn [app] in *.
  unfold ChainAnchor_new in Hnew. apply result_bind_ok in Hnew as (sk & _ & Hself).
  assert (length (evm_address sk) = 20%nat) as Haddr by (unfold evm_address; by rewrite length_drop, keccak256_length).
  injection Hself as <-. destruct (client_in_range json_text quantity_error url) as (_ & Hnonce & Hgp).
  set (self := Build_ChainAnchor _ _ _ _ _ _) in Hsubmit |- *.
  assert (in_range self (EvmRpc_new json_text quantity_error url)) as Hrange.
  { split; [exact Hchain|]. split; [exact Hnonce|]. split; [|split; [exact Hgas|cbn; by destruct to]].
    cbn. intros g [[=]|Hg%Hgp]. unfold u128_max in Hg. lia. }
  set (p := current_anchor_payload _ _) in Hsubmit.
  destruct (anchor_submission_ok hex_error self _ p accepted Hrange) as
    (raw & tx & c & head & Hsend & Hdec & Hcid & Hty & Hcx & Hv & Htox & _ & Hhead & Hread); [|done..|].
  { cbn. unfold u64_wrap, u64_max. pose proof (Z.mod_pos_bound (Z.of_nat (length evs')) (2 ^ 64)). lia. }
  apply send_raw_transaction_ok in Hsend as (value & Hpost & Hres). exists raw, tx, value, c.
  cbn in Hhead, Hread. rewrite hex_decode_encode in Hhead. injection Hhead as <-.
  do 8 (split; [done|]). by rewrite Hread, Hlen.
Qed.
End published.

Module AnchorsWitness.
Import Concrete ConcreteRlp AuditWitness PostgresWitness ChainAnchorWitness.

Example postgres_log_replays_witness :
  replay_verify_postgres uerr PgOk [row_of (first 9 SigningRequested)] (server_public_key key) = Ok 1.
Proof.
  destruct (postgres_log_replays uerr dup key [first 9 SigningRequested] [row_of (first 9 SigningRequested)])
    as [Hok _]; [apply first_run; reflexivity|].
  apply Hok. constructor; [discriminate|constructor].
Defined.

Example postgres_replay_exact_witness :
  ∃ es, Forall2 (λ r e, row_to_event uerr r = Ok e) (merge_sort row_le []) es ∧ chained genesis_hash es
    ∧ Forall (λ e, verify_event e (server_public_key key) = Ok true) es ∧ 0 = u64_wrap (Z.of_nat (length (@nil PgRow))).
Proof. apply (postgres_replay_exact uerr [] (server_public_key key) 0). split; [reflexivity|lia]. Defined.

Lemma payload_is_ok : payload_ok payload.
Proof.
  split; [|split; [|split; [done|cbn; unfold u64_max; lia]]]; apply (bool_decide_eq_true_1 _); vm_compute; reflexivity.
Qed.

Example anchor_preimage_binds_witness : anchor_preimage payload = anchor_preimage payload ∧ payload = payload.
Proof.
  split; [reflexivity|].
  apply (anchor_preimage_binds payload payload); [exact payload_is_ok|exact payload_is_ok|reflexivity].
Defined.

Definition one : list Emission := [emission 9 SigningRequested].
Lemma one_ok : Forall (λ m, emission_ok m ∧ em_io m = IoOk) one.
Proof.
  constructor; [|constructor]. split; [|done].
  split; [done|]. split; [split; vm_compute; congruence|by split].
Qed.
Definition st1 : ChainState := (emit_batch key one st0 []).1.2.
Definition file1 : bytes := (emit_batch key one st0 []).2.

Example file_anchor_commits_witness :
  ∃ ticks p, daily_anchor_commit_job_with_reader 86400 (λ _, tt) ([Err (AuditIo "down")] ++ [Ok (current_anchor_payload "2026-01-01" st1)])
      = Returns (ticks ++ [Submitted p tt])
    ∧ length ticks = 1%nat
    ∧ date_utc p = "2026-01-01" ∧ chain_head_hex p = hex_encode (chain_head genesis_hash [first 9 SigningRequested])
    ∧ event_count p = 1 ∧ file1 = log_content [first 9 SigningRequested].
Proof.
  apply (file_anchor_commits key one "2026-01-01" 86400 (λ _, tt) [Err (AuditIo "down")] [first 9 SigningRequested] st1 file1);
    [exact one_ok|lia|reflexivity].
Defined.

(** A node on chain 9001. *)
#[export] Instance rpc_node : RpcNode := {|
  rpc_post _ body :=
    Ok (Ok (JObject [("jsonrpc", JString "2.0"); ("result",
      match value_get "method" body with
      | Some (JString m) =>
          if String.eqb m "eth_chainId" then JString "0x2329"
          else if String.eqb m "eth_getTransactionCount" then JString "0x4"
          else if String.eqb m "eth_gasPrice" then JString "0x3b9aca00"
          else JString "0xhash"
      | _ => JNull
      end)])) |}.
Definition jtext (_ : Json) : string := "{}".
Definition qerr (_ : string) : string := "invalid digit".
Definition url : string := "http://localhost:8545".
Definition built : @ChainAnchor k256_crate :=
  match ChainAnchor_new (replicate 32 x01) (Some (replicate 20 x03)) None 100000 None with
  | Ok a => a
  | Err _ => anchor
  end.

Lemma chain_9001 : client_chain_id jtext qerr url = Ok 9001.
Proof. vm_compute. reflexivity. Qed.

Example published_anchor_commits_witness :
  ∃ raw tx value c,
    rpc_post url (rpc_body "eth_sendRawTransaction" (JArray [JString ("0x" +:+ hex_encode raw)])) = Ok (Ok value)
    ∧ value_get "result" value = Some (JString "0xhash")
    ∧ decode_evm_tx raw = Ok tx ∧ evm_tx_type tx = Legacy ∧ evm_value tx = 0
    ∧ (@None Z = Some c ∨ @None Z = None ∧ client_chain_id jtext qerr url = Ok c)
    ∧ signed_for (ca_signing_key built) c tx ∧ evm_to tx = Some (replicate 20 x03)
    ∧ read_calldata (evm_data tx)
      = Some (chain_head genesis_hash [first 9 SigningRequested], 1, string_bytes "2026-01-01").
Proof.
  apply (published_anchor_commits herr jtext qerr key one [first 9 SigningRequested] st1 file1 "2026-01-01" url
           (replicate 32 x01) (Some (replicate 20 x03)) None 100000 built "0xhash").
  - exact one_ok.
  - reflexivity.
  - cbn. lia.
  - reflexivity.
  - unfold u64_ok, u64_max. lia.
  - intros c [[=]|Hc]. rewrite chain_9001 in Hc. injection Hc as <-. unfold u64_max. lia.
  - reflexivity.
  - vm_compute. reflexivity.
Defined.

End AnchorsWitness.
