(* ===== verification/ShareStore.v ===== *)
(** * ShareStore: where wallet shares are kept ([store.rs], [stores/mock.rs])

    The [ShareStore] trait as a class of operations with the laws its clients
    rely on, and the in-memory store as an instance. *)

From S2P Require Import Prelude Types Shamir Registry.
#[local] Open Scope string_scope.
#[local] Open Scope list_scope.
#[local] Open Scope Z_scope.

Inductive ShareStoreError :=
  | ShareNotFound (id : ShareId)
  | ShareSerde (why : string)
  | ShareIo (why : string)
  | ShareCrypto (why : string)
  | ShareConfig (why : string).

Record StoredShare := {
  stored_id : ShareId;
  stored_at_unix_ms : Z;
  stored_share : ShamirShare;
}.

Class ShareStore (S : Type) := {
  share_put : StoredShare → S → result ShareStoreError () * S;
  share_get : ShareId → S → result ShareStoreError StoredShare;
  share_delete : ShareId → S → result ShareStoreError () * S;
  share_list : WalletId → S → result ShareStoreError (list ShareId);
}.

(** [held s] is the content of the store: what [get] returns. *)
Class ShareStoreLaws (S : Type) `{ShareStore S} := {
  held : S → ShareId → option StoredShare;
  share_put_law s st s' : share_put st s = (Ok (), s') →
    ∀ id, held s' id = if bool_decide (id = stored_id st) then Some st else held s id;
  share_get_law id s st : share_get id s = Ok st ↔ held s id = Some st;
  share_delete_law id s s' : share_delete id s = (Ok (), s') →
    ∀ i, held s' i = if bool_decide (i = id) then None else held s i;
  (** Listings are in strictly increasing index order. *)
  share_list_law w s ids : share_list w s = Ok ids →
    StronglySorted (λ a b, share_index a < share_index b) ids
    ∧ ∀ id, id ∈ ids ↔ share_wallet_id id = w ∧ is_Some (held s id);
}.

(** ** [MockShareStore] *)

Record MockShareStore := { mock_inner : gmap ShareId StoredShare }.

Definition mock_store_new : MockShareStore := {| mock_inner := ∅ |}.

Definition mock_put (share : StoredShare) (s : MockShareStore)
    : result ShareStoreError () * MockShareStore :=
  (Ok (), {| mock_inner := <[stored_id share := share]> (mock_inner s) |}).

Definition mock_get (id : ShareId) (s : MockShareStore) : result ShareStoreError StoredShare :=
  ok_or (mock_inner s !! id) (ShareNotFound id).

Definition mock_delete (id : ShareId) (s : MockShareStore)
    : result ShareStoreError () * MockShareStore :=
  (Ok (), {| mock_inner := delete id (mock_inner s) |}).

Definition index_le (a b : ShareId) : Prop := share_index a ≤ share_index b.
#[export] Instance index_le_dec a b : Decision (index_le a b) := Z_le_dec _ _.
#[export] Instance index_le_total : Total index_le.
Proof. intros a b. unfold index_le. lia. Qed.
#[export] Instance index_le_trans : Transitive index_le.
Proof. intros a b c. unfold index_le. lia. Qed.

Section mock_store.
Context `{HashOrder}.

(** [HashMap::keys], filtered and sorted by index. *)
Definition mock_list (w : WalletId) (s : MockShareStore) : result ShareStoreError (list ShareId) :=
  let ids := List.filter (λ id, bool_decide (share_wallet_id id = w))
               (hash_order (map_to_list (mock_inner s)).*1) in
  Ok (merge_sort index_le ids).

#[export] Instance mock_share_store : ShareStore MockShareStore := {|
  share_put := mock_put; share_get := mock_get; share_delete := mock_delete; share_list := mock_list |}.

Lemma sorted_strict ids w :
  StronglySorted index_le ids → NoDup ids → (∀ id, id ∈ ids → share_wallet_id id = w) →
  StronglySorted (λ a b, share_index a < share_index b) ids.
Proof.
  induction 1 as [|a ids Hs IH Ha]; intros Hnd Hw; [constructor|].
  apply NoDup_cons in Hnd as [Hni Hnd]. constructor; [apply IH; [done|]; intros; apply Hw, elem_of_cons; by right|].
  rewrite Forall_forall in *. intros b Hb. specialize (Ha b Hb). unfold index_le in Ha.
  destruct (decide (share_index a = share_index b)) as [Heq|]; [|lia]. exfalso. apply Hni.
  assert (share_wallet_id a = w) by (apply Hw; apply elem_of_cons; by left).
  assert (share_wallet_id b = w) by (apply Hw; apply elem_of_cons; by right).
  replace a with b; [done|]. destruct a, b. cbn in *. congruence.
Qed.

Lemma StronglySorted_index_NoDup ids :
  StronglySorted (λ a b, share_index a < share_index b) ids → NoDup ids.
Proof.
  induction 1 as [|a ids Hs IH Ha]; constructor; [|done]. intros Hin.
  rewrite Forall_forall in Ha. specialize (Ha a Hin). lia.
Qed.

#[export] Program Instance mock_share_store_laws `{!HashOrderLaws} : ShareStoreLaws MockShareStore := {|
  held s id := mock_inner s !! id |}.
Next Obligation.
  intros Ho s st s' [= <-] id. cbn. case_bool_decide; [subst; by rewrite lookup_insert_eq|].
  by rewrite lookup_insert_ne.
Qed.
Next Obligation. intros Ho id s st. cbn. unfold mock_get. by rewrite ok_or_ok. Qed.
Next Obligation.
  intros Ho id s s' [= <-] i. cbn. case_bool_decide; [subst; by rewrite lookup_delete_eq|].
  by rewrite lookup_delete_ne.
Qed.
Next Obligation.
  intros Ho w s ids [= <-].
  set (l := List.filter _ _).
  assert (∀ id, id ∈ l ↔ share_wallet_id id = w ∧ is_Some (mock_inner s !! id)) as Hl.
  { intros id. subst l. rewrite list_elem_of_In, filter_In, <-list_elem_of_In, bool_decide_eq_true.
    rewrite hash_order_perm, list_elem_of_fmap. split.
    - intros [([k st] & -> & Hk%elem_of_map_to_list) ?]. by split; [|eexists].
    - intros [? [st Hst]]. split; [|done]. exists (id, st). split; [done|]. by apply elem_of_map_to_list. }
  pose proof (merge_sort_Permutation index_le l) as Hp. split.
  - apply (sorted_strict _ w).
    + apply (StronglySorted_merge_sort index_le l).
    + rewrite Hp. subst l. apply NoDup_ListNoDup, List.NoDup_filter, NoDup_ListNoDup.
      rewrite hash_order_perm. apply NoDup_fst_map_to_list.
    + intros id. rewrite Hp, Hl. by intros [? _].
  - intros id. by rewrite Hp, Hl.
Qed.

End mock_store.
