(* ===== verification/ShareFiles.v ===== *)
(** * ShareFiles: shares in encrypted files ([stores/local_fs.rs])

    [LocalFsShareStore] over the files below its root, and that it refines the
    in-memory store.  The AEAD cipher is a parameter; nonces and how the I/O of
    a call ends are arguments. *)

From S2P Require Import Prelude Text Types External Shamir SignedDecision Attestation Registry ShareStore.
#[local] Open Scope string_scope.
#[local] Open Scope list_scope.
#[local] Open Scope Z_scope.

(** ** [chacha20poly1305]: XChaCha20-Poly1305 *)

Class AeadCrate := {
  aead_encrypt : bytes → bytes → bytes → option bytes;
  aead_decrypt : bytes → bytes → bytes → option bytes;
}.
(** Under a 32-byte key and a 24-byte nonce, messages up to 4 GiB encrypt, and
    what was encrypted decrypts to the message. *)
Class AeadLaws `{AeadCrate} : Prop := {
  aead_encrypt_ok : ∀ k n p, length k = 32%nat → length n = 24%nat → Z.of_nat (length p) ≤ u32_max →
    is_Some (aead_encrypt k n p);
  aead_round_trip : ∀ k n p c, length k = 32%nat → length n = 24%nat →
    aead_encrypt k n p = Some c → aead_decrypt k n c = Some p;
}.

(** ** serde of [StoredShare] *)

Definition u8_of_json (j : Json) : option Z :=
  match j with JNumber z => if (0 <=? z) && (z <=? u8_max) then Some z else None | _ => None end.
Definition i64_of_json (j : Json) : option Z :=
  match j with JNumber z => if (i64_min <=? z) && (z <=? i64_max) then Some z else None | _ => None end.

Section serde.
Context `{UlidCrate, UlidParse, JsonCrate}.

Definition stored_json (s : StoredShare) : Json :=
  JObject [("share_id", JObject [("wallet_id", json_ulid (WalletId_ulid (share_wallet_id (stored_id s))));
                                 ("index", JNumber (share_index (stored_id s)))]);
           ("created_at_unix_ms", JNumber (stored_at_unix_ms s));
           ("share", JObject [("index", JNumber (index (stored_share s)));
                              ("params", JObject [("threshold", JNumber (threshold (params (stored_share s))));
                                                  ("total", JNumber (total (params (stored_share s))))]);
                              ("blob", json_bytes (blob (stored_share s)))])].

Definition share_id_of_json (j : Json) : option ShareId :=
  vs ← struct_values ["wallet_id"; "index"] j;
  match vs with
  | [w; i] => w ← match w with JString t => ulid_from_string t | _ => None end;
              i ← u8_of_json i; mret (ShareId_new (WalletId_from_ulid w) i)
  | _ => None
  end.

Definition params_of_json (j : Json) : option ShamirParams :=
  vs ← struct_values ["threshold"; "total"] j;
  match vs with
  | [t; n] => t ← u8_of_json t; n ← u8_of_json n; mret {| threshold := t; total := n |}
  | _ => None
  end.

Definition share_of_json (j : Json) : option ShamirShare :=
  vs ← struct_values ["index"; "params"; "blob"] j;
  match vs with
  | [i; p; b] => i ← u8_of_json i; p ← params_of_json p; b ← bytes_of_json b;
                 mret {| index := i; params := p; blob := b |}
  | _ => None
  end.

Definition stored_of_json (j : Json) : option StoredShare :=
  vs ← struct_values ["share_id"; "created_at_unix_ms"; "share"] j;
  match vs with
  | [i; t; s] => i ← share_id_of_json i; t ← i64_of_json t; s ← share_of_json s;
                 mret {| stored_id := i; stored_at_unix_ms := t; stored_share := s |}
  | _ => None
  end.

Definition stored_to_vec (s : StoredShare) : bytes := json_to_vec (stored_json s).
Definition stored_from_slice (bs : bytes) : option StoredShare := j ← json_from_slice bs; stored_of_json j.

(** The fields are in the range of their types. *)
Definition share_id_ok (i : ShareId) : Prop := is_ulid (WalletId_ulid (share_wallet_id i)) ∧ 0 ≤ share_index i ≤ u8_max.
Definition stored_ok (s : StoredShare) : Prop :=
  share_id_ok (stored_id s) ∧ is_i64 (stored_at_unix_ms s) ∧ 0 ≤ index (stored_share s) ≤ u8_max
  ∧ 0 ≤ threshold (params (stored_share s)) ≤ u8_max ∧ 0 ≤ total (params (stored_share s)) ≤ u8_max.

Lemma u8_of_json_ok z : 0 ≤ z ≤ u8_max → u8_of_json (JNumber z) = Some z.
Proof. intros [Hl%Z.leb_le Hu%Z.leb_le]. cbn. by rewrite Hl, Hu. Qed.

Lemma i64_of_json_ok z : is_i64 z → i64_of_json (JNumber z) = Some z.
Proof. intros [Hl%Z.leb_le Hu%Z.leb_le]. cbn. by rewrite Hl, Hu. Qed.

Lemma stored_round_trip `{!UlidParseLaws, !JsonLaws} s :
  stored_ok s → stored_from_slice (stored_to_vec s) = Some s.
Proof.
  intros ((Hw & Hi) & Ht & Hx & Hth & Hn). unfold stored_from_slice, stored_to_vec. rewrite json_round_trip.
  destruct s as [[[w] i] t [x [th n] b]]. cbn [mbind option_bind] in *.
  unfold stored_of_json, stored_json, json_ulid. cbn -[u8_of_json i64_of_json bytes_of_json json_bytes] in *.
  rewrite ulid_parse_to_string by done. cbn -[u8_of_json i64_of_json bytes_of_json json_bytes].
  repeat (progress (rewrite ?u8_of_json_ok, ?i64_of_json_ok by done);
          cbn -[u8_of_json i64_of_json bytes_of_json json_bytes]).
  by rewrite bytes_of_json_bytes.
Qed.
End serde.

(** ** [LocalFsShareStore] *)

Definition FILE_MAGIC : bytes := string_bytes "QFCSS" ++ [x00; x01; x00].
Definition NONCE_BYTES : nat := 24.

Record LocalFsShareStore := { fs_root : string; fs_key : bytes }.

Definition fs_new (root : string) (key : bytes) : result ShareStoreError LocalFsShareStore :=
  if String.eqb root "" then Err (ShareConfig "root path must not be empty")
  else Ok {| fs_root := root; fs_key := key |}.

(** The files below the root, by directory and name. *)
Abbreviation Files := (gmap (string * string) bytes).

(** How the file operations of one [put] end. *)
Inductive PutIo :=
  | PutIoOk
  | PutMkdirErr (why : string)
  | PutCreateErr (why : string)
  | PutWriteErr (k : nat) (why : string)
  | PutSyncErr (why : string)
  | PutRenameErr (why : string).

Definition parse_share_filename (file : string) : option Z :=
  stem ← strip_suffix ".bin" file; parse_uint u8_max stem.

Section local_fs.
Context `{UlidCrate, UlidParse, JsonCrate, AeadCrate, HashOrder}.

Definition wallet_dir (w : WalletId) : string := ulid_to_string (WalletId_ulid w).
Definition file_name (i : Z) : string := show_dec i +:+ ".bin".
Definition share_path (id : ShareId) : string * string :=
  (wallet_dir (share_wallet_id id), file_name (share_index id)).

Definition seal (self : LocalFsShareStore) (nonce plaintext : bytes) : result ShareStoreError bytes :=
  ct ← ok_or (aead_encrypt (fs_key self) nonce plaintext) (ShareCrypto "aead encrypt");
  mret (FILE_MAGIC ++ nonce ++ ct).

Definition open_envelope (raw : bytes) : result ShareStoreError (bytes * bytes) :=
  if (length raw <? length FILE_MAGIC + NONCE_BYTES)%nat then Err (ShareCrypto "share file truncated")
  else if negb (bool_decide (take (length FILE_MAGIC) raw = FILE_MAGIC)) then
    Err (ShareCrypto "share file magic mismatch")
  else Ok (slice (length FILE_MAGIC) NONCE_BYTES raw, drop (length FILE_MAGIC + NONCE_BYTES) raw).

Definition fs_open (self : LocalFsShareStore) (raw : bytes) : result ShareStoreError bytes :=
  '(nonce, body) ← open_envelope raw;
  ok_or (aead_decrypt (fs_key self) nonce body) (ShareCrypto "aead decrypt").

(** [put]: the temporary file is written first and renamed over the share. *)
Definition fs_put (self : LocalFsShareStore) (nonce : bytes) (io : PutIo) (share : StoredShare) (fs : Files)
    : result ShareStoreError () * Files :=
  let '(dir, name) := share_path (stored_id share) in
  let tmp := (dir, name +:+ ".tmp") in
  match io with
  | PutMkdirErr why => (Err (ShareIo why), fs)
  | _ =>
      match seal self nonce (stored_to_vec share) with
      | Err e => (Err e, fs)
      | Ok sealed =>
          match io with
          | PutMkdirErr why | PutCreateErr why => (Err (ShareIo why), fs)
          | PutWriteErr k why => (Err (ShareIo why), <[tmp := take k sealed]> fs)
          | PutSyncErr why | PutRenameErr why => (Err (ShareIo why), <[tmp := sealed]> fs)
          | PutIoOk => (Ok (), <[(dir, name) := sealed]> (delete tmp fs))
          end
      end
  end.

(** [get]; [io] is a read error other than a missing file, [serde_text] the
    message of a parse error. *)
Definition fs_get (self : LocalFsShareStore) (io : option string) (serde_text : string) (id : ShareId)
    (fs : Files) : result ShareStoreError StoredShare :=
  match io, fs !! share_path id with
  | Some why, _ => Err (ShareIo why)
  | None, None => Err (ShareNotFound id)
  | None, Some raw =>
      plaintext ← fs_open self raw;
      share ← ok_or (stored_from_slice plaintext) (ShareSerde serde_text);
      _ ← ensure (bool_decide (stored_id share = id)) (ShareCrypto "share_id mismatch in decrypted blob");
      mret share
  end.

Definition fs_delete (io : option string) (id : ShareId) (fs : Files) : result ShareStoreError () * Files :=
  match io with
  | Some why => (Err (ShareIo why), fs)
  | None => (Ok (), delete (share_path id) fs)
  end.

(** [read_dir]: the names in a directory, in no particular order. *)
Definition entries (dir : string) (fs : Files) : list string :=
  hash_order (omap (λ kv : string * string * bytes,
    if bool_decide (kv.1.1 = dir) then Some kv.1.2 else None) (map_to_list fs)).

Definition fs_list (io : option string) (w : WalletId) (fs : Files) : result ShareStoreError (list ShareId) :=
  match io with
  | Some why => Err (ShareIo why)
  | None =>
      let indices : gset Z := list_to_set (omap parse_share_filename (entries (wallet_dir w) fs)) in
      Ok (merge_sort index_le (ShareId_new w <$> hash_order (elements indices)))
  end.
End local_fs.

(** ** The file store implements the in-memory store *)

Section refinement.
Context `{UlidCrate, UlidParse, JsonCrate, AeadCrate, HashOrder}.
Context `{!UlidLaws, !UlidParseLaws, !JsonLaws, !AeadLaws, !HashOrderLaws}.
Implicit Types self : LocalFsShareStore.

Lemma file_name_inj i j : 0 ≤ i → 0 ≤ j → file_name i = file_name j → i = j.
Proof.
  intros Hi Hj Heq. apply show_dec_inj; [done..|].
  apply (inj Some). rewrite <-(proj2 (strip_suffix_ok ".bin" (file_name i) _) eq_refl), Heq.
  by apply strip_suffix_ok.
Qed.

Lemma share_path_inj a b : share_id_ok a → share_id_ok b → share_path a = share_path b → a = b.
Proof.
  destruct a as [[a] i], b as [[b] j]. intros [Ha Hi] [Hb Hj] [= Hd Hf]. cbn in *.
  apply ulid_inj in Hd; [|done..]. apply file_name_inj in Hf; [|lia..]. cbn in Hd. by subst.
Qed.

Lemma parse_file_name i : 0 ≤ i ≤ u8_max → parse_share_filename (file_name i) = Some i.
Proof.
  intros Hi. unfold parse_share_filename.
  rewrite (proj2 (strip_suffix_ok ".bin" (file_name i) _) eq_refl). by apply parse_uint_show.
Qed.

Lemma tmp_not_share name : parse_share_filename (name +:+ ".tmp") = None.
Proof.
  unfold parse_share_filename. destruct (strip_suffix _ _) as [p|] eqn:Hs; [|done].
  apply strip_suffix_ok, (f_equal string_bytes) in Hs. rewrite !string_bytes_app in Hs.
  by apply app_inj_2 in Hs as [_ Hs].
Qed.

Lemma tmp_not_path id name dir : share_id_ok id → share_path id ≠ (dir, name +:+ ".tmp").
Proof.
  intros [_ Hi] [= _ Heq]. pose proof (parse_file_name _ Hi) as Hp. by rewrite Heq, tmp_not_share in Hp.
Qed.

(** A share file and what it holds. *)
Definition holds self (raw : bytes) (st : StoredShare) : Prop :=
  ∃ nonce, length nonce = NONCE_BYTES ∧ seal self nonce (stored_to_vec st) = Ok raw.

(** The files represent the content [m]: each share in range has its file
    exactly when it is held, and no other file name reads as a share. *)
Definition represents self (fs : Files) (m : gmap ShareId StoredShare) : Prop :=
  (∀ id st, m !! id = Some st → id = stored_id st ∧ stored_ok st)
  ∧ (∀ id, share_id_ok id → match m !! id with
                            | Some st => ∃ raw, fs !! share_path id = Some raw ∧ holds self raw st
                            | None => fs !! share_path id = None
                            end)
  ∧ (∀ w name i, is_Some (fs !! (wallet_dir w, name)) → parse_share_filename name = Some i → name = file_name i).

Lemma open_sealed self nonce p raw :
  length (fs_key self) = 32%nat → length nonce = NONCE_BYTES →
  seal self nonce p = Ok raw → fs_open self raw = Ok p.
Proof.
  intros Hk Hn (ct & Hct%ok_or_ok & Hr)%result_bind_ok.
  assert (raw = FILE_MAGIC ++ nonce ++ ct) as -> by (unfold mret, result_ret in Hr; congruence).
  unfold fs_open, open_envelope, slice. rewrite <-Hn.
  rewrite (proj2 (Nat.ltb_ge _ _)) by (rewrite !length_app; lia).
  rewrite take_app_length, bool_decide_eq_true_2 by done. cbn [negb].
  rewrite drop_app_length, take_app_length, app_assoc, <-length_app, drop_app_length. cbn [mbind result_bind].
  by rewrite (aead_round_trip _ _ p).
Qed.

Lemma get_held self txt id fs m :
  length (fs_key self) = 32%nat → represents self fs m → share_id_ok id →
  fs_get self None txt id fs = ok_or (m !! id) (ShareNotFound id).
Proof.
  intros Hk (Hm & Hf & _) Hid. unfold fs_get. specialize (Hf id Hid). specialize (Hm id).
  destruct (m !! id) as [st|]; [|by rewrite Hf]. destruct Hf as (raw & -> & nonce & Hn & Hs).
  destruct (Hm st eq_refl) as [-> Hok]. rewrite (open_sealed _ _ _ _ Hk Hn Hs). cbn [mbind result_bind].
  rewrite stored_round_trip by done. cbn [ok_or mbind result_bind].
  by rewrite bool_decide_eq_true_2.
Qed.

Lemma represents_insert self fs m st raw :
  stored_ok st → holds self raw st → represents self fs m →
  represents self (<[share_path (stored_id st) := raw]> fs) (<[stored_id st := st]> m).
Proof.
  intros Hok Hh (Hm & Hf & Hn). split; [|split].
  - intros id st' [[<- <-]|[Hne Hl]]%lookup_insert_Some; [done|]. by apply Hm.
  - intros id Hid. destruct (decide (id = stored_id st)) as [->|Hne].
    + rewrite lookup_insert_eq. exists raw. by rewrite lookup_insert_eq.
    + rewrite lookup_insert_ne by done. rewrite lookup_insert_ne; [by apply Hf|].
      intros Heq. apply Hne. symmetry. apply share_path_inj; [apply Hok|done..].
  - intros w name i Hs Hp. destruct (decide ((wallet_dir w, name) = share_path (stored_id st))) as [[= _ ->]|Hne].
    + rewrite parse_file_name in Hp by apply Hok. by injection Hp as <-.
    + rewrite lookup_insert_ne in Hs by done. by apply (Hn w).
Qed.

Lemma represents_tmp self fs m dir name o :
  represents self fs m →
  represents self (partial_alter (λ _, o) (dir, name +:+ ".tmp") fs) m.
Proof.
  intros (Hm & Hf & Hn). split; [done|]. split.
  - intros id Hid. rewrite lookup_partial_alter_ne by (by intros Heq; eapply tmp_not_path).
    by apply Hf.
  - intros w n i Hs Hp. destruct (decide ((wallet_dir w, n) = (dir, name +:+ ".tmp"))) as [[= _ ->]|Hne].
    + by rewrite tmp_not_share in Hp.
    + rewrite lookup_partial_alter_ne in Hs by done. by apply (Hn w).
Qed.

Lemma represents_delete self fs m id :
  share_id_ok id → represents self fs m →
  represents self (delete (share_path id) fs) (delete id m).
Proof.
  intros Hid (Hm & Hf & Hn). split; [|split].
  - intros i st [_ Hl]%lookup_delete_Some. by apply Hm.
  - intros i Hi. destruct (decide (i = id)) as [->|Hne].
    { rewrite lookup_delete_eq. by rewrite lookup_delete_eq. }
    rewrite lookup_delete_ne by done. rewrite lookup_delete_ne; [by apply Hf|].
    intros Heq. apply Hne. symmetry. by apply share_path_inj.
  - intros w name i [raw [_ Hl]%lookup_delete_Some]. apply (Hn w). by eexists.
Qed.

Lemma elem_of_entries dir name fs : name ∈ entries dir fs ↔ is_Some (fs !! (dir, name)).
Proof.
  unfold entries. rewrite hash_order_perm, list_elem_of_omap. split.
  - intros ([[d n] raw] & Hin%elem_of_map_to_list & Hc). cbn in Hc. case_bool_decide; [|done]. simplify_eq.
    by eexists.
  - intros [raw Hr]. exists ((dir, name), raw). rewrite elem_of_map_to_list. split; [done|]. cbn.
    by rewrite bool_decide_eq_true_2.
Qed.

(** The index set of a directory is that of the shares held. *)
Lemma listed_index self fs m w i :
  is_ulid (WalletId_ulid w) → represents self fs m →
  i ∈ omap parse_share_filename (entries (wallet_dir w) fs) ↔ is_Some (m !! ShareId_new w i).
Proof.
  intros Hw (Hm & Hf & Hn). rewrite list_elem_of_omap. setoid_rewrite elem_of_entries. split.
  - intros (name & Hs & Hp).
    assert (0 ≤ i ≤ u8_max) as Hi.
    { apply bind_Some in Hp as (stem & _ & Hp). by apply parse_uint_bound in Hp. }
    specialize (Hf (ShareId_new w i) (conj Hw Hi)). rewrite (Hn _ _ _ Hs Hp) in Hs.
    unfold share_path in Hf. cbn [share_wallet_id share_index] in Hf.
    destruct (m !! ShareId_new w i); [done|]. rewrite Hf in Hs. by destruct Hs.
  - intros [st Hst]. destruct (Hm _ _ Hst) as [Heq Hok]. destruct Hok as [Hid _]. rewrite <-Heq in Hid.
    exists (file_name i). split; [|by apply parse_file_name, Hid].
    specialize (Hf _ Hid). rewrite Hst in Hf. destruct Hf as (raw & Hr & _). by exists raw.
Qed.

Lemma strict_sorted_unique (l k : list ShareId) :
  StronglySorted (λ a b, share_index a < share_index b) l →
  StronglySorted (λ a b, share_index a < share_index b) k →
  (∀ x, x ∈ l ↔ x ∈ k) → l = k.
Proof.
  intros Hl Hk Heq. apply (StronglySorted_unique_strong (λ a b, share_index a < share_index b)); [|done|done|].
  - intros a b _ _ Hab Hba. lia.
  - apply NoDup_Permutation; [by apply StronglySorted_index_NoDup..|done].
Qed.

Lemma list_held self fs m w :
  is_ulid (WalletId_ulid w) → represents self fs m →
  fs_list None w fs = mock_list w {| mock_inner := m |}.
Proof.
  intros Hw Hr. destruct (mock_list w _) as [ids|] eqn:Hl; [|done].
  pose proof (share_list_law (S := MockShareStore) w {| mock_inner := m |} ids) as Hlaw.
  destruct (Hlaw Hl) as [Hsort Hin]. unfold fs_list. f_equal.
  set (ix := list_to_set _ : gset Z).
  pose proof (merge_sort_Permutation index_le (ShareId_new w <$> hash_order (elements ix))) as Hp.
  assert (∀ id, id ∈ merge_sort index_le (ShareId_new w <$> hash_order (elements ix)) ↔ id ∈ ids) as Heq.
  { intros id. rewrite Hp, list_elem_of_fmap. setoid_rewrite (hash_order_perm _ (elements ix)).
    setoid_rewrite elem_of_elements. unfold ix. setoid_rewrite elem_of_list_to_set.
    setoid_rewrite (listed_index self fs m w); [|done..]. rewrite Hin. cbn [held mock_share_store_laws mock_inner].
    destruct id as [w' i]. cbn [share_wallet_id]. split; [by intros (j & [= -> ->] & Hj)|].
    intros [-> Hs]. by exists i. }
  apply strict_sorted_unique; [|done|done]. apply (sorted_strict _ w).
  - apply (StronglySorted_merge_sort index_le).
  - rewrite Hp, (hash_order_perm _ (elements ix)). apply NoDup_fmap; [by intros ?? [=]|apply NoDup_elements].
  - intros id. rewrite Hp, list_elem_of_fmap. by intros (? & -> & _).
Qed.

(** C35. The file store refines the in-memory one, whatever happens to a write: over
    files that represent a content [m], [get] and [list] answer as the
    in-memory store with content [m] does, [delete] and a [put] whose I/O
    succeeds act on [m] as it does, and a [put] that fails, at whatever step,
    reports an I/O error and leaves the content as it was. *)
Theorem file_store_refines self fs m st id nonce io why txt :
  length (fs_key self) = 32%nat → represents self fs m → length nonce = NONCE_BYTES →
  stored_ok st → Z.of_nat (length (stored_to_vec st)) ≤ u32_max → share_id_ok id →
  let spec := {| mock_inner := m |} in
  fs_get self None txt id fs = mock_get id spec
  ∧ fs_list None (share_wallet_id id) fs = mock_list (share_wallet_id id) spec
  ∧ (let '(r, fs') := fs_put self nonce io st fs in
     (io = PutIoOk ∧ r = Ok () ∧ represents self fs' (mock_inner (mock_put st spec).2))
     ∨ (io ≠ PutIoOk ∧ (∃ e, r = Err (ShareIo e)) ∧ represents self fs' m))
  ∧ (let '(r, fs') := fs_delete None id fs in
     r = Ok () ∧ represents self fs' (mock_inner (mock_delete id spec).2))
  ∧ fs_delete (Some why) id fs = (Err (ShareIo why), fs).
Proof.
  intros Hk Hr Hn Hok Hlen Hid spec. split; [by apply get_held|]. split; [apply (list_held self); [apply Hid|done]|].
  split; [|split; [split; [done|by apply represents_delete]|done]].
  destruct (aead_encrypt_ok (fs_key self) nonce (stored_to_vec st)) as [ct Hct]; [done..|].
  assert (seal self nonce (stored_to_vec st) = Ok (FILE_MAGIC ++ nonce ++ ct)) as Hs
    by (unfold seal; by rewrite Hct).
  pose proof (represents_tmp self fs m (wallet_dir (share_wallet_id (stored_id st)))
                (file_name (share_index (stored_id st)))) as Htmp.
  unfold fs_put. cbn [share_path]. rewrite Hs. destruct io; try (right; split; [done|]; split; [by eexists|]; done).
  - left. split; [done|]. split; [done|]. cbn [mock_put snd mock_inner].
    apply (represents_insert self _ m st); [done|by exists nonce|]. by apply (Htmp None).
  - right. split; [done|]. split; [by eexists|]. by apply (Htmp (Some _)).
  - right. split; [done|]. split; [by eexists|]. by apply (Htmp (Some _)).
  - right. split; [done|]. split; [by eexists|]. by apply (Htmp (Some _)).
Qed.

(** A share file is bound to its place: whatever bytes are at a share's path,
    [get] returns only a share with the requested id. *)
Lemma get_bound self io txt id fs st : fs_get self io txt id fs = Ok st → stored_id st = id.
Proof.
  unfold fs_get. destruct io; [done|]. destruct (fs !! share_path id); [|done].
  intros (? & _ & (? & _ & (Hid%bool_decide_eq_true & [= <-])%ensure_bind_ok)%result_bind_ok)%result_bind_ok. done.
Qed.
End refinement.

(** ** Witnesses *)

Module FilesWitness.
Import Concrete RegistryWitness.

(** A cipher that only checks its key and nonce. *)
#[export] Instance tag_aead : AeadCrate := {|
  aead_encrypt k n p := Some (k ++ n ++ p);
  aead_decrypt k n c :=
    if bool_decide (take (length (k ++ n)) c = k ++ n) then Some (drop (length (k ++ n)) c) else None |}.
#[export] Instance tag_aead_laws : AeadLaws.
Proof.
  split; [by eexists|]. intros k n p c _ _ [= <-]. cbn. rewrite app_assoc, take_app_length, drop_app_length.
  by rewrite bool_decide_eq_true_2.
Qed.

Definition files_store : LocalFsShareStore := {| fs_root := "/var/lib/qfc"; fs_key := replicate 32 x07 |}.
Definition id1 : ShareId := ShareId_new (WalletId_from_ulid 4) 1.
Definition st1 : StoredShare := {|
  stored_id := id1; stored_at_unix_ms := 1000;
  stored_share := {| index := 1; params := {| threshold := 2; total := 3 |}; blob := [x01; x2a] |} |}.

Lemma represents_empty : represents files_store ∅ ∅.
Proof. split; [done|]. split; [done|]. intros w name i [raw Hr]. by rewrite lookup_empty in Hr. Qed.

Lemma st1_ok : stored_ok st1.
Proof. by repeat split. Qed.

(** A failed write into the empty store leaves it empty. *)
Lemma file_store_refines_witness :
  fs_get files_store None "" id1 (fs_put files_store (replicate 24 x01) PutIoOk st1 ∅).2 = Ok st1
  ∧ fs_get files_store None "" id1 ∅ = mock_get id1 {| mock_inner := ∅ |}
  ∧ represents files_store (fs_put files_store (replicate 24 x01) (PutWriteErr 5 "disk full") st1 ∅).2 ∅.
Proof.
  pose proof (file_store_refines files_store ∅ ∅ st1 id1 (replicate 24 x01) (PutWriteErr 5 "disk full") "" ""
    eq_refl represents_empty eq_refl st1_ok ltac:(vm_compute; discriminate) (proj1 st1_ok)) as (Hget & _ & Hput & _).
  split; [vm_compute; reflexivity|]. split; [exact Hget|].
  destruct (fs_put _ _ _ _ _) as [r fs'] in Hput |- *.
  destruct Hput as [[? _]|(_ & _ & Hr)]; [discriminate|exact Hr].
Defined.
End FilesWitness.

