(* ===== verification/ShareObjects.v ===== *)
(** * ShareObjects: shares in an object store ([stores/s3_kms.rs])

    [S3KmsShareStore] over an object store and a key-management service.  The
    two services are interfaces, with the laws the store relies on; the
    in-memory mocks of the source implement them.  The random bytes a call
    draws are its arguments. *)

From Stdlib Require Import Ascii.
From S2P Require Import Prelude Text Types External Shamir SignedDecision Attestation Registry ShareStore ShareFiles.
#[local] Open Scope string_scope.
#[local] Open Scope list_scope.
#[local] Open Scope Z_scope.

(** ** The services *)

Class S3Like (S : Type) := {
  put_object : string → bytes → S → result ShareStoreError () * S;
  get_object : string → S → result ShareStoreError bytes;
  delete_object : string → S → result ShareStoreError () * S;
  list_objects : string → S → result ShareStoreError (list string);
}.

Record DataKeyMaterial := { plaintext : bytes; wrapped : bytes }.

(** [D] is what a key generation draws. *)
Class KmsClient (K D : Type) := {
  generate_data_key : D → K → result ShareStoreError DataKeyMaterial * K;
  decrypt_data_key : bytes → bytes → K → result ShareStoreError bytes;
}.

Definition nil_share : ShareId := ShareId_new (WalletId_from_ulid 0) 0.

(** While the service is up it is a key-value store. *)
Class S3Laws (S : Type) `{S3Like S} := {
  s3_up : S → Prop;
  objects : S → gmap string bytes;
  put_object_law k b s : s3_up s →
    let '(r, s') := put_object k b s in r = Ok () ∧ s3_up s' ∧ objects s' = <[k := b]> (objects s);
  get_object_law k s : s3_up s → get_object k s = ok_or (objects s !! k) (ShareNotFound nil_share);
  delete_object_law k s : s3_up s →
    let '(r, s') := delete_object k s in r = Ok () ∧ s3_up s' ∧ objects s' = delete k (objects s);
  list_objects_law p s : s3_up s →
    ∃ ks, list_objects p s = Ok ks ∧ NoDup ks
          ∧ ∀ k, k ∈ ks ↔ is_Some (objects s !! k) ∧ starts_with p k = true;
}.

(** A key service unwraps the keys it generated, for the attestations it
    admits and for no other. *)
Class KmsLaws (K D : Type) `{KmsClient K D} := {
  fresh_draw : D → K → Prop;
  admits : K → bytes → bool;
  unwrap : K → bytes → option bytes;
  generate_law d k : fresh_draw d k →
    let '(r, k') := generate_data_key d k in
    ∃ dk, r = Ok dk ∧ length (plaintext dk) = 32%nat ∧ unwrap k' (wrapped dk) = Some (plaintext dk)
          ∧ (∀ w p, unwrap k w = Some p → unwrap k' w = Some p) ∧ admits k' = admits k;
  decrypt_admitted w att k p : admits k att = true → unwrap k w = Some p → decrypt_data_key w att k = Ok p;
  decrypt_refused w att k : admits k att = false → ∃ why, decrypt_data_key w att k = Err (ShareCrypto why);
}.

(** ** [S3Envelope] *)

Record S3Envelope := {
  wrapped_dek : bytes;
  env_nonce : bytes;
  ciphertext : bytes;
  env_pcr_label : string;
}.

Definition envelope_json (e : S3Envelope) : Json :=
  JObject [("wrapped_dek", json_bytes (wrapped_dek e)); ("nonce", json_bytes (env_nonce e));
           ("ciphertext", json_bytes (ciphertext e)); ("pcr_label", JString (env_pcr_label e))].

Definition envelope_of_json (j : Json) : option S3Envelope :=
  vs ← struct_values ["wrapped_dek"; "nonce"; "ciphertext"; "pcr_label"] j;
  match vs with
  | [w; n; c; JString p] =>
      w ← serde_bytes_of_json w; n ← bytes_of_json n; c ← serde_bytes_of_json c;
      if bool_decide (length n = 24%nat)
      then Some {| wrapped_dek := w; env_nonce := n; ciphertext := c; env_pcr_label := p |} else None
  | _ => None
  end.

Lemma envelope_round_trip e : length (env_nonce e) = 24%nat → envelope_of_json (envelope_json e) = Some e.
Proof.
  destruct e as [w n c p]. intros Hn. unfold envelope_of_json, envelope_json.
  cbn -[serde_bytes_of_json bytes_of_json json_bytes] in *.
  unfold serde_bytes_of_json at 1 2, json_bytes at 1 3. fold (json_bytes w) (json_bytes c).
  rewrite !bytes_of_json_bytes. cbn [mbind option_bind]. by rewrite bool_decide_eq_true_2.
Qed.

(** ** [S3KmsShareStore]: the configuration; the services are the state *)

Record S3KmsShareStore := {
  bucket_prefix : string;
  store_attestation : bytes;
  store_pcr_label : string;
}.

Definition s3_new (prefix : string) (attestation : bytes) (label : string) : S3KmsShareStore :=
  {| bucket_prefix := prefix; store_attestation := attestation; store_pcr_label := label |}.

Section store.
Context `{UlidCrate, UlidParse, JsonCrate, AeadCrate} {S K D : Type} `{!S3Like S, !KmsClient K D}.
Implicit Types self : S3KmsShareStore.

Definition wallet_prefix self (w : WalletId) : string :=
  let w := ulid_to_string (WalletId_ulid w) in
  if String.eqb (bucket_prefix self) "" then w +:+ "/"
  else trim_end_matches "/"%char (bucket_prefix self) +:+ "/" +:+ w +:+ "/".

Definition object_key self (id : ShareId) : string :=
  let w := ulid_to_string (WalletId_ulid (share_wallet_id id)) in
  if String.eqb (bucket_prefix self) "" then w +:+ "/" +:+ show_dec (share_index id)
  else trim_end_matches "/"%char (bucket_prefix self) +:+ "/" +:+ w +:+ "/" +:+ show_dec (share_index id).

Definition s3_put self (d : D) (nonce : bytes) (share : StoredShare) (st : S * K)
    : result ShareStoreError () * (S * K) :=
  let '(s3, kms) := st in
  match generate_data_key d kms with
  | (Err e, kms) => (Err e, (s3, kms))
  | (Ok dk, kms) =>
      match aead_encrypt (plaintext dk) nonce (stored_to_vec share) with
      | None => (Err (ShareCrypto "AEAD encrypt failed"), (s3, kms))
      | Some ct =>
          let envelope := {| wrapped_dek := wrapped dk; env_nonce := nonce; ciphertext := ct;
                             env_pcr_label := store_pcr_label self |} in
          let '(r, s3) := put_object (object_key self (stored_id share)) (json_to_vec (envelope_json envelope)) s3 in
          (r, (s3, kms))
      end
  end.

(** [env_text] and [share_text] are the messages of the parse errors. *)
Definition s3_get self (env_text share_text : string) (id : ShareId) (st : S * K)
    : result ShareStoreError StoredShare :=
  body ← get_object (object_key self id) st.1;
  envelope ← ok_or (j ← json_from_slice body; envelope_of_json j) (ShareSerde env_text);
  dek ← decrypt_data_key (wrapped_dek envelope) (store_attestation self) st.2;
  _ ← ensure (bool_decide (length dek = 32%nat)) (ShareCrypto "DEK length != 32");
  plaintext ← ok_or (aead_decrypt dek (env_nonce envelope) (ciphertext envelope)) (ShareCrypto "AEAD decrypt failed");
  ok_or (stored_from_slice plaintext) (ShareSerde share_text).

Definition s3_delete self (id : ShareId) (st : S * K) : result ShareStoreError () * (S * K) :=
  let '(r, s3) := delete_object (object_key self id) st.1 in (r, (s3, st.2)).

Definition listed (w : WalletId) (k : string) : option ShareId :=
  i ← parse_uint u8_max (rsplit_next "/"%char k); Some (ShareId_new w i).

Definition s3_list self (w : WalletId) (st : S * K) : result ShareStoreError (list ShareId) :=
  keys ← list_objects (wallet_prefix self w) st.1;
  Ok (merge_sort index_le (omap (listed w) keys)).
End store.

(** ** The in-memory services *)

Section mocks.
Context `{HashOrder}.

Record MockS3Client := { s3_inner : gmap string bytes }.
Definition mock_s3_new : MockS3Client := {| s3_inner := ∅ |}.
Definition mock_s3_snapshot (s : MockS3Client) : gmap string bytes := s3_inner s.
Definition mock_s3_clear (s : MockS3Client) : MockS3Client := {| s3_inner := ∅ |}.

Definition mock_put_object (key : string) (body : bytes) (s : MockS3Client)
    : result ShareStoreError () * MockS3Client :=
  (Ok (), {| s3_inner := <[key := body]> (s3_inner s) |}).
Definition mock_get_object (key : string) (s : MockS3Client) : result ShareStoreError bytes :=
  ok_or (s3_inner s !! key) (ShareNotFound nil_share).
Definition mock_delete_object (key : string) (s : MockS3Client) : result ShareStoreError () * MockS3Client :=
  (Ok (), {| s3_inner := delete key (s3_inner s) |}).
Definition mock_list_objects (prefix : string) (s : MockS3Client) : result ShareStoreError (list string) :=
  Ok (List.filter (starts_with prefix) (hash_order (map_to_list (s3_inner s)).*1)).

#[export] Instance mock_s3 : S3Like MockS3Client := {|
  put_object := mock_put_object; get_object := mock_get_object;
  delete_object := mock_delete_object; list_objects := mock_list_objects |}.

#[export] Program Instance mock_s3_laws `{!HashOrderLaws} : S3Laws MockS3Client := {|
  s3_up _ := True; objects := s3_inner |}.
Next Obligation. done. Qed.
Next Obligation. done. Qed.
Next Obligation. done. Qed.
Next Obligation.
  intros Ho p s _. eexists. split; [done|]. split.
  - apply NoDup_ListNoDup, List.NoDup_filter, NoDup_ListNoDup.
    rewrite hash_order_perm. apply NoDup_fst_map_to_list.
  - intros k. rewrite list_elem_of_In, filter_In, <-list_elem_of_In, hash_order_perm, list_elem_of_fmap.
    split.
    + intros [([k' b] & -> & Hk%elem_of_map_to_list) ?]. split; [by eexists|done].
    + intros [[b Hb] ?]. split; [|done]. exists (k, b). by rewrite elem_of_map_to_list.
Qed.
End mocks.

Record MockKmsClient := { kms_inner : gmap bytes bytes; predicate : bytes → bool }.

Definition mock_kms_new : MockKmsClient := {|
  kms_inner := ∅; predicate att := negb (bool_decide (att = [])) |}.
Definition with_attestation_predicate (p : bytes → bool) (k : MockKmsClient) : MockKmsClient :=
  {| kms_inner := kms_inner k; predicate := p |}.

(** [draw]: the 32 bytes of the key, then the 32 of its identifier. *)
Definition mock_generate (draw : bytes * bytes) (k : MockKmsClient)
    : result ShareStoreError DataKeyMaterial * MockKmsClient :=
  let '(plaintext, wrapped) := draw in
  (Ok {| plaintext := plaintext; wrapped := wrapped |},
   {| kms_inner := <[wrapped := plaintext]> (kms_inner k); predicate := predicate k |}).

Definition mock_decrypt (w att : bytes) (k : MockKmsClient) : result ShareStoreError bytes :=
  if negb (predicate k att) then Err (ShareCrypto "KMS decrypt refused: attestation predicate failed")
  else ok_or (kms_inner k !! w) (ShareCrypto "KMS: unknown wrapped DEK").

#[export] Instance mock_kms : KmsClient MockKmsClient (bytes * bytes) := {|
  generate_data_key := mock_generate; decrypt_data_key := mock_decrypt |}.

#[export] Program Instance mock_kms_laws : KmsLaws MockKmsClient (bytes * bytes) := {|
  fresh_draw d k := length d.1 = 32%nat ∧ kms_inner k !! d.2 = None;
  admits := predicate; unwrap k w := kms_inner k !! w |}.
Next Obligation.
  intros [p w] k [Hl Hf]. cbn in *. eexists. split; [done|]. cbn. rewrite lookup_insert_eq.
  split_and!; [done..| |done]. intros w' p' Hp. rewrite lookup_insert_ne; [done|]. intros ->. congruence.
Qed.
Next Obligation. intros w att k p Ha Hw. cbn in *. unfold mock_decrypt. by rewrite Ha, Hw. Qed.
Next Obligation. intros w att k Ha. cbn in *. unfold mock_decrypt. rewrite Ha. by eexists. Qed.

(** ** The object store implements the in-memory store *)

Section refinement.
Context `{UlidCrate, UlidParse, JsonCrate, AeadCrate, HashOrder}.
Context `{!UlidLaws, !UlidParseLaws, !JsonLaws, !AeadLaws, !HashOrderLaws}.
Context {S K D : Type} `{!S3Like S, !KmsClient K D, !S3Laws S, !KmsLaws K D}.
Implicit Types self : S3KmsShareStore.

Lemma object_key_prefix self id : object_key self id = wallet_prefix self (share_wallet_id id) +:+ show_dec (share_index id).
Proof. unfold object_key, wallet_prefix. case_match; by rewrite !append_assoc. Qed.

Lemma wallet_prefix_inj self v w s t :
  is_ulid (WalletId_ulid v) → is_ulid (WalletId_ulid w) →
  wallet_prefix self v +:+ s = wallet_prefix self w +:+ t → v = w ∧ s = t.
Proof.
  intros Hv Hw. unfold wallet_prefix.
  assert (∀ a b, ulid_to_string (WalletId_ulid v) +:+ "/" +:+ a = ulid_to_string (WalletId_ulid w) +:+ "/" +:+ b
    → v = w ∧ a = b) as Hcore.
  { intros a b [Hu Hs]%append_inj_len; [|by rewrite !ulid_length]. apply ulid_inj in Hu; [|done..].
    destruct v, w. cbn in *. split; [congruence|]. by apply append_inj_l in Hs. }
  destruct (String.eqb _ _); rewrite ?append_assoc; [apply Hcore|].
  intros Heq%append_inj_l%append_inj_l. by apply Hcore.
Qed.

Lemma object_key_inj self a b : share_id_ok a → share_id_ok b → object_key self a = object_key self b → a = b.
Proof.
  destruct a as [v i], b as [w j]. intros [Ha Hi] [Hb Hj]. rewrite !object_key_prefix.
  intros [Hw Hs]%wallet_prefix_inj; [|done..]. apply show_dec_inj in Hs; [|apply Hi|apply Hj].
  cbn in *. by subst.
Qed.

Lemma listed_key self id : share_id_ok id → listed (share_wallet_id id) (object_key self id) = Some id.
Proof.
  destruct id as [w i]. intros [_ Hi]. cbn [share_index share_wallet_id] in *. unfold listed. rewrite object_key_prefix.
  assert (∃ p, wallet_prefix self w = p +:+ "/") as [p Hp].
  { unfold wallet_prefix. case_match; [by eexists|]. eexists. by rewrite <-!append_assoc. }
  cbn [share_index share_wallet_id]. rewrite Hp, append_assoc, append_cons, append_nil_l, rsplit_next_app.
  - by rewrite parse_uint_show.
  - apply (chars_all_impl is_digit); [|apply show_dec_digits; lia]. intros c. by apply digit_not_char.
Qed.

(** An object that holds a share: its envelope carries the share under a key
    the service unwraps. *)
Definition enveloped (k : K) (raw : bytes) (st : StoredShare) : Prop :=
  ∃ e dek, raw = json_to_vec (envelope_json e) ∧ length (env_nonce e) = 24%nat ∧ length dek = 32%nat
    ∧ unwrap k (wrapped_dek e) = Some dek
    ∧ aead_decrypt dek (env_nonce e) (ciphertext e) = Some (stored_to_vec st).

(** The two services represent the content [m]. *)
Definition stores self (s : S * K) (m : gmap ShareId StoredShare) : Prop :=
  s3_up s.1
  ∧ (∀ id st, m !! id = Some st → id = stored_id st ∧ stored_ok st)
  ∧ (∀ id, share_id_ok id → match m !! id with
                            | Some st => ∃ raw, objects s.1 !! object_key self id = Some raw ∧ enveloped s.2 raw st
                            | None => objects s.1 !! object_key self id = None
                            end)
  ∧ (∀ w k i, is_ulid (WalletId_ulid w) → is_Some (objects s.1 !! k) → starts_with (wallet_prefix self w) k = true →
       parse_uint u8_max (rsplit_next "/"%char k) = Some i → k = object_key self (ShareId_new w i)).

Lemma get_enveloped self env_text share_text id s raw st :
  s3_up s.1 → objects s.1 !! object_key self id = Some raw → enveloped s.2 raw st → stored_ok st →
  (admits s.2 (store_attestation self) = true → s3_get self env_text share_text id s = Ok st)
  ∧ (admits s.2 (store_attestation self) = false →
     ∃ why, s3_get self env_text share_text id s = Err (ShareCrypto why)).
Proof.
  intros Hup Hraw (e & dek & -> & Hn & Hd & Hu & Hc) Hok. unfold s3_get.
  rewrite get_object_law, Hraw by done. cbn [ok_or mbind result_bind]. rewrite json_round_trip.
  cbn [mbind option_bind]. rewrite envelope_round_trip by done. cbn [ok_or mbind result_bind]. split; intros Ha.
  - rewrite (decrypt_admitted _ _ _ dek) by done. cbn [mbind result_bind]. rewrite bool_decide_eq_true_2 by done.
    cbn [ensure mbind result_bind]. rewrite Hc. cbn [ok_or mbind result_bind]. by rewrite stored_round_trip.
  - destruct (decrypt_refused (wrapped_dek e) (store_attestation self) s.2 Ha) as [why ->]. by exists why.
Qed.

Lemma stores_insert self s3 s3' kms kms' m st raw :
  stored_ok st → s3_up s3' → objects s3' = <[object_key self (stored_id st) := raw]> (objects s3) →
  (∀ w p, unwrap kms w = Some p → unwrap kms' w = Some p) → enveloped kms' raw st →
  stores self (s3, kms) m → stores self (s3', kms') (<[stored_id st := st]> m).
Proof.
  intros Hok Hup Hobj Hmono Henv (_ & Hm & Hf & Hn). split; [done|]. cbn [fst snd]. rewrite Hobj. split; [|split].
  - intros id st' [[<- <-]|[Hne Hl]]%lookup_insert_Some; [done|]. by apply Hm.
  - intros id Hid. destruct (decide (id = stored_id st)) as [->|Hne].
    + rewrite lookup_insert_eq. exists raw. by rewrite lookup_insert_eq.
    + rewrite !lookup_insert_ne; [|by intros ?%object_key_inj; [congruence|apply Hok|]|done].
      specialize (Hf id Hid). destruct (m !! id); [|done]. destruct Hf as (r & Hr & e & dek & He).
      exists r. split; [done|]. exists e, dek. naive_solver.
  - intros w k i Hw Hs Hp Hx. destruct (decide (k = object_key self (stored_id st))) as [->|Hne].
    + rewrite object_key_prefix in Hp. apply starts_with_ok in Hp as [t [Heq _]%wallet_prefix_inj]; [|apply Hok|done].
      pose proof (listed_key self (stored_id st) (proj1 Hok)) as Hk. unfold listed in Hk. rewrite Hx in Hk.
      cbn in Hk. injection Hk as Hk. by rewrite <-Hk at 1; rewrite Heq.
    + rewrite lookup_insert_ne in Hs by done. by apply Hn.
Qed.

Lemma stores_delete self s3 s3' kms m id :
  share_id_ok id → s3_up s3' → objects s3' = delete (object_key self id) (objects s3) →
  stores self (s3, kms) m → stores self (s3', kms) (delete id m).
Proof.
  intros Hid Hup Hobj (_ & Hm & Hf & Hn). split; [done|]. cbn [fst snd]. rewrite Hobj. split; [|split].
  - intros i st [_ Hl]%lookup_delete_Some. by apply Hm.
  - intros i Hi. destruct (decide (i = id)) as [->|Hne].
    { rewrite lookup_delete_eq. by rewrite lookup_delete_eq. }
    rewrite !lookup_delete_ne; [by apply Hf| |done].
    intros Heq. apply Hne. symmetry. by apply (object_key_inj self).
  - intros w k i Hw [raw [_ Hl]%lookup_delete_Some]. apply Hn; [done|by eexists].
Qed.

Lemma NoDup_omap_inj {A B} (f : A → option B) (l : list A) :
  (∀ a b x, a ∈ l → b ∈ l → f a = Some x → f b = Some x → a = b) → NoDup l → NoDup (omap f l).
Proof.
  intros Hinj Hnd. induction Hnd as [|a l Ha Hnd IH]; cbn; [constructor|].
  assert (NoDup (omap f l)) as Hl by (apply IH; intros; eapply Hinj; eauto; by right).
  destruct (f a) as [x|] eqn:Hx; [|done]. constructor; [|done].
  rewrite list_elem_of_omap. intros (b & Hb & Hbx). apply Ha.
  by rewrite (Hinj a b x) by (done || by constructor).
Qed.

Lemma list_stored self s m w :
  is_ulid (WalletId_ulid w) → stores self s m → s3_list self w s = mock_list w {| mock_inner := m |}.
Proof.
  intros Hw (Hup & Hm & Hf & Hn). destruct (mock_list w _) as [ids|] eqn:Hl; [|done].
  pose proof (share_list_law (S := MockShareStore) w {| mock_inner := m |} ids) as Hlaw.
  destruct (Hlaw Hl) as [Hsort Hin]. unfold s3_list.
  destruct (list_objects_law (wallet_prefix self w) s.1 Hup) as (ks & -> & Hnd & Hks). cbn [mbind result_bind].
  f_equal. pose proof (merge_sort_Permutation index_le (omap (listed w) ks)) as Hp.
  assert (∀ id, id ∈ omap (listed w) ks ↔ id ∈ ids) as Heq.
  { intros id. rewrite list_elem_of_omap, Hin. cbn [held mock_share_store_laws mock_inner]. split.
    - intros (k & [Hs Hpre]%Hks & (i & Hi & [= <-])%bind_Some). split; [done|].
      pose proof (Hn w k i Hw Hs Hpre Hi) as ->.
      assert (share_id_ok (ShareId_new w i)) as Hid by (split; [done|by apply parse_uint_bound in Hi]).
      specialize (Hf _ Hid). destruct (m !! ShareId_new w i); [done|]. rewrite Hf in Hs. by destruct Hs.
    - intros [<- [st Hst]]. destruct (Hm _ _ Hst) as [Hid Hok]. destruct Hok as [Hok _]. rewrite <-Hid in Hok.
      exists (object_key self id). split; [|by apply listed_key]. apply Hks. split.
      + specialize (Hf _ Hok). rewrite Hst in Hf. destruct Hf as (raw & Hr & _). by exists raw.
      + apply starts_with_ok. eexists. apply object_key_prefix. }
  apply strict_sorted_unique; [|done|intros id; by rewrite Hp, Heq]. apply (sorted_strict _ w).
  - apply (StronglySorted_merge_sort index_le).
  - rewrite Hp. apply NoDup_omap_inj.
    + intros a b id Ha Hb (i & Hi & [= <-])%bind_Some (j & Hj & [= <-])%bind_Some.
      apply Hks in Ha as [? ?], Hb as [? ?].
      by rewrite (Hn w a j), (Hn w b j) by done.
    + done.
  - intros id. rewrite Hp, Heq, Hin. by intros [-> _].
Qed.

Lemma put_stored self s m st d nonce :
  stores self s m → stored_ok st → fresh_draw d s.2 → length nonce = 24%nat →
  Z.of_nat (length (stored_to_vec st)) ≤ u32_max →
  let '(r, s') := s3_put self d nonce st s in
  r = Ok () ∧ stores self s' (<[stored_id st := st]> m) ∧ admits s'.2 = admits s.2.
Proof.
  intros Hs Hok Hd Hn Hlen. pose proof (proj1 Hs) as Hup.
  destruct s as [s3 kms]. cbn [fst snd] in *. unfold s3_put. pose proof (generate_law d kms Hd) as Hg.
  destruct (generate_data_key d kms) as [r kms']. destruct Hg as (dk & -> & Hdk & Hu & Hmono & Hadm).
  destruct (aead_encrypt_ok (plaintext dk) nonce (stored_to_vec st)) as [ct Hct]; [done..|]. rewrite Hct.
  set (e := Build_S3Envelope _ _ _ _).
  pose proof (put_object_law (object_key self (stored_id st)) (json_to_vec (envelope_json e)) s3 Hup) as Hp.
  destruct (put_object _ _ s3) as [r s3']. destruct Hp as (-> & Hup' & Hobj).
  split; [done|]. split; [|done].
  apply (stores_insert self s3 s3' kms kms' m st (json_to_vec (envelope_json e))); [done..| |done].
  exists e, (plaintext dk). split_and!; [done..|]. by apply aead_round_trip.
Qed.

(** The object store refines the in-memory one and fails closed.  Over services
    that represent a content [m] while the object store is up: [list], [delete]
    and [put] (with a fresh key and a nonce of 24 bytes) act on [m] as the
    in-memory store does, whatever the attestation; [get] answers as it does
    when the key service admits the attestation, with the nil identifier in the
    not-found error, and is refused for every share held when it does not. *)
Theorem object_store_refines self s m st id d nonce env_text share_text :
  stores self s m → stored_ok st → share_id_ok id → fresh_draw d s.2 → length nonce = 24%nat →
  Z.of_nat (length (stored_to_vec st)) ≤ u32_max →
  let spec := {| mock_inner := m |} in
  s3_list self (share_wallet_id id) s = mock_list (share_wallet_id id) spec
  ∧ (admits s.2 (store_attestation self) = true →
     s3_get self env_text share_text id s = ok_or (m !! id) (ShareNotFound nil_share))
  ∧ (admits s.2 (store_attestation self) = false →
     if m !! id is Some _ then ∃ why, s3_get self env_text share_text id s = Err (ShareCrypto why)
     else s3_get self env_text share_text id s = Err (ShareNotFound nil_share))
  ∧ (let '(r, s') := s3_put self d nonce st s in
     r = Ok () ∧ stores self s' (mock_inner (mock_put st spec).2) ∧ admits s'.2 = admits s.2)
  ∧ (let '(r, s') := s3_delete self id s in
     r = Ok () ∧ stores self s' (mock_inner (mock_delete id spec).2) ∧ admits s'.2 = admits s.2).
Proof.
  intros Hs Hok Hid Hd Hn Hlen spec. pose proof Hs as (Hup & Hm & Hf & _).
  split; [by apply list_stored; [apply Hid|]|].
  assert (m !! id = None → s3_get self env_text share_text id s = Err (ShareNotFound nil_share)) as Hmiss.
  { intros Hnone. specialize (Hf id Hid). rewrite Hnone in Hf. unfold s3_get. by rewrite get_object_law, Hf. }
  specialize (Hf id Hid). specialize (Hm id).
  split_and!.
  - intros Ha. destruct (m !! id) as [st'|]; [|by apply Hmiss]. destruct Hf as (raw & Hraw & Henv).
    by apply (get_enveloped self env_text share_text id s raw st'); [..|apply Hm|].
  - intros Ha. destruct (m !! id) as [st'|]; [|by apply Hmiss]. destruct Hf as (raw & Hraw & Henv).
    by apply (get_enveloped self env_text share_text id s raw st'); [..|apply Hm|].
  - by apply (put_stored self s m st d nonce).
  - destruct s as [s3 kms]. cbn [fst snd] in *. unfold s3_delete. cbn [fst snd].
    pose proof (delete_object_law (object_key self id) s3 Hup) as Hp.
    destruct (delete_object _ s3) as [r s3']. destruct Hp as (-> & Hup' & Hobj).
    split; [done|]. split; [|done]. by apply (stores_delete self s3 s3' kms m id).
Qed.

(** Objects are not bound to their keys: once the object of one share is copied
    over that of another, [get] of the second returns the first, while the file
    store refuses a file moved the same way. *)
Theorem swapped_object_returned self s m st id env_text share_text fself nonce raw fs :
  stores self s m → m !! stored_id st = Some st → share_id_ok id → id ≠ stored_id st →
  admits s.2 (store_attestation self) = true →
  length (fs_key fself) = 32%nat → length nonce = NONCE_BYTES → seal fself nonce (stored_to_vec st) = Ok raw →
  (∃ body s3', get_object (object_key self (stored_id st)) s.1 = Ok body
     ∧ put_object (object_key self id) body s.1 = (Ok (), s3')
     ∧ s3_get self env_text share_text id (s3', s.2) = Ok st)
  ∧ fs_get fself None share_text id (<[share_path id := raw]> fs)
    = Err (ShareCrypto "share_id mismatch in decrypted blob").
Proof.
  intros (Hup & Hm & Hf & _) Hst Hid Hne Ha Hk Hn Hs. destruct (Hm _ _ Hst) as [_ Hok]. split.
  - pose proof (Hf _ (proj1 Hok)) as Hobj. rewrite Hst in Hobj. destruct Hobj as (body & Hb & Henv).
    pose proof (put_object_law (object_key self id) body s.1 Hup) as Hp.
    destruct (put_object _ _ s.1) as [r s3'] eqn:Hput. destruct Hp as (-> & Hup' & Hobj). exists body, s3'.
    split; [by rewrite get_object_law, Hb|]. split; [done|].
    apply (get_enveloped self env_text share_text id (s3', s.2) body st); [done| |done..].
    cbn [fst]. by rewrite Hobj, lookup_insert_eq.
  - unfold fs_get. rewrite lookup_insert_eq, (open_sealed _ _ _ _ Hk Hn Hs). cbn [mbind result_bind].
    rewrite stored_round_trip by done. cbn [ok_or mbind result_bind]. by rewrite bool_decide_eq_false_2.
Qed.
End refinement.

(** ** Witnesses *)

Module ObjectsWitness.
Import Concrete RegistryWitness FilesWitness.

Definition cloud : S3KmsShareStore := s3_new "qfc-test//" (string_bytes "good") "pcr-mock-sentinel".
Definition good (att : bytes) : bool := bool_decide (att = string_bytes "good").
Definition empty : MockS3Client * MockKmsClient := (mock_s3_new, with_attestation_predicate good mock_kms_new).
Definition draw : bytes * bytes := (replicate 32 x05, replicate 32 x06).
Definition held1 : MockS3Client * MockKmsClient := (s3_put cloud draw (replicate 24 x01) st1 empty).2.

Lemma stores_empty : stores cloud empty ∅.
Proof. split; [done|]. split; [done|]. split; [done|]. by intros w k i _ [raw Hr]. Qed.

Lemma draw_fresh : fresh_draw draw empty.2.
Proof. by split. Qed.

Lemma object_store_refines_witness :
  object_key cloud id1 = "qfc-test/00000000000000000000000004/1"
  ∧ stores cloud held1 {[id1 := st1]}
  ∧ s3_get cloud "" "" id1 empty = Err (ShareNotFound nil_share).
Proof.
  pose proof (object_store_refines cloud empty ∅ st1 id1 draw (replicate 24 x01) "" "" stores_empty st1_ok
    (proj1 st1_ok) draw_fresh eq_refl ltac:(vm_compute; discriminate)) as (_ & Hget & _ & Hput & _).
  split; [vm_compute; reflexivity|]. split; [|apply (Hget eq_refl)].
  unfold held1. destruct (s3_put _ _ _ _ _) as [r s']. apply Hput.
Defined.

Lemma held1_stores : stores cloud held1 {[id1 := st1]}.
Proof.
  pose proof (put_stored cloud empty ∅ st1 draw (replicate 24 x01) stores_empty st1_ok draw_fresh eq_refl
    ltac:(vm_compute; discriminate)) as Hput.
  unfold held1. destruct (s3_put _ _ _ _ _) as [r s']. apply Hput.
Qed.

Lemma swapped_object_returned_witness :
  ∃ body s3', get_object (object_key cloud id1) held1.1 = Ok body
    ∧ put_object (object_key cloud (ShareId_new (WalletId_from_ulid 4) 2)) body held1.1 = (Ok (), s3')
    ∧ s3_get cloud "" "" (ShareId_new (WalletId_from_ulid 4) 2) (s3', held1.2) = Ok st1.
Proof.
  apply (swapped_object_returned cloud held1 {[id1 := st1]} st1 (ShareId_new (WalletId_from_ulid 4) 2) "" ""
    files_store (replicate 24 x01)
    (FILE_MAGIC ++ replicate 24 x01 ++ fs_key files_store ++ replicate 24 x01 ++ stored_to_vec st1) ∅);
    [apply held1_stores|apply lookup_singleton_eq|by split|done|reflexivity|reflexivity|reflexivity|reflexivity].
Defined.
End ObjectsWitness.
