(* ===== verification/WalletService.v ===== *)
(** * WalletService: the orchestrator ([wallet.rs], [service.rs])

    [create_wallet], [sign] with its quorum branch, [fetch_shares] and
    [record_approval], with the HTTP handler's use of it.  The subsystems are
    class parameters, as they are trait objects in the source: a [Policy], a
    [ShareStore], an [AuditSink], an [ApprovalStore], an [Enclave]; the quorum
    coordinator is a record of its two calls.

    A handler is a computation over the service's world that may return early
    with an error and may panic ([Svc]); it keeps the effects made before the
    early return.  Metrics and tracing spans are left out. *)

From S2P Require Import Prelude Text Types External Shamir PolicyTypes StaticPolicy Signers SignedDecision Derivation Attestation Rlp EvmDecoder HybridVerifier MockEnclave Approval Registry ApprovalStore Orchestrating AuditLog ShareStore.
#[local] Open Scope string_scope.
#[local] Open Scope list_scope.
#[local] Open Scope Z_scope.

(** ** [wallet.rs] *)

Record WalletConfig := {
  display_name : string;
  cfg_owner_id : OwnerId;
  cfg_scheme : SigningScheme;
  cfg_threshold : Z;
  cfg_total : Z;
  cfg_policy_id : PolicyId;
  cfg_max_value_per_tx : option Z;
  cfg_contract_allowlist : list bytes;
  cfg_chain_allowlist : list Z;
}.

Inductive WalletStatus := WalletActive | WalletFrozen | WalletStatusRevoked.
#[export] Instance WalletStatus_eq_dec : EqDecision WalletStatus.
Proof. solve_decision. Defined.

Record WalletRecord := {
  wr_wallet_id : WalletId;
  wr_config : WalletConfig;
  wr_master_public_key : bytes;
  wr_status : WalletStatus;
  wr_created_at_unix_ms : Z;
}.

(** ** Errors *)

Inductive ServiceError :=
  | WalletNotFound (w : WalletId)
  | PolicyDenied (why : string)
  | SvcQuorum (e : QuorumError)
  | SvcPolicy (e : PolicyError)
  | SvcEnclave (e : EnclaveError)
  | SvcStore (e : ShareStoreError)
  | SvcAudit (e : AuditError)
  | InsufficientShares (why : string)
  | Internal (why : string).

Definition MAX_DECISION_AGE_SECS_DEFAULT : Z := 60.

(** ** Subsystems *)

(** [AuditSink]; the trace is the accepted drafts, in order. *)
Class AuditSink (A : Type) := {
  sink_emit : AuditEventDraft → A → result AuditError AuditEvent * A;
  sink_trace : A → list AuditEventDraft;
  sink_emit_ok d a e a' : sink_emit d a = (Ok e, a') → sink_trace a' = sink_trace a ++ [d];
  sink_emit_err d a e a' : sink_emit d a = (Err e, a') → sink_trace a' = sink_trace a;
}.

(** [Enclave]. *)
Class Enclave (E : Type) := {
  enclave_generate : E → GenerateWalletRequest → panics (result EnclaveError GenerateWalletResponse);
  enclave_sign : E → EnclaveSignRequest → panics (result EnclaveError EnclaveSignResponse);
}.

(** [QuorumApprover]: its answers during one request. *)
Record Quorum := {
  q_request : ApprovalRequest → result QuorumError ();
  q_collect : RequestId → Z → Z → result QuorumError (list SignedApproval);
}.

(** ** The effect *)

Definition Svc (W A : Type) : Type := W → panics (result ServiceError A * W).

#[export] Instance svc_ret W : MRet (Svc W) := λ A a w, Returns (Ok a, w).
#[export] Instance svc_bind W : MBind (Svc W) := λ A B f m w,
  match m w with
  | Panics why => Panics why
  | Returns (Err e, w') => Returns (Err e, w')
  | Returns (Ok a, w') => f a w'
  end.

Definition svc_fail {W A} (e : ServiceError) : Svc W A := λ w, Returns (Err e, w).
Definition svc_of {W A} (r : result ServiceError A) : Svc W A := λ w, Returns (r, w).

(** The loop [for x in l { f(x).await?; }]. *)
Fixpoint svc_iter {W A} (f : A → Svc W ()) (l : list A) : Svc W () :=
  match l with
  | [] => mret ()
  | x :: l => _ ← f x; svc_iter f l
  end.

Lemma svc_bind_ok {W A B} (m : Svc W A) (f : A → Svc W B) w b w' :
  (m ≫= f) w = Returns (Ok b, w') ↔
  ∃ a w1, m w = Returns (Ok a, w1) ∧ f a w1 = Returns (Ok b, w').
Proof.
  unfold mbind, svc_bind. destruct (m w) as [[[a|e] w1]|why]; naive_solver.
Qed.

Lemma svc_ret_ok {W A} (a b : A) (w w' : W) :
  (mret a : Svc W A) w = Returns (Ok b, w') ↔ a = b ∧ w = w'.
Proof. unfold mret, svc_ret. naive_solver. Qed.

Lemma svc_of_ok {W A} (r : result ServiceError A) (w w' : W) a :
  svc_of r w = Returns (Ok a, w') ↔ r = Ok a ∧ w = w'.
Proof. unfold svc_of. naive_solver. Qed.

(** ** JSON of the audit details *)

Definition scheme_json (s : SigningScheme) : Json :=
  JString match s with
          | Ed25519 => "ed25519" | Secp256k1 => "secp256k1"
          | Secp256k1Recoverable => "secp256k1_recoverable"
          | MlDsa44 => "ml_dsa44" | MlDsa65 => "ml_dsa65" | MlDsa87 => "ml_dsa87"
          end.

Section service.
Context `{UlidCrate, JsonCrate, DigestCrate, Ed25519Crate, K256Crate, MlDsaCrate, RlpCrate}.
Context {P Sh A AS E : Type} `{Policy P, ShareStore Sh, AuditSink A, ApprovalStore AS, Enclave E}.

(** Texts the service embeds: [{:?}] of a deny reason and the [Display] of
    registry, enclave and signer errors. *)
Variable deny_text : DenyReason → string.
Variable registry_text : RegistryError → string.
Variable enclave_text : EnclaveError → string.
Variable signer_text : PolicyServiceSignerError → string.
Variable overflow_text : string.

(** The mutable state behind the service's [Arc]s. *)
Record World := {
  w_shares : Sh;
  w_policy : P;
  w_audit : A;
  w_registry : Inner;
  w_approvals : AS;
  w_wallets : gmap WalletId WalletRecord;
}.

Record WalletService := {
  svc_enclave : E;
  svc_quorum : Quorum;
  svc_quorum_timeout : Z;
  policy_service_signer : option LocalPolicyServiceSigner;
}.

(** What one call draws from the system. *)
Record Draws := {
  fresh_wallet : WalletId;
  fresh_request : RequestId;
  fresh_decision : DecisionId;
  limiter_clock : nat → Z;
  now_ms : Z;
  signer_nanos : Z;
}.

Definition with_audit (w : World) (a : A) : World := {|
  w_shares := w_shares w; w_policy := w_policy w; w_audit := a; w_registry := w_registry w;
  w_approvals := w_approvals w; w_wallets := w_wallets w |}.
Definition with_shares (w : World) (s : Sh) : World := {|
  w_shares := s; w_policy := w_policy w; w_audit := w_audit w; w_registry := w_registry w;
  w_approvals := w_approvals w; w_wallets := w_wallets w |}.
Definition with_policy (w : World) (p : P) : World := {|
  w_shares := w_shares w; w_policy := p; w_audit := w_audit w; w_registry := w_registry w;
  w_approvals := w_approvals w; w_wallets := w_wallets w |}.
Definition with_wallets (w : World) (ws : gmap WalletId WalletRecord) : World := {|
  w_shares := w_shares w; w_policy := w_policy w; w_audit := w_audit w; w_registry := w_registry w;
  w_approvals := w_approvals w; w_wallets := ws |}.
Definition with_approvals (w : World) (s : AS) : World := {|
  w_shares := w_shares w; w_policy := w_policy w; w_audit := w_audit w; w_registry := w_registry w;
  w_approvals := s; w_wallets := w_wallets w |}.

(** [self.audit.emit(..).await?]. *)
Definition emit (d : AuditEventDraft) : Svc World () := λ w,
  match sink_emit d (w_audit w) with
  | (Ok _, a) => Returns (Ok (), with_audit w a)
  | (Err e, a) => Returns (Err (SvcAudit e), with_audit w a)
  end.

Definition get_wallet (id : WalletId) : Svc World WalletRecord := λ w,
  Returns (ok_or (w_wallets w !! id) (WalletNotFound id), w).

(** [canonical_message_bytes]. *)
Definition canonical_message_bytes (p : SigningPayload) : bytes :=
  match p with
  | Raw bs | PersonalSign bs => bs
  | TypedData json => json_to_vec json
  | VmTransaction _ _ _ raw => raw
  end.

Definition requester_to_actor (r : Requester) : Actor := ActorRequester (requester_key r).

(** A draft of one signing request. *)
Definition draft_for (actor : Actor) (kind : AuditKind) (r : RequestId) (w : WalletId) (details : Json)
    : AuditEventDraft := {|
  draft_actor := actor; draft_kind := kind; draft_request_id := Some r; draft_wallet_id := Some w;
  draft_details := details |}.

(** ** [create_wallet] *)

Definition put_share (s : StoredShare) : Svc World () := λ w,
  match share_put s (w_shares w) with
  | (Ok _, sh) => Returns (Ok (), with_shares w sh)
  | (Err e, sh) => Returns (Err (SvcStore e), with_shares w sh)
  end.

Definition created_details (config : WalletConfig) (gen : GenerateWalletResponse) : Json :=
  JObject [("master_public_key_hex", JString (hex_encode (gen_master_public_key gen)));
           ("policy_id", json_ulid (PolicyId_ulid (cfg_policy_id config)));
           ("scheme", scheme_json (cfg_scheme config));
           ("share_indices", JArray ((λ s, JNumber (index s)) <$> gen_shares gen));
           ("threshold", JNumber (cfg_threshold config));
           ("total", JNumber (cfg_total config))].

Definition create_wallet (self : WalletService) (env : Draws) (config : WalletConfig)
    (owner_actor : Actor) : Svc World WalletRecord :=
  let wallet_id := fresh_wallet env in
  gen ← (λ w, match enclave_generate (svc_enclave self) {|
                   gen_wallet_id := wallet_id; gen_scheme := cfg_scheme config;
                   gen_threshold := cfg_threshold config; gen_total := cfg_total config;
                   gen_master_hd_path := None |} with
              | Panics why => Panics why
              | Returns r => Returns (map_err SvcEnclave r, w)
              end) : Svc World GenerateWalletResponse;
  let now := now_ms env in
  _ ← svc_iter (λ s, put_share {| stored_id := ShareId_new wallet_id (index s);
                                  stored_at_unix_ms := now; stored_share := s |}) (gen_shares gen);
  let record := {| wr_wallet_id := wallet_id; wr_config := config;
                   wr_master_public_key := gen_master_public_key gen;
                   wr_status := WalletActive; wr_created_at_unix_ms := now |} in
  _ ← (λ w, Returns (Ok (), with_wallets w (<[wallet_id := record]> (w_wallets w)))) : Svc World ();
  _ ← emit {| draft_actor := owner_actor; draft_kind := WalletCreated; draft_request_id := None;
              draft_wallet_id := Some wallet_id; draft_details := created_details config gen |};
  mret record.

(** ** [sign] *)

Definition evaluate_policy (env : Draws) (req : SigningRequest) : Svc World PolicyDecision := λ w,
  let '(r, p) := policy_evaluate (w_policy w) (limiter_clock env) (fresh_decision env) req in
  Returns (map_err SvcPolicy r, with_policy w p).

Definition resolve_identities (set : option ApproverSet) : Svc World (list ApproverIdentity) := λ w,
  Returns (match set with
           | None => Ok []
           | Some s =>
               map_result (λ m, rec ← map_err (λ e, SvcQuorum (Transport ("registry: " +:+ registry_text e)))
                                        (get_approver m (w_registry w));
                                mret (identity rec)) (members s)
           end, w).

Definition approval_audit (wallet_id : WalletId) (request_id : RequestId) (a : SignedApproval)
    : AuditEventDraft :=
  draft_for (ActorApprover (identity_key (sa_approver a)))
    (match sa_decision a with Approve => QuorumApprovalReceived | Reject => QuorumApprovalRejected end)
    request_id wallet_id (JObject [("approval_id", json_ulid (ApprovalId_ulid (sa_approval_id a)))]).

(** The [RequireQuorum] arm. *)
Definition run_quorum (self : WalletService) (wallet_id : WalletId) (request_id : RequestId)
    (message_hash : bytes) (threshold : Z) (approver_set : ApproverSetId) : Svc World () :=
  set ← (λ w, Returns (Ok (result_ok (get_approver_set approver_set (w_registry w))), w))
        : Svc World (option ApproverSet);
  identities ← resolve_identities set;
  _ ← svc_of (map_err SvcQuorum (q_request (svc_quorum self) {|
        ar_request_id := request_id; ar_message_hash := message_hash;
        ar_approver_set := identities; ar_threshold := threshold |}));
  _ ← emit (draft_for ActorSystem QuorumNotified request_id wallet_id
              (JObject [("approver_set", JString (ulid_to_string (ApproverSetId_ulid approver_set)));
                        ("threshold", JNumber threshold)]));
  let collect_timeout := match set ≫= quorum_timeout_secs with
                         | Some s => s * 1000000000
                         | None => svc_quorum_timeout self
                         end in
  approvals ← match q_collect (svc_quorum self) request_id threshold collect_timeout with
    | Ok a => mret a
    | Err (Timeout d) =>
        _ ← emit (draft_for ActorSystem QuorumTimedOut request_id wallet_id
                    (JObject [("timeout_ms", JNumber (d / 1000000))]));
        svc_fail (SvcQuorum (Timeout d))
    | Err e => svc_fail (SvcQuorum e)
    end;
  _ ← svc_iter (λ a, emit (approval_audit wallet_id request_id a)) approvals;
  _ ← match find (λ a, bool_decide (sa_decision a = Reject)) approvals with
      | Some reject => svc_fail (PolicyDenied ("quorum rejected by " +:+ identity_key (sa_approver reject)))
      | None => mret ()
      end;
  emit (draft_for ActorSystem QuorumThresholdReached request_id wallet_id
          (JObject [("collected", JNumber (Z.of_nat (length approvals))); ("threshold", JNumber threshold)])).

(** Step 2a. *)
Definition sign_policy_decision (self : WalletService) (env : Draws) (wallet_id : WalletId)
    (request_id : RequestId) (d : PolicyDecision) : Svc World (option SignedPolicyDecision) :=
  match policy_service_signer self with
  | None => mret None
  | Some signer =>
      bundle ← svc_of (map_err (λ e, Internal ("policy signer: " +:+ signer_text e))
                 (sign_decision overflow_text signer (signer_nanos env) d request_id wallet_id
                    MAX_DECISION_AGE_SECS_DEFAULT));
      _ ← emit (draft_for ActorSystem PolicyDecisionSigned request_id wallet_id
                  (JObject [("decision_id", json_ulid (DecisionId_ulid (decision_id d)));
                            ("max_age_secs", JNumber (max_age_secs bundle));
                            ("signed_at_unix_ms", JNumber (signed_at_unix_ms bundle));
                            ("signer_pubkey_fingerprint_hex",
                              JString (hex_encode (take 16 (sha256 (lps_public_key signer)))))]));
      mret (Some bundle)
  end.

Definition fetch_shares (wallet : WalletRecord) (threshold : Z) : Svc World (list StoredShare) := λ w,
  match share_list (wr_wallet_id wallet) (w_shares w) with
  | Err e => Returns (Err (SvcStore e), w)
  | Ok ids =>
      if Z.of_nat (length ids) <? threshold then
        Returns (Err (InsufficientShares ("have " +:+ show_dec (Z.of_nat (length ids))
                                          +:+ " shares, need " +:+ show_dec threshold)), w)
      else
        Returns (map_result (λ id, map_err SvcStore (share_get id (w_shares w)))
                   (take (Z.to_nat threshold) ids), w)
  end.

(** The enclave call; its error is not propagated before it is audited. *)
Definition call_enclave (self : WalletService) (req : EnclaveSignRequest)
    : Svc World (result EnclaveError EnclaveSignResponse) := λ w,
  match enclave_sign (svc_enclave self) req with
  | Panics why => Panics why
  | Returns r => Returns (Ok r, w)
  end.

Definition ceilings_of (wallet_id : WalletId) (config : WalletConfig) : WalletCeilings := {|
  ceil_wallet_id := wallet_id; max_value_per_tx := cfg_max_value_per_tx config;
  contract_allowlist := cfg_contract_allowlist config; chain_allowlist := cfg_chain_allowlist config |}.

(** From the decision to the response: the arms of the decision, step 2a, the
    share fetch, the attempt and the enclave call. *)
Definition sign_decided (self : WalletService) (env : Draws) (wallet : WalletRecord)
    (wallet_id : WalletId) (request_id : RequestId) (payload : SigningPayload)
    (hd_path : option HdPath.HdPath) (context : SigningContext) (hash_alg : HashAlg)
    (decision : PolicyDecision) : Svc World EnclaveSignResponse :=
  let message := canonical_message_bytes payload in
  let audit actor kind details := emit (draft_for actor kind request_id wallet_id details) in
  _ ← match decision with
      | Deny _ _ reason _ => svc_fail (PolicyDenied (deny_text reason))
      | RequireQuorum _ _ threshold _ approver_set _ =>
          run_quorum self wallet_id request_id (message_hash_for message) threshold approver_set
      | Allow _ _ _ => mret ()
      end;
  signed ← sign_policy_decision self env wallet_id request_id decision;
  stored ← fetch_shares wallet (cfg_threshold (wr_config wallet));
  _ ← audit ActorSystem SigningAttempted (JObject []);
  resp ← call_enclave self {|
    esr_request_id := request_id; esr_wallet_id := wallet_id; esr_shares := stored_share <$> stored;
    esr_scheme := cfg_scheme (wr_config wallet); esr_hd_path := hd_path; esr_message := message;
    esr_hash_alg := hash_alg; esr_context := context; esr_policy_decision := signed;
    esr_approvals := []; esr_wallet_ceilings := Some (ceilings_of wallet_id (wr_config wallet));
    esr_policy_signing_payload := Some payload |};
  match resp with
  | Ok r =>
      _ ← audit ActorEnclave SigningSucceeded
            (JObject [("signature_hash_hex", JString (hex_encode (sha256 (resp_signature r))))]);
      mret r
  | Err e =>
      _ ← audit ActorEnclave SigningFailed (JObject [("error", JString (enclave_text e))]);
      svc_fail (SvcEnclave e)
  end.

Definition sign (self : WalletService) (env : Draws) (wallet_id : WalletId) (payload : SigningPayload)
    (requester : Requester) (hd_path : option HdPath.HdPath) (context : SigningContext)
    (hash_alg : HashAlg) : Svc World EnclaveSignResponse :=
  wallet ← get_wallet wallet_id;
  if bool_decide (wr_status wallet = WalletStatusRevoked) then svc_fail (WalletNotFound wallet_id)
  else
    let request_id := fresh_request env in
    let message_hash := message_hash_for (canonical_message_bytes payload) in
    _ ← emit (draft_for (requester_to_actor requester) SigningRequested request_id wallet_id
                (JObject [("hd_path", from_option (λ p, JString (HdPath.to_string p)) JNull hd_path);
                          ("message_hash_hex", JString (hex_encode message_hash))]));
    decision ← evaluate_policy env {|
      request_id := request_id; wallet_id := wallet_id; requester := requester; payload := payload;
      hd_path := hd_path; received_at_unix_ms := now_ms env |};
    _ ← emit (draft_for ActorSystem SigningEvaluated request_id wallet_id
                (JObject [("decision", json_value (decision_json decision))]));
    sign_decided self env wallet wallet_id request_id payload hd_path context hash_alg decision.

(** ** [record_approval] and the submission handler *)

Definition record_approval (now : Z) (approval : SignedApproval) (approver_id : ApproverId)
    (expected_message_hash : bytes) : Svc World RecordOutcome := λ w,
  match get_approver approver_id (w_registry w) with
  | Err e => Returns (Err (SvcQuorum (Transport ("registry: " +:+ registry_text e))), w)
  | Ok rec =>
      if negb (bool_decide (identity rec = sa_approver approval)) then
        Returns (Err (SvcQuorum (UnknownApprover (identity_key (sa_approver approval)))), w)
      else if bool_decide (Registry.status rec = Revoked) then
        Returns (Err (SvcQuorum (UnknownApprover
          ("approver " +:+ ulid_to_string (ApproverId_ulid approver_id) +:+ " is revoked"))), w)
      else
        match approval_verify approval (sa_request_id approval) expected_message_hash now with
        | Err e => Returns (Err (SvcQuorum (QeInvalidApproval e)), w)
        | Ok _ =>
            match store_record approval approver_id (w_approvals w) with
            | (Ok outcome, st) => Returns (Ok outcome, with_approvals w st)
            | (Err (DuplicateApproval a r), st) =>
                Returns (Err (SvcQuorum (Transport ("duplicate approval: "
                           +:+ store_error_text (DuplicateApproval a r)))), with_approvals w st)
            | (Err (StoreIo msg), st) => Returns (Err (SvcQuorum (Transport msg)), with_approvals w st)
            end
        end
  end.

(** The core of [POST /requests/{request_id}/approvals]: the hash the submission
    is checked against is the hash the submission itself carries. *)
Definition submit_approval (now : Z) (approval : SignedApproval) (approver_id : ApproverId)
    : Svc World RecordOutcome :=
  record_approval now approval approver_id (sa_message_hash approval).

End service.
