(* ===== verification/WalletServiceProps.v ===== *)
(** * WalletServiceProps: what the orchestrator guarantees

    Inversion of the handlers of WalletService.v, and the theorems: no signature
    without an accepting policy decision and quorum, the audit trail of a
    signing call, denial, key custody from [create_wallet] to [sign], and the
    limits of approval handling. *)

From S2P Require Import Prelude Text Types External Shamir PolicyTypes PolicySpec StaticPolicy Signers SignedDecision Derivation Attestation Rlp EvmDecoder HybridVerifier MockEnclave Approval Registry ApprovalStore Orchestrating AuditLog ShareStore WalletService.
#[local] Open Scope string_scope.
#[local] Open Scope list_scope.
#[local] Open Scope Z_scope.

(** The signing request a call puts to the policy. *)
Definition policy_request (env : Draws) (w : WalletId) (payload : SigningPayload) (r : Requester)
    (hd : option HdPath.HdPath) : SigningRequest := {|
  request_id := fresh_request env; wallet_id := w; requester := r; PolicyTypes.payload := payload;
  hd_path := hd; received_at_unix_ms := now_ms env |}.

Section props.
Context `{UlidCrate, JsonCrate, DigestCrate, Ed25519Crate, K256Crate, MlDsaCrate, RlpCrate}.
Context {P Sh A AS E : Type} `{Policy P, ShareStore Sh, AuditSink A, ApprovalStore AS, Enclave E}.
Variable deny_text : DenyReason → string.
Variable registry_text : RegistryError → string.
Variable enclave_text : EnclaveError → string.
Variable signer_text : PolicyServiceSignerError → string.
Variable overflow_text : string.
Implicit Types w : @World P Sh A AS.
Implicit Types self : @WalletService E.
#[local] Abbreviation sign := (sign deny_text registry_text enclave_text signer_text overflow_text).
#[local] Abbreviation sign_decided := (sign_decided deny_text registry_text enclave_text signer_text overflow_text).
#[local] Abbreviation run_quorum := (run_quorum registry_text).
#[local] Abbreviation sign_policy_decision := (sign_policy_decision signer_text overflow_text).

(** The world moved only by audit events [ds]. *)
Definition audited w w' (ds : list AuditEventDraft) : Prop :=
  w' = with_audit w (w_audit w') ∧ sink_trace (w_audit w') = sink_trace (w_audit w) ++ ds.

Lemma audited_refl w : audited w w [].
Proof. split; [by destruct w|by rewrite app_nil_r]. Qed.

Lemma audited_trans w1 w2 w3 ds es : audited w1 w2 ds → audited w2 w3 es → audited w1 w3 (ds ++ es).
Proof.
  intros [Hw2 H2'] [Hw3 H3']. split; [|by rewrite H3', H2', app_assoc].
  rewrite Hw3. rewrite Hw2 at 1. done.
Qed.

Lemma emit_ok d w u w' : emit d w = Returns (Ok u, w') → audited w w' [d].
Proof.
  unfold emit. destruct (sink_emit d (w_audit w)) as [[e|e] a] eqn:He; [|done].
  intros [= <- <-]. split; [done|]. cbn. by eapply sink_emit_ok.
Qed.

Lemma svc_iter_emit_ok {X} (f : X → AuditEventDraft) (l : list X) w u w' :
  svc_iter (λ x, emit (f x)) l w = Returns (Ok u, w') → audited w w' (f <$> l).
Proof.
  revert w. induction l as [|x l IH]; intros w; cbn [svc_iter].
  - intros [_ <-]%svc_ret_ok. apply audited_refl.
  - intros (v & w1 & Hx%emit_ok & Hl%IH)%svc_bind_ok. 
    exact (audited_trans _ w1 _ [f x] _ Hx Hl).
Qed.

(** The audit kinds of a quorum with [n] approvals. *)
Definition quorum_trail (n : nat) : list AuditKind :=
  QuorumNotified :: replicate n QuorumApprovalReceived ++ [QuorumThresholdReached].

(** Every draft concerns this request of this wallet. *)
Definition about (r : RequestId) (wid : WalletId) (d : AuditEventDraft) : Prop :=
  draft_request_id d = Some r ∧ draft_wallet_id d = Some wid.

Lemma run_quorum_ok self wid rid h t set w u w' :
  run_quorum self wid rid h t set w = Returns (Ok u, w') →
  ∃ approvals timeout ds, q_collect (svc_quorum self) rid t timeout = Ok approvals
    ∧ Forall (λ a, sa_decision a = Approve) approvals
    ∧ audited w w' ds ∧ draft_kind <$> ds = quorum_trail (length approvals) ∧ Forall (about rid wid) ds.
Proof.
  unfold run_quorum. intros (s & w1 & [= <- <-] & Hr)%svc_bind_ok.
  apply svc_bind_ok in Hr as (ids & w2 & Hids & Hr). unfold resolve_identities in Hids.
  injection Hids as _ <-.
  apply svc_bind_ok in Hr as (? & w3 & [_ <-]%svc_of_ok & Hr).
  apply svc_bind_ok in Hr as (? & w4 & Hnot%emit_ok & Hr).
  apply svc_bind_ok in Hr as (approvals & w5 & Hcol & Hr).
  set (timeout := match _ ≫= quorum_timeout_secs with Some _ => _ | None => _ end) in Hcol.
  assert (q_collect (svc_quorum self) rid t timeout = Ok approvals ∧ w5 = w4) as [Hq ->].
  { destruct (q_collect (svc_quorum self) rid t timeout) as [l|[| | |]]; try done.
    - by apply svc_ret_ok in Hcol as [<- <-].
    - by apply svc_bind_ok in Hcol as (? & ? & _ & ?). }
  apply svc_bind_ok in Hr as (? & w6 & Haps%svc_iter_emit_ok & Hr).
  apply svc_bind_ok in Hr as (? & w7 & Hrej & Hend%emit_ok).
  destruct (find _ approvals) eqn:Hf; [done|]. apply svc_ret_ok in Hrej as [_ <-].
  assert (Forall (λ a, sa_decision a = Approve) approvals) as Hall.
  { apply Forall_forall. intros a Ha%list_elem_of_In. pose proof (List.find_none _ _ Hf a Ha) as Hn.
    cbn in Hn. apply bool_decide_eq_false in Hn. by destruct (sa_decision a). }
  eexists approvals, timeout, _. split; [done|]. split; [done|].
  split; [eapply audited_trans; [exact Hnot|eapply audited_trans; [exact Haps|exact Hend]]|].
  rewrite !fmap_app. split.
  - unfold quorum_trail. cbn. f_equal. f_equal. clear -Hall. rewrite <-list_fmap_compose.
    induction Hall as [|a l Ha _ IH]; [done|]. cbn [fmap list_fmap length replicate].
    f_equal; [|exact IH]. cbn. by rewrite Ha.
  - repeat (apply Forall_app_2 || constructor || done). apply Forall_fmap, Forall_true. by intros.
Qed.

Lemma sign_policy_decision_ok self env wid rid d w sd w' :
  sign_policy_decision self env wid rid d w = Returns (Ok sd, w') →
  ∃ ds, audited w w' ds ∧ Forall (about rid wid) ds
    ∧ match policy_service_signer self with
      | None => sd = None ∧ ds = []
      | Some s => draft_kind <$> ds = [PolicyDecisionSigned]
          ∧ ∃ bundle, sd = Some bundle ∧ decision bundle = d
      end.
Proof.
  unfold sign_policy_decision. destruct (policy_service_signer self) as [s|].
  - intros (b & w1 & [Hb%map_err_ok <-]%svc_of_ok & Hr)%svc_bind_ok.
    apply svc_bind_ok in Hr as (? & w2 & Hem%emit_ok & Hr). apply svc_ret_ok in Hr as [<- <-].
    eexists. split; [exact Hem|]. split; [by repeat constructor|]. split; [done|].
    exists b. split; [done|]. unfold sign_decision in Hb.
    by apply result_bind_ok in Hb as (t & _ & [= <-]).
  - intros [<- <-]%svc_ret_ok. exists []. split; [apply audited_refl|]. by split; [constructor|].
Qed.

Lemma fetch_shares_ok wallet t w l w' :
  fetch_shares wallet t w = Returns (Ok l, w') →
  w' = w ∧ ∃ ids, share_list (wr_wallet_id wallet) (w_shares w) = Ok ids
    ∧ t ≤ Z.of_nat (length ids)
    ∧ Forall2 (λ id s, share_get id (w_shares w) = Ok s) (take (Z.to_nat t) ids) l.
Proof.
  unfold fetch_shares. destruct (share_list _ _) as [ids|]; [|done].
  destruct (Z.ltb_spec (Z.of_nat (length ids)) t); [done|]. intros [= Hm <-]. split; [done|].
  exists ids. split; [done|]. split; [done|]. apply map_result_ok in Hm.
  eapply Forall2_impl; [exact Hm|]. intros id s Hs. by apply map_err_ok in Hs.
Qed.

(** What a decision lets through, and the audit kinds its arm leaves. *)
Definition decision_passed self (rid : RequestId) (d : PolicyDecision) (kinds : list AuditKind) : Prop :=
  match d with
  | Allow _ _ _ => kinds = []
  | Deny _ _ _ _ => False
  | RequireQuorum _ _ t _ _ _ =>
      ∃ approvals timeout, q_collect (svc_quorum self) rid t timeout = Ok approvals
        ∧ Forall (λ a, sa_decision a = Approve) approvals ∧ kinds = quorum_trail (length approvals)
  end.

(** The request the enclave receives. *)
Definition enclave_request (wallet : WalletRecord) (wid : WalletId) (rid : RequestId)
    (payload : SigningPayload) (hd : option HdPath.HdPath) (ctx : SigningContext) (h : HashAlg)
    (signed : option SignedPolicyDecision) (stored : list StoredShare) : EnclaveSignRequest := {|
  esr_request_id := rid; esr_wallet_id := wid; esr_shares := stored_share <$> stored;
  esr_scheme := cfg_scheme (wr_config wallet); esr_hd_path := hd;
  esr_message := canonical_message_bytes payload; esr_hash_alg := h; esr_context := ctx;
  esr_policy_decision := signed; esr_approvals := [];
  esr_wallet_ceilings := Some (ceilings_of wid (wr_config wallet));
  esr_policy_signing_payload := Some payload |}.

Definition signer_trail self : list AuditKind :=
  match policy_service_signer self with Some _ => [PolicyDecisionSigned] | None => [] end.

Lemma sign_decided_ok self env wallet wid rid payload hd ctx h d w r w' :
  sign_decided self env wallet wid rid payload hd ctx h d w = Returns (Ok r, w') →
  ∃ kinds signed stored ids ds, decision_passed self rid d kinds
    ∧ (policy_service_signer self = None → signed = None)
    ∧ (is_Some (policy_service_signer self) → ∃ b, signed = Some b ∧ decision b = d)
    ∧ share_list (wr_wallet_id wallet) (w_shares w) = Ok ids
    ∧ Forall2 (λ id s, share_get id (w_shares w) = Ok s)
        (take (Z.to_nat (cfg_threshold (wr_config wallet))) ids) stored
    ∧ enclave_sign (svc_enclave self) (enclave_request wallet wid rid payload hd ctx h signed stored)
        = Returns (Ok r)
    ∧ audited w w' ds ∧ Forall (about rid wid) ds
    ∧ draft_kind <$> ds = kinds ++ signer_trail self ++ [SigningAttempted; SigningSucceeded].
Proof.
  unfold sign_decided. intros (u & w1 & Harm & Hr)%svc_bind_ok.
  assert (∃ kinds ds, decision_passed self rid d kinds ∧ audited w w1 ds ∧ Forall (about rid wid) ds
            ∧ draft_kind <$> ds = kinds) as (kinds & ds1 & Hd & Ha1 & Hab1 & Hk1).
  { destruct d as [i p rat|i p why rat|i p t n s rat]; [|done|].
    - apply svc_ret_ok in Harm as [_ <-]. exists [], []. split; [done|]. split; [apply audited_refl|].
      by split; [constructor|].
    - apply run_quorum_ok in Harm as (aps & to & ds & Hq & Hall & Ha & Hk & Hab).
      eexists _, ds. split; [|done]. cbn. eauto. }
  apply svc_bind_ok in Hr as (signed & w2 & Hs%sign_policy_decision_ok & Hr).
  destruct Hs as (ds2 & Ha2 & Hab2 & Hsig).
  apply svc_bind_ok in Hr as (stored & w3 & Hf%fetch_shares_ok & Hr).
  destruct Hf as (-> & ids & Hids & _ & Hget).
  apply svc_bind_ok in Hr as (? & w4 & Ha4%emit_ok & Hr).
  apply svc_bind_ok in Hr as (resp & w5 & Hcall & Hr). unfold call_enclave in Hcall.
  destruct (enclave_sign _ _) as [q|] eqn:Henc; [|done]. injection Hcall as -> <-.
  destruct resp as [r'|e].
  2: { by apply svc_bind_ok in Hr as (? & ? & _ & ?). }
  apply svc_bind_ok in Hr as (? & w6 & Ha6%emit_ok & Hr). apply svc_ret_ok in Hr as [<- <-].
  assert (w_shares w2 = w_shares w) as Hsh.
  { destruct (audited_trans _ _ _ _ _ Ha1 Ha2) as [-> _]. done. }
  rewrite Hsh in Hids. rewrite Hsh in Hget.
  eexists kinds, signed, stored, ids, _. split; [done|].
  split; [intros Hn; rewrite Hn in Hsig; by destruct Hsig|].
  split; [intros [s Hn]; rewrite Hn in Hsig; by destruct Hsig|].
  split; [done|]. split; [done|]. split; [exact Henc|].
  split; [eapply audited_trans; [exact Ha1|eapply audited_trans; [exact Ha2|eapply audited_trans;
           [exact Ha4|exact Ha6]]]|].
  split; [repeat (apply Forall_app_2 || constructor || done)|].
  rewrite !fmap_app, Hk1. f_equal. unfold signer_trail.
  destruct (policy_service_signer self); [by destruct Hsig as [-> _]|by destruct Hsig as [_ ->]].
Qed.

Lemma sign_ok self env wid payload r hd ctx h w resp w' :
  sign self env wid payload r hd ctx h w = Returns (Ok resp, w') →
  ∃ wallet d p w1 ds1, w_wallets w !! wid = Some wallet ∧ wr_status wallet ≠ WalletStatusRevoked
    ∧ policy_evaluate (w_policy w) (limiter_clock env) (fresh_decision env)
        (policy_request env wid payload r hd) = (Ok d, p)
    ∧ audited (with_policy w p) w1 ds1 ∧ Forall (about (fresh_request env) wid) ds1
    ∧ draft_kind <$> ds1 = [SigningRequested; SigningEvaluated]
    ∧ sign_decided self env wallet wid (fresh_request env) payload hd ctx h d w1 = Returns (Ok resp, w').
Proof.
  unfold sign. intros (wallet & w0 & Hw & Hr)%svc_bind_ok. unfold get_wallet in Hw.
  injection Hw as Hw%ok_or_ok <-. case_bool_decide as Hst; [done|].
  apply svc_bind_ok in Hr as (? & w1 & Ha1%emit_ok & Hr).
  apply svc_bind_ok in Hr as (d & w2 & Hev & Hr). unfold evaluate_policy in Hev.
  apply svc_bind_ok in Hr as (? & w3 & Ha3%emit_ok & Hr).
  assert (w_policy w1 = w_policy w) as Hpol by (destruct Ha1 as [-> _]; done). rewrite Hpol in Hev.
  destruct (policy_evaluate _ _ _ _) as [q p] eqn:Hq. injection Hev as Hm <-. apply map_err_ok in Hm as ->.
  eexists wallet, d, p, w3, _. split; [done|]. split; [done|]. split; [done|].
  split; [|split; [|split; [|exact Hr]]].
  - eapply (audited_trans _ (with_policy w1 p)); [|exact Ha3]. destruct Ha1 as [Hw1 Ht].
    split; [|exact Ht]. rewrite Hw1. done.
  - by repeat constructor.
  - done.
Qed.

(** ** Properties *)

(** C3. No signature without authority.  If [sign] succeeds, the wallet is known and
    not revoked, the policy evaluated exactly this request and did not deny it,
    a quorum it asked for was collected with every collected approval an
    Approve, and the response is the enclave's for the canonical bytes of this
    payload, the wallet's own scheme, ceilings and first [threshold] listed
    shares, with the decision, when a policy signer is configured, signed and
    attached.  Shares, wallets, registry and approvals are as before the call. *)
Theorem sign_authorised self env wid payload r hd ctx h w resp w' :
  sign self env wid payload r hd ctx h w = Returns (Ok resp, w') →
  ∃ wallet d p kinds signed ids stored,
    w_wallets w !! wid = Some wallet ∧ wr_status wallet ≠ WalletStatusRevoked
    ∧ policy_evaluate (w_policy w) (limiter_clock env) (fresh_decision env)
        (policy_request env wid payload r hd) = (Ok d, p)
    ∧ decision_passed self (fresh_request env) d kinds
    ∧ (policy_service_signer self = None → signed = None)
    ∧ (is_Some (policy_service_signer self) → ∃ b, signed = Some b ∧ decision b = d)
    ∧ share_list (wr_wallet_id wallet) (w_shares w) = Ok ids
    ∧ Forall2 (λ id s, share_get id (w_shares w) = Ok s)
        (take (Z.to_nat (cfg_threshold (wr_config wallet))) ids) stored
    ∧ enclave_sign (svc_enclave self)
        (enclave_request wallet wid (fresh_request env) payload hd ctx h signed stored) = Returns (Ok resp)
    ∧ w' = with_audit (with_policy w p) (w_audit w').
Proof.
  intros (wallet & d & p & w1 & ds1 & Hw & Hst & Hev & Ha & _ & _ & Hd)%sign_ok.
  apply sign_decided_ok in Hd as (kinds & signed & stored & ids & ds & Hp & Hn & Hs & Hl & Hg & He & Ha' & _).
  assert (w_shares w1 = w_shares w) as Hsh by (destruct Ha as [-> _]; done). rewrite Hsh in Hl, Hg.
  exists wallet, d, p, kinds, signed, ids, stored. repeat (split; [done|]).
  by destruct (audited_trans _ _ _ _ _ Ha Ha') as [-> _].
Qed.

(** C19. A successful signing leaves a complete trail: the audit log grows by exactly
    the request, its evaluation, the quorum's notification, one event per
    approval and its threshold (when the policy asked for a quorum), the signed
    decision (when a policy signer is configured), the attempt and the success,
    in this order, every one carrying this request's id and this wallet's. *)
Theorem sign_audit_trail self env wid payload r hd ctx h w resp w' :
  sign self env wid payload r hd ctx h w = Returns (Ok resp, w') →
  ∃ d p kinds ds,
    policy_evaluate (w_policy w) (limiter_clock env) (fresh_decision env)
      (policy_request env wid payload r hd) = (Ok d, p)
    ∧ decision_passed self (fresh_request env) d kinds
    ∧ sink_trace (w_audit w') = sink_trace (w_audit w) ++ ds
    ∧ draft_kind <$> ds = [SigningRequested; SigningEvaluated] ++ kinds ++ signer_trail self
                          ++ [SigningAttempted; SigningSucceeded]
    ∧ Forall (about (fresh_request env) wid) ds.
Proof.
  intros (wallet & d & p & w1 & ds1 & _ & _ & Hev & Ha & Hab & Hk & Hd)%sign_ok.
  apply sign_decided_ok in Hd as (kinds & signed & stored & ids & ds & Hp & _ & _ & _ & _ & _ & Ha' & Hab' & Hk').
  exists d, p, kinds, (ds1 ++ ds). split; [done|]. split; [done|].
  split; [by destruct (audited_trans _ _ _ _ _ Ha Ha') as [_ ->]|].
  split; [by rewrite fmap_app, Hk, Hk'|]. by apply Forall_app_2.
Qed.

Lemma emit_result d w : ∃ r w', emit d w = Returns (r, w') ∧
  match r with Ok _ => audited w w' [d] | Err e => ∃ a, e = SvcAudit a ∧ audited w w' [] end.
Proof.
  unfold emit. destruct (sink_emit d (w_audit w)) as [[e|e] a] eqn:He; eexists _, _; (split; [done|]).
  - split; [done|]. by eapply sink_emit_ok.
  - eexists. split; [done|]. split; [done|]. rewrite app_nil_r. by eapply sink_emit_err.
Qed.

(** A denial stops the call: it returns [PolicyDenied] with the reason of the
    decision, unless the audit log itself refused an event; it neither panics
    nor signs, whatever the enclave, the quorum and the share store would have
    answered, and leaves exactly the request and the evaluation in the log. *)
Theorem denied_request_stops self env wid payload r hd ctx h w wallet i pid why rationale p :
  w_wallets w !! wid = Some wallet → wr_status wallet ≠ WalletStatusRevoked →
  policy_evaluate (w_policy w) (limiter_clock env) (fresh_decision env)
    (policy_request env wid payload r hd) = (Ok (Deny i pid why rationale), p) →
  ∃ e w', sign self env wid payload r hd ctx h w = Returns (Err e, w')
    ∧ w_shares w' = w_shares w ∧ w_wallets w' = w_wallets w
    ∧ ((∃ a, e = SvcAudit a) ∨
       e = PolicyDenied (deny_text why) ∧ ∃ ds, sink_trace (w_audit w') = sink_trace (w_audit w) ++ ds
         ∧ draft_kind <$> ds = [SigningRequested; SigningEvaluated]).
Proof.
  intros Hw Hst Hev. unfold sign, get_wallet. unfold mbind at 1, svc_bind at 1. rewrite Hw. cbn [ok_or].
  rewrite bool_decide_eq_false_2 by done.
  unfold mbind at 1, svc_bind at 1.
  match goal with |- context [emit ?d w] => destruct (emit_result d w) as (r1 & w1 & -> & H1') end.
  destruct r1 as [[]|e].
  2: { destruct H1' as (a & -> & [-> _]). eexists _, _. repeat (split; [done|]). eauto. }
  destruct H1' as [Hw1 Ht1].
  assert (w_policy w1 = w_policy w) as Hpol by (rewrite Hw1; done).
  unfold mbind at 1, svc_bind at 1, evaluate_policy. rewrite Hpol.
  change (policy_evaluate _ _ _ _) with
    (policy_evaluate (w_policy w) (limiter_clock env) (fresh_decision env) (policy_request env wid payload r hd)).
  rewrite Hev. cbn [map_err]. unfold mbind at 1, svc_bind at 1.
  match goal with |- context [emit ?d ?x] => destruct (emit_result d x) as (r2 & w2 & -> & H2') end.
  destruct r2 as [[]|e].
  2: { destruct H2' as (a & -> & [-> _]). eexists _, _. split; [done|]. rewrite Hw1. repeat (split; [done|]). eauto. }
  destruct H2' as [Hw2 Ht2]. cbn in Ht2. exists (PolicyDenied (deny_text why)), w2. split; [done|].
  rewrite Hw2, Hw1. split; [done|]. split; [done|]. right. split; [done|]. cbn.
  rewrite Ht2, Ht1, <-app_assoc. eexists. split; done.
Qed.

End props.

(** ** Key custody through the service *)

Section custody.
Context `{UlidCrate, JsonCrate, DigestCrate, Ed25519Crate, K256Crate, MlDsaCrate, RlpCrate,
          Bip32Crate, VsssCrate}.
Context `{!UlidLaws, !VsssLaws, !DigestLaws, !Ed25519Laws, !K256Laws, !MlDsaLaws, !JsonLaws}.
Context {P Sh A AS : Type} `{Policy P, ShareStoreLaws Sh, AuditSink A, ApprovalStore AS}.
Variable deny_text : DenyReason → string.
Variable registry_text : RegistryError → string.
Variable enclave_text : EnclaveError → string.
Variable signer_text : PolicyServiceSignerError → string.
Variable overflow_text : string.

(** The in-process enclave behind the service, with what its call draws. *)
#[export] Instance mock_enclave : Enclave (MockEnclave * Entropy) := {|
  enclave_generate e req := generate_wallet e.1 e.2 req;
  enclave_sign e req := sign_in_enclave e.1 e.2 req |}.

Implicit Types w : @World P Sh A AS.
Implicit Types self : @WalletService (MockEnclave * Entropy).
#[local] Abbreviation sign := (sign deny_text registry_text enclave_text signer_text overflow_text).
#[local] Abbreviation sign_decided := (sign_decided deny_text registry_text enclave_text signer_text overflow_text).

(** The store and the log answer. *)
Definition reachable (Sh A : Type) `{ShareStore Sh, AuditSink A} : Prop :=
  (∀ wid (s : Sh), ∃ ids, share_list wid s = Ok ids)
  ∧ (∀ d (a : A), ∃ e a', sink_emit d a = (Ok e, a')).

Lemma svc_run {W X Y} (m : Svc W X) (f : X → Svc W Y) (v : W) x v1 res :
  m v = Returns (Ok x, v1) → f x v1 = res → (m ≫= f) v = res.
Proof. intros Hm Hf. unfold mbind, svc_bind. by rewrite Hm. Qed.

Lemma emit_run d w : reachable Sh A → ∃ w', emit d w = Returns (Ok (), w') ∧ audited w w' [d].
Proof.
  intros [_ Hs]. destruct (Hs d (w_audit w)) as (e & a & He). unfold emit. rewrite He.
  eexists. split; [done|]. split; [done|]. by eapply sink_emit_ok.
Qed.

(** What [create_wallet] stores for one share. *)
Definition stored_as (wid : WalletId) (now : Z) (s : ShamirShare) : StoredShare := {|
  stored_id := ShareId_new wid (index s); stored_at_unix_ms := now; stored_share := s |}.

Lemma put_all_held wid now shares w u w' :
  NoDup (index <$> shares) →
  svc_iter (λ s, put_share (stored_as wid now s)) shares w = Returns (Ok u, w') →
  (∀ s, s ∈ shares → held (w_shares w') (ShareId_new wid (index s)) = Some (stored_as wid now s))
  ∧ (∀ id, id ∉ ShareId_new wid <$> (index <$> shares) → held (w_shares w') id = held (w_shares w) id).
Proof.
  revert w. induction shares as [|s shares IH]; intros w Hnd; cbn [svc_iter].
  - intros [_ <-]%svc_ret_ok. split; [by intros ? ?%elem_of_nil|done].
  - apply NoDup_cons in Hnd as [Hs Hnd]. intros (v & w1 & Hput & [H1' H2']%IH)%svc_bind_ok; [|done].
    unfold put_share in Hput. destruct (share_put _ _) as [[[]|] sh] eqn:Hp; [|done].
    injection Hput as _ <-. pose proof (share_put_law _ _ _ Hp) as Hl. cbn in Hl, H2'. split.
    + intros x [->|Hx]%elem_of_cons; [|by apply H1'].
      rewrite H2', Hl, bool_decide_eq_true_2; [done..|].
      by intros (i & [= <-] & Hi)%list_elem_of_fmap.
    + intros id Hid. cbn in Hid. apply not_elem_of_cons in Hid as [Hne Hid].
      rewrite H2', Hl, bool_decide_eq_false_2; done.
Qed.

Lemma create_wallet_ok self env config actor w rec w' :
  create_wallet self env config actor w = Returns (Ok rec, w') →
  ∃ gen w1 u, generate_wallet (svc_enclave self).1 (svc_enclave self).2 {|
        gen_wallet_id := fresh_wallet env; gen_scheme := cfg_scheme config;
        gen_threshold := cfg_threshold config; gen_total := cfg_total config;
        gen_master_hd_path := None |} = Returns (Ok gen)
    ∧ svc_iter (λ s, put_share (stored_as (fresh_wallet env) (now_ms env) s)) (gen_shares gen) w
        = Returns (Ok u, w1)
    ∧ w_shares w' = w_shares w1
    ∧ rec = {| wr_wallet_id := fresh_wallet env; wr_config := config;
               wr_master_public_key := gen_master_public_key gen; wr_status := WalletActive;
               wr_created_at_unix_ms := now_ms env |}
    ∧ w_wallets w' !! fresh_wallet env = Some rec.
Proof.
  unfold create_wallet. intros (gen & w0 & Hgen & Hr)%svc_bind_ok.
  cbn [enclave_generate mock_enclave] in Hgen. destruct (generate_wallet _ _ _) as [g|]; [|done].
  injection Hgen as Hg%map_err_ok <-. subst g.
  apply svc_bind_ok in Hr as (u & w1 & Hput & Hr).
  apply svc_bind_ok in Hr as (u2 & w2 & [= <- <-] & Hr).
  apply svc_bind_ok in Hr as (u3 & w3 & Ha%emit_ok & Hr). apply svc_ret_ok in Hr as [<- <-].
  exists gen, w1, u. split; [done|]. split; [exact Hput|]. destruct Ha as [-> _].
  split; [done|]. split; [done|]. cbn. by rewrite lookup_insert_eq.
Qed.

(** What the listing of a new wallet's shares leads to: the first [threshold]
    stored shares are a selection of the generated ones. *)
Lemma fetch_new_shares wid now shares w w1 u wallet t :
  reachable Sh A → NoDup (index <$> shares) →
  (∀ id, share_wallet_id id = wid → held (w_shares w) id = None) →
  svc_iter (λ s, put_share (stored_as wid now s)) shares w = Returns (Ok u, w1) →
  wr_wallet_id wallet = wid → 0 ≤ t ≤ Z.of_nat (length shares) →
  ∃ sel, NoDup sel ∧ Forall (λ i, (i < length shares)%nat) sel ∧ Z.of_nat (length sel) = t
    ∧ ∀ w2, w_shares w2 = w_shares w1 → fetch_shares wallet t w2 = Returns (Ok (stored_as wid now <$> pick shares sel), w2).
Proof.
  intros [Hlist _] Hnd Hfresh Hput Hwid Ht.
  destruct (put_all_held _ _ _ _ _ _ Hnd Hput) as [Hheld Hother].
  destruct (Hlist wid (w_shares w1)) as [ids Hids].
  destruct (share_list_law _ _ _ Hids) as [Hsorted Hin].
  set (mk := λ s, ShareId_new wid (index s)).
  assert (mk <$> shares = ShareId_new wid <$> (index <$> shares)) as Hmk by (by rewrite <-list_fmap_compose).
  assert (ids ≡ₚ mk <$> shares) as Hperm.
  { apply NoDup_Permutation; [by apply StronglySorted_index_NoDup|..].
    - rewrite Hmk. apply NoDup_fmap_2; [by intros ?? [=]|done].
    - intros id. rewrite Hin. split.
      + intros [Hw [st Hst]]. destruct (decide (id ∈ mk <$> shares)) as [|Hn]; [done|].
        rewrite Hmk in Hn. rewrite Hother, Hfresh in Hst; done.
      + intros (s & -> & Hs)%list_elem_of_fmap. split; [done|]. unfold mk. rewrite Hheld; done. }
  destruct (pick_of_sublist (mk <$> shares) (take (Z.to_nat t) ids)) as (sel & Hsel & Hb & Hpick).
  { apply (sublist_NoDup _ ids); [by apply StronglySorted_index_NoDup|apply sublist_take]. }
  { apply Forall_forall. intros id Hid. rewrite <-Hperm. by eapply subseteq_take. }
  rewrite length_fmap in Hb.
  assert (length ids = length shares) as Hlen by (by rewrite Hperm, length_fmap).
  exists sel. split; [done|]. split; [done|]. split.
  { apply (f_equal length) in Hpick. rewrite pick_length, length_take, Hlen in Hpick by (by rewrite length_fmap).
    lia. }
  intros w2 Hw2. unfold fetch_shares. rewrite Hwid, Hw2, Hids, Hlen, (proj2 (Z.ltb_ge _ _)) by lia.
  do 2 f_equal. apply map_result_ok. rewrite <-Hpick, <-pick_fmap.
  apply Forall2_fmap, Forall_Forall2_diag, Forall_forall. intros s Hs%pick_elem. apply map_err_ok.
  by apply share_get_law, Hheld.
Qed.

(** The service and the enclave agree on the policy key: none on either side, or
    the enclave pins the public half of the service's signing key, reads its
    clock within the decision's age and the payload respects the ceilings. *)
Definition keys_agree self (env : Draws) (wid : WalletId) (config : WalletConfig)
    (req : SigningRequest) : Prop :=
  match me_policy_service_pubkey (svc_enclave self).1, policy_service_signer self with
  | None, None => True
  | Some pk, Some s => ∃ key t, s = LocalPolicyServiceSigner_new key ∧ pk = ed_public key
      ∧ current_unix_ms overflow_text (signer_nanos env) = Ok t
      ∧ is_i64 (verify_ms (svc_enclave self).2)
      ∧ t ≤ verify_ms (svc_enclave self).2 ≤ t + MAX_DECISION_AGE_SECS_DEFAULT * 1000
      ∧ ceilings_hold req (ceilings_of wid config)
  | _, _ => False
  end.

Lemma current_unix_ms_i64 overflow nanos t : current_unix_ms overflow nanos = Ok t → is_i64 t.
Proof.
  unfold current_unix_ms. case_match eqn:Hb; [|done]. intros [= <-].
  by apply andb_true_iff in Hb as [?%Z.leb_le ?%Z.leb_le].
Qed.

Lemma allow_passes_hybrid self env wid r payload hd ctx h wallet i p rat w :
  reachable Sh A →
  keys_agree self env wid (wr_config wallet) (policy_request env wid payload r hd) →
  ∃ signed w', sign_policy_decision signer_text overflow_text self env wid (fresh_request env)
        (Allow i p rat) w = Returns (Ok signed, w')
    ∧ w_shares w' = w_shares w
    ∧ ∀ stored, hybrid_step (svc_enclave self).1 (svc_enclave self).2
        (enclave_request wallet wid (fresh_request env) payload hd ctx h signed stored) = Ok ().
Proof.
  intros Hr. unfold keys_agree, sign_policy_decision, hybrid_step.
  destruct (me_policy_service_pubkey _) as [pk|], (policy_service_signer self) as [s|]; try done.
  - intros (key & t & -> & -> & Ht & Hnow & Hage & Hc). unfold sign_decision. rewrite Ht.
    unfold mbind at 1, svc_bind at 1, svc_of. cbn [mbind result_bind mret result_ret map_err].
    match goal with |- context [emit ?d] => destruct (emit_run d w Hr) as (w' & Hem & [Hw' _]) end.
    eexists _, w'. split; [|split; [by rewrite Hw'|]].
    + eapply svc_run; [exact Hem|done].
    + intros stored. apply map_err_ok. cbn [enclave_request esr_policy_decision esr_approvals
        esr_policy_signing_payload esr_wallet_ceilings default from_option id].
      match goal with |- verify _ _ _ ?rq ?ce _ = _ =>
        change (verify (HybridVerifier_new (ed_public key))
          (Some (issued key (Allow i p rat) (request_id rq) (ceil_wallet_id ce) t
                   MAX_DECISION_AGE_SECS_DEFAULT)) [] rq ce
          (verify_ms (svc_enclave self).2) = Ok ())
      end.
      rewrite verify_issued; [|cbn; unfold MAX_APPROVALS; lia|by eapply current_unix_ms_i64|done|exact Hage].
      apply ceilings_spec. exact Hc.
  - intros _. eexists _, w. by split.
Qed.

(** The allowed path of [sign], run forward. *)
Lemma sign_allow_run self env wid wallet payload r hd ctx h w i pid rat p stored (Q : EnclaveSignResponse → Prop) :
  reachable Sh A → w_wallets w !! wid = Some wallet → wr_status wallet ≠ WalletStatusRevoked →
  policy_evaluate (w_policy w) (limiter_clock env) (fresh_decision env)
    (policy_request env wid payload r hd) = (Ok (Allow i pid rat), p) →
  keys_agree self env wid (wr_config wallet) (policy_request env wid payload r hd) →
  (∀ w2, w_shares w2 = w_shares w →
     fetch_shares wallet (cfg_threshold (wr_config wallet)) w2 = Returns (Ok stored, w2)) →
  (∀ signed, hybrid_step (svc_enclave self).1 (svc_enclave self).2
       (enclave_request wallet wid (fresh_request env) payload hd ctx h signed stored) = Ok () →
     ∃ resp, sign_in_enclave (svc_enclave self).1 (svc_enclave self).2
       (enclave_request wallet wid (fresh_request env) payload hd ctx h signed stored)
       = Returns (Ok resp) ∧ Q resp) →
  ∃ resp w', sign self env wid payload r hd ctx h w = Returns (Ok resp, w') ∧ Q resp.
Proof.
  intros Hr Hw Hst Hev Hk Hfetch Henc. unfold sign.
  unfold mbind at 1, svc_bind at 1, get_wallet. rewrite Hw. cbn [ok_or].
  rewrite bool_decide_eq_false_2 by done.
  unfold mbind at 1, svc_bind at 1.
  match goal with |- context [emit ?d ?x] => destruct (emit_run d x Hr) as (w1 & -> & [Hw1 _]) end.
  assert (w_policy w1 = w_policy w) as Hpol by (rewrite Hw1; done).
  unfold mbind at 1, svc_bind at 1, evaluate_policy. rewrite Hpol.
  change (policy_evaluate _ _ _ _) with
    (policy_evaluate (w_policy w) (limiter_clock env) (fresh_decision env) (policy_request env wid payload r hd)).
  rewrite Hev. cbn [map_err]. unfold mbind at 1, svc_bind at 1.
  match goal with |- context [emit ?d ?x] => destruct (emit_run d x Hr) as (w2 & -> & [Hw2 _]) end.
  assert (w_shares w2 = w_shares w) as Hsh by (rewrite Hw2, Hw1; done).
  destruct (allow_passes_hybrid self env wid r payload hd ctx h wallet i pid rat w2 Hr Hk)
    as (signed & w3 & Hsig & Hsh3 & Hhyb).
  destruct (Henc signed (Hhyb stored)) as (resp & Hresp & HQ). exists resp. unfold sign_decided.
  match goal with |- context [emit ?d] => destruct (emit_run d w3 Hr) as (w4 & Hem4 & _) end.
  match goal with |- context [draft_for ActorEnclave SigningSucceeded ?a ?b _] =>
    destruct (emit_run (draft_for ActorEnclave SigningSucceeded a b
      (JObject [("signature_hash_hex", JString (hex_encode (sha256 (resp_signature resp))))])) w4 Hr)
      as (w5 & Hem5 & _) end.
  exists w5. split; [|done].
  eapply svc_run; [done|]. eapply svc_run; [exact Hsig|].
  eapply svc_run; [apply Hfetch; congruence|]. eapply svc_run; [exact Hem4|].
  apply (svc_run _ _ _ (Ok resp) w4); [|eapply svc_run; [exact Hem5|done]].
  unfold call_enclave. cbn [enclave_sign mock_enclave].
  fold (enclave_request wallet wid (fresh_request env) payload hd ctx h signed stored). by rewrite Hresp.
Qed.

(** ** Properties *)

Lemma created_wallet_signs_ok self env config actor w rec w1
    self' env' wallet payload r ctx h w2 i pid rat p :
  create_wallet self env config actor w = Returns (Ok rec, w1) →
  entropy_ok (svc_enclave self).2 → entropy_ok (svc_enclave self').2 →
  cfg_total config ≤ 255 →
  (∀ id, share_wallet_id id = fresh_wallet env → held (w_shares w) id = None) →
  reachable Sh A →
  w_shares w2 = w_shares w1 → w_wallets w2 !! fresh_wallet env = Some wallet →
  wr_wallet_id wallet = wr_wallet_id rec → wr_config wallet = wr_config rec →
  wr_status wallet ≠ WalletStatusRevoked →
  policy_evaluate (w_policy w2) (limiter_clock env') (fresh_decision env')
    (policy_request env' (fresh_wallet env) payload r None) = (Ok (Allow i pid rat), p) →
  keys_agree self' env' (fresh_wallet env) config
    (policy_request env' (fresh_wallet env) payload r None) →
  good_hash (cfg_scheme config) h = true →
  ∃ resp w3, sign self' env' (fresh_wallet env) payload r None ctx h w2 = Returns (Ok resp, w3)
    ∧ resp_public_key resp = wr_master_public_key rec
    ∧ ∃ sg, signer_for_scheme (cfg_scheme config) = Ok sg
      ∧ Signers.verify sg (wr_master_public_key rec) (canonical_message_bytes payload)
          (resp_signature resp) h = Ok ().
Proof.
  intros (gen & w0 & u & Hgen & Hput & Hsh & -> & _)%create_wallet_ok He He' Htot Hfresh Hr
    Hw2 Hwal Hwid Hcfg Hst Hev Hk Hhash. cbn [wr_wallet_id wr_config wr_master_public_key] in *.
  apply generate_wallet_inv in Hgen as (Hparams & (sk & sg & Hsk & Hsg & Hpk) & Hsplit); [|done].
  cbn [gen_scheme gen_threshold gen_total gen_master_hd_path] in *.
  destruct (seed_bounds _ (cfg_scheme config) He) as [Hne Hlen].
  assert (params_ok {| threshold := cfg_threshold config; total := cfg_total config |}) as Hp by done.
  destruct (sharing_split _ _ (share_rng (svc_enclave self).2) Hp Hne Hlen) as (shares & Hs & Hn & Hidx & _).
  rewrite Hs in Hsplit. injection Hsplit as Heq. rewrite <-Heq in Hput. cbn [total] in Hn.
  destruct (fetch_new_shares _ _ _ _ _ _ wallet (cfg_threshold config) Hr Hidx Hfresh Hput)
    as (sel & Hnd & Hb & Ht & Hfetch); [done|lia|].
  eapply (sign_allow_run _ _ _ wallet _ _ _ _ _ _ _ _ _ _ (stored_as (fresh_wallet env) (now_ms env) <$> pick shares sel));
    rewrite ?Hcfg; try done.
  - intros w' Hw'. apply Hfetch. congruence.
  - intros signed Hhyb. set (req := enclave_request _ _ _ _ _ _ _ _ _) in *.
    assert (esr_scheme req = cfg_scheme config) as Hsch by (cbn; by rewrite Hcfg).
    rewrite <-Hsch in Hsk, Hsg, Hhash, Hs, Hne, Hlen.
    destruct (shares_sign _ _ req _ _ _ _ sel sk sg _ He' Hp Hne Hlen Hs Hsk Hsg Hpk Hhash Hhyb Hnd Hb)
      as (resp & Hresp & Hkey & Hver & _).
    + cbn [threshold]. lia.
    + cbn [req enclave_request esr_shares]. by rewrite <-list_fmap_compose, list_fmap_id.
    + exists resp. split; [done|]. split; [done|]. exists sg. by rewrite <-Hsch.
Qed.


Lemma quorum_needs_approvals v sd req ce now :
  HybridVerifier.verify v (Some sd) [] req ce now = Ok () →
  match decision sd with RequireQuorum _ _ t _ _ _ => t ≤ 0 | _ => True end.
Proof.
  unfold HybridVerifier.verify. cbn [length Nat.ltb Nat.leb].
  intros (? & _ & Hv)%result_bind_ok. apply result_bind_ok in Hv as (? & _ & Hv).
  apply result_bind_ok in Hv as (? & Hd & _). destruct (decision sd); [done..|].
  unfold check_approvals in Hd. cbn [count_approvals mbind result_bind mret result_ret] in Hd.
  by match type of Hd with context [0 <? ?t] => destruct (Z.ltb_spec 0 t) end.
Qed.

(** C32. The service hands the enclave no approvals, so the two halves of the hybrid
    scheme do not meet for quorum decisions: with a policy signer configured
    and an enclave that pins a policy key, a request whose policy decision
    requires a quorum of at least one is never signed, even when the quorum
    was collected. *)
Theorem signed_quorum_never_signs self env wid payload r hd ctx h w s pk i pid t n set rat p resp w' :
  policy_service_signer self = Some s →
  me_policy_service_pubkey (svc_enclave self).1 = Some pk → 1 ≤ t →
  policy_evaluate (w_policy w) (limiter_clock env) (fresh_decision env)
    (policy_request env wid payload r hd) = (Ok (RequireQuorum i pid t n set rat), p) →
  sign self env wid payload r hd ctx h w ≠ Returns (Ok resp, w').
Proof.
  intros Hs Hpk Ht Hev (wallet & d & p' & w1 & ds1 & _ & _ & Hev' & _ & _ & _ & Hd)%sign_ok.
  rewrite Hev in Hev'. injection Hev' as <- <-.
  apply sign_decided_ok in Hd as (kinds & signed & stored & ids & ds & _ & _ & Hb & _ & _ & He & _).
  destruct (Hb (mk_is_Some _ _ Hs)) as (b & -> & Hdec).
  cbn [enclave_sign mock_enclave] in He. apply sign_in_enclave_inv in He as (Hh & _).
  unfold hybrid_step in Hh. rewrite Hpk in Hh. apply map_err_ok, quorum_needs_approvals in Hh.
  rewrite Hdec in Hh. lia.
Qed.

End custody.

(** ** Approval submissions *)

Section submissions.
Context `{UlidCrate, JsonCrate, DigestCrate, Ed25519Crate, K256Crate, MlDsaCrate, RlpCrate}.
Context {P Sh A AS : Type} `{ApprovalStore AS}.
Variable registry_text : RegistryError → string.
Implicit Types w : @World P Sh A AS.

(** The approval is a fresh, valid approval of the message hash by the approver
    on record, who is not revoked. *)
Definition genuine (rec : ApproverRecord) (a : SignedApproval) (hash : bytes) (now : Z) : Prop :=
  identity rec = sa_approver a ∧ Registry.status rec ≠ Revoked ∧ sa_message_hash a = hash
  ∧ approval_verify a (sa_request_id a) hash now = Ok ().

(** What a recorded approval went through. *)
Lemma record_approval_checked now a aid hash w outcome w' :
  record_approval registry_text now a aid hash w = Returns (Ok outcome, w') →
  ∃ rec st, get_approver aid (w_registry w) = Ok rec ∧ genuine rec a hash now
    ∧ store_record a aid (w_approvals w) = (Ok outcome, st) ∧ w' = with_approvals w st.
Proof.
  unfold record_approval. destruct (get_approver aid _) as [rec|]; [|done].
  case_bool_decide as Hid; [|done]. cbn [negb]. case_bool_decide as Hst; [done|].
  destruct (approval_verify a _ hash now) as [[]|] eqn:Hv; [|done].
  destruct (store_record a aid _) as [[o|[]] st] eqn:Hr; try done. intros [= <- <-].
  exists rec, st. pose proof (proj1 (approval_verify_ok _ _ _ _) Hv) as (_ & Hm & _).
  split; [done|]. by split.
Qed.

(** An approval is recorded only for a registered approver that is not revoked,
    whose registered identity is the one the approval carries, and whose key
    signed this approval of the given message hash no more than an hour ago;
    the call changes nothing but the approval store, and that only through the
    store's own [record]. *)
Theorem recorded_approval_genuine now a aid hash w outcome w' :
  record_approval registry_text now a aid hash w = Returns (Ok outcome, w') →
  ∃ rec st, get_approver aid (w_registry w) = Ok rec ∧ genuine rec a hash now
    ∧ store_record a aid (w_approvals w) = (Ok outcome, st) ∧ w' = with_approvals w st.
Proof. apply record_approval_checked. Qed.

Lemma own_hash_verifies a now e :
  approval_verify a (sa_request_id a) (sa_message_hash a) now = Err e → e ≠ WrongMessage ∧ e ≠ WrongRequest.
Proof.
  unfold approval_verify. rewrite !bool_decide_eq_true_2 by done. cbn [ensure mbind result_bind].
  destruct (negb (_ <? 0)); cbn; [|by intros [= <-]].
  destruct (negb (_ <? _)); cbn; [|by intros [= <-]].
  destruct (dispatch_signer _ _); cbn; [done|]. by intros [= <-].
Qed.

(** The submission handler compares the submitted hash with itself: whatever the
    message of the request under approval is, a submission is never refused for
    naming another message, nor for naming another request. *)
Theorem submission_binding_unchecked now a aid w w' :
  submit_approval registry_text now a aid w
    ≠ Returns (Err (SvcQuorum (QeInvalidApproval WrongMessage)), w')
  ∧ submit_approval registry_text now a aid w
    ≠ Returns (Err (SvcQuorum (QeInvalidApproval WrongRequest)), w').
Proof.
  unfold submit_approval, record_approval.
  destruct (get_approver aid _) as [rec|]; [|done].
  destruct (negb _); [done|]. case_bool_decide; [done|].
  destruct (approval_verify _ _ _ _) as [|e] eqn:Hv.
  - by destruct (store_record a aid _) as [[|[]] ?].
  - apply own_hash_verifies in Hv as [Hm Hr]. split; intros [=]; auto.
Qed.

End submissions.

Module ServiceWitness.
Import Concrete ConcreteRlp RegistryWitness.

(** A log that keeps every draft and a policy that always answers the same. *)
Record ListSink := { kept : list AuditEventDraft }.
Definition keep (d : AuditEventDraft) (s : ListSink) : result AuditError AuditEvent * ListSink :=
  (Ok {| event_id := EventId_from_ulid 0; prev_event_hash := []; event_timestamp_unix_ms := 0;
         event_actor := draft_actor d; event_kind := draft_kind d;
         event_request_id := draft_request_id d; event_wallet_id := draft_wallet_id d;
         event_details := draft_details d; server_signature := [] |},
   {| kept := kept s ++ [d] |}).
#[export] Program Instance list_sink : AuditSink ListSink := {| sink_emit := keep; sink_trace := kept |}.
Next Obligation. by intros d a e a' [= _ <-]. Qed.
Next Obligation. by intros. Qed.

Record FixedPolicy := { fixed : PolicyDecision }.
#[export] Instance fixed_policy : Policy FixedPolicy := {| policy_evaluate p _ _ _ := (Ok (fixed p), p) |}.

Definition allow : PolicyDecision := HybridWitness.dec.
Definition quorum : PolicyDecision := HybridWitness.quorum.
Definition deny : PolicyDecision :=
  Deny (DecisionId_from_ulid 1) (PolicyId_from_ulid 2) WalletInactive [].

Definition wid : WalletId := WalletId_from_ulid 4.
Definition env : Draws := {|
  fresh_wallet := wid; fresh_request := RequestId_from_ulid 3; fresh_decision := DecisionId_from_ulid 1;
  limiter_clock _ := 0; now_ms := 1000; signer_nanos := 1000000000 |}.
Definition config : WalletConfig := {|
  display_name := "ops"; cfg_owner_id := OwnerId_new "o"; cfg_scheme := Ed25519; cfg_threshold := 2;
  cfg_total := 3; cfg_policy_id := PolicyId_from_ulid 2; cfg_max_value_per_tx := None;
  cfg_contract_allowlist := []; cfg_chain_allowlist := [] |}.
Definition world (d : PolicyDecision) : World := {|
  w_shares := mock_store_new; w_policy := {| fixed := d |}; w_audit := {| kept := [] |};
  w_registry := registry_new; w_approvals := store_new; w_wallets := ∅ |}.
Definition no_quorum : Quorum := {| q_request _ := Ok (); q_collect _ _ _ := Err (Timeout 0) |}.
Definition service : WalletService := {|
  svc_enclave := (EnclaveWitness.pinned, EnclaveWitness.ent); svc_quorum := no_quorum;
  svc_quorum_timeout := 0;
  policy_service_signer := Some (LocalPolicyServiceSigner_new HybridWitness.key) |}.
Definition text {X} (_ : X) : string := "".
#[local] Abbreviation sign := (sign text text text text "").

Lemma puts_run (f : ShamirShare → StoredShare) l (w : @World FixedPolicy MockShareStore ListSink MemoryApprovalStore) :
  ∃ w', svc_iter (λ s, put_share (f s)) l w = Returns (Ok (), w') ∧ w_policy w' = w_policy w.
Proof.
  revert w. induction l as [|s l IH]; intros w; [by eexists|].
  destruct (IH (with_shares w (mock_put (f s) (w_shares w)).2)) as (w' & Hw' & Hp). by exists w'.
Qed.

Lemma generated :
  generate_wallet EnclaveWitness.pinned EnclaveWitness.ent EnclaveWitness.gen
  = Returns (Ok EnclaveWitness.wallet).
Proof.
  transitivity (generate_wallet EnclaveWitness.enclave EnclaveWitness.ent EnclaveWitness.gen).
  - unfold generate_wallet.
    by replace (attestation_key EnclaveWitness.pinned) with (attestation_key EnclaveWitness.enclave).
  - reflexivity.
Qed.

Lemma created d : ∃ rec w1, create_wallet service env config ActorSystem (world d) = Returns (Ok rec, w1)
  ∧ w_policy w1 = {| fixed := d |} ∧ rec = {| wr_wallet_id := wid; wr_config := config;
      wr_master_public_key := gen_master_public_key EnclaveWitness.wallet; wr_status := WalletActive;
      wr_created_at_unix_ms := 1000 |}.
Proof.
  unfold create_wallet.
  change (enclave_generate _ _) with
    (generate_wallet EnclaveWitness.pinned EnclaveWitness.ent EnclaveWitness.gen).
  rewrite generated. unfold mbind at 1, svc_bind at 1. cbn [map_err].
  destruct (puts_run (λ s, {| stored_id := ShareId_new wid (index s); stored_at_unix_ms := 1000;
                              stored_share := s |}) (gen_shares EnclaveWitness.wallet) (world d)) as (w' & Hw' & Hp).
  eexists _, _. split; [eapply svc_run; [exact Hw'|done]|]. split; [exact Hp|done].
Qed.

Lemma memory_reachable : WalletServiceProps.reachable MockShareStore ListSink.
Proof. split; intros; by do 2 eexists || eexists. Qed.

(** The record of the new wallet, frozen. *)
Definition freeze (r : WalletRecord) : WalletRecord := {|
  wr_wallet_id := wr_wallet_id r; wr_config := wr_config r;
  wr_master_public_key := wr_master_public_key r; wr_status := WalletFrozen;
  wr_created_at_unix_ms := wr_created_at_unix_ms r |}.

Lemma allowed_keys_agree payload :
  (∃ bs, payload = Raw bs) →
  keys_agree "" service env wid config (policy_request env wid payload (ApiKey "k") None).
Proof.
  intros [bs ->]. exists HybridWitness.key, 1000. split; [done|]. split; [done|]. split; [done|].
  split; [split; vm_compute; congruence|]. split; [vm_compute; split; congruence|].
  split; [done|]. by split.
Qed.

Definition ctx : SigningContext := {| ctx_chain_id := None; ctx_vm_type := None; ctx_extra := JNull |}.


Example denied_request_stops_witness :
  ∃ e w', sign service env wid (Raw []) (ApiKey "k") None ctx HashNone
      (with_wallets (world deny) {[wid := freeze {| wr_wallet_id := wid; wr_config := config;
         wr_master_public_key := []; wr_status := WalletActive; wr_created_at_unix_ms := 0 |}]})
    = Returns (Err e, w') ∧ w_shares w' = mock_store_new.
Proof.
  destruct (denied_request_stops text text text text "" service env wid (Raw []) (ApiKey "k") None ctx
    HashNone (with_wallets (world deny) {[wid := freeze {| wr_wallet_id := wid; wr_config := config;
         wr_master_public_key := []; wr_status := WalletActive; wr_created_at_unix_ms := 0 |}]})
    (freeze {| wr_wallet_id := wid; wr_config := config;
         wr_master_public_key := []; wr_status := WalletActive; wr_created_at_unix_ms := 0 |})
    (DecisionId_from_ulid 1) (PolicyId_from_ulid 2) WalletInactive [] {| fixed := deny |})
    as (e & w' & Hs & Hsh & _).
  - reflexivity.
  - discriminate.
  - reflexivity.
  - exists e, w'. split; [exact Hs|exact Hsh].
Defined.

Example signed_quorum_never_signs_witness :
  match sign service env wid (Raw []) (ApiKey "k") None ctx HashNone (world quorum) with
  | Returns (Ok _, _) => False
  | _ => True
  end.
Proof.
  destruct (sign service env wid (Raw []) (ApiKey "k") None ctx HashNone (world quorum))
    as [[[resp|] w']|] eqn:Hs; [|exact I|exact I].
  revert Hs.
  apply (signed_quorum_never_signs text text text text "" service env wid (Raw []) (ApiKey "k") None ctx
    HashNone (world quorum) (LocalPolicyServiceSigner_new HybridWitness.key) (ed_public HybridWitness.key)
    (DecisionId_from_ulid 1) (PolicyId_from_ulid 2) 2 3 (ApproverSetId_from_ulid 6) [] {| fixed := quorum |});
    [reflexivity|reflexivity|lia|reflexivity].
Defined.

(** A quorum call against an enclave that signs whatever it is asked. *)
Record YesEnclave := { answer : EnclaveSignResponse }.
#[export] Instance yes_enclave : Enclave YesEnclave := {|
  enclave_generate _ _ := Returns (Err MockNotAllowed); enclave_sign e _ := Returns (Ok (answer e)) |}.

Definition alice : ApproverId := ApproverId_from_ulid 21.
Definition approval : SignedApproval := {|
  sa_approval_id := sa_approval_id ApprovalWitness.unsigned; sa_approver := sa_approver ApprovalWitness.unsigned;
  sa_request_id := sa_request_id ApprovalWitness.unsigned;
  sa_message_hash := sa_message_hash ApprovalWitness.unsigned; sa_decision := Approve;
  sa_timestamp_unix_ms := 2000;
  sa_signature := ed_sign (be_bytes 32 9) (preimage ApprovalWitness.unsigned) |}.
Definition approving : @WalletService YesEnclave := {|
  svc_enclave := {| answer := {| resp_signature := [x01]; resp_public_key := [];
                                 resp_attestation := gen_attestation EnclaveWitness.wallet |} |};
  svc_quorum := {| q_request _ := Ok (); q_collect _ _ _ := Ok [approval; approval] |};
  svc_quorum_timeout := 0; policy_service_signer := None |}.
Definition share (i : Z) : StoredShare := {|
  stored_id := ShareId_new wid i; stored_at_unix_ms := 0;
  stored_share := {| index := i; params := {| threshold := 2; total := 3 |}; blob := [] |} |}.
Definition stocked : @World FixedPolicy MockShareStore ListSink MemoryApprovalStore := {|
  w_shares := {| mock_inner := {[ShareId_new wid 1 := share 1; ShareId_new wid 2 := share 2]} |};
  w_policy := {| fixed := quorum |}; w_audit := {| kept := [] |};
  w_registry := registry_new; w_approvals := store_new;
  w_wallets := {[wid := {| wr_wallet_id := wid; wr_config := config; wr_master_public_key := [];
                           wr_status := WalletActive; wr_created_at_unix_ms := 0 |}]} |}.
Definition quorum_call := sign approving env wid (Raw [x01]) (ApiKey "k") None ctx HashNone stocked.

Lemma quorum_call_signs : ∃ resp w', quorum_call = Returns (Ok resp, w').
Proof.
  assert (match quorum_call with Returns (Ok _, _) => true | _ => false end = true) as Hq by reflexivity.
  destruct quorum_call as [[[resp|] w']|]; [by eexists _, _|done..].
Qed.

Example sign_authorised_witness : ∃ d p,
  policy_evaluate (w_policy stocked) (limiter_clock env) (fresh_decision env)
    (policy_request env wid (Raw [x01]) (ApiKey "k") None) = (Ok d, p)
  ∧ ∃ kinds, decision_passed approving (RequestId_from_ulid 3) d kinds.
Proof.
  destruct quorum_call_signs as (resp & w' & Hs).
  destruct (sign_authorised text text text text "" approving env wid (Raw [x01]) (ApiKey "k") None ctx HashNone
              stocked resp w' Hs) as (wallet & d & p & kinds & _ & _ & _ & _ & _ & Hev & Hd & _).
  exists d, p. split; [exact Hev|]. exists kinds. exact Hd.
Defined.

Example sign_audit_trail_witness : ∃ kinds ds (w' : @World FixedPolicy MockShareStore ListSink MemoryApprovalStore),
  sink_trace (w_audit w') = [] ++ ds
  ∧ draft_kind <$> ds = [SigningRequested; SigningEvaluated] ++ kinds ++ [SigningAttempted; SigningSucceeded].
Proof.
  destruct quorum_call_signs as (resp & w' & Hs).
  destruct (sign_audit_trail text text text text "" approving env wid (Raw [x01]) (ApiKey "k") None ctx HashNone
              stocked resp w' Hs) as (d & p & kinds & ds & _ & _ & Ht & Hk & _).
  exists kinds, ds, w'. split; [exact Ht|exact Hk].
Defined.

Definition registered : @World FixedPolicy MockShareStore ListSink MemoryApprovalStore := {|
  w_shares := mock_store_new; w_policy := {| fixed := quorum |}; w_audit := {| kept := [] |};
  w_registry := (add_approver alice 0 {| ac_identity := sa_approver approval; ac_label := "alice";
                   ac_owner_id := OwnerId_new "o"; ac_webhook_url := None |} registry_new).2;
  w_approvals := store_new; w_wallets := ∅ |}.

Lemma approval_verifies : approval_verify approval (sa_request_id approval) (sa_message_hash approval) 3000 = Ok ().
Proof.
  apply approval_verify_ok. split; [done|]. split; [done|].
  split; [vm_compute; congruence|]. split; [vm_compute; congruence|]. vm_compute. reflexivity.
Qed.

Lemma approval_recorded : ∃ w',
  record_approval text 3000 approval alice (sa_message_hash approval) registered = Returns (Ok Inserted, w').
Proof.
  assert (∃ rec, get_approver alice (w_registry registered) = Ok rec ∧ identity rec = sa_approver approval
            ∧ Registry.status rec = Active) as (rec & Hg & Hi & Hs) by (eexists; split; [reflexivity|done]).
  unfold record_approval. rewrite Hg, approval_verifies, bool_decide_eq_true_2 by done. cbn [negb].
  rewrite bool_decide_eq_false_2 by congruence. by eexists.
Qed.

Example recorded_approval_genuine_witness : ∃ rec,
  get_approver alice (w_registry registered) = Ok rec
  ∧ genuine rec approval (sa_message_hash approval) 3000.
Proof.
  destruct approval_recorded as (w' & Hw').
  destruct (recorded_approval_genuine text 3000 approval alice (sa_message_hash approval) registered Inserted w' Hw')
    as (rec & st & Hg & Hi & _).
  exists rec. split; [exact Hg|exact Hi].
Defined.

End ServiceWitness.
