(* ===== verification/Notifiers.v ===== *)
(** * Notifiers: how approvers learn of a request, and the in-memory quorum
    ([approvers/webhook.rs], [approvers/hardware.rs], [approvers/onchain.rs],
    [mock.rs] of crate qfc-quorum)

    The three notify-only approvers and [MockQuorumApprover].  The HTTP client,
    the HMAC and the broadcast channel are parameters. *)

From S2P Require Import Prelude Text Types External SignedDecision Attestation Approval ApprovalStore Orchestrating WalletService.
#[local] Open Scope string_scope.
#[local] Open Scope list_scope.
#[local] Open Scope Z_scope.

(** ** [hmac], [reqwest], [tokio::sync::broadcast] *)

Class HmacCrate := { hmac_sha256 : bytes → bytes → bytes }.
Class HmacLaws `{HmacCrate} : Prop := { hmac_sha256_length : ∀ k m, length (hmac_sha256 k m) = 32%nat }.

(** Sending a POST: the text of a transport error, or the status. *)
Record HttpPost := { post_url : string; post_headers : list (string * string); post_body : bytes }.
Class HttpClient := {
  http_send : HttpPost → result string Z;
  status_text : Z → string;
}.

Definition is_success (status : Z) : bool := (200 <=? status) && (status <? 300).

(** ** serde of [ApprovalRequest] *)

Section notify.
Context `{UlidCrate, JsonCrate}.

Definition identity_json (i : ApproverIdentity) : Json :=
  match i with
  | Chain chain_id address public_key scheme =>
      JObject [("kind", JString "chain"); ("chain_id", JNumber chain_id); ("address", json_bytes address);
               ("public_key", json_bytes public_key); ("scheme", scheme_json scheme)]
  | Approval.External id public_key scheme =>
      JObject [("kind", JString "external"); ("id", JString id); ("public_key", json_bytes public_key);
               ("scheme", scheme_json scheme)]
  | Hardware h =>
      JObject [("kind", JString "hardware"); ("handle", JString (handle h));
               ("public_key", json_bytes (hw_public_key h)); ("scheme", scheme_json (hw_scheme h))]
  | Approval.NestedWallet w public_key scheme =>
      JObject [("kind", JString "nested_wallet"); ("wallet_id", json_ulid (WalletId_ulid w));
               ("public_key", json_bytes public_key); ("scheme", scheme_json scheme)]
  end.

Definition approval_request_json (r : ApprovalRequest) : Json :=
  JObject [("request_id", json_ulid (RequestId_ulid (ar_request_id r)));
           ("message_hash", JString (hex_encode (ar_message_hash r)));
           ("approver_set", JArray (identity_json <$> ar_approver_set r));
           ("threshold", JNumber (ar_threshold r))].

(** ** [webhook.rs] *)

Definition WEBHOOK_SIGNATURE_HEADER : string := "x-qfc-signature".

(** Durations in seconds. *)
Record WebhookApproverConfig := { wh_timeout : Z; wh_endpoint : string; wh_hmac_secret : bytes }.
Definition webhook_config (endpoint : string) (hmac_secret : bytes) : WebhookApproverConfig :=
  {| wh_timeout := 5; wh_endpoint := endpoint; wh_hmac_secret := hmac_secret |}.

Context `{HmacCrate, HttpClient}.

Definition hmac_sha256_hex (secret payload : bytes) : string := hex_encode (hmac_sha256 secret payload).

(** The request [notify] sends. *)
Definition webhook_post (endpoint : string) (secret : bytes) (req : ApprovalRequest) : HttpPost :=
  let body := json_to_vec (approval_request_json req) in
  {| post_url := endpoint;
     post_headers := [("content-type", "application/json");
                      (WEBHOOK_SIGNATURE_HEADER, hmac_sha256_hex secret body)];
     post_body := body |}.

Definition notify (config : WebhookApproverConfig) (req : ApprovalRequest) : result QuorumError () :=
  match http_send (webhook_post (wh_endpoint config) (wh_hmac_secret config) req) with
  | Err e => Err (Transport ("send webhook: " +:+ e))
  | Ok status =>
      if negb (is_success status) then Err (Transport ("webhook returned " +:+ status_text status)) else Ok ()
  end.

Definition webhook_collect (_ : RequestId) (_ _ : Z) : result QuorumError (list SignedApproval) :=
  Err (Transport "WebhookApprover is notify-only; use OrchestratingApprover for collection").

(** ** [hardware.rs] *)

Record HardwareApproverNotifierConfig := { hn_endpoint : string; hn_hmac_secret : bytes; hn_timeout : Z }.
Definition hardware_config (endpoint : string) (hmac_secret : bytes) : HardwareApproverNotifierConfig :=
  {| hn_endpoint := endpoint; hn_hmac_secret := hmac_secret; hn_timeout := 5 |}.

Definition hardware_dispatch (config : HardwareApproverNotifierConfig) (req : ApprovalRequest)
    : result QuorumError () :=
  match http_send (webhook_post (hn_endpoint config) (hn_hmac_secret config) req) with
  | Err e => Err (Transport ("send hw notify: " +:+ e))
  | Ok status =>
      if negb (is_success status) then Err (Transport ("hw notify returned " +:+ status_text status)) else Ok ()
  end.

Definition hardware_collect (_ : RequestId) (_ _ : Z) : result QuorumError (list SignedApproval) :=
  Err (Transport "HardwareApproverNotifier is dispatch-only; use OrchestratingApprover").
End notify.

(** ** [onchain.rs] *)

Record OnChainEvent := { ev_request_id : RequestId; ev_message_hash : bytes }.

(** A broadcast sender: sending fails when nobody listens. *)
Class BroadcastCrate (Tx : Type) := {
  bc_channel : nat → Tx;
  bc_subscribe : Tx → Tx;
  bc_send : OnChainEvent → Tx → option Tx;
}.

Section onchain.
Context {Tx : Type} `{!BroadcastCrate Tx}.

Definition onchain_new (channel_capacity : nat) : Tx := bc_channel channel_capacity.
Definition onchain_subscribe (tx : Tx) : Tx := bc_subscribe tx.
Definition onchain_emit (req : ApprovalRequest) (tx : Tx) : Tx :=
  default tx (bc_send {| ev_request_id := ar_request_id req; ev_message_hash := ar_message_hash req |} tx).
Definition onchain_request (req : ApprovalRequest) (tx : Tx) : result QuorumError () * Tx :=
  (Ok (), onchain_emit req tx).
Definition onchain_collect (_ : RequestId) (_ _ : Z) : result QuorumError (list SignedApproval) :=
  Err (Transport "OnChainQfcEventApprover is notify-only (stub); collection is M4+ with qfc-core").
End onchain.

(** ** [mock.rs] *)

Record MockQuorumApprover := {
  submitted : gmap RequestId (list SignedApproval);
  notified : gmap RequestId Z;
}.

Definition mock_quorum_new : MockQuorumApprover := {| submitted := ∅; notified := ∅ |}.

Definition mock_submit (a : SignedApproval) (q : MockQuorumApprover) : MockQuorumApprover := {|
  submitted := <[sa_request_id a := default [] (submitted q !! sa_request_id a) ++ [a]]> (submitted q);
  notified := notified q |}.

Definition notification_count (r : RequestId) (q : MockQuorumApprover) : Z := default 0 (notified q !! r).

Definition mock_request (req : ApprovalRequest) (q : MockQuorumApprover)
    : result QuorumError () * MockQuorumApprover :=
  (Ok (), {| submitted := submitted q;
             notified := <[ar_request_id req := notification_count (ar_request_id req) q + 1]> (notified q) |}).

(** One iteration of the loop, at elapsed time [elapsed]. *)
Definition mock_poll (r : RequestId) (threshold timeout : Z) (q : MockQuorumApprover) (elapsed : Z)
    : option (result QuorumError (list SignedApproval)) :=
  let decided :=
    match submitted q !! r with
    | None => None
    | Some list =>
        match List.find (λ a, bool_decide (sa_decision a = Reject)) list with
        | Some reject => Some [reject]
        | None =>
            let approvals := List.filter (λ a, bool_decide (sa_decision a = Approve)) list in
            if threshold <=? Z.of_nat (length approvals) then Some approvals else None
        end
    end in
  match decided with
  | Some l => Some (Ok l)
  | None => if timeout <=? elapsed then Some (Err (Timeout timeout)) else None
  end.

Fixpoint mock_collect_from (fuel n : nat) (r : RequestId) (threshold timeout : Z)
    (snapshot : nat → MockQuorumApprover) (elapsed : nat → Z)
    : option (result QuorumError (list SignedApproval)) :=
  match fuel with
  | O => None
  | S fuel =>
      match mock_poll r threshold timeout (snapshot n) (elapsed n) with
      | Some res => Some res
      | None => mock_collect_from fuel (S n) r threshold timeout snapshot elapsed
      end
  end.
Definition mock_collect (fuel : nat) := mock_collect_from fuel 0.

(** ** Properties *)

Section equivalence.
Context {St : Type} `{UlidCrate, !ApprovalStore St}.

Lemma mock_poll_agrees r threshold timeout q (st : St) elapsed :
  0 < threshold → store_list r st = Ok (default [] (submitted q !! r)) →
  mock_poll r threshold timeout q elapsed = poll r threshold timeout st elapsed.
Proof.
  intros Ht Hl. unfold mock_poll, poll. rewrite Hl.
  assert ((Z.max 0 (timeout - elapsed) =? 0) = (timeout <=? elapsed)) as ->.
  { destruct (Z.leb_spec timeout elapsed), (Z.eqb_spec (Z.max 0 (timeout - elapsed)) 0); lia || done. }
  destruct (submitted q !! r) as [l|]; cbn.
  - destruct (List.find _ l); [done|]. by destruct (threshold <=? _).
  - destruct (Z.leb_spec threshold (Z.of_nat 0)); [lia|done].
Qed.

(** The in-memory quorum stands in for the orchestrating one: where the
    approvals submitted to it are those the store lists, and at least one is
    needed, the two collections return the same, poll for poll. *)
Theorem mock_quorum_collects_alike fuel r threshold timeout snap (store : nat → St) elapsed :
  0 < threshold → (∀ n, store_list r (store n) = Ok (default [] (submitted (snap n) !! r))) →
  mock_collect fuel r threshold timeout snap elapsed = collect_approvals fuel r threshold timeout store elapsed.
Proof.
  intros Ht Hl. unfold mock_collect, collect_approvals. generalize 0%nat as n.
  induction fuel as [|fuel IH]; intros n; [done|]. cbn [mock_collect_from collect_from].
  rewrite (mock_poll_agrees _ _ _ _ (store n)) by done. by destruct (poll _ _ _ _ _).
Qed.
End equivalence.
