(* ===== verification/ApiSchemas.v ===== *)
(** * ApiSchemas: the HTTP wire shapes and their conversion to the domain

    Models [crates/qfc-server-wallet/src/api/schemas.rs] and [api/error.rs]: the
    request and response shapes (bytes as hex text, identifiers as ULID text),
    the lowering of requests, the raising of records, and the classification
    of service errors as HTTP statuses.  The message texts of errors that are
    only embedded in hints are functions of the class [ErrorTexts]. *)

From S2P Require Import Prelude Text Types External PolicyTypes SignedDecision Attestation MockEnclave Approval Registry ApprovalStore AuditLog ShareStore WalletService.
#[local] Open Scope string_scope.
#[local] Open Scope list_scope.
#[local] Open Scope Z_scope.

(** ** [api/error.rs] *)

Inductive ApiError :=
  | BadRequest (m : string)
  | Unauthorized (m : string)
  | Forbidden (m : string)
  | NotFound (m : string)
  | Conflict (m : string)
  | UnprocessableEntity (m : string)
  | ApiInternal (m : string).

(** Status code, stable classification and hint. *)
Definition api_parts (e : ApiError) : Z * string * string :=
  match e with
  | BadRequest m => (400, "bad_request", m)
  | Unauthorized m => (401, "unauthorized", m)
  | Forbidden m => (403, "policy_denied", m)
  | NotFound m => (404, "wallet_not_found", m)
  | Conflict m => (409, "quorum_failed", m)
  | UnprocessableEntity m => (422, "approval_verification_failed", m)
  | ApiInternal m => (500, "internal_error", m)
  end.

(** The [Display] texts that only travel inside a hint. *)
Class ErrorTexts := {
  ulid_text : string → string;
  hex_text : string → string;
  hd_path_text : HdPath.ParseError → string;
  quorum_text : QuorumError → string;
  verify_text : ApprovalVerifyError → string;
  enclave_error_text : EnclaveError → string;
  audit_text : AuditError → string;
  share_text : ShareStoreError → string;
  policy_text : PolicyError → string;
  json_text : string → string;
  store_text : StoreError → string;
  deny_reason_text : DenyReason → string;
  signer_error_text : PolicyServiceSignerError → string;
  overflow_error_text : string;
}.

(** [Display] of [RegistryError] ([registry/types.rs]). *)
Definition registry_error_text `{UlidCrate} (e : RegistryError) : string :=
  match e with
  | RegIo why => "registry I/O error: " +:+ why
  | ApproverNotFound a => "approver not found: " +:+ ulid_to_string (ApproverId_ulid a)
  | ApproverSetNotFound s => "approver set not found: " +:+ ulid_to_string (ApproverSetId_ulid s)
  | UnknownMember a => "approver set references unknown approver: " +:+ ulid_to_string (ApproverId_ulid a)
  | RevokedMember a => "approver set references revoked approver: " +:+ ulid_to_string (ApproverId_ulid a)
  | MemberCountMismatch n total =>
      "approver set membership / total mismatch: members=" +:+ show_dec (Z.of_nat n)
      +:+ ", total=" +:+ show_dec total
  | InvalidThreshold threshold total =>
      "invalid threshold " +:+ show_dec threshold +:+ " for total " +:+ show_dec total
  | DuplicateMember a =>
      "approver set members must be unique; duplicate: " +:+ ulid_to_string (ApproverId_ulid a)
  | NestingCycle w =>
      "nested-wallet membership induces a cycle through wallet " +:+ ulid_to_string (WalletId_ulid w)
  | NestingTooDeep d => "nested-wallet membership exceeds max nesting depth " +:+ show_dec d
  end.

(** [From<ServiceError> for ApiError]. *)
Definition api_error_of `{UlidCrate, ErrorTexts} (e : ServiceError) : ApiError :=
  match e with
  | WalletNotFound id => NotFound ("wallet " +:+ ulid_to_string (WalletId_ulid id) +:+ " not found")
  | PolicyDenied msg => Forbidden msg
  | SvcQuorum e => Conflict (quorum_text e)
  | SvcEnclave e => ApiInternal ("enclave: " +:+ enclave_error_text e)
  | SvcAudit e => ApiInternal ("audit: " +:+ audit_text e)
  | SvcStore e => ApiInternal ("store: " +:+ share_text e)
  | SvcPolicy e => ApiInternal ("policy: " +:+ policy_text e)
  | InsufficientShares e => ApiInternal ("shares: " +:+ e)
  | Internal msg => ApiInternal msg
  end.

(** ** Mirror enums *)

Inductive SigningSchemeDto :=
  | DtoEd25519 | DtoSecp256k1 | DtoSecp256k1Recoverable | DtoMlDsa44 | DtoMlDsa65 | DtoMlDsa87.

Definition scheme_of_dto (d : SigningSchemeDto) : SigningScheme :=
  match d with
  | DtoEd25519 => Ed25519 | DtoSecp256k1 => Secp256k1
  | DtoSecp256k1Recoverable => Secp256k1Recoverable
  | DtoMlDsa44 => MlDsa44 | DtoMlDsa65 => MlDsa65 | DtoMlDsa87 => MlDsa87
  end.

Definition dto_of_scheme (s : SigningScheme) : SigningSchemeDto :=
  match s with
  | Ed25519 => DtoEd25519 | Secp256k1 => DtoSecp256k1
  | Secp256k1Recoverable => DtoSecp256k1Recoverable
  | MlDsa44 => DtoMlDsa44 | MlDsa65 => DtoMlDsa65 | MlDsa87 => DtoMlDsa87
  end.

Inductive HashAlgDto := DtoHashNone | DtoSha256 | DtoKeccak256 | DtoBlake3.
Definition hash_of_dto (d : HashAlgDto) : HashAlg :=
  match d with
  | DtoHashNone => HashNone | DtoSha256 => Sha256 | DtoKeccak256 => Keccak256 | DtoBlake3 => Blake3
  end.

Inductive VmTypeDto := DtoEvm | DtoQvm | DtoWasm.
Definition vm_of_dto (d : VmTypeDto) : VmType :=
  match d with DtoEvm => Evm | DtoQvm => Qvm | DtoWasm => Wasm end.

Inductive AuditKindDto :=
  | DtoWalletCreated | DtoWalletRevoked | DtoSigningRequested | DtoSigningEvaluated
  | DtoQuorumNotified | DtoQuorumApprovalReceived | DtoQuorumApprovalRejected | DtoQuorumTimedOut
  | DtoQuorumThresholdReached | DtoSigningAttempted | DtoSigningSucceeded | DtoSigningFailed
  | DtoPolicyChanged | DtoApproverSetChanged | DtoSystemError | DtoEnclaveAttested
  | DtoPolicyDecisionSigned.

Definition dto_of_kind (k : AuditKind) : AuditKindDto :=
  match k with
  | WalletCreated => DtoWalletCreated | WalletRevoked => DtoWalletRevoked
  | SigningRequested => DtoSigningRequested | SigningEvaluated => DtoSigningEvaluated
  | QuorumNotified => DtoQuorumNotified | QuorumApprovalReceived => DtoQuorumApprovalReceived
  | QuorumApprovalRejected => DtoQuorumApprovalRejected | QuorumTimedOut => DtoQuorumTimedOut
  | QuorumThresholdReached => DtoQuorumThresholdReached | SigningAttempted => DtoSigningAttempted
  | SigningSucceeded => DtoSigningSucceeded | SigningFailed => DtoSigningFailed
  | PolicyChanged => DtoPolicyChanged | ApproverSetChanged => DtoApproverSetChanged
  | SystemError => DtoSystemError | EnclaveAttested => DtoEnclaveAttested
  | PolicyDecisionSigned => DtoPolicyDecisionSigned
  end.

Inductive WalletStatusDto := DtoActive | DtoFrozen | DtoRevoked.
Definition dto_of_status (s : WalletStatus) : WalletStatusDto :=
  match s with WalletActive => DtoActive | WalletFrozen => DtoFrozen | WalletStatusRevoked => DtoRevoked end.

Inductive ApproverStatusDto := DtoApproverActive | DtoApproverRevoked.
Definition dto_of_approver_status (s : ApproverStatus) : ApproverStatusDto :=
  match s with Active => DtoApproverActive | Revoked => DtoApproverRevoked end.

Inductive ApprovalDecisionDto := DtoApprove | DtoReject.
Definition decision_of_dto (d : ApprovalDecisionDto) : ApprovalDecision :=
  match d with DtoApprove => Approve | DtoReject => Reject end.
Definition dto_of_decision (d : ApprovalDecision) : ApprovalDecisionDto :=
  match d with Approve => DtoApprove | Reject => DtoReject end.

(** ** Wire shapes *)

Record CreateWalletRequest := {
  cwr_scheme : SigningSchemeDto;
  cwr_threshold : Z;
  cwr_total : Z;
  cwr_display_name : string;
  cwr_owner_id : string;
  cwr_policy_id : option string;
}.

Record WalletView := {
  wv_wallet_id : string;
  wv_scheme : SigningSchemeDto;
  wv_threshold : Z;
  wv_total : Z;
  wv_display_name : string;
  wv_owner_id : string;
  wv_policy_id : string;
  wv_master_public_key_hex : string;
  wv_status : WalletStatusDto;
  wv_created_at_unix_ms : Z;
}.

Inductive RequesterDto :=
  | DtoApiKey (key_id : string)
  | DtoOauthSubject (sub : string)
  | DtoNestedWallet (wallet_id : string)
  | DtoOnChainContract (chain_id : Z) (address_hex : string).

Inductive SigningPayloadDto :=
  | DtoRaw (bytes_hex : string)
  | DtoPersonalSign (bytes_hex : string)
  | DtoTypedData (json : Json)
  | DtoVmTransaction (vm : VmTypeDto) (chain_id : Z) (to_hex : option string) (raw_hex : string).

Record SigningContextDto := {
  scd_chain_id : option Z; scd_vm_type : option string; scd_extra : Json }.
Definition SigningContextDto_default : SigningContextDto :=
  {| scd_chain_id := None; scd_vm_type := None; scd_extra := JNull |}.
Definition context_of_dto (d : SigningContextDto) : SigningContext :=
  {| ctx_chain_id := scd_chain_id d; ctx_vm_type := scd_vm_type d; ctx_extra := scd_extra d |}.

Record SignRequest := {
  sr_payload : SigningPayloadDto;
  sr_requester : RequesterDto;
  sr_hd_path : option string;
  sr_hash_alg : HashAlgDto;
  sr_context : option SigningContextDto;
}.

Record SignResponse := {
  srs_signature_hex : string; srs_public_key_hex : string; srs_attestation : Json }.

Record AuditEventsQuery := { aq_wallet_id : option string; aq_limit : option Z }.

Record AuditEventView := {
  aev_event_id : string;
  aev_prev_event_hash_hex : string;
  aev_timestamp_unix_ms : Z;
  aev_actor : Json;
  aev_kind : AuditKindDto;
  aev_request_id : option string;
  aev_wallet_id : option string;
  aev_details : Json;
  aev_server_signature_hex : string;
}.

Inductive ApproverIdentityDto :=
  | DtoChain (chain_id : Z) (address_hex public_key_hex : string) (scheme : SigningSchemeDto)
  | DtoExternal (id public_key_hex : string) (scheme : SigningSchemeDto)
  | DtoHardware (handle public_key_hex : string) (scheme : SigningSchemeDto)
  | DtoNested (wallet_id public_key_hex : string) (scheme : SigningSchemeDto).

Record CreateApproverRequest := {
  car_identity : ApproverIdentityDto; car_label : string; car_owner_id : string;
  car_webhook_url : option string }.

Record ApproverView := {
  av_approver_id : string;
  av_identity : ApproverIdentityDto;
  av_scheme : SigningSchemeDto;
  av_label : string;
  av_owner_id : string;
  av_webhook_url : option string;
  av_status : ApproverStatusDto;
  av_added_at_unix_ms : Z;
}.

Record CreateApproverSetRequest := {
  csr_name : string; csr_owner_id : string; csr_members : list string;
  csr_threshold : Z; csr_total : Z; csr_quorum_timeout_secs : option Z }.

Record ApproverSetView := {
  asv_approver_set_id : string;
  asv_name : string;
  asv_owner_id : string;
  asv_members : list string;
  asv_threshold : Z;
  asv_total : Z;
  asv_quorum_timeout_secs : option Z;
  asv_created_at_unix_ms : Z;
}.

Record SubmitApprovalRequest := {
  sar_approver_id : string;
  sar_approval_id : string;
  sar_decision : ApprovalDecisionDto;
  sar_signature_hex : string;
  sar_timestamp_unix_ms : Z;
  sar_message_hash_hex : string;
  sar_identity : ApproverIdentityDto;
}.

Record SubmitApprovalResponse := { sas_recorded : bool; sas_approval_id : string }.

Record ApprovalView := {
  apv_approval_id : string;
  apv_request_id : string;
  apv_approver : ApproverIdentityDto;
  apv_approver_key : string;
  apv_decision : ApprovalDecisionDto;
  apv_message_hash_hex : string;
  apv_timestamp_unix_ms : Z;
  apv_signature_hex : string;
}.

Record ListApproversQuery := { laq_owner : string; laq_include_revoked : option bool }.
Record ListApproverSetsQuery := { lasq_owner : string }.

(** ** Lowering and raising *)

Section convert.
Context `{UlidCrate, UlidParse, HexCrate, ErrorTexts}.

(** [s.parse::<Id>()] with the hint of the field. *)
Definition parse_id {A} (mk : N → A) (field s : string) : result ApiError A :=
  n ← ok_or (ulid_from_string s) (BadRequest ("invalid " +:+ field +:+ ": " +:+ ulid_text s));
  mret (mk n).

(** [hex::decode(&s)] with the hint of the field. *)
Definition decode_hex (field s : string) : result ApiError bytes :=
  ok_or (hex_decode s) (BadRequest ("invalid " +:+ field +:+ ": " +:+ hex_text s)).

(** [into_config]; [fresh] is what [PolicyId::new] draws. *)
Definition into_config (fresh : PolicyId) (r : CreateWalletRequest) : result ApiError WalletConfig :=
  policy_id ← match cwr_policy_id r with
              | Some s => parse_id PolicyId_from_ulid "policy_id" s
              | None => mret fresh
              end;
  mret {| display_name := cwr_display_name r; cfg_owner_id := OwnerId_new (cwr_owner_id r);
          cfg_scheme := scheme_of_dto (cwr_scheme r); cfg_threshold := cwr_threshold r;
          cfg_total := cwr_total r; cfg_policy_id := policy_id; cfg_max_value_per_tx := None;
          cfg_contract_allowlist := []; cfg_chain_allowlist := [] |}.

Definition wallet_view (r : WalletRecord) : WalletView := {|
  wv_wallet_id := ulid_to_string (WalletId_ulid (wr_wallet_id r));
  wv_scheme := dto_of_scheme (cfg_scheme (wr_config r));
  wv_threshold := cfg_threshold (wr_config r);
  wv_total := cfg_total (wr_config r);
  wv_display_name := display_name (wr_config r);
  wv_owner_id := OwnerId_as_str (cfg_owner_id (wr_config r));
  wv_policy_id := ulid_to_string (PolicyId_ulid (cfg_policy_id (wr_config r)));
  wv_master_public_key_hex := hex_encode (wr_master_public_key r);
  wv_status := dto_of_status (wr_status r);
  wv_created_at_unix_ms := wr_created_at_unix_ms r |}.

Definition requester_into_domain (r : RequesterDto) : result ApiError Requester :=
  match r with
  | DtoApiKey key_id => Ok (ApiKey key_id)
  | DtoOauthSubject sub => Ok (OAuthSubject sub)
  | DtoNestedWallet w =>
      w ← parse_id WalletId_from_ulid "wallet_id" w; mret (PolicyTypes.NestedWallet w)
  | DtoOnChainContract chain_id address_hex =>
      address ← decode_hex "address_hex" address_hex; mret (OnChainContract chain_id address)
  end.

Definition payload_into_domain (p : SigningPayloadDto) : result ApiError SigningPayload :=
  match p with
  | DtoRaw bytes_hex => bs ← decode_hex "bytes_hex" bytes_hex; mret (Raw bs)
  | DtoPersonalSign bytes_hex => bs ← decode_hex "bytes_hex" bytes_hex; mret (PersonalSign bs)
  | DtoTypedData json => Ok (TypedData json)
  | DtoVmTransaction vm chain_id to_hex raw_hex =>
      to ← match to_hex with
           | Some s => t ← decode_hex "to_hex" s; mret (Some t)
           | None => mret None
           end;
      raw ← decode_hex "raw_hex" raw_hex;
      mret (VmTransaction (vm_of_dto vm) chain_id to raw)
  end.

Definition hd_path_parsed (r : SignRequest) : result ApiError (option HdPath.HdPath) :=
  match sr_hd_path r with
  | None => Ok None
  | Some s => p ← map_err (λ e, BadRequest ("invalid hd_path: " +:+ hd_path_text e)) (HdPath.from_str s);
              mret (Some p)
  end.

Definition audit_event_view (e : AuditEvent) : AuditEventView := {|
  aev_event_id := ulid_to_string (EventId_ulid (event_id e));
  aev_prev_event_hash_hex := hex_encode (prev_event_hash e);
  aev_timestamp_unix_ms := event_timestamp_unix_ms e;
  aev_actor := actor_json (event_actor e);
  aev_kind := dto_of_kind (event_kind e);
  aev_request_id := (λ r, ulid_to_string (RequestId_ulid r)) <$> event_request_id e;
  aev_wallet_id := (λ w, ulid_to_string (WalletId_ulid w)) <$> event_wallet_id e;
  aev_details := event_details e;
  aev_server_signature_hex := hex_encode (server_signature e) |}.

Definition identity_into_domain (i : ApproverIdentityDto) : result ApiError ApproverIdentity :=
  match i with
  | DtoChain chain_id address_hex public_key_hex scheme =>
      address ← decode_hex "address_hex" address_hex;
      public_key ← decode_hex "public_key_hex" public_key_hex;
      mret (Chain chain_id address public_key (scheme_of_dto scheme))
  | DtoExternal id public_key_hex scheme =>
      public_key ← decode_hex "public_key_hex" public_key_hex;
      mret (Approval.External id public_key (scheme_of_dto scheme))
  | DtoHardware handle public_key_hex scheme =>
      public_key ← decode_hex "public_key_hex" public_key_hex;
      mret (Hardware {| handle := handle; hw_public_key := public_key; hw_scheme := scheme_of_dto scheme |})
  | DtoNested w public_key_hex scheme =>
      w ← parse_id WalletId_from_ulid "wallet_id" w;
      public_key ← decode_hex "public_key_hex" public_key_hex;
      mret (Approval.NestedWallet w public_key (scheme_of_dto scheme))
  end.

Definition dto_of_identity (i : ApproverIdentity) : ApproverIdentityDto :=
  match i with
  | Chain chain_id address public_key scheme =>
      DtoChain chain_id (hex_encode address) (hex_encode public_key) (dto_of_scheme scheme)
  | Approval.External id public_key scheme => DtoExternal id (hex_encode public_key) (dto_of_scheme scheme)
  | Hardware h => DtoHardware (handle h) (hex_encode (hw_public_key h)) (dto_of_scheme (hw_scheme h))
  | Approval.NestedWallet w public_key scheme =>
      DtoNested (ulid_to_string (WalletId_ulid w)) (hex_encode public_key) (dto_of_scheme scheme)
  end.

Definition approver_view (r : ApproverRecord) : ApproverView := {|
  av_approver_id := ulid_to_string (ApproverId_ulid (rec_approver_id r));
  av_identity := dto_of_identity (identity r);
  av_scheme := dto_of_scheme (rec_scheme r);
  av_label := rec_label r;
  av_owner_id := OwnerId_as_str (rec_owner_id r);
  av_webhook_url := webhook_url r;
  av_status := dto_of_approver_status (status r);
  av_added_at_unix_ms := added_at_unix_ms r |}.

Definition set_into_domain (r : CreateApproverSetRequest) : result ApiError ApproverSetCreate :=
  members ← map_result (parse_id ApproverId_from_ulid "approver_id") (csr_members r);
  mret {| sc_name := csr_name r; sc_owner_id := OwnerId_new (csr_owner_id r); sc_members := members;
          sc_threshold := csr_threshold r; sc_total := csr_total r;
          sc_quorum_timeout_secs := csr_quorum_timeout_secs r |}.

Definition approver_set_view (s : ApproverSet) : ApproverSetView := {|
  asv_approver_set_id := ulid_to_string (ApproverSetId_ulid (set_id s));
  asv_name := set_name s;
  asv_owner_id := OwnerId_as_str (set_owner_id s);
  asv_members := (λ m, ulid_to_string (ApproverId_ulid m)) <$> members s;
  asv_threshold := set_threshold s;
  asv_total := set_total s;
  asv_quorum_timeout_secs := quorum_timeout_secs s;
  asv_created_at_unix_ms := created_at_unix_ms s |}.

(** [<[u8; 32]>::try_from(bytes.as_slice())]. *)
Definition hash_array (bs : bytes) : result ApiError bytes :=
  if bool_decide (length bs = 32%nat) then Ok bs
  else Err (BadRequest "message_hash_hex must be 32 bytes").

Definition into_signed (r : SubmitApprovalRequest) (request_id : RequestId)
    : result ApiError (SignedApproval * ApproverId) :=
  approver_id ← parse_id ApproverId_from_ulid "approver_id" (sar_approver_id r);
  approval_id ← parse_id ApprovalId_from_ulid "approval_id" (sar_approval_id r);
  signature ← decode_hex "signature_hex" (sar_signature_hex r);
  msg ← decode_hex "message_hash_hex" (sar_message_hash_hex r);
  message_hash ← hash_array msg;
  identity ← identity_into_domain (sar_identity r);
  mret ({| sa_approval_id := approval_id; sa_approver := identity; sa_request_id := request_id;
           sa_message_hash := message_hash; sa_decision := decision_of_dto (sar_decision r);
           sa_timestamp_unix_ms := sar_timestamp_unix_ms r; sa_signature := signature |}, approver_id).

Definition approval_view (a : SignedApproval) : ApprovalView := {|
  apv_approval_id := ulid_to_string (ApprovalId_ulid (sa_approval_id a));
  apv_request_id := ulid_to_string (RequestId_ulid (sa_request_id a));
  apv_approver_key := identity_key (sa_approver a);
  apv_approver := dto_of_identity (sa_approver a);
  apv_decision := dto_of_decision (sa_decision a);
  apv_message_hash_hex := hex_encode (sa_message_hash a);
  apv_timestamp_unix_ms := sa_timestamp_unix_ms a;
  apv_signature_hex := hex_encode (sa_signature a) |}.
End convert.
