(* ===== verification/ApiHandlers.v ===== *)
(** * ApiHandlers: the HTTP surface ([api/auth.rs], [api/handlers.rs], [api/mod.rs])

    API-key authentication, every handler, and the router as a function from a
    routed request to a response and the service's next world.  A request is
    one whose path, query and JSON body the framework's extractors accepted;
    the Swagger UI and the OpenAPI document are left out.

    A call of either surface is a computation over the service's world
    ([Call]); the gRPC surface uses the same shape with another error type. *)

From S2P Require Import Prelude Text Types External PolicyTypes SignedDecision Derivation Signers Attestation Rlp EvmDecoder HybridVerifier MockEnclave Approval Registry ApprovalStore AuditLog ShareStore WalletService ApiSchemas.
From Stdlib Require Import Ascii.
#[local] Open Scope string_scope.
#[local] Open Scope list_scope.
#[local] Open Scope Z_scope.

(** ** Calls *)

Definition Call (E W A : Type) : Type := W → panics (result E A * W).

#[export] Instance call_ret E W : MRet (Call E W) := λ A a w, Returns (Ok a, w).
#[export] Instance call_bind E W : MBind (Call E W) := λ A B f m w,
  match m w with
  | Panics why => Panics why
  | Returns (Err e, w') => Returns (Err e, w')
  | Returns (Ok a, w') => f a w'
  end.

Definition call_of {E W A} (r : result E A) : Call E W A := λ w, Returns (r, w).

(** [service.op(..).await.map_err(f)?]. *)
Definition call_svc {E W A} (f : ServiceError → E) (m : Svc W A) : Call E W A := λ w,
  match m w with
  | Panics why => Panics why
  | Returns (r, w') => Returns (map_err f r, w')
  end.

Lemma call_bind_of {E W A B} (r : result E A) (f : A → Call E W B) w :
  (call_of r ≫= f) w = match r with Ok a => f a w | Err e => Returns (Err e, w) end.
Proof. by destruct r. Qed.

(** ** [api/auth.rs] *)

(** [HeaderValue::to_str]. *)
Class HeaderCrate := { header_to_str : bytes → option string }.
(** It yields the bytes as text when they are visible ASCII, and then the very
    same bytes. *)
Class HeaderLaws `{HeaderCrate} : Prop := {
  header_to_str_visible : ∀ s, chars_all (λ c, (32 <=? char_val c) && (char_val c <? 127)) s = true →
    header_to_str (string_bytes s) = Some s;
  header_to_str_same : ∀ bs s, header_to_str bs = Some s → string_bytes s = bs;
}.

Definition API_KEY_HEADER : string := "x-api-key".

Definition load_api_keys (raw : string) : gset string :=
  list_to_set (List.filter (λ s, negb (String.eqb s "")) (trim <$> split_char ","%char raw)).

(** The loop over the configured keys; [ct_eq] compares all bytes. *)
Definition is_allowed (keys : gset string) (presented : string) : bool :=
  let presented_b := string_bytes presented in
  foldl (λ hit k, let kb := string_bytes k in
           if bool_decide (length kb = length presented_b) && bool_decide (kb = presented_b)
           then 1 else hit) 0 (elements keys) =? 1.

Definition require_api_key_inner `{HeaderCrate} (keys : gset string) (header : option bytes)
    : result ApiError () :=
  match header with
  | None => Err (Unauthorized "missing X-API-Key header")
  | Some hv =>
      match header_to_str hv with
      | None => Err (Unauthorized "invalid X-API-Key encoding")
      | Some presented =>
          if is_allowed keys presented then Ok () else Err (Unauthorized "invalid API key")
      end
  end.

(** ** [read_audit_events] *)

(** What opening and reading the log gives: no file, an error on [open], or
    bytes, possibly cut short by a read error. *)
Inductive AuditFile :=
  | FileAbsent
  | FileOpenErr (why : string)
  | FileBytes (content : bytes) (read_err : option string).

Definition INVALID_UTF8 : string := "stream did not contain valid UTF-8".

Section scan.
Context `{EventSerde}.

(** The body of the read loop for one line, its newline trimmed. *)
Definition scan_line (wallet_filter : option WalletId) (events : list AuditEvent) (line : bytes)
    : result string (list AuditEvent) :=
  _ ← ensure (utf8_valid line) ("audit read: " +:+ INVALID_UTF8);
  if bool_decide (line = []) then mret events
  else
    event ← map_err (λ e, "audit parse: " +:+ e) (event_from_slice line);
    match wallet_filter with
    | Some w => if bool_decide (event_wallet_id event = Some w) then mret (events ++ [event]) else mret events
    | None => mret (events ++ [event])
    end.

(** The lines [read_line] yields; a read error ends the loop with the lines
    completed before it. *)
Definition scan_audit_log (file : AuditFile) (wallet_filter : option WalletId) (limit : nat)
    : result string (list AuditEvent) :=
  match file with
  | FileAbsent => Ok []
  | FileOpenErr why => Err ("audit open: " +:+ why)
  | FileBytes content read_err =>
      let lines := split_newline content in
      events ← fold_result (scan_line wallet_filter) []
                 (if read_err is Some _ then removelast lines else lines);
      match read_err with
      | Some why => Err ("audit read: " +:+ why)
      | None => mret (drop (length events - limit) events)
      end
  end.

Definition read_audit_events (file : AuditFile) (wallet_filter : option WalletId) (limit : nat)
    : result ApiError (list AuditEvent) := map_err ApiInternal (scan_audit_log file wallet_filter limit).
End scan.

(** ** Handlers *)

(** [serde_json::to_value] of an attestation document: [Value] keeps the keys of
    an object in byte order. *)
Definition key_before (a b : string * Json) : Prop := String.leb a.1 b.1 = true.
#[local] Instance key_before_dec a b : Decision (key_before a b) := decide (_ = true).
Definition attestation_value (d : AttestationDoc) : Json :=
  let p := att_payload d in
  JObject [("payload",
             JObject [("attestation_public_key", json_bytes (attestation_public_key p));
                      ("backend", JString (backend p));
                      ("nonce", json_bytes (nonce p));
                      ("pcrs", JObject (merge_sort key_before
                                          ((λ kv, (show_dec kv.1, json_bytes kv.2)) <$> pcrs p)));
                      ("timestamp_unix_ms", JNumber (timestamp_unix_ms p));
                      ("user_data", json_bytes (user_data p))]);
           ("raw_payload", json_bytes (att_raw_payload d));
           ("signature", json_bytes (att_signature d))].

Definition map_registry_err `{UlidCrate} (e : RegistryError) : ApiError :=
  let msg := registry_error_text e in
  match e with
  | ApproverNotFound _ | ApproverSetNotFound _ => NotFound msg
  | UnknownMember _ | RevokedMember _ | MemberCountMismatch _ _ | InvalidThreshold _ _
  | DuplicateMember _ | NestingCycle _ | NestingTooDeep _ => UnprocessableEntity msg
  | RegIo _ => ApiInternal msg
  end.

Definition map_submit_err `{UlidCrate, ErrorTexts} (e : ServiceError) : ApiError :=
  match e with
  | SvcQuorum (QeInvalidApproval inner) =>
      UnprocessableEntity ("approval verification failed: " +:+ verify_text inner)
  | SvcQuorum (UnknownApprover msg) => NotFound msg
  | SvcQuorum (Transport msg) =>
      if str_contains "duplicate approval" msg then Conflict msg else ApiInternal msg
  | other => api_error_of other
  end.

(** A response: status code and body. *)
Inductive Body :=
  | BWallet (v : WalletView)
  | BSign (r : SignResponse)
  | BEvents (l : list AuditEventView)
  | BApprover (v : ApproverView)
  | BApprovers (l : list ApproverView)
  | BSet (v : ApproverSetView)
  | BSets (l : list ApproverSetView)
  | BSubmit (r : SubmitApprovalResponse)
  | BApprovals (l : list ApprovalView)
  | BText (s : string)
  | BRedirect (to : string)
  | BEmpty
  | BError (error hint : string).

Definition HttpResponse : Type := Z * Body.

Definition into_response (e : ApiError) : HttpResponse :=
  let '(status, error, hint) := api_parts e in (status, BError error hint).

(** [IntoResponse] of a handler's result. *)
Definition respond {W} (r : panics (result ApiError HttpResponse * W)) : panics (HttpResponse * W) :=
  match r with
  | Panics why => Panics why
  | Returns (Ok resp, w) => Returns (resp, w)
  | Returns (Err e, w) => Returns (into_response e, w)
  end.

(** A routed request. *)
Inductive HttpRequest :=
  | PostWallets (body : CreateWalletRequest)
  | GetWallet (id : string)
  | PostSign (id : string) (body : SignRequest)
  | GetAuditEvents (q : AuditEventsQuery)
  | PostApprovers (body : CreateApproverRequest)
  | GetApprovers (q : ListApproversQuery)
  | GetApprover (id : string)
  | DeleteApprover (id : string)
  | PostApproverSets (body : CreateApproverSetRequest)
  | GetApproverSets (q : ListApproverSetsQuery)
  | GetApproverSet (id : string)
  | PostApprovals (request_id : string) (body : SubmitApprovalRequest)
  | GetApprovals (request_id : string)
  | GetHealth
  | GetMetrics
  | GetRoot.

Definition health : string := "ok".
Definition metrics : string := "# placeholder for M2 P5" +:+ String (Ascii.ascii_of_nat 10) "".

(** What one request draws from the system besides the service's own draws. *)
Record ApiDraws := {
  svc_draws : Draws;
  fresh_policy : PolicyId;
  fresh_approver : ApproverId;
  fresh_set : ApproverSetId;
  audit_file : AuditFile;
}.

Section handlers.
Context `{UlidCrate, UlidParse, HexCrate, JsonCrate, DigestCrate, Ed25519Crate, K256Crate, MlDsaCrate, RlpCrate}.
Context `{EventSerde, HashOrder, HeaderCrate, ErrorTexts}.
Context {P Sh A AS E : Type} `{Policy P, ShareStore Sh, AuditSink A, ApprovalStore AS, Enclave E}.

Record AppState := { service : @WalletService E; api_keys : gset string }.

#[local] Abbreviation W := (@World P Sh A AS).
#[local] Abbreviation svc_sign := (WalletService.sign deny_reason_text registry_error_text
  enclave_error_text signer_error_text overflow_error_text).
#[local] Abbreviation svc_record_approval := (WalletService.record_approval registry_error_text).

Definition with_registry (w : W) (r : Inner) : W := {|
  w_shares := w_shares w; w_policy := w_policy w; w_audit := w_audit w; w_registry := r;
  w_approvals := w_approvals w; w_wallets := w_wallets w |}.

(** [approver_registry().op(..).await.map_err(f)?]. *)
Definition call_registry {Er B} (f : RegistryError → Er) (op : Inner → result RegistryError B * Inner)
    : Call Er W B := λ w,
  let '(r, reg) := op (w_registry w) in Returns (map_err f r, with_registry w reg).

Definition query_registry {Er B} (f : RegistryError → Er) (op : Inner → result RegistryError B)
    : Call Er W B := λ w, Returns (map_err f (op (w_registry w)), w).

(** [create_approver_set], whose walk always ends ([create_approver_set_cases]). *)
Definition call_create_set {Er} (f : RegistryError → Er) (env : ApiDraws) (c : ApproverSetCreate)
    : Call Er W ApproverSet := λ w,
  match Registry.create_approver_set (fresh_set env) (now_ms (svc_draws env)) c (w_registry w) with
  | Some (r, reg) => Returns (map_err f r, with_registry w reg)
  | None => Panics "the nesting walk does not end"
  end.

Definition create_wallet (st : AppState) (env : ApiDraws) (req : CreateWalletRequest)
    : Call ApiError W HttpResponse :=
  config ← call_of (into_config (fresh_policy env) req);
  record ← call_svc api_error_of
             (WalletService.create_wallet (service st) (svc_draws env) config ActorSystem);
  mret (201, BWallet (wallet_view record)).

Definition get_wallet (id : string) : Call ApiError W HttpResponse :=
  wallet_id ← call_of (parse_id WalletId_from_ulid "wallet_id" id);
  record ← call_svc api_error_of (WalletService.get_wallet wallet_id);
  mret (200, BWallet (wallet_view record)).

Definition sign (st : AppState) (env : ApiDraws) (id : string) (req : SignRequest)
    : Call ApiError W HttpResponse :=
  wallet_id ← call_of (parse_id WalletId_from_ulid "wallet_id" id);
  hd_path ← call_of (hd_path_parsed req);
  let hash_alg := hash_of_dto (sr_hash_alg req) in
  let context := context_of_dto (default SigningContextDto_default (sr_context req)) in
  requester ← call_of (requester_into_domain (sr_requester req));
  payload ← call_of (payload_into_domain (sr_payload req));
  resp ← call_svc api_error_of
           (svc_sign (service st) (svc_draws env) wallet_id payload requester hd_path context hash_alg);
  mret (200, BSign {| srs_signature_hex := hex_encode (resp_signature resp);
                      srs_public_key_hex := hex_encode (resp_public_key resp);
                      srs_attestation := attestation_value (resp_attestation resp) |}).

Definition list_audit_events (env : ApiDraws) (q : AuditEventsQuery) : Call ApiError W HttpResponse :=
  wallet_filter ← call_of match aq_wallet_id q with
                          | Some s => w ← parse_id WalletId_from_ulid "wallet_id" s; mret (Some w)
                          | None => mret None
                          end;
  let limit := Z.min (default 100 (aq_limit q)) 1000 in
  events ← call_of (read_audit_events (audit_file env) wallet_filter (Z.to_nat limit));
  mret (200, BEvents (audit_event_view <$> events)).

Definition create_approver (env : ApiDraws) (body : CreateApproverRequest) : Call ApiError W HttpResponse :=
  identity ← call_of (identity_into_domain (car_identity body));
  let create := {| ac_identity := identity; ac_label := car_label body;
                   ac_owner_id := OwnerId_new (car_owner_id body);
                   ac_webhook_url := car_webhook_url body |} in
  record ← call_registry map_registry_err
             (Registry.add_approver (fresh_approver env) (now_ms (svc_draws env)) create);
  mret (201, BApprover (approver_view record)).

Definition revoke_approver (id : string) : Call ApiError W HttpResponse :=
  approver_id ← call_of (parse_id ApproverId_from_ulid "approver_id" id);
  _ ← call_registry map_registry_err (Registry.revoke_approver approver_id);
  mret (204, BEmpty).

Definition get_approver (id : string) : Call ApiError W HttpResponse :=
  approver_id ← call_of (parse_id ApproverId_from_ulid "approver_id" id);
  rec ← query_registry map_registry_err (Registry.get_approver approver_id);
  mret (200, BApprover (approver_view rec)).

Definition list_approvers (q : ListApproversQuery) : Call ApiError W HttpResponse :=
  let owner := OwnerId_new (laq_owner q) in
  let include_revoked := default false (laq_include_revoked q) in
  recs ← query_registry map_registry_err
           (λ r, Ok (Registry.list_approvers_by_owner owner include_revoked r));
  mret (200, BApprovers (approver_view <$> recs)).

Definition create_approver_set (env : ApiDraws) (req : CreateApproverSetRequest)
    : Call ApiError W HttpResponse :=
  domain ← call_of (set_into_domain req);
  set ← call_create_set map_registry_err env domain;
  mret (201, BSet (approver_set_view set)).

Definition get_approver_set (id : string) : Call ApiError W HttpResponse :=
  set_id ← call_of (parse_id ApproverSetId_from_ulid "approver_set_id" id);
  set ← query_registry map_registry_err (Registry.get_approver_set set_id);
  mret (200, BSet (approver_set_view set)).

Definition list_approver_sets (q : ListApproverSetsQuery) : Call ApiError W HttpResponse :=
  let owner := OwnerId_new (lasq_owner q) in
  sets ← query_registry map_registry_err (λ r, Ok (Registry.list_approver_sets owner r));
  mret (200, BSets (approver_set_view <$> sets)).

Definition submit_approval (env : ApiDraws) (request_id : string) (req : SubmitApprovalRequest)
    : Call ApiError W HttpResponse :=
  request_id ← call_of (parse_id RequestId_from_ulid "request_id" request_id);
  signed ← call_of (into_signed req request_id);
  expected_hash ← call_of (bs ← decode_hex "message_hash_hex" (sar_message_hash_hex req); hash_array bs);
  outcome ← call_svc map_submit_err
              (svc_record_approval (now_ms (svc_draws env)) signed.1 signed.2 expected_hash);
  mret (200, BSubmit {| sas_recorded := bool_decide (outcome = Inserted);
                        sas_approval_id := sar_approval_id req |}).

Definition list_approvals (request_id : string) : Call ApiError W HttpResponse :=
  request_id ← call_of (parse_id RequestId_from_ulid "request_id" request_id);
  approvals ← (λ w, Returns (map_err (λ e, ApiInternal ("approval store: " +:+ store_text e))
                               (store_list request_id (w_approvals w)), w))
              : Call ApiError W (list SignedApproval);
  mret (200, BApprovals (approval_view <$> approvals)).

(** ** The router *)

Definition is_public (req : HttpRequest) : bool :=
  match req with GetHealth | GetMetrics | GetRoot => true | _ => false end.

Definition handle (st : AppState) (env : ApiDraws) (req : HttpRequest) : Call ApiError W HttpResponse :=
  match req with
  | PostWallets body => create_wallet st env body
  | GetWallet id => get_wallet id
  | PostSign id body => sign st env id body
  | GetAuditEvents q => list_audit_events env q
  | PostApprovers body => create_approver env body
  | GetApprovers q => list_approvers q
  | GetApprover id => get_approver id
  | DeleteApprover id => revoke_approver id
  | PostApproverSets body => create_approver_set env body
  | GetApproverSets q => list_approver_sets q
  | GetApproverSet id => get_approver_set id
  | PostApprovals request_id body => submit_approval env request_id body
  | GetApprovals request_id => list_approvals request_id
  | GetHealth => mret (200, BText health)
  | GetMetrics => mret (200, BText metrics)
  | GetRoot => mret (308, BRedirect "/docs")
  end.

(** The [require_api_key] layer wraps the protected routes only. *)
Definition serve (st : AppState) (env : ApiDraws) (header : option bytes) (req : HttpRequest)
    : W → panics (HttpResponse * W) := λ w,
  respond ((if is_public req then handle st env req
            else _ ← call_of (require_api_key_inner (api_keys st) header); handle st env req) w).
End handlers.
