(* ===== verification/GrpcConvert.v ===== *)
(** * GrpcConvert: the gRPC messages and their conversion ([grpc/convert.rs])

    The messages of [proto/*.proto] as the generated structs have them: an enum
    field is its [i32] number, a message field is an [option], a [oneof] is an
    option of a variant.  Bytes travel raw, identifiers as ULID text. *)

From S2P Require Import Prelude Text Types External PolicyTypes SignedDecision Attestation MockEnclave Approval Registry ApprovalStore AuditLog ShareStore WalletService ApiSchemas.
#[local] Open Scope string_scope.
#[local] Open Scope list_scope.
#[local] Open Scope Z_scope.

(** ** [tonic::Status] *)

Inductive Code :=
  | CodeInvalidArgument | CodeNotFound | CodeAlreadyExists | CodePermissionDenied
  | CodeFailedPrecondition | CodeAborted | CodeInternal | CodeUnauthenticated
  | CodeOther (n : Z).
Record Status := Status_new { code : Code; message : string }.

Definition invalid_argument : string → Status := Status_new CodeInvalidArgument.
Definition status_internal : string → Status := Status_new CodeInternal.

(** ** Enums *)

(** A protobuf enum: its numbers, and [TryFrom<i32>] on them. *)
Class ProtoEnum (A : Type) := { enum_number : A → Z; enum_all : list A }.
Definition enum_try_from {A} `{ProtoEnum A} (v : Z) : option A :=
  find (λ a, enum_number a =? v) enum_all.

Module Proto.
Inductive SigningScheme :=
  | SchemeUnspecified | PEd25519 | PSecp256k1 | PSecp256k1Recoverable | PMlDsa44 | PMlDsa65 | PMlDsa87.
Inductive HashAlg := HashUnspecified | PHashNone | PSha256 | PKeccak256 | PBlake3.
Inductive VmType := VmUnspecified | PEvm | PQvm | PWasm.
Inductive WalletStatus := WalletStatusUnspecified | PActive | PFrozen | PRevoked.
Inductive ApproverStatus := ApproverStatusUnspecified | PApproverActive | PApproverRevoked.
Inductive ApprovalDecision := DecisionUnspecified | PApprove | PReject.

#[export] Instance scheme_enum : ProtoEnum SigningScheme := {|
  enum_number s := match s with
    | SchemeUnspecified => 0 | PEd25519 => 1 | PSecp256k1 => 2 | PSecp256k1Recoverable => 3
    | PMlDsa44 => 4 | PMlDsa65 => 5 | PMlDsa87 => 6 end;
  enum_all := [SchemeUnspecified; PEd25519; PSecp256k1; PSecp256k1Recoverable; PMlDsa44; PMlDsa65; PMlDsa87] |}.
#[export] Instance hash_enum : ProtoEnum HashAlg := {|
  enum_number h := match h with
    | HashUnspecified => 0 | PHashNone => 1 | PSha256 => 2 | PKeccak256 => 3 | PBlake3 => 4 end;
  enum_all := [HashUnspecified; PHashNone; PSha256; PKeccak256; PBlake3] |}.
#[export] Instance vm_enum : ProtoEnum VmType := {|
  enum_number v := match v with VmUnspecified => 0 | PEvm => 1 | PQvm => 2 | PWasm => 3 end;
  enum_all := [VmUnspecified; PEvm; PQvm; PWasm] |}.
#[export] Instance wallet_status_enum : ProtoEnum WalletStatus := {|
  enum_number s := match s with WalletStatusUnspecified => 0 | PActive => 1 | PFrozen => 2 | PRevoked => 3 end;
  enum_all := [WalletStatusUnspecified; PActive; PFrozen; PRevoked] |}.
#[export] Instance approver_status_enum : ProtoEnum ApproverStatus := {|
  enum_number s := match s with ApproverStatusUnspecified => 0 | PApproverActive => 1 | PApproverRevoked => 2 end;
  enum_all := [ApproverStatusUnspecified; PApproverActive; PApproverRevoked] |}.
#[export] Instance decision_enum : ProtoEnum ApprovalDecision := {|
  enum_number d := match d with DecisionUnspecified => 0 | PApprove => 1 | PReject => 2 end;
  enum_all := [DecisionUnspecified; PApprove; PReject] |}.

(** ** Messages *)

Inductive Identity :=
  | PChain (chain_id : Z) (address public_key : bytes) (scheme : Z)
  | PExternal (id : string) (public_key : bytes) (scheme : Z)
  | PHardware (handle : string) (public_key : bytes) (scheme : Z)
  | PNested (wallet_id : string) (public_key : bytes) (scheme : Z).
Record ApproverIdentity := { pi_identity : option Identity }.

Inductive RequesterKind :=
  | PApiKey (key_id : string)
  | POauthSubject (sub : string)
  | PNestedWallet (wallet_id : string)
  | POnChainContract (chain_id : Z) (address : bytes).
Record Requester := { pr_requester : option RequesterKind }.

Record SigningContext := {
  pc_chain_id : option Z; pc_vm_type : option string; pc_extra_json : string }.

Inductive Payload :=
  | PRaw (bs : bytes)
  | PPersonalSign (bs : bytes)
  | PTypedData (json : string)
  | PVmTransaction (vm chain_id : Z) (to : option bytes) (raw : bytes).
Record SigningPayload := { pp_payload : option Payload }.

Record CreateWalletRequest := {
  pcw_scheme : Z; pcw_threshold : Z; pcw_total : Z; pcw_display_name : string;
  pcw_owner_id : string; pcw_policy_id : string }.
Record WalletView := {
  pwv_wallet_id : string; pwv_scheme : Z; pwv_threshold : Z; pwv_total : Z;
  pwv_display_name : string; pwv_owner_id : string; pwv_policy_id : string;
  pwv_master_public_key : bytes; pwv_status : Z; pwv_created_at_unix_ms : Z }.
Record SignRequest := {
  ps_wallet_id : string; ps_payload : option SigningPayload; ps_requester : option Requester;
  ps_hd_path : string; ps_hash_alg : Z; ps_context : option SigningContext }.
Record SignResponse := {
  psr_signature : bytes; psr_public_key : bytes; psr_attestation_json : string }.
Record GetAuditEventsRequest := { pga_wallet_id : string; pga_limit : Z }.
Record AuditEventView := {
  pae_event_id : string; pae_prev_event_hash : bytes; pae_timestamp_unix_ms : Z;
  pae_actor_json : string; pae_kind : Z; pae_request_id : string; pae_wallet_id : string;
  pae_details_json : string; pae_server_signature : bytes }.
Record ApproverView := {
  pav_approver_id : string; pav_identity : option ApproverIdentity; pav_scheme : Z;
  pav_label : string; pav_owner_id : string; pav_webhook_url : string; pav_status : Z;
  pav_added_at_unix_ms : Z }.
Record RegisterApproverRequest := {
  pra_identity : option ApproverIdentity; pra_label : string; pra_owner_id : string;
  pra_webhook_url : string }.
Record ApproverSetView := {
  psv_approver_set_id : string; psv_name : string; psv_owner_id : string;
  psv_members : list string; psv_threshold : Z; psv_total : Z; psv_quorum_timeout_secs : Z;
  psv_created_at_unix_ms : Z }.
Record CreateApproverSetRequest := {
  pcs_name : string; pcs_owner_id : string; pcs_members : list string; pcs_threshold : Z;
  pcs_total : Z; pcs_quorum_timeout_secs : Z }.
Record SubmitApprovalRequest := {
  psa_request_id : string; psa_approver_id : string; psa_approval_id : string; psa_decision : Z;
  psa_signature : bytes; psa_timestamp_unix_ms : Z; psa_message_hash : bytes;
  psa_identity : option ApproverIdentity }.
Record SubmitApprovalResponse := { pso_recorded : bool; pso_approval_id : string }.
Record ApprovalView := {
  pap_approval_id : string; pap_request_id : string; pap_approver : option ApproverIdentity;
  pap_approver_key : string; pap_decision : Z; pap_message_hash : bytes;
  pap_timestamp_unix_ms : Z; pap_signature : bytes }.
End Proto.
Export (hints) Proto.

(** ** Enum conversions *)

Definition scheme_into_proto (s : SigningScheme) : Proto.SigningScheme :=
  match s with
  | Ed25519 => Proto.PEd25519 | Secp256k1 => Proto.PSecp256k1
  | Secp256k1Recoverable => Proto.PSecp256k1Recoverable
  | MlDsa44 => Proto.PMlDsa44 | MlDsa65 => Proto.PMlDsa65 | MlDsa87 => Proto.PMlDsa87
  end.

Definition scheme_try_from (v : Proto.SigningScheme) : result Status SigningScheme :=
  match v with
  | Proto.SchemeUnspecified => Err (invalid_argument "scheme must be specified")
  | Proto.PEd25519 => Ok Ed25519 | Proto.PSecp256k1 => Ok Secp256k1
  | Proto.PSecp256k1Recoverable => Ok Secp256k1Recoverable
  | Proto.PMlDsa44 => Ok MlDsa44 | Proto.PMlDsa65 => Ok MlDsa65 | Proto.PMlDsa87 => Ok MlDsa87
  end.

(** An [i32] as text. *)
Definition show_i32 (v : Z) : string := if v <? 0 then "-" +:+ show_dec (- v) else show_dec v.

(** [proto::T::try_from(v)] with the hint of the enum, then the conversion. *)
Definition enum_from_i32 {A B} `{ProtoEnum A} (name : string) (f : A → result Status B) (v : Z)
    : result Status B :=
  a ← ok_or (enum_try_from v) (invalid_argument ("unknown " +:+ name +:+ " variant: " +:+ show_i32 v));
  f a.

Definition scheme_from_i32 : Z → result Status SigningScheme := enum_from_i32 "SigningScheme" scheme_try_from.

Definition hash_into_proto (h : HashAlg) : Proto.HashAlg :=
  match h with
  | HashNone => Proto.PHashNone | Sha256 => Proto.PSha256
  | Keccak256 => Proto.PKeccak256 | Blake3 => Proto.PBlake3
  end.

Definition hash_try_from (v : Proto.HashAlg) : result Status HashAlg :=
  match v with
  | Proto.HashUnspecified => Err (invalid_argument "hash_alg must be specified")
  | Proto.PHashNone => Ok HashNone | Proto.PSha256 => Ok Sha256
  | Proto.PKeccak256 => Ok Keccak256 | Proto.PBlake3 => Ok Blake3
  end.

Definition hash_alg_from_i32 : Z → result Status HashAlg := enum_from_i32 "HashAlg" hash_try_from.

Definition vm_try_from (v : Proto.VmType) : result Status VmType :=
  match v with
  | Proto.VmUnspecified => Err (invalid_argument "vm_type must be specified")
  | Proto.PEvm => Ok Evm | Proto.PQvm => Ok Qvm | Proto.PWasm => Ok Wasm
  end.

Definition wallet_status_into_proto (s : WalletStatus) : Proto.WalletStatus :=
  match s with
  | WalletActive => Proto.PActive | WalletFrozen => Proto.PFrozen | WalletStatusRevoked => Proto.PRevoked
  end.

Definition approver_status_into_proto (s : ApproverStatus) : Proto.ApproverStatus :=
  match s with Active => Proto.PApproverActive | Revoked => Proto.PApproverRevoked end.

Definition decision_into_proto (d : ApprovalDecision) : Proto.ApprovalDecision :=
  match d with Approve => Proto.PApprove | Reject => Proto.PReject end.

Definition decision_try_from (v : Proto.ApprovalDecision) : result Status ApprovalDecision :=
  match v with
  | Proto.DecisionUnspecified => Err (invalid_argument "decision must be specified")
  | Proto.PApprove => Ok Approve | Proto.PReject => Ok Reject
  end.

Definition approval_decision_from_i32 : Z → result Status ApprovalDecision :=
  enum_from_i32 "ApprovalDecision" decision_try_from.

(** [From<AuditKind> for proto::AuditKind], as the enum's number. *)
Definition kind_number (k : AuditKind) : Z :=
  match k with
  | WalletCreated => 1 | WalletRevoked => 2 | SigningRequested => 3 | SigningEvaluated => 4
  | QuorumNotified => 5 | QuorumApprovalReceived => 6 | QuorumApprovalRejected => 7
  | QuorumTimedOut => 8 | QuorumThresholdReached => 9 | SigningAttempted => 10
  | SigningSucceeded => 11 | SigningFailed => 12 | PolicyChanged => 13 | ApproverSetChanged => 14
  | SystemError => 15 | EnclaveAttested => 16 | PolicyDecisionSigned => 17
  end.

(** ** Helpers *)

Definition require_field {A} (field : string) (value : option A) : result Status A :=
  ok_or value (invalid_argument ("missing required field: " +:+ field)).

Definition require_32_bytes (field : string) (bs : bytes) : result Status bytes :=
  if bool_decide (length bs = 32%nat) then Ok bs
  else Err (invalid_argument (field +:+ " must be exactly 32 bytes")).

(** [u8::try_from(u32)]. *)
Definition u8_of_u32 (field : string) (v : Z) : result Status Z :=
  if v <=? u8_max then Ok v else Err (invalid_argument (field +:+ " out of u8 range")).

(** [serde_json::to_string]. *)
Definition json_string `{JsonCrate} (j : Json) : string := String.string_of_list_byte (json_to_vec j).

(** [serde_json::to_string] of a struct keeps its field order. *)
Definition doc_json (d : AttestationDoc) : Json :=
  JObject [("raw_payload", json_bytes (att_raw_payload d)); ("payload", payload_json (att_payload d));
           ("signature", json_bytes (att_signature d))].

Section lower.
Context `{UlidCrate, UlidParse, JsonCrate, ErrorTexts}.

Definition parse_ulid {A} (mk : N → A) (field s : string) : result Status A :=
  n ← ok_or (ulid_from_string s) (invalid_argument ("invalid " +:+ field +:+ ": " +:+ ulid_text s));
  mret (mk n).

(** [serde_json::from_str] with the hint of the field. *)
Definition parse_json (field s : string) : result Status Json :=
  ok_or (json_from_slice (string_bytes s)) (invalid_argument ("invalid " +:+ field +:+ ": " +:+ json_text s)).

Definition lower_payload (p : Proto.SigningPayload) : result Status SigningPayload :=
  payload ← require_field "payload.kind" (Proto.pp_payload p);
  match payload with
  | Proto.PRaw bs => mret (Raw bs)
  | Proto.PPersonalSign bs => mret (PersonalSign bs)
  | Proto.PTypedData json => j ← parse_json "typed_data.json" json; mret (TypedData j)
  | Proto.PVmTransaction vm chain_id to raw =>
      vm ← enum_from_i32 "VmType" vm_try_from vm;
      mret (VmTransaction vm chain_id to raw)
  end.

Definition lower_requester (r : Proto.Requester) : result Status Requester :=
  inner ← require_field "requester.kind" (Proto.pr_requester r);
  match inner with
  | Proto.PApiKey key_id => mret (ApiKey key_id)
  | Proto.POauthSubject sub => mret (OAuthSubject sub)
  | Proto.PNestedWallet w =>
      w ← parse_ulid WalletId_from_ulid "nested_wallet.wallet_id" w; mret (PolicyTypes.NestedWallet w)
  | Proto.POnChainContract chain_id address => mret (OnChainContract chain_id address)
  end.

Definition lower_context (c : option Proto.SigningContext) : result Status SigningContext :=
  match c with
  | None => mret {| ctx_chain_id := None; ctx_vm_type := None; ctx_extra := JNull |}
  | Some c =>
      extra ← if String.eqb (Proto.pc_extra_json c) "" then mret JNull
              else parse_json "context.extra_json" (Proto.pc_extra_json c);
      mret {| ctx_chain_id := Proto.pc_chain_id c; ctx_vm_type := Proto.pc_vm_type c; ctx_extra := extra |}
  end.

Definition lower_hd_path (s : string) : result Status (option HdPath.HdPath) :=
  if String.eqb s "" then mret None
  else p ← map_err (λ e, invalid_argument ("invalid hd_path: " +:+ hd_path_text e)) (HdPath.from_str s);
       mret (Some p).

Definition lower_create_wallet (fresh : PolicyId) (req : Proto.CreateWalletRequest)
    : result Status WalletConfig :=
  scheme ← scheme_from_i32 (Proto.pcw_scheme req);
  threshold ← u8_of_u32 "threshold" (Proto.pcw_threshold req);
  total ← u8_of_u32 "total" (Proto.pcw_total req);
  policy_id ← if String.eqb (Proto.pcw_policy_id req) "" then mret fresh
              else parse_ulid PolicyId_from_ulid "policy_id" (Proto.pcw_policy_id req);
  mret {| display_name := Proto.pcw_display_name req; cfg_owner_id := OwnerId_new (Proto.pcw_owner_id req);
          cfg_scheme := scheme; cfg_threshold := threshold; cfg_total := total;
          cfg_policy_id := policy_id; cfg_max_value_per_tx := None; cfg_contract_allowlist := [];
          cfg_chain_allowlist := [] |}.

Definition raise_wallet_view (r : WalletRecord) : Proto.WalletView := {|
  Proto.pwv_wallet_id := ulid_to_string (WalletId_ulid (wr_wallet_id r));
  Proto.pwv_scheme := enum_number (scheme_into_proto (cfg_scheme (wr_config r)));
  Proto.pwv_threshold := cfg_threshold (wr_config r);
  Proto.pwv_total := cfg_total (wr_config r);
  Proto.pwv_display_name := display_name (wr_config r);
  Proto.pwv_owner_id := OwnerId_as_str (cfg_owner_id (wr_config r));
  Proto.pwv_policy_id := ulid_to_string (PolicyId_ulid (cfg_policy_id (wr_config r)));
  Proto.pwv_master_public_key := wr_master_public_key r;
  Proto.pwv_status := enum_number (wallet_status_into_proto (wr_status r));
  Proto.pwv_created_at_unix_ms := wr_created_at_unix_ms r |}.

Definition raise_audit_event (e : AuditEvent) : Proto.AuditEventView := {|
  Proto.pae_event_id := ulid_to_string (EventId_ulid (event_id e));
  Proto.pae_prev_event_hash := prev_event_hash e;
  Proto.pae_timestamp_unix_ms := event_timestamp_unix_ms e;
  Proto.pae_actor_json := json_string (actor_json (event_actor e));
  Proto.pae_kind := kind_number (event_kind e);
  Proto.pae_request_id := from_option (λ r, ulid_to_string (RequestId_ulid r)) "" (event_request_id e);
  Proto.pae_wallet_id := from_option (λ w, ulid_to_string (WalletId_ulid w)) "" (event_wallet_id e);
  Proto.pae_details_json := json_string (event_details e);
  Proto.pae_server_signature := server_signature e |}.

Definition lower_approver_identity (p : Proto.ApproverIdentity) : result Status ApproverIdentity :=
  inner ← require_field "identity.kind" (Proto.pi_identity p);
  match inner with
  | Proto.PChain chain_id address public_key scheme =>
      scheme ← scheme_from_i32 scheme; mret (Chain chain_id address public_key scheme)
  | Proto.PExternal id public_key scheme =>
      scheme ← scheme_from_i32 scheme; mret (Approval.External id public_key scheme)
  | Proto.PHardware handle public_key scheme =>
      scheme ← scheme_from_i32 scheme;
      mret (Hardware {| handle := handle; hw_public_key := public_key; hw_scheme := scheme |})
  | Proto.PNested w public_key scheme =>
      w ← parse_ulid WalletId_from_ulid "nested_wallet.wallet_id" w;
      scheme ← scheme_from_i32 scheme;
      mret (Approval.NestedWallet w public_key scheme)
  end.

Definition raise_approver_identity (i : ApproverIdentity) : Proto.ApproverIdentity :=
  let number s := enum_number (scheme_into_proto s) in
  {| Proto.pi_identity := Some match i with
     | Chain chain_id address public_key scheme => Proto.PChain chain_id address public_key (number scheme)
     | Approval.External id public_key scheme => Proto.PExternal id public_key (number scheme)
     | Hardware h => Proto.PHardware (handle h) (hw_public_key h) (number (hw_scheme h))
     | Approval.NestedWallet w public_key scheme =>
         Proto.PNested (ulid_to_string (WalletId_ulid w)) public_key (number scheme)
     end |}.

Definition raise_approver_record (r : ApproverRecord) : Proto.ApproverView := {|
  Proto.pav_approver_id := ulid_to_string (ApproverId_ulid (rec_approver_id r));
  Proto.pav_identity := Some (raise_approver_identity (identity r));
  Proto.pav_scheme := enum_number (scheme_into_proto (rec_scheme r));
  Proto.pav_label := rec_label r;
  Proto.pav_owner_id := OwnerId_as_str (rec_owner_id r);
  Proto.pav_webhook_url := default "" (webhook_url r);
  Proto.pav_status := enum_number (approver_status_into_proto (status r));
  Proto.pav_added_at_unix_ms := added_at_unix_ms r |}.

Definition raise_approver_set (s : ApproverSet) : Proto.ApproverSetView := {|
  Proto.psv_approver_set_id := ulid_to_string (ApproverSetId_ulid (set_id s));
  Proto.psv_name := set_name s;
  Proto.psv_owner_id := OwnerId_as_str (set_owner_id s);
  Proto.psv_members := (λ m, ulid_to_string (ApproverId_ulid m)) <$> members s;
  Proto.psv_threshold := set_threshold s;
  Proto.psv_total := set_total s;
  Proto.psv_quorum_timeout_secs := default 0 (quorum_timeout_secs s);
  Proto.psv_created_at_unix_ms := created_at_unix_ms s |}.

Definition lower_create_approver_set (req : Proto.CreateApproverSetRequest) : result Status ApproverSetCreate :=
  members ← map_result (parse_ulid ApproverId_from_ulid "member approver_id") (Proto.pcs_members req);
  threshold ← u8_of_u32 "threshold" (Proto.pcs_threshold req);
  total ← u8_of_u32 "total" (Proto.pcs_total req);
  mret {| sc_name := Proto.pcs_name req; sc_owner_id := OwnerId_new (Proto.pcs_owner_id req);
          sc_members := members; sc_threshold := threshold; sc_total := total;
          sc_quorum_timeout_secs := if Proto.pcs_quorum_timeout_secs req =? 0 then None
                                    else Some (Proto.pcs_quorum_timeout_secs req) |}.

Definition raise_signed_approval (a : SignedApproval) : Proto.ApprovalView := {|
  Proto.pap_approval_id := ulid_to_string (ApprovalId_ulid (sa_approval_id a));
  Proto.pap_request_id := ulid_to_string (RequestId_ulid (sa_request_id a));
  Proto.pap_approver_key := identity_key (sa_approver a);
  Proto.pap_approver := Some (raise_approver_identity (sa_approver a));
  Proto.pap_decision := enum_number (decision_into_proto (sa_decision a));
  Proto.pap_message_hash := sa_message_hash a;
  Proto.pap_timestamp_unix_ms := sa_timestamp_unix_ms a;
  Proto.pap_signature := sa_signature a |}.

Definition lower_submit_approval (req : Proto.SubmitApprovalRequest)
    : result Status (SignedApproval * ApproverId * bytes) :=
  request_id ← parse_ulid RequestId_from_ulid "request_id" (Proto.psa_request_id req);
  approver_id ← parse_ulid ApproverId_from_ulid "approver_id" (Proto.psa_approver_id req);
  approval_id ← parse_ulid ApprovalId_from_ulid "approval_id" (Proto.psa_approval_id req);
  message_hash ← require_32_bytes "message_hash" (Proto.psa_message_hash req);
  decision ← approval_decision_from_i32 (Proto.psa_decision req);
  pidentity ← require_field "identity" (Proto.psa_identity req);
  identity ← lower_approver_identity pidentity;
  mret ({| sa_approval_id := approval_id; sa_approver := identity; sa_request_id := request_id;
           sa_message_hash := message_hash; sa_decision := decision;
           sa_timestamp_unix_ms := Proto.psa_timestamp_unix_ms req;
           sa_signature := Proto.psa_signature req |}, approver_id, message_hash).

(** ** Error mapping *)

Definition map_service_error (e : ServiceError) : Status :=
  match e with
  | WalletNotFound id =>
      Status_new CodeNotFound ("wallet " +:+ ulid_to_string (WalletId_ulid id) +:+ " not found")
  | PolicyDenied msg => Status_new CodePermissionDenied msg
  | SvcQuorum (QeInvalidApproval inner) =>
      Status_new CodeFailedPrecondition ("approval verification failed: " +:+ verify_text inner)
  | SvcQuorum (UnknownApprover msg) => Status_new CodeNotFound msg
  | SvcQuorum (Transport msg) =>
      if str_contains "duplicate approval" msg then Status_new CodeAlreadyExists msg else status_internal msg
  | SvcQuorum other => Status_new CodeAborted (quorum_text other)
  | SvcEnclave e => status_internal ("enclave: " +:+ enclave_error_text e)
  | SvcAudit e => status_internal ("audit: " +:+ audit_text e)
  | SvcStore e => status_internal ("store: " +:+ share_text e)
  | SvcPolicy e => status_internal ("policy: " +:+ policy_text e)
  | InsufficientShares e => status_internal ("shares: " +:+ e)
  | Internal msg => status_internal msg
  end.

Definition map_registry_error (e : RegistryError) : Status :=
  let msg := registry_error_text e in
  match e with
  | ApproverNotFound _ | ApproverSetNotFound _ => Status_new CodeNotFound msg
  | UnknownMember _ | RevokedMember _ | MemberCountMismatch _ _ | InvalidThreshold _ _
  | DuplicateMember _ | NestingCycle _ | NestingTooDeep _ => Status_new CodeFailedPrecondition msg
  | RegIo _ => status_internal msg
  end.
End lower.
