(* ===== verification/GrpcHandlers.v ===== *)
(** * GrpcHandlers: the gRPC services ([grpc/auth.rs], [grpc/wallet.rs], [grpc/approver.rs], [grpc/mod.rs])

    The [Wallet] and [Approver] services over the same service state as the
    HTTP handlers, behind the [x-api-key] interceptor. *)

From S2P Require Import Prelude Text Types External PolicyTypes SignedDecision Derivation Signers Attestation Rlp EvmDecoder HybridVerifier MockEnclave Approval Registry ApprovalStore AuditLog ShareStore WalletService ApiSchemas ApiHandlers GrpcConvert.
#[local] Open Scope string_scope.
#[local] Open Scope list_scope.
#[local] Open Scope Z_scope.

(** ** The interceptor *)

(** [ApiKeyInterceptor::check]; the metadata value is the header's bytes. *)
Definition interceptor_check `{HeaderCrate} (keys : gset string) (metadata : option bytes)
    : result Status () :=
  match metadata with
  | None => Err (Status_new CodeUnauthenticated "missing x-api-key metadata")
  | Some hv =>
      match header_to_str hv with
      | None => Err (Status_new CodeUnauthenticated "invalid x-api-key encoding")
      | Some presented =>
          if is_allowed keys presented then Ok ()
          else Err (Status_new CodeUnauthenticated "invalid x-api-key")
      end
  end.

(** ** Calls *)

(** A call, indexed by the type of its response message: a view travels in an
    [Option] envelope. *)
Inductive Rpc : Type → Type :=
  | RpcCreateWallet (req : Proto.CreateWalletRequest) : Rpc (option Proto.WalletView)
  | RpcGetWallet (wallet_id : string) : Rpc (option Proto.WalletView)
  | RpcSign (req : Proto.SignRequest) : Rpc Proto.SignResponse
  | RpcGetAuditEvents (req : Proto.GetAuditEventsRequest) : Rpc (list Proto.AuditEventView)
  | RpcRegisterApprover (req : Proto.RegisterApproverRequest) : Rpc (option Proto.ApproverView)
  | RpcRevokeApprover (approver_id : string) : Rpc ()
  | RpcGetApprover (approver_id : string) : Rpc (option Proto.ApproverView)
  | RpcListApprovers (owner : string) (include_revoked : bool) : Rpc (list Proto.ApproverView)
  | RpcCreateApproverSet (req : Proto.CreateApproverSetRequest) : Rpc (option Proto.ApproverSetView)
  | RpcGetApproverSet (approver_set_id : string) : Rpc (option Proto.ApproverSetView)
  | RpcListApproverSets (owner : string) : Rpc (list Proto.ApproverSetView)
  | RpcSubmitApproval (req : Proto.SubmitApprovalRequest) : Rpc Proto.SubmitApprovalResponse
  | RpcListApprovals (request_id : string) : Rpc (list Proto.ApprovalView).

Section grpc.
Context `{UlidCrate, UlidParse, JsonCrate, DigestCrate, Ed25519Crate, K256Crate, MlDsaCrate, RlpCrate}.
Context `{EventSerde, HashOrder, HeaderCrate, ErrorTexts}.
Context {P Sh A AS E : Type} `{Policy P, ShareStore Sh, AuditSink A, ApprovalStore AS, Enclave E}.

#[local] Abbreviation W := (@World P Sh A AS).
#[local] Abbreviation svc_sign := (WalletService.sign deny_reason_text registry_error_text
  enclave_error_text signer_error_text overflow_error_text).
#[local] Abbreviation svc_record_approval := (WalletService.record_approval registry_error_text).

(** *** [wallet.rs] *)

Definition rpc_create_wallet (st : @AppState E) (env : ApiDraws) (req : Proto.CreateWalletRequest)
    : Call Status W (option Proto.WalletView) :=
  config ← call_of (lower_create_wallet (fresh_policy env) req);
  record ← call_svc map_service_error
             (WalletService.create_wallet (service st) (svc_draws env) config ActorSystem);
  mret (Some (raise_wallet_view record)).

Definition rpc_get_wallet (id : string) : Call Status W (option Proto.WalletView) :=
  wallet_id ← call_of (parse_ulid WalletId_from_ulid "wallet_id" id);
  record ← call_svc map_service_error (WalletService.get_wallet wallet_id);
  mret (Some (raise_wallet_view record)).

Definition rpc_sign (st : @AppState E) (env : ApiDraws) (req : Proto.SignRequest)
    : Call Status W Proto.SignResponse :=
  wallet_id ← call_of (parse_ulid WalletId_from_ulid "wallet_id" (Proto.ps_wallet_id req));
  payload ← call_of (p ← require_field "payload" (Proto.ps_payload req); lower_payload p);
  requester ← call_of (r ← require_field "requester" (Proto.ps_requester req); lower_requester r);
  hd_path ← call_of (lower_hd_path (Proto.ps_hd_path req));
  hash_alg ← call_of (hash_alg_from_i32 (Proto.ps_hash_alg req));
  context ← call_of (lower_context (Proto.ps_context req));
  resp ← call_svc map_service_error
           (svc_sign (service st) (svc_draws env) wallet_id payload requester hd_path context hash_alg);
  mret {| Proto.psr_signature := resp_signature resp; Proto.psr_public_key := resp_public_key resp;
          Proto.psr_attestation_json := json_string (doc_json (resp_attestation resp)) |}.

(** The private copy of [read_audit_events]. *)
Definition rpc_read_audit_events (file : AuditFile) (wallet_filter : option WalletId) (limit : nat)
    : result string (list AuditEvent) := scan_audit_log file wallet_filter limit.

Definition rpc_get_audit_events (env : ApiDraws) (req : Proto.GetAuditEventsRequest)
    : Call Status W (list Proto.AuditEventView) :=
  wallet_filter ← call_of (if String.eqb (Proto.pga_wallet_id req) "" then mret None
                           else w ← parse_ulid WalletId_from_ulid "wallet_id" (Proto.pga_wallet_id req);
                                mret (Some w));
  let limit_raw := if Proto.pga_limit req =? 0 then 100 else Proto.pga_limit req in
  let limit := Z.min limit_raw 1000 in
  events ← call_of (map_err (λ e, status_internal ("audit read: " +:+ e))
                      (rpc_read_audit_events (audit_file env) wallet_filter (Z.to_nat limit)));
  mret (raise_audit_event <$> events).

(** *** [approver.rs] *)

Definition rpc_register_approver (env : ApiDraws) (req : Proto.RegisterApproverRequest)
    : Call Status W (option Proto.ApproverView) :=
  identity ← call_of (i ← require_field "identity" (Proto.pra_identity req); lower_approver_identity i);
  let create := {| ac_identity := identity; ac_label := Proto.pra_label req;
                   ac_owner_id := OwnerId_new (Proto.pra_owner_id req);
                   ac_webhook_url := if String.eqb (Proto.pra_webhook_url req) "" then None
                                     else Some (Proto.pra_webhook_url req) |} in
  record ← call_registry map_registry_error
             (Registry.add_approver (fresh_approver env) (now_ms (svc_draws env)) create);
  mret (Some (raise_approver_record record)).

Definition rpc_revoke_approver (id : string) : Call Status W () :=
  id ← call_of (parse_ulid ApproverId_from_ulid "approver_id" id);
  _ ← call_registry map_registry_error (Registry.revoke_approver id);
  mret ().

Definition rpc_get_approver (id : string) : Call Status W (option Proto.ApproverView) :=
  id ← call_of (parse_ulid ApproverId_from_ulid "approver_id" id);
  rec ← query_registry map_registry_error (Registry.get_approver id);
  mret (Some (raise_approver_record rec)).

Definition rpc_list_approvers (owner : string) (include_revoked : bool) : Call Status W (list Proto.ApproverView) :=
  recs ← query_registry map_registry_error
           (λ r, Ok (Registry.list_approvers_by_owner (OwnerId_new owner) include_revoked r));
  mret (raise_approver_record <$> recs).

Definition rpc_create_approver_set (env : ApiDraws) (req : Proto.CreateApproverSetRequest)
    : Call Status W (option Proto.ApproverSetView) :=
  create ← call_of (lower_create_approver_set req);
  set ← call_create_set map_registry_error env create;
  mret (Some (raise_approver_set set)).

Definition rpc_get_approver_set (id : string) : Call Status W (option Proto.ApproverSetView) :=
  id ← call_of (parse_ulid ApproverSetId_from_ulid "approver_set_id" id);
  set ← query_registry map_registry_error (Registry.get_approver_set id);
  mret (Some (raise_approver_set set)).

Definition rpc_list_approver_sets (owner : string) : Call Status W (list Proto.ApproverSetView) :=
  sets ← query_registry map_registry_error (λ r, Ok (Registry.list_approver_sets (OwnerId_new owner) r));
  mret (raise_approver_set <$> sets).

Definition rpc_submit_approval (env : ApiDraws) (req : Proto.SubmitApprovalRequest)
    : Call Status W Proto.SubmitApprovalResponse :=
  lowered ← call_of (lower_submit_approval req);
  let '(signed, approver_id, expected_hash) := lowered in
  outcome ← call_svc map_service_error
              (svc_record_approval (now_ms (svc_draws env)) signed approver_id expected_hash);
  mret {| Proto.pso_recorded := bool_decide (outcome = Inserted);
          Proto.pso_approval_id := Proto.psa_approval_id req |}.

Definition rpc_list_approvals (request_id : string) : Call Status W (list Proto.ApprovalView) :=
  request_id ← call_of (parse_ulid RequestId_from_ulid "request_id" request_id);
  approvals ← (λ w, Returns (map_err (λ e, status_internal ("approval store: " +:+ store_text e))
                               (store_list request_id (w_approvals w)), w))
              : Call Status W (list SignedApproval);
  mret (raise_signed_approval <$> approvals).

(** ** The router: both services behind the interceptor *)

Definition rpc_handle {R} (st : @AppState E) (env : ApiDraws) (req : Rpc R) : Call Status W R :=
  match req in Rpc R return Call Status W R with
  | RpcCreateWallet req => rpc_create_wallet st env req
  | RpcGetWallet id => rpc_get_wallet id
  | RpcSign req => rpc_sign st env req
  | RpcGetAuditEvents req => rpc_get_audit_events env req
  | RpcRegisterApprover req => rpc_register_approver env req
  | RpcRevokeApprover id => rpc_revoke_approver id
  | RpcGetApprover id => rpc_get_approver id
  | RpcListApprovers owner include_revoked => rpc_list_approvers owner include_revoked
  | RpcCreateApproverSet req => rpc_create_approver_set env req
  | RpcGetApproverSet id => rpc_get_approver_set id
  | RpcListApproverSets owner => rpc_list_approver_sets owner
  | RpcSubmitApproval req => rpc_submit_approval env req
  | RpcListApprovals id => rpc_list_approvals id
  end.

Definition rpc_serve {R} (st : @AppState E) (env : ApiDraws) (metadata : option bytes) (req : Rpc R)
    : Call Status W R :=
  _ ← call_of (interceptor_check (api_keys st) metadata);
  rpc_handle st env req.
End grpc.
