(* ===== verification/GrpcClient.v ===== *)
(** * GrpcClient: the Rust client library of the gRPC surface ([clients/wallet-grpc-rs/src])

    Parameter types and their conversion to messages ([convert.rs]), the typed
    error ([error.rs]), the interceptor that attaches the key ([auth.rs]) and
    the two clients ([client.rs]) over a channel.  A channel carries a call with
    its metadata to whatever is at the other end; connecting is a parameter. *)

From S2P Require Import Prelude Text Types External PolicyTypes SignedDecision Attestation MockEnclave Approval Registry ApprovalStore AuditLog ShareStore WalletService ApiSchemas ApiHandlers GrpcConvert GrpcHandlers.
#[local] Open Scope string_scope.
#[local] Open Scope list_scope.
#[local] Open Scope Z_scope.

(** ** [error.rs] *)

Inductive SdkError :=
  | SdkTransport (why : string)
  | SdkBadInput (m : string)
  | SdkUnauthenticated (m : string)
  | SdkPermissionDenied (m : string)
  | SdkNotFound (m : string)
  | SdkAlreadyExists (m : string)
  | SdkInvalidArgument (m : string)
  | SdkFailedPrecondition (m : string)
  | SdkAborted (m : string)
  | SdkInternal (m : string)
  | SdkRpc (s : Status).

Definition sdk_error_of (s : Status) : SdkError :=
  let msg := message s in
  match code s with
  | CodeUnauthenticated => SdkUnauthenticated msg
  | CodePermissionDenied => SdkPermissionDenied msg
  | CodeNotFound => SdkNotFound msg
  | CodeAlreadyExists => SdkAlreadyExists msg
  | CodeInvalidArgument => SdkInvalidArgument msg
  | CodeFailedPrecondition => SdkFailedPrecondition msg
  | CodeAborted => SdkAborted msg
  | CodeInternal => SdkInternal msg
  | CodeOther _ => SdkRpc s
  end.

(** ** [convert.rs] *)

Record CreateWalletParams := {
  cwp_scheme : Proto.SigningScheme; cwp_threshold : Z; cwp_total : Z; cwp_display_name : string;
  cwp_owner_id : string; cwp_policy_id : option string }.
Definition create_wallet_message (p : CreateWalletParams) : Proto.CreateWalletRequest := {|
  Proto.pcw_scheme := enum_number (cwp_scheme p); Proto.pcw_threshold := cwp_threshold p;
  Proto.pcw_total := cwp_total p; Proto.pcw_display_name := cwp_display_name p;
  Proto.pcw_owner_id := cwp_owner_id p; Proto.pcw_policy_id := default "" (cwp_policy_id p) |}.

Record SignParams := {
  sp_wallet_id : string; sp_payload : Proto.SigningPayload; sp_requester : Proto.Requester;
  sp_hd_path : string; sp_hash_alg : Proto.HashAlg; sp_context : option Proto.SigningContext }.
Definition sign_message (p : SignParams) : Proto.SignRequest := {|
  Proto.ps_wallet_id := sp_wallet_id p; Proto.ps_payload := Some (sp_payload p);
  Proto.ps_requester := Some (sp_requester p); Proto.ps_hd_path := sp_hd_path p;
  Proto.ps_hash_alg := enum_number (sp_hash_alg p); Proto.ps_context := sp_context p |}.

Record Signed := { sd_signature : bytes; sd_public_key : bytes; sd_attestation_json : string }.
Definition signed_of (r : Proto.SignResponse) : Signed := {|
  sd_signature := Proto.psr_signature r; sd_public_key := Proto.psr_public_key r;
  sd_attestation_json := Proto.psr_attestation_json r |}.

Record RegisterApproverParams := {
  rap_identity : Proto.ApproverIdentity; rap_label : string; rap_owner_id : string;
  rap_webhook_url : option string }.
Definition register_approver_message (p : RegisterApproverParams) : Proto.RegisterApproverRequest := {|
  Proto.pra_identity := Some (rap_identity p); Proto.pra_label := rap_label p;
  Proto.pra_owner_id := rap_owner_id p; Proto.pra_webhook_url := default "" (rap_webhook_url p) |}.

Record CreateApproverSetParams := {
  csp_name : string; csp_owner_id : string; csp_members : list string; csp_threshold : Z;
  csp_total : Z; csp_quorum_timeout_secs : option Z }.
Definition create_set_message (p : CreateApproverSetParams) : Proto.CreateApproverSetRequest := {|
  Proto.pcs_name := csp_name p; Proto.pcs_owner_id := csp_owner_id p; Proto.pcs_members := csp_members p;
  Proto.pcs_threshold := csp_threshold p; Proto.pcs_total := csp_total p;
  Proto.pcs_quorum_timeout_secs := default 0 (csp_quorum_timeout_secs p) |}.

Record SubmitApprovalParams := {
  sbp_request_id : string; sbp_approver_id : string; sbp_approval_id : string;
  sbp_decision : Proto.ApprovalDecision; sbp_signature : bytes; sbp_timestamp_unix_ms : Z;
  sbp_message_hash : bytes; sbp_identity : Proto.ApproverIdentity }.

Definition submit_validate (p : SubmitApprovalParams) : result SdkError () :=
  if negb (bool_decide (length (sbp_message_hash p) = 32%nat)) then
    Err (SdkBadInput ("message_hash must be exactly 32 bytes (got "
                      +:+ show_dec (Z.of_nat (length (sbp_message_hash p))) +:+ ")"))
  else if bool_decide (sbp_signature p = []) then Err (SdkBadInput "signature must not be empty")
  else Ok ().

Definition submit_message (p : SubmitApprovalParams) : Proto.SubmitApprovalRequest := {|
  Proto.psa_request_id := sbp_request_id p; Proto.psa_approver_id := sbp_approver_id p;
  Proto.psa_approval_id := sbp_approval_id p; Proto.psa_decision := enum_number (sbp_decision p);
  Proto.psa_signature := sbp_signature p; Proto.psa_timestamp_unix_ms := sbp_timestamp_unix_ms p;
  Proto.psa_message_hash := sbp_message_hash p; Proto.psa_identity := Some (sbp_identity p) |}.

Record EventsQuery := { eq_wallet_id : option string; eq_limit : option Z }.
Definition events_message (q : EventsQuery) : Proto.GetAuditEventsRequest := {|
  Proto.pga_wallet_id := default "" (eq_wallet_id q); Proto.pga_limit := default 0 (eq_limit q) |}.

Definition require {A} (field : string) (opt : option A) : result SdkError A :=
  ok_or opt (SdkInternal ("server returned None for required field: " +:+ field)).

(** ** [auth.rs] *)

(** [MetadataValue::try_from(&str)]. *)
Class MetadataCrate := { metadata_try_from : string → option bytes }.
(** Visible ASCII text becomes a value with the same bytes. *)
Class MetadataLaws `{MetadataCrate} : Prop := {
  metadata_visible : ∀ s, chars_all (λ c, (32 <=? char_val c) && (char_val c <? 127)) s = true →
    metadata_try_from s = Some (string_bytes s);
}.

(** The interceptor: the metadata every outgoing call carries. *)
Definition attach_key `{MetadataCrate} (key : string) : result Status bytes :=
  ok_or (metadata_try_from key)
        (invalid_argument "api_key contains characters invalid for HTTP/2 metadata").

(** ** [client.rs] *)

Record ClientBuilder := {
  cb_endpoint : string; cb_api_key : option string; cb_timeout : option Z; cb_connect_timeout : option Z }.
Definition client_builder (endpoint : string) : ClientBuilder := {|
  cb_endpoint := endpoint; cb_api_key := None; cb_timeout := None; cb_connect_timeout := None |}.
Definition cb_with_key (key : string) (b : ClientBuilder) : ClientBuilder := {|
  cb_endpoint := cb_endpoint b; cb_api_key := Some key; cb_timeout := cb_timeout b;
  cb_connect_timeout := cb_connect_timeout b |}.
Definition cb_with_timeout (d : Z) (b : ClientBuilder) : ClientBuilder := {|
  cb_endpoint := cb_endpoint b; cb_api_key := cb_api_key b; cb_timeout := Some d;
  cb_connect_timeout := cb_connect_timeout b |}.
Definition cb_with_connect_timeout (d : Z) (b : ClientBuilder) : ClientBuilder := {|
  cb_endpoint := cb_endpoint b; cb_api_key := cb_api_key b; cb_timeout := cb_timeout b;
  cb_connect_timeout := Some d |}.

(** A channel to the other end: it carries a call and its metadata. *)
Definition Channel (W : Type) : Type := ∀ R, option bytes → Rpc R → Call Status W R.

Section client.
Context `{MetadataCrate} {W : Type}.
(** [Endpoint::from_shared] and [connect] with the two timeouts. *)
Variable endpoint_parse : string → result string ().
Variable connect : string → option Z → option Z → result string (Channel W).

(** The intercepted channel: the key and where it is sent. *)
Record Client := { client_key : string; client_channel : Channel W }.

(** [build_channel], the common part of [wallet] and [approver]. *)
Definition build_channel (b : ClientBuilder) : result SdkError Client :=
  _ ← map_err (λ e, SdkBadInput ("invalid endpoint: " +:+ e)) (endpoint_parse (cb_endpoint b));
  ch ← map_err SdkTransport (connect (cb_endpoint b) (cb_timeout b) (cb_connect_timeout b));
  mret {| client_key := default "" (cb_api_key b); client_channel := ch |}.

(** One RPC through the interceptor, [?] turning a status into an [SdkError]. *)
Definition rpc {R} (c : Client) (req : Rpc R) : Call SdkError W R := λ w,
  match attach_key (client_key c) with
  | Err s => Returns (Err (sdk_error_of s), w)
  | Ok v => match client_channel c R (Some v) req w with
            | Panics why => Panics why
            | Returns (r, w') => Returns (map_err sdk_error_of r, w')
            end
  end.

Definition cl_create_wallet (c : Client) (p : CreateWalletParams) : Call SdkError W Proto.WalletView :=
  resp ← rpc c (RpcCreateWallet (create_wallet_message p)); call_of (require "wallet" resp).
Definition cl_get_wallet (c : Client) (wallet_id : string) : Call SdkError W Proto.WalletView :=
  resp ← rpc c (RpcGetWallet wallet_id); call_of (require "wallet" resp).
Definition cl_sign (c : Client) (p : SignParams) : Call SdkError W Signed :=
  resp ← rpc c (RpcSign (sign_message p)); mret (signed_of resp).
Definition cl_get_audit_events (c : Client) (q : EventsQuery)
    : Call SdkError W (list Proto.AuditEventView) := rpc c (RpcGetAuditEvents (events_message q)).

Definition cl_register_approver (c : Client) (p : RegisterApproverParams)
    : Call SdkError W Proto.ApproverView :=
  resp ← rpc c (RpcRegisterApprover (register_approver_message p)); call_of (require "approver" resp).
Definition cl_revoke_approver (c : Client) (id : string) : Call SdkError W () := rpc c (RpcRevokeApprover id).
Definition cl_get_approver (c : Client) (id : string) : Call SdkError W Proto.ApproverView :=
  resp ← rpc c (RpcGetApprover id); call_of (require "approver" resp).
Definition cl_list_approvers (c : Client) (owner : string) (include_revoked : bool)
    : Call SdkError W (list Proto.ApproverView) := rpc c (RpcListApprovers owner include_revoked).
Definition cl_create_approver_set (c : Client) (p : CreateApproverSetParams)
    : Call SdkError W Proto.ApproverSetView :=
  resp ← rpc c (RpcCreateApproverSet (create_set_message p)); call_of (require "approver_set" resp).
Definition cl_get_approver_set (c : Client) (id : string) : Call SdkError W Proto.ApproverSetView :=
  resp ← rpc c (RpcGetApproverSet id); call_of (require "approver_set" resp).
Definition cl_list_approver_sets (c : Client) (owner : string)
    : Call SdkError W (list Proto.ApproverSetView) := rpc c (RpcListApproverSets owner).
Definition cl_submit_approval (c : Client) (p : SubmitApprovalParams) : Call SdkError W (bool * string) :=
  _ ← call_of (submit_validate p);
  resp ← rpc c (RpcSubmitApproval (submit_message p));
  mret (Proto.pso_recorded resp, Proto.pso_approval_id resp).
Definition cl_list_approvals (c : Client) (request_id : string)
    : Call SdkError W (list Proto.ApprovalView) := rpc c (RpcListApprovals request_id).
End client.
