(* ===== verification/ApiProps.v ===== *)
(** * ApiProps: what the HTTP and gRPC surfaces guarantee

    The key gate of both surfaces, the audit listing against the log the file
    sink writes, the agreement of the two surfaces and of the client library
    with the service they wrap, and where their error mappings differ. *)

From S2P Require Import Prelude Text Types External PolicyTypes SignedDecision Derivation Signers Attestation Rlp EvmDecoder HybridVerifier MockEnclave Approval Registry ApprovalStore AuditLog ShareStore WalletService WalletServiceProps ApiSchemas ApiHandlers GrpcConvert GrpcHandlers GrpcClient.
From Stdlib Require Import Ascii.
#[local] Open Scope string_scope.
#[local] Open Scope list_scope.
#[local] Open Scope Z_scope.

(** ** The key gate *)

Lemma is_allowed_ok keys s : is_allowed keys s = true ↔ s ∈ keys.
Proof.
  unfold is_allowed. rewrite Z.eqb_eq, <-elem_of_elements.
  induction (elements keys) as [|k l IH] using rev_ind; cbn [foldl].
  - split; [done|]. by intros ?%elem_of_nil.
  - rewrite foldl_app, elem_of_app, list_elem_of_singleton. cbn [foldl].
    destruct (decide (k = s)) as [->|Hne].
    + rewrite !bool_decide_eq_true_2 by done. naive_solver.
    + rewrite (bool_decide_eq_false_2 (string_bytes k = _)), andb_false_r.
      * rewrite IH. naive_solver.
      * intros Heq. apply Hne. by apply string_bytes_inj.
Qed.

(** A configured key: a non-empty trimmed part of the comma-separated text. *)
Definition configured (raw s : string) : Prop :=
  s ≠ "" ∧ ∃ part, part ∈ split_char ","%char raw ∧ trim part = s.

Lemma load_api_keys_ok raw s : s ∈ load_api_keys raw ↔ configured raw s.
Proof.
  unfold load_api_keys, configured. rewrite elem_of_list_to_set, list_elem_of_In, filter_In.
  rewrite <-list_elem_of_In, list_elem_of_fmap, negb_true_iff, String.eqb_neq. naive_solver.
Qed.

(** The request carries a configured key. *)
Definition presents `{HeaderCrate} (raw : string) (header : option bytes) : Prop :=
  ∃ hv s, header = Some hv ∧ header_to_str hv = Some s ∧ configured raw s.

Lemma require_api_key_ok `{HeaderCrate} raw header :
  (presents raw header ∧ require_api_key_inner (load_api_keys raw) header = Ok ())
  ∨ (¬ presents raw header ∧ ∃ m, require_api_key_inner (load_api_keys raw) header = Err (Unauthorized m)).
Proof.
  unfold require_api_key_inner, presents. destruct header as [hv|]; [|naive_solver].
  destruct (header_to_str hv) as [s|] eqn:Hs; [|naive_solver].
  destruct (is_allowed _ s) eqn:Ha.
  - left. apply is_allowed_ok, load_api_keys_ok in Ha. naive_solver.
  - right. split; [|by eexists]. intros (hv' & s' & [= <-] & Hs' & Hc). rewrite Hs in Hs'.
    injection Hs' as <-. apply load_api_keys_ok, is_allowed_ok in Hc. congruence.
Qed.

Lemma interceptor_check_ok `{HeaderCrate} raw header :
  (presents raw header ∧ interceptor_check (load_api_keys raw) header = Ok ())
  ∨ (¬ presents raw header
     ∧ ∃ m, interceptor_check (load_api_keys raw) header = Err (Status_new CodeUnauthenticated m)).
Proof.
  destruct (require_api_key_ok raw header) as [[Hp Hr]|[Hp [m Hr]]]; [left|right]; (split; [done|]);
    unfold require_api_key_inner, interceptor_check in *; case_all; by eexists.
Qed.

Section gate.
Context `{UlidCrate, UlidParse, HexCrate, JsonCrate, DigestCrate, Ed25519Crate, K256Crate, MlDsaCrate, RlpCrate}.
Context `{EventSerde, HashOrder, HeaderCrate, ErrorTexts}.
Context {P Sh A AS E : Type} `{Policy P, ShareStore Sh, AuditSink A, ApprovalStore AS, Enclave E}.
Implicit Types w : @World P Sh A AS.
Implicit Types st : @AppState E.

(** The gate of both surfaces. *)
Lemma api_key_gate_ok st env header raw w :
  api_keys st = load_api_keys raw →
  (presents raw header →
     (∀ req, serve st env header req w = respond (handle st env req w))
     ∧ ∀ R (req : Rpc R), rpc_serve st env header req w = rpc_handle st env req w)
  ∧ (¬ presents raw header →
     (∀ req, is_public req = false →
        ∃ hint, serve st env header req w = Returns ((401, BError "unauthorized" hint), w))
     ∧ ∀ R (req : Rpc R), ∃ m,
        rpc_serve st env header req w = Returns (Err (Status_new CodeUnauthenticated m), w)).
Proof.
  intros Hk. unfold serve, rpc_serve. rewrite Hk. split; intros Hp.
  - destruct (require_api_key_ok raw header) as [[_ ->]|[[]]]; [|done].
    destruct (interceptor_check_ok raw header) as [[_ ->]|[[]]]; [|done].
    split; [|done]. intros req. by destruct (is_public req).
  - destruct (require_api_key_ok raw header) as [[]|[_ [m ->]]]; [done|].
    destruct (interceptor_check_ok raw header) as [[]|[_ [m' ->]]]; [done|].
    split; [|by eexists]. intros req ->. by eexists.
Qed.

(** Both surfaces gate every call but the liveness, metrics and redirect routes
    on the same keys: the non-empty trimmed parts of the configured text.  A
    request that presents one is handled, by the handler alone; any other is
    answered 401, or [UNAUTHENTICATED], and changes nothing. *)
Theorem api_key_gate st env header raw w :
  api_keys st = load_api_keys raw →
  (presents raw header →
     (∀ req, serve st env header req w = respond (handle st env req w))
     ∧ ∀ R (req : Rpc R), rpc_serve st env header req w = rpc_handle st env req w)
  ∧ (¬ presents raw header →
     (∀ req, is_public req = false →
        ∃ hint, serve st env header req w = Returns ((401, BError "unauthorized" hint), w))
     ∧ ∀ R (req : Rpc R), ∃ m,
        rpc_serve st env header req w = Returns (Err (Status_new CodeUnauthenticated m), w)).
Proof. apply api_key_gate_ok. Qed.
End gate.

(** ** The audit listing *)

(** Serialised JSON is UTF-8 text. *)
Class JsonUtf8 `{JsonCrate} : Prop := { json_utf8 : ∀ j, utf8_valid (json_to_vec j) = true }.

Definition of_wallet (f : option WalletId) (e : AuditEvent) : bool :=
  match f with Some w => bool_decide (event_wallet_id e = Some w) | None => true end.

(** The last [n] elements. *)
Definition last_n {X} (n : nat) (l : list X) : list X := drop (length l - n) l.

Lemma last_n_spec {X} n (l : list X) :
  ∃ older, l = older ++ last_n n l ∧ length (last_n n l) = (n `min` length l)%nat.
Proof.
  exists (take (length l - n) l). unfold last_n. rewrite take_drop, length_drop. split; [done|lia].
Qed.

Section listing.
Context `{UlidCrate, JsonCrate, DigestCrate, Ed25519Crate, EventSerde}.
Context `{!JsonLaws, !EventSerdeLaws, !JsonUtf8}.

Lemma scan_line_event f acc e :
  event_ok e →
  scan_line f acc (json_to_vec (event_json e)) = Ok (acc ++ List.filter (of_wallet f) [e]).
Proof.
  intros He. unfold scan_line. rewrite json_utf8. cbn [ensure mbind result_bind].
  rewrite bool_decide_eq_false_2 by apply json_nonempty. rewrite event_round_trip by done.
  cbn [map_err mbind result_bind]. unfold of_wallet. cbn [List.filter].
  destruct f as [w|]; [|done]. case_bool_decide; [done|]. by rewrite app_nil_r.
Qed.

Lemma scan_log f acc es :
  Forall event_ok es →
  fold_result (scan_line f) acc (split_newline (log_content es)) = Ok (acc ++ List.filter (of_wallet f) es).
Proof.
  intros Hok. revert acc. induction Hok as [|e es He _ IH]; intros acc.
  { cbn. by rewrite app_nil_r. }
  unfold log_content. cbn [fmap list_fmap concat]. unfold event_line at 1. rewrite <-app_assoc. cbn [app].
  rewrite split_newline_line by apply json_no_newline. cbn [fold_result].
  rewrite scan_line_event by done. cbn [mbind result_bind].
  change (concat (event_line <$> es)) with (log_content es). rewrite IH, <-app_assoc.
  by rewrite <-List.filter_app.
Qed.

Lemma scan_audit_log_ok f n es :
  Forall event_ok es →
  scan_audit_log (FileBytes (log_content es) None) f n = Ok (last_n n (List.filter (of_wallet f) es)).
Proof. intros Hok. cbn. by rewrite scan_log. Qed.
End listing.

Section listing_surfaces.
Context `{UlidCrate, UlidParse, HexCrate, JsonCrate, DigestCrate, Ed25519Crate, K256Crate, MlDsaCrate, RlpCrate}.
Context `{EventSerde, HashOrder, HeaderCrate, ErrorTexts}.
Context `{!UlidLaws, !UlidParseLaws, !JsonLaws, !DigestLaws, !Ed25519Laws, !EventSerdeLaws, !JsonUtf8}.
Context {P Sh A AS : Type}.
Implicit Types w : @World P Sh A AS.

Definition wallet_text (f : option WalletId) : option string :=
  (λ i, ulid_to_string (WalletId_ulid i)) <$> f.

Lemma ulid_text_nonempty u : String.eqb (ulid_to_string u) "" = false.
Proof. apply String.eqb_neq. intros Hu. pose proof (ulid_length u) as Hl. by rewrite Hu in Hl. Qed.

(** The listing shows the log the file sink wrote: after any number of emissions
    to a fresh log, [GET /audit/events] and [GetAuditEvents] return exactly the
    most recent matching events in order, up to the limit and never more than
    a thousand, each the view of the event as emitted. *)
Theorem audit_listing_exact key ms :
  Forall (λ m, emission_ok m ∧ em_io m = IoOk) ms →
  ∃ evs st file,
    emit_batch key ms {| head_hash := genesis_hash; written := 0 |} [] = (Ok evs, st, file)
    ∧ length evs = length ms
    ∧ ∀ env f limit w, audit_file env = FileBytes file None →
        from_option (λ i, is_ulid (WalletId_ulid i)) True f →
        let listed := last_n (Z.to_nat (Z.min limit 1000)) (List.filter (of_wallet f) evs) in
        list_audit_events env {| aq_wallet_id := wallet_text f; aq_limit := Some limit |} w
          = Returns (Ok (200, BEvents (audit_event_view <$> listed)), w)
        ∧ (limit ≠ 0 →
           rpc_get_audit_events env
             {| Proto.pga_wallet_id := default "" (wallet_text f); Proto.pga_limit := limit |} w
           = Returns (Ok (raise_audit_event <$> listed), w)).
Proof.
  intros Hms. destruct (emit_batch_sink key ms _ _ _ Hms (fresh_sink_ok key))
    as (evs & st & file & Hb & Hlen & (-> & _ & Hok & _ & _)). cbn [app] in *.
  exists evs, st, (log_content evs). split; [exact Hb|]. split; [done|].
  intros env f limit w Hf Hu. unfold list_audit_events, rpc_get_audit_events, read_audit_events,
    rpc_read_audit_events. rewrite Hf. cbn [aq_wallet_id aq_limit default Proto.pga_wallet_id Proto.pga_limit].
  split; [|intros Hl; rewrite (proj2 (Z.eqb_neq limit 0) Hl)]; rewrite call_bind_of;
    destruct f as [[u]|]; cbn [wallet_text fmap option_fmap option_map WalletId_ulid from_option id] in *;
    rewrite ?ulid_text_nonempty; unfold parse_id, parse_ulid; rewrite ?ulid_parse_to_string by done;
    cbn [ok_or mbind result_bind mret result_ret String.eqb]; by rewrite call_bind_of, scan_audit_log_ok.
Qed.
End listing_surfaces.

(** ** Requests as a client writes them *)

Definition dto_of_vm (v : VmType) : VmTypeDto :=
  match v with Evm => DtoEvm | Qvm => DtoQvm | Wasm => DtoWasm end.
Definition vm_into_proto (v : VmType) : Proto.VmType :=
  match v with Evm => Proto.PEvm | Qvm => Proto.PQvm | Wasm => Proto.PWasm end.
Definition dto_of_hash (h : HashAlg) : HashAlgDto :=
  match h with
  | HashNone => DtoHashNone | Sha256 => DtoSha256 | Keccak256 => DtoKeccak256 | Blake3 => DtoBlake3
  end.

Section encode.
Context `{UlidCrate, JsonCrate}.

Definition http_payload (p : SigningPayload) : SigningPayloadDto :=
  match p with
  | Raw bs => DtoRaw (hex_encode bs)
  | PersonalSign bs => DtoPersonalSign (hex_encode bs)
  | TypedData j => DtoTypedData j
  | VmTransaction vm chain_id to raw =>
      DtoVmTransaction (dto_of_vm vm) chain_id (hex_encode <$> to) (hex_encode raw)
  end.

Definition http_requester (r : Requester) : RequesterDto :=
  match r with
  | ApiKey k => DtoApiKey k
  | OAuthSubject s => DtoOauthSubject s
  | PolicyTypes.NestedWallet w => DtoNestedWallet (ulid_to_string (WalletId_ulid w))
  | OnChainContract c a => DtoOnChainContract c (hex_encode a)
  end.

Definition http_sign (payload : SigningPayload) (r : Requester) (path : option HdPath.HdPath)
    (ctx : SigningContext) (h : HashAlg) : SignRequest := {|
  sr_payload := http_payload payload; sr_requester := http_requester r;
  sr_hd_path := HdPath.to_string <$> path; sr_hash_alg := dto_of_hash h;
  sr_context := Some {| scd_chain_id := ctx_chain_id ctx; scd_vm_type := ctx_vm_type ctx;
                        scd_extra := ctx_extra ctx |} |}.

Definition grpc_payload (p : SigningPayload) : Proto.SigningPayload := {|
  Proto.pp_payload := Some match p with
    | Raw bs => Proto.PRaw bs
    | PersonalSign bs => Proto.PPersonalSign bs
    | TypedData j => Proto.PTypedData (json_string j)
    | VmTransaction vm chain_id to raw =>
        Proto.PVmTransaction (enum_number (vm_into_proto vm)) chain_id to raw
    end |}.

Definition grpc_requester (r : Requester) : Proto.Requester := {|
  Proto.pr_requester := Some match r with
    | ApiKey k => Proto.PApiKey k
    | OAuthSubject s => Proto.POauthSubject s
    | PolicyTypes.NestedWallet w => Proto.PNestedWallet (ulid_to_string (WalletId_ulid w))
    | OnChainContract c a => Proto.POnChainContract c a
    end |}.

Definition grpc_sign (wid : WalletId) (payload : SigningPayload) (r : Requester)
    (path : option HdPath.HdPath) (ctx : SigningContext) (h : HashAlg) : SignParams := {|
  sp_wallet_id := ulid_to_string (WalletId_ulid wid); sp_payload := grpc_payload payload;
  sp_requester := grpc_requester r; sp_hd_path := from_option HdPath.to_string "" path;
  sp_hash_alg := hash_into_proto h;
  sp_context := Some {| Proto.pc_chain_id := ctx_chain_id ctx; Proto.pc_vm_type := ctx_vm_type ctx;
                        Proto.pc_extra_json := json_string (ctx_extra ctx) |} |}.
End encode.

Definition requester_ok (r : Requester) : Prop :=
  match r with PolicyTypes.NestedWallet w => is_ulid (WalletId_ulid w) | _ => True end.
Definition path_ok (p : option HdPath.HdPath) : Prop :=
  from_option (λ p, Forall HdPath.segment_ok (HdPath.segments p)) True p.

(** A service result seen through a surface. *)
Definition through {X Y Er W} (ok : X → Y) (err : ServiceError → Er)
    (r : panics (result ServiceError X * W)) : panics (result Er Y * W) :=
  match r with
  | Panics why => Panics why
  | Returns (Ok x, w) => Returns (Ok (ok x), w)
  | Returns (Err e, w) => Returns (Err (err e), w)
  end.

Lemma call_svc_through {X Y Er W} (f : ServiceError → Er) (m : Svc W X) (k : X → Y) (w : W) :
  (call_svc f m ≫= λ x, (mret (k x) : Call Er W Y)) w = through k f (m w).
Proof. unfold call_svc, mbind, call_bind. by destruct (m w) as [[[] ?]|]. Qed.

Section lowering.
Context `{UlidCrate, UlidParse, HexCrate, JsonCrate, ErrorTexts}.
Context `{!UlidParseLaws, !HexLaws, !JsonLaws}.

Lemma parse_id_text {X} (mk : N → X) field u :
  is_ulid u → parse_id mk field (ulid_to_string u) = Ok (mk u).
Proof. intros Hu. unfold parse_id. by rewrite ulid_parse_to_string. Qed.

Lemma parse_ulid_text {X} (mk : N → X) field u :
  is_ulid u → parse_ulid mk field (ulid_to_string u) = Ok (mk u).
Proof. intros Hu. unfold parse_ulid. by rewrite ulid_parse_to_string. Qed.

Lemma decode_hex_text field bs : decode_hex field (hex_encode bs) = Ok bs.
Proof. unfold decode_hex. by rewrite hex_decode_encode. Qed.

Lemma string_bytes_json j : string_bytes (json_string j) = json_to_vec j.
Proof. apply String.list_byte_of_string_of_list_byte. Qed.

Lemma parse_json_text field j : parse_json field (json_string j) = Ok j.
Proof. unfold parse_json. by rewrite string_bytes_json, json_round_trip. Qed.

Lemma json_text_nonempty j : String.eqb (json_string j) "" = false.
Proof.
  apply String.eqb_neq. intros Hj. pose proof (string_bytes_json j) as Hb. rewrite Hj in Hb.
  by apply (json_nonempty j).
Qed.

Lemma lower_http_payload p : payload_into_domain (http_payload p) = Ok p.
Proof.
  destruct p as [bs|bs|j|[] c [to|] raw]; cbn; rewrite ?decode_hex_text; cbn; by rewrite ?decode_hex_text.
Qed.

Lemma lower_http_requester r : requester_ok r → requester_into_domain (http_requester r) = Ok r.
Proof.
  destruct r as [| |[w]|c a]; cbn; intros Hr; [done..| |by rewrite decode_hex_text].
  by rewrite parse_id_text.
Qed.

Lemma lower_grpc_payload p : lower_payload (grpc_payload p) = Ok p.
Proof. destruct p as [bs|bs|j|[] c to raw]; cbn; [done..| | | |]; by rewrite ?parse_json_text. Qed.

Lemma lower_grpc_requester r : requester_ok r → lower_requester (grpc_requester r) = Ok r.
Proof. destruct r as [| |[w]|c a]; cbn; intros Hr; [done..| |done]. by rewrite parse_ulid_text. Qed.

Lemma path_text_nonempty p : String.eqb (HdPath.to_string p) "" = false.
Proof. by apply String.eqb_neq. Qed.

Lemma lower_grpc_path p : path_ok p → lower_hd_path (from_option HdPath.to_string "" p) = Ok p.
Proof.
  destruct p as [p|]; cbn [from_option path_ok]; [|done]. intros Hp. unfold lower_hd_path.
  by rewrite path_text_nonempty, HdPath.from_str_to_string_segments.
Qed.

Lemma hash_number_round_trip h : hash_alg_from_i32 (enum_number (hash_into_proto h)) = Ok h.
Proof. by destruct h. Qed.
End lowering.

(** ** The two surfaces run the same service *)

Definition visible (s : string) : Prop :=
  chars_all (λ c, (32 <=? char_val c) && (char_val c <? 127)) s = true.

Section surfaces.
Context `{UlidCrate, UlidParse, HexCrate, JsonCrate, DigestCrate, Ed25519Crate, K256Crate, MlDsaCrate, RlpCrate}.
Context `{EventSerde, HashOrder, HeaderCrate, MetadataCrate, ErrorTexts}.
Context `{!UlidParseLaws, !HexLaws, !JsonLaws, !HeaderLaws, !MetadataLaws}.
Context {P Sh A AS E : Type} `{Policy P, ShareStore Sh, AuditSink A, ApprovalStore AS, Enclave E}.
Implicit Types w : @World P Sh A AS.
Implicit Types st : @AppState E.

#[local] Abbreviation svc_sign := (WalletService.sign deny_reason_text registry_error_text
  enclave_error_text signer_error_text overflow_error_text).
#[local] Abbreviation svc_record_approval := (WalletService.record_approval registry_error_text).

(** A client of the library, connected to this server with [key]. *)
Definition connected st (env : ApiDraws) (key : string) : @Client (@World P Sh A AS) := {|
  client_key := key; client_channel := λ R md req, rpc_serve st env md req |}.

(** The server's configured text [raw] admits [key]. *)
Definition admits st (raw key : string) : Prop :=
  api_keys st = load_api_keys raw ∧ configured raw key ∧ visible key.

Lemma admitted st raw key : admits st raw key →
  require_api_key_inner (api_keys st) (Some (string_bytes key)) = Ok ()
  ∧ interceptor_check (api_keys st) (Some (string_bytes key)) = Ok ()
  ∧ attach_key key = Ok (string_bytes key).
Proof.
  intros (-> & Hc & Hv). pose proof (header_to_str_visible key Hv) as Hh.
  assert (presents raw (Some (string_bytes key))) as Hp by (by do 2 eexists).
  destruct (require_api_key_ok raw (Some (string_bytes key))) as [[_ ->]|[]]; [|done].
  destruct (interceptor_check_ok raw (Some (string_bytes key))) as [[_ ->]|[]]; [|done].
  split; [done|]. split; [done|]. unfold attach_key. by rewrite metadata_visible.
Qed.

(** A call of an admitted client is the server's handler, its status read as the
    client's error. *)
Lemma rpc_admitted {R} st raw key env (req : Rpc R) w :
  admits st raw key →
  rpc (connected st env key) req w =
  match rpc_handle st env req w with
  | Panics why => Panics why
  | Returns (r, w') => Returns (map_err sdk_error_of r, w')
  end.
Proof.
  intros Ha. destruct (admitted st raw key Ha) as (_ & Hi & Hm). unfold rpc, connected.
  cbn [client_key client_channel]. rewrite Hm. unfold rpc_serve. by rewrite call_bind_of, Hi.
Qed.

Definition http_signed (resp : EnclaveSignResponse) : HttpResponse :=
  (200, BSign {| srs_signature_hex := hex_encode (resp_signature resp);
                 srs_public_key_hex := hex_encode (resp_public_key resp);
                 srs_attestation := attestation_value (resp_attestation resp) |}).
Definition sdk_signed (resp : EnclaveSignResponse) : Signed := {|
  sd_signature := resp_signature resp; sd_public_key := resp_public_key resp;
  sd_attestation_json := json_string (doc_json (resp_attestation resp)) |}.

Lemma http_sign_runs st env wid payload r path ctx h w :
  is_ulid (WalletId_ulid wid) → requester_ok r → path_ok path →
  sign st env (ulid_to_string (WalletId_ulid wid)) (http_sign payload r path ctx h) w
  = through http_signed api_error_of (svc_sign (service st) (svc_draws env) wid payload r path ctx h w).
Proof.
  intros Hw Hr Hp. unfold sign. rewrite call_bind_of, parse_id_text by done.
  rewrite call_bind_of.
  replace (hd_path_parsed _) with (Ok (E := ApiError) path).
  2: { unfold hd_path_parsed. destruct path as [p|]; [|done]. cbn [http_sign sr_hd_path fmap option_fmap option_map].
       by rewrite HdPath.from_str_to_string_segments. }
  rewrite call_bind_of. cbn [http_sign sr_requester sr_payload sr_hash_alg sr_context].
  rewrite lower_http_requester by done. rewrite call_bind_of, lower_http_payload, call_svc_through.
  destruct wid, ctx. by replace (hash_of_dto (dto_of_hash h)) with h by (by destruct h).
Qed.

Lemma rpc_sign_runs st env wid payload r path ctx h w :
  is_ulid (WalletId_ulid wid) → requester_ok r → path_ok path →
  rpc_sign st env (sign_message (grpc_sign wid payload r path ctx h)) w
  = through (λ resp, {| Proto.psr_signature := resp_signature resp;
                       Proto.psr_public_key := resp_public_key resp;
                       Proto.psr_attestation_json := json_string (doc_json (resp_attestation resp)) |})
      map_service_error (svc_sign (service st) (svc_draws env) wid payload r path ctx h w).
Proof.
  intros Hw Hr Hp. unfold rpc_sign. cbn [sign_message grpc_sign sp_wallet_id sp_payload sp_requester
    sp_hd_path sp_hash_alg sp_context Proto.ps_wallet_id Proto.ps_payload Proto.ps_requester
    Proto.ps_hd_path Proto.ps_hash_alg Proto.ps_context].
  rewrite call_bind_of, parse_ulid_text by done. rewrite call_bind_of. cbn [require_field ok_or mbind result_bind].
  rewrite lower_grpc_payload. rewrite call_bind_of. cbn [require_field ok_or mbind result_bind].
  rewrite lower_grpc_requester by done. rewrite call_bind_of, lower_grpc_path by done.
  rewrite call_bind_of, hash_number_round_trip. rewrite call_bind_of. unfold lower_context.
  cbn [Proto.pc_extra_json]. rewrite json_text_nonempty, parse_json_text. cbn [mbind result_bind mret result_ret].
  rewrite call_svc_through. by destruct wid, ctx.
Qed.

(** C39. [POST /wallets/{id}/sign] and the client library's [sign] run the very same
    service call on the wallet, payload, requester, path, context and hash the
    caller names: the same effects on the service, and its signature, public
    key or error in the encoding of each surface. *)
Theorem surfaces_sign_alike st raw key env wid payload r path ctx h w :
  admits st raw key → is_ulid (WalletId_ulid wid) → requester_ok r → path_ok path →
  let svc := svc_sign (service st) (svc_draws env) wid payload r path ctx h w in
  serve st env (Some (string_bytes key))
    (PostSign (ulid_to_string (WalletId_ulid wid)) (http_sign payload r path ctx h)) w
    = respond (through http_signed api_error_of svc)
  ∧ cl_sign (connected st env key) (grpc_sign wid payload r path ctx h) w
    = through sdk_signed (λ e, sdk_error_of (map_service_error e)) svc.
Proof.
  intros Ha Hw Hr Hp svc. destruct (admitted st raw key Ha) as (Hk & _ & _). split.
  - unfold serve. cbn [is_public handle]. by rewrite call_bind_of, Hk, http_sign_runs.
  - unfold cl_sign, mbind at 1, call_bind at 1. rewrite (rpc_admitted st raw) by done.
    cbn [rpc_handle]. rewrite rpc_sign_runs by done. unfold svc.
    by destruct (svc_sign _ _ _ _ _ _ _ _ w) as [[[] ?]|].
Qed.

(** *** Approvals *)

(** A listed approval, sent again as a submission, on either surface. *)
Definition http_resubmit (v : ApprovalView) (approver_id : string) : SubmitApprovalRequest := {|
  sar_approver_id := approver_id; sar_approval_id := apv_approval_id v; sar_decision := apv_decision v;
  sar_signature_hex := apv_signature_hex v; sar_timestamp_unix_ms := apv_timestamp_unix_ms v;
  sar_message_hash_hex := apv_message_hash_hex v; sar_identity := apv_approver v |}.
Definition grpc_resubmit (v : Proto.ApprovalView) (approver_id : string) : Proto.SubmitApprovalRequest := {|
  Proto.psa_request_id := Proto.pap_request_id v; Proto.psa_approver_id := approver_id;
  Proto.psa_approval_id := Proto.pap_approval_id v; Proto.psa_decision := Proto.pap_decision v;
  Proto.psa_signature := Proto.pap_signature v; Proto.psa_timestamp_unix_ms := Proto.pap_timestamp_unix_ms v;
  Proto.psa_message_hash := Proto.pap_message_hash v; Proto.psa_identity := Proto.pap_approver v |}.

Definition identity_ok (i : ApproverIdentity) : Prop :=
  match i with Approval.NestedWallet w _ _ => is_ulid (WalletId_ulid w) | _ => True end.
(** The typed fields of an approval are in range. *)
Definition approval_ok (a : SignedApproval) : Prop :=
  is_ulid (ApprovalId_ulid (sa_approval_id a)) ∧ is_ulid (RequestId_ulid (sa_request_id a))
  ∧ length (sa_message_hash a) = 32%nat ∧ identity_ok (sa_approver a).

Lemma scheme_dto_round_trip s : scheme_of_dto (dto_of_scheme s) = s.
Proof. by destruct s. Qed.
Lemma scheme_number_round_trip s : scheme_from_i32 (enum_number (scheme_into_proto s)) = Ok s.
Proof. by destruct s. Qed.

Lemma http_identity_round_trip i : identity_ok i → identity_into_domain (dto_of_identity i) = Ok i.
Proof.
  destruct i as [c a k s|id k s|[hd k s]|[u] k s]; cbn; intros Hi; rewrite ?parse_id_text by done;
    repeat (rewrite decode_hex_text; cbn [mbind result_bind mret result_ret]);
    by rewrite scheme_dto_round_trip.
Qed.

Lemma grpc_identity_round_trip i : identity_ok i → lower_approver_identity (raise_approver_identity i) = Ok i.
Proof.
  destruct i as [c a k s|id k s|[hd k s]|[u] k s]; intros Hi;
    cbn -[scheme_from_i32 enum_number scheme_into_proto]; rewrite ?parse_ulid_text by done;
    cbn [mbind result_bind mret result_ret]; by rewrite scheme_number_round_trip.
Qed.

Lemma http_resubmit_lowers a aid :
  approval_ok a → is_ulid (ApproverId_ulid aid) →
  into_signed (http_resubmit (approval_view a) (ulid_to_string (ApproverId_ulid aid))) (sa_request_id a)
  = Ok (a, aid).
Proof.
  intros (Ha & _ & Hl & Hi) Haid. unfold into_signed, hash_array.
  cbn [http_resubmit approval_view sar_approver_id sar_approval_id sar_decision sar_signature_hex
    sar_timestamp_unix_ms sar_message_hash_hex sar_identity apv_approval_id apv_decision apv_signature_hex
    apv_timestamp_unix_ms apv_message_hash_hex apv_approver].
  rewrite !parse_id_text by done. cbn [mbind result_bind]. rewrite !decode_hex_text. cbn [mbind result_bind].
  rewrite bool_decide_eq_true_2 by done. cbn [mbind result_bind]. rewrite http_identity_round_trip by done.
  by destruct a as [[] ? ? ? [] ? ?], aid.
Qed.

Lemma grpc_resubmit_lowers a aid :
  approval_ok a → is_ulid (ApproverId_ulid aid) →
  lower_submit_approval (grpc_resubmit (raise_signed_approval a) (ulid_to_string (ApproverId_ulid aid)))
  = Ok (a, aid, sa_message_hash a).
Proof.
  intros (Ha & Hr & Hl & Hi) Haid. unfold lower_submit_approval, require_32_bytes.
  cbn [grpc_resubmit raise_signed_approval Proto.psa_request_id Proto.psa_approver_id Proto.psa_approval_id
    Proto.psa_decision Proto.psa_signature Proto.psa_timestamp_unix_ms Proto.psa_message_hash
    Proto.psa_identity Proto.pap_request_id Proto.pap_approval_id Proto.pap_decision Proto.pap_signature
    Proto.pap_timestamp_unix_ms Proto.pap_message_hash Proto.pap_approver].
  rewrite !parse_ulid_text by done. cbn [mbind result_bind]. rewrite bool_decide_eq_true_2 by done.
  cbn [mbind result_bind require_field ok_or].
  replace (approval_decision_from_i32 _) with (Ok (E := Status) (sa_decision a)) by (by destruct (sa_decision a)).
  cbn [mbind result_bind]. rewrite grpc_identity_round_trip by done.
  destruct a as [[] ? [] ? ? ? ?], aid. done.
Qed.

(** What [GET /requests/{id}/approvals] and [ListApprovals] show of a recorded
    approval is complete: submitted again under its approver's id, on either
    surface, it reaches the service as exactly the approval on record, checked
    against the hash it carries. *)
Theorem listed_approval_round_trip st env a aid w :
  approval_ok a → is_ulid (ApproverId_ulid aid) →
  let text := ulid_to_string (ApproverId_ulid aid) in
  let svc := svc_record_approval (now_ms (svc_draws env)) a aid (sa_message_hash a) w in
  let recorded o := bool_decide (o = Inserted) in
  let shown := ulid_to_string (ApprovalId_ulid (sa_approval_id a)) in
  handle st env (PostApprovals (ulid_to_string (RequestId_ulid (sa_request_id a)))
                   (http_resubmit (approval_view a) text)) w
    = through (λ o, (200, BSubmit {| sas_recorded := recorded o; sas_approval_id := shown |})) map_submit_err svc
  ∧ rpc_handle st env (RpcSubmitApproval (grpc_resubmit (raise_signed_approval a) text)) w
    = through (λ o, {| Proto.pso_recorded := recorded o; Proto.pso_approval_id := shown |})
        map_service_error svc.
Proof.
  intros Ha Haid text svc recorded shown. pose proof Ha as (_ & Hr & Hl & _). split.
  - cbn [handle]. unfold submit_approval. rewrite call_bind_of, parse_id_text by done.
    rewrite call_bind_of.
    replace (RequestId_from_ulid (RequestId_ulid (sa_request_id a))) with (sa_request_id a)
      by (by destruct (sa_request_id a)).
    unfold text. rewrite http_resubmit_lowers by done. rewrite call_bind_of.
    cbn [http_resubmit approval_view sar_message_hash_hex apv_message_hash_hex].
    rewrite decode_hex_text. unfold hash_array. cbn [mbind result_bind]. rewrite bool_decide_eq_true_2 by done.
    by rewrite call_svc_through.
  - cbn [rpc_handle]. unfold rpc_submit_approval, text. rewrite call_bind_of, grpc_resubmit_lowers by done.
    by rewrite call_svc_through.
Qed.
End surfaces.

(** ** Error mappings *)

(** The status code of an HTTP error. *)
Definition status_of (e : ApiError) : Z := (api_parts e).1.1.

(** The correspondence of the two surfaces' classifications. *)
Definition same_class (status : Z) (c : Code) : bool :=
  match c with
  | CodeInvalidArgument => status =? 400
  | CodeUnauthenticated => status =? 401
  | CodePermissionDenied => status =? 403
  | CodeNotFound => status =? 404
  | CodeAlreadyExists | CodeAborted => status =? 409
  | CodeFailedPrecondition => status =? 422
  | CodeInternal => status =? 500
  | CodeOther _ => false
  end.

(** Quorum errors the gRPC surface tells apart and the HTTP surface does not. *)
Definition quorum_detail (e : ServiceError) : Prop :=
  match e with
  | SvcQuorum (QeInvalidApproval _) | SvcQuorum (UnknownApprover _) => True
  | SvcQuorum (Transport m) => str_contains "duplicate approval" m = false
  | _ => False
  end.

Section errors.
Context `{UlidCrate, ErrorTexts}.

(** The two surfaces classify registry errors alike, and service errors of a
    submission alike; of [sign], [create_wallet] and [get_wallet] alike except
    for exactly the quorum errors other than a timeout and a duplicate, which
    HTTP reports as 409 whatever they are. *)
Theorem error_mappings_compared :
  (∀ e, same_class (status_of (map_registry_err e)) (code (map_registry_error e)) = true)
  ∧ (∀ e, same_class (status_of (map_submit_err e)) (code (map_service_error e)) = true)
  ∧ (∀ e, same_class (status_of (api_error_of e)) (code (map_service_error e)) = true ↔ ¬ quorum_detail e).
Proof.
  split; [by intros []|]. split; intros e.
  - destruct e as [| |[]| | | | | |]; try done. cbn. by case_match.
  - destruct e as [| |[]| | | | | |]; cbn; try naive_solver. case_match; cbn; naive_solver.
Qed.

Lemma no_match_without_d s :
  chars_all (not_char "d"%char) s = true → str_contains "duplicate approval" s = false.
Proof.
  induction s as [|c s IH]; [done|]. cbn [chars_all]. intros [Hc Hs]%andb_true_iff.
  cbn -[strip_prefix]. rewrite IH by done.
  replace (strip_prefix "duplicate approval" (String c s)) with (@None string); [done|].
  cbn [strip_prefix]. rewrite decide_False; [done|]. intros <-. done.
Qed.

(** ULID text uses digits and capital letters. *)
Class UlidUpper : Prop := {
  ulid_upper : ∀ u, chars_all (λ c, negb ((97 <=? char_val c) && (char_val c <=? 122))) (ulid_to_string u) = true
}.

Lemma chars_all_mono (f g : ascii → bool) s :
  (∀ c, f c = true → g c = true) → chars_all f s = true → chars_all g s = true.
Proof.
  intros Hfg. induction s as [|c s IH]; [done|]. cbn. rewrite !andb_true_iff. naive_solver.
Qed.

Lemma not_found_not_duplicate `{!UlidUpper} aid :
  str_contains "duplicate approval" ("registry: " +:+ registry_error_text (ApproverNotFound aid)) = false.
Proof.
  cbn [registry_error_text]. generalize (ulid_upper (ApproverId_ulid aid)).
  generalize (ulid_to_string (ApproverId_ulid aid)) as s. intros s Hs.
  assert (str_contains "duplicate approval" s = false) as Hn.
  { apply no_match_without_d. eapply chars_all_mono; [|exact Hs]. intros c Hc. unfold not_char.
    apply negb_true_iff, bool_decide_eq_false. intros ->. done. }
  rewrite !append_cons, !append_nil_l. by cbn -[str_contains].
Qed.
End errors.

Section submissions_http.
Context `{UlidCrate, UlidParse, HexCrate, JsonCrate, DigestCrate, Ed25519Crate, K256Crate, MlDsaCrate, RlpCrate}.
Context `{EventSerde, HashOrder, HeaderCrate, ErrorTexts}.
Context {P Sh A AS E : Type} `{Policy P, ShareStore Sh, AuditSink A, ApprovalStore AS, Enclave E}.
Implicit Types w : @World P Sh A AS.
Implicit Types st : @AppState E.

Lemma into_signed_hash req r a aid :
  into_signed req r = Ok (a, aid) →
  (bs ← decode_hex "message_hash_hex" (sar_message_hash_hex req); hash_array bs) = Ok (sa_message_hash a).
Proof.
  unfold into_signed. intros (? & _ & (? & _ & (? & _ & (msg & Hm & (mh & Hh & (i & _ & Heq)%result_bind_ok)%result_bind_ok)%result_bind_ok)%result_bind_ok)%result_bind_ok)%result_bind_ok.
  injection Heq as <- <-. by rewrite Hm.
Qed.

(** A well-formed submission in the name of an approver the registry does not
    know is answered 500, not 404: [record_approval] reports it as a transport
    error of the registry. *)
Theorem unknown_approver_internal `{!UlidUpper} st env rid r req a aid w :
  parse_id RequestId_from_ulid "request_id" rid = Ok r → into_signed req r = Ok (a, aid) →
  approvers (w_registry w) !! aid = None →
  respond (handle st env (PostApprovals rid req) w)
  = Returns ((500, BError "internal_error"
                     ("registry: approver not found: " +:+ ulid_to_string (ApproverId_ulid aid))), w).
Proof.
  intros Hr Hs Hn. cbn [handle]. unfold submit_approval. rewrite call_bind_of, Hr, call_bind_of, Hs, call_bind_of.
  rewrite (into_signed_hash req r a aid) by done. rewrite call_svc_through. unfold WalletService.record_approval.
  unfold Registry.get_approver. cbn [fst snd]. rewrite Hn. cbn [ok_or through map_submit_err].
  by rewrite not_found_not_duplicate.
Qed.
End submissions_http.

(** ** From creation to signature over HTTP *)

Lemma respond_ok {W} (r : panics (result ApiError HttpResponse * W)) status b (w : W) :
  (∀ e h, b ≠ BError e h) → respond r = Returns ((status, b), w) → r = Returns (Ok (status, b), w).
Proof.
  intros Hb. destruct r as [[[resp|e] w']|]; cbn; [by intros [= -> ->]| |done].
  unfold into_response. destruct (api_parts e) as [[? ?] ?]. intros [= _ Heq _]. by destruct (Hb _ _ (eq_sym Heq)).
Qed.

Lemma through_ok {X Y Er W} (ok : X → Y) (err : ServiceError → Er) r y (w : W) :
  through ok err r = Returns (Ok y, w) → ∃ x, r = Returns (Ok x, w) ∧ y = ok x.
Proof. destruct r as [[[x|] ?]|]; cbn; naive_solver. Qed.

Section http_custody.
Context `{UlidCrate, UlidParse, HexCrate, JsonCrate, DigestCrate, Ed25519Crate, K256Crate, MlDsaCrate, RlpCrate,
  VsssCrate, Bip32Crate}.
Context `{EventSerde, HashOrder, HeaderCrate, MetadataCrate, ErrorTexts}.
Context `{!UlidLaws, !UlidParseLaws, !HexLaws, !VsssLaws, !DigestLaws, !Ed25519Laws, !K256Laws, !MlDsaLaws,
  !JsonLaws, !HeaderLaws, !MetadataLaws}.
Context {P Sh A AS : Type} `{Policy P, ShareStoreLaws Sh, AuditSink A, ApprovalStore AS}.
Implicit Types w : @World P Sh A AS.
Implicit Types st : @AppState (MockEnclave * Entropy).

Lemma http_create_ok st raw key env body w v w1 :
  admits st raw key →
  serve st env (Some (string_bytes key)) (PostWallets body) w = Returns ((201, BWallet v), w1) →
  ∃ config rec, into_config (fresh_policy env) body = Ok config
    ∧ WalletService.create_wallet (service st) (svc_draws env) config ActorSystem w = Returns (Ok rec, w1)
    ∧ v = wallet_view rec.
Proof.
  intros Ha Hs. destruct (admitted st raw key Ha) as (Hk & _ & _). unfold serve in Hs.
  cbn [is_public handle] in Hs. rewrite call_bind_of, Hk in Hs. apply respond_ok in Hs; [|done].
  unfold create_wallet in Hs. rewrite call_bind_of in Hs.
  destruct (into_config _ _) as [config|]; [|done]. rewrite call_svc_through in Hs.
  apply through_ok in Hs as (rec & Hr & [= ->]). by exists config, rec.
Qed.

Lemma into_config_fields fresh body config :
  into_config fresh body = Ok config →
  cfg_scheme config = scheme_of_dto (cwr_scheme body) ∧ cfg_total config = cwr_total body.
Proof. unfold into_config. intros (? & _ & [= <-])%result_bind_ok. done. Qed.

(** C2. Over HTTP, end to end: once [POST /wallets] answers 201 for an id under
    which no share was held, a later [POST /wallets/{id}/sign] for the id of the
    view, with a configured key, without a derivation path, with a hash the
    wallet's scheme takes, that the policy allows outright, with the wallets and shares as the creation
    left them, the store and the log reachable and the policy keys of service
    and enclave in agreement, answers 200 with the public key of the view and a
    signature over the payload's canonical bytes that verifies under it. *)
Theorem http_created_wallet_signs st raw key env body w v w1 st' raw' key' env' config payload r ctx h w2 i pid rat p :
  admits st raw key → admits st' raw' key' →
  serve st env (Some (string_bytes key)) (PostWallets body) w = Returns ((201, BWallet v), w1) →
  into_config (fresh_policy env) body = Ok config →
  entropy_ok (svc_enclave (service st)).2 → entropy_ok (svc_enclave (service st')).2 →
  cwr_total body ≤ 255 → is_ulid (WalletId_ulid (fresh_wallet (svc_draws env))) → requester_ok r →
  (∀ id, share_wallet_id id = fresh_wallet (svc_draws env) → held (w_shares w) id = None) →
  WalletServiceProps.reachable Sh A →
  w_shares w2 = w_shares w1 → w_wallets w2 = w_wallets w1 →
  policy_evaluate (w_policy w2) (limiter_clock (svc_draws env')) (fresh_decision (svc_draws env'))
    (policy_request (svc_draws env') (fresh_wallet (svc_draws env)) payload r None) = (Ok (Allow i pid rat), p) →
  keys_agree overflow_error_text (service st') (svc_draws env') (fresh_wallet (svc_draws env)) config
    (policy_request (svc_draws env') (fresh_wallet (svc_draws env)) payload r None) →
  good_hash (cfg_scheme config) h = true →
  ∃ sig_hex att w3,
    serve st' env' (Some (string_bytes key')) (PostSign (wv_wallet_id v) (http_sign payload r None ctx h)) w2
    = Returns ((200, BSign {| srs_signature_hex := sig_hex;
                              srs_public_key_hex := wv_master_public_key_hex v;
                              srs_attestation := att |}), w3)
    ∧ ∃ sg pk sig, signer_for_scheme (scheme_of_dto (cwr_scheme body)) = Ok sg
      ∧ hex_decode (wv_master_public_key_hex v) = Some pk ∧ hex_decode sig_hex = Some sig
      ∧ Signers.verify sg pk (canonical_message_bytes payload) sig h = Ok ().
Proof.
  intros Ha Ha' Hs Hc He He' Htot Hu Hr Hfresh Hreach Hsh Hws Hev Hk Hh.
  destruct (http_create_ok _ _ _ _ _ _ _ _ Ha Hs) as (config' & rec & Hc' & Hcr & ->).
  rewrite Hc in Hc'. injection Hc' as <-. destruct (into_config_fields _ _ _ Hc) as [Hsch Htot'].
  pose proof (create_wallet_ok _ _ _ _ _ _ _ Hcr) as (gen & _ & _ & _ & _ & _ & Hrec & Hlook).
  assert (wr_wallet_id rec = fresh_wallet (svc_draws env)) as Hid by (by rewrite Hrec).
  destruct (created_wallet_signs_ok deny_reason_text registry_error_text enclave_error_text signer_error_text
    overflow_error_text _ _ _ _ _ _ _ (service st') (svc_draws env') rec payload r ctx h w2 i pid rat p Hcr He He')
    as (resp & w3 & Hsign & Hpk & sg & Hsg & Hver); try done.
  { by rewrite Htot'. }
  { by rewrite Hws. }
  { by rewrite Hrec. }
  exists (hex_encode (resp_signature resp)), (attestation_value (resp_attestation resp)), w3. split.
  - destruct (admitted st' raw' key' Ha') as (Hk' & _ & _). unfold serve. cbn [is_public handle].
    rewrite call_bind_of, Hk'. cbn [wallet_view wv_wallet_id]. rewrite Hid, http_sign_runs by done.
    rewrite Hsign. cbn [through respond]. unfold http_signed. by rewrite Hpk.
  - exists sg, (wr_master_public_key rec), (resp_signature resp). cbn [wallet_view wv_master_public_key_hex].
    rewrite !hex_decode_encode, <-Hsch. done.
Qed.
End http_custody.

(** ** Witnesses *)

Module ApiWitness.
Import Concrete ConcreteRlp RegistryWitness AuditWitness ServiceWitness.

Definition is_visible (b : byte) : bool := (32 <=? byte_val b) && (byte_val b <? 127).
#[export] Instance header_crate : HeaderCrate := {|
  header_to_str bs := if forallb is_visible bs then Some (String.string_of_list_byte bs) else None |}.
#[export] Instance metadata_crate : MetadataCrate := {|
  metadata_try_from s := if forallb is_visible (string_bytes s) then Some (string_bytes s) else None |}.

Lemma visible_bytes s : visible s → forallb is_visible (string_bytes s) = true.
Proof.
  unfold visible. induction s as [|c s IH]; [done|]. cbn [chars_all]. intros [Hc Hs]%andb_true_iff.
  change (string_bytes (String c s)) with (byte_of_ascii c :: string_bytes s). cbn [forallb].
  rewrite IH by done. rewrite andb_true_r. rewrite <-Hc. unfold is_visible, char_val, byte_val.
  by replace (N_of_ascii c) with (Byte.to_N (byte_of_ascii c))
    by (rewrite <-(ascii_of_byte_of_ascii c) at 2; by destruct (byte_of_ascii c)).
Qed.

#[export] Instance header_laws : HeaderLaws.
Proof.
  split; cbn.
  - intros s Hs. rewrite visible_bytes by done. f_equal. apply String.string_of_list_byte_of_string.
  - intros bs s. destruct (forallb _ _); [|done]. intros [= <-]. apply String.list_byte_of_string_of_list_byte.
Qed.
#[export] Instance metadata_laws : MetadataLaws.
Proof. split. intros s Hs. cbn. by rewrite visible_bytes. Qed.

#[export] Instance no_texts : ErrorTexts := {|
  ulid_text _ := ""; hex_text _ := ""; hd_path_text _ := ""; quorum_text _ := ""; verify_text _ := "";
  enclave_error_text _ := ""; audit_text _ := ""; share_text _ := ""; policy_text _ := ""; json_text _ := "";
  store_text _ := ""; deny_reason_text _ := ""; signer_error_text _ := ""; overflow_error_text := "" |}.

Lemma pos_bytes_utf8 p : utf8_valid (pos_bytes p) = true.
Proof. induction p as [p IH|p IH|]; cbn; [exact IH|exact IH|done]. Qed.
#[export] Instance json_utf8_law : JsonUtf8.
Proof. split. intros j. cbn -[encode pos_bytes]. apply pos_bytes_utf8. Qed.

Lemma crockford_upper d : 0 ≤ d < 32 →
  negb ((97 <=? char_val (crockford_char d)) && (char_val (crockford_char d) <=? 122)) = true.
Proof.
  intros Hd. assert (Forall (λ d, negb ((97 <=? char_val (crockford_char d))
    && (char_val (crockford_char d) <=? 122)) = true) (seqZ 0 32)) as HF.
  { apply (bool_decide_eq_true_1 _). vm_compute. reflexivity. }
  rewrite Forall_forall in HF. by apply HF, elem_of_seqZ.
Qed.
Lemma base32_upper n z acc :
  chars_all (λ c, negb ((97 <=? char_val c) && (char_val c <=? 122))) acc = true →
  chars_all (λ c, negb ((97 <=? char_val c) && (char_val c <=? 122))) (base32 n z acc) = true.
Proof.
  revert z acc. induction n as [|n IH]; intros z acc Ha; [done|]. cbn [base32]. apply IH. cbn [chars_all].
  rewrite Ha, andb_true_r. apply crockford_upper. apply Z.mod_pos_bound. lia.
Qed.
#[export] Instance ulid_upper_law : UlidUpper.
Proof. split. intros u. by apply base32_upper. Qed.

Definition state : @AppState (MockEnclave * Entropy) := {|
  ApiHandlers.service := service; api_keys := load_api_keys " alpha ,beta" |}.
Definition draws (file : AuditFile) : ApiDraws := {|
  svc_draws := env; fresh_policy := PolicyId_from_ulid 2; fresh_approver := ApproverId_from_ulid 21;
  fresh_set := ApproverSetId_from_ulid 31; audit_file := file |}.

Lemma alpha_admitted : admits state " alpha ,beta" "alpha".
Proof.
  split; [done|]. split; [|done]. split; [done|]. exists " alpha ". split; [by left|done].
Qed.

Example api_key_gate_witness :
  (∃ hint, serve state (draws FileAbsent) (Some (string_bytes "gamma")) (GetWallet "x") (world allow)
           = Returns ((401, BError "unauthorized" hint), world allow))
  ∧ serve state (draws FileAbsent) (Some (string_bytes "beta")) (GetWallet "x") (world allow)
    = respond (handle state (draws FileAbsent) (GetWallet "x") (world allow)).
Proof.
  split.
  - apply (api_key_gate state (draws FileAbsent) (Some (string_bytes "gamma")) " alpha ,beta" (world allow));
      [reflexivity| |reflexivity].
    intros (hv & s & [= <-] & Hs & Hne & part & Hin & Ht). vm_compute in Hs. injection Hs as <-.
    apply list_elem_of_In in Hin. destruct Hin as [<-|[<-|[]]]; vm_compute in Ht; discriminate.
  - apply (api_key_gate state (draws FileAbsent) (Some (string_bytes "beta")) " alpha ,beta" (world allow));
      [reflexivity|].
    exists (string_bytes "beta"), "beta". split; [reflexivity|]. split; [reflexivity|]. split; [discriminate|].
    exists "beta". split; [apply list_elem_of_In; right; left; reflexivity|reflexivity].
Defined.

Example audit_listing_exact_witness : ∃ evs st file,
  emit_batch AuditWitness.key [m 1; m 2; m 3] st0 [] = (Ok evs, st, file)
  ∧ list_audit_events (draws (FileBytes file None)) {| aq_wallet_id := None; aq_limit := Some 2 |} (world allow)
    = Returns (Ok (200, BEvents (audit_event_view <$> last_n 2 evs)), world allow).
Proof.
  destruct (audit_listing_exact (P := FixedPolicy) (Sh := MockShareStore) (A := ListSink)
              (AS := MemoryApprovalStore) AuditWitness.key [m 1; m 2; m 3]) as (evs & st & file & Hb & Hlen & Hl).
  - repeat constructor; vm_compute; congruence.
  - exists evs, st, file. split; [exact Hb|].
    destruct (Hl (draws (FileBytes file None)) None 2 (world allow) eq_refl I) as [Hh _].
    destruct evs as [|e1 [|e2 [|e3 [|]]]]; try discriminate Hlen. exact Hh.
Defined.

Example surfaces_sign_alike_witness :
  serve state (draws FileAbsent) (Some (string_bytes "alpha"))
    (PostSign (ulid_to_string 4) (http_sign (Raw [x01]) (ApiKey "k") None ctx HashNone)) (world allow)
  = respond (through http_signed api_error_of
      (WalletService.sign deny_reason_text registry_error_text enclave_error_text signer_error_text
         overflow_error_text service env wid (Raw [x01]) (ApiKey "k") None ctx HashNone (world allow))).
Proof.
  apply (surfaces_sign_alike state " alpha ,beta" "alpha" (draws FileAbsent) wid (Raw [x01]) (ApiKey "k")
    None ctx HashNone (world allow) alpha_admitted); [reflexivity|exact I|exact I].
Defined.

Example listed_approval_round_trip_witness :
  rpc_handle state (draws FileAbsent)
    (RpcSubmitApproval (grpc_resubmit (raise_signed_approval approval) (ulid_to_string 21))) registered
  = through (λ o, {| Proto.pso_recorded := bool_decide (o = Inserted);
                    Proto.pso_approval_id := ulid_to_string (ApprovalId_ulid (sa_approval_id approval)) |})
      map_service_error
      (WalletService.record_approval registry_error_text 1000 approval ServiceWitness.alice
         (sa_message_hash approval) registered).
Proof.
  apply (listed_approval_round_trip state (draws FileAbsent) approval ServiceWitness.alice registered).
  - split; [reflexivity|]. split; [reflexivity|]. split; [reflexivity|exact I].
  - reflexivity.
Defined.

Example unknown_approver_internal_witness :
  respond (handle state (draws FileAbsent) (PostApprovals (ulid_to_string (RequestId_ulid (sa_request_id approval)))
             (http_resubmit (approval_view approval) (ulid_to_string 21))) (world allow))
  = Returns ((500, BError "internal_error" ("registry: approver not found: " +:+ ulid_to_string 21)), world allow).
Proof.
  apply (unknown_approver_internal state (draws FileAbsent) _ (sa_request_id approval) _ approval
           ServiceWitness.alice (world allow)).
  - exact (parse_id_text RequestId_from_ulid "request_id" (RequestId_ulid (sa_request_id approval)) eq_refl).
  - apply (http_resubmit_lowers approval ServiceWitness.alice).
    + split; [reflexivity|]. split; [reflexivity|]. split; [reflexivity|exact I].
    + reflexivity.
  - reflexivity.
Defined.

Definition body : CreateWalletRequest := {|
  cwr_scheme := DtoEd25519; cwr_threshold := 2; cwr_total := 3; cwr_display_name := "ops";
  cwr_owner_id := "o"; cwr_policy_id := None |}.

Lemma http_created : ∃ v w1,
  serve state (draws FileAbsent) (Some (string_bytes "alpha")) (PostWallets body) (world allow)
  = Returns ((201, BWallet v), w1) ∧ w_policy w1 = {| fixed := allow |}
  ∧ wv_wallet_id v = ulid_to_string 4.
Proof.
  destruct (created allow) as (rec & w1 & Hc & Hp & Hrec). exists (wallet_view rec), w1.
  split; [|split; [done|by rewrite Hrec]].
  destruct (admitted state _ _ alpha_admitted) as (Hk & _ & _). unfold serve. cbn [is_public handle].
  rewrite call_bind_of, Hk. unfold ApiHandlers.create_wallet. rewrite call_bind_of.
  change (into_config _ _) with (Ok (E := ApiError) config). cbv iota beta. rewrite call_svc_through.
  change (ApiHandlers.service state) with service. cbn [draws svc_draws]. by rewrite Hc.
Qed.

Example http_created_wallet_signs_witness : ∃ v w1 sig_hex att w3,
  serve state (draws FileAbsent) (Some (string_bytes "alpha")) (PostWallets body) (world allow)
  = Returns ((201, BWallet v), w1)
  ∧ serve state (draws FileAbsent) (Some (string_bytes "alpha"))
      (PostSign (wv_wallet_id v) (http_sign (Raw [x01; x02]) (ApiKey "k") None ctx HashNone)) w1
    = Returns ((200, BSign {| srs_signature_hex := sig_hex; srs_public_key_hex := wv_master_public_key_hex v;
                              srs_attestation := att |}), w3).
Proof.
  destruct http_created as (v & w1 & Hs & Hp & Hv). exists v, w1.
  destruct (http_created_wallet_signs state " alpha ,beta" "alpha" (draws FileAbsent) body (world allow) v w1
    state " alpha ,beta" "alpha" (draws FileAbsent) config (Raw [x01; x02]) (ApiKey "k") ctx HashNone w1
    (DecisionId_from_ulid 1) (PolicyId_from_ulid 2)
    [{| rule_id := "default-allow"; effect := EffectAllow; reason := None |}] {| fixed := allow |}
    alpha_admitted alpha_admitted Hs) as (sig_hex & att & w3 & Hsign & _);
    try reflexivity; try exact EnclaveWitness.ent_ok; try exact I.
  - discriminate.
  - exact memory_reachable.
  - rewrite Hp. reflexivity.
  - apply allowed_keys_agree. by eexists.
  - exists sig_hex, att, w3. split; [exact Hs|exact Hsign].
Defined.
End ApiWitness.
