(* ===== verification/ApproverClient.v ===== *)
(** * ApproverClient: the reference approver daemon ([clients/approver-rs])

    [wire.rs], [signer_loader.rs], [audit.rs], [prompt.rs], [processor.rs],
    [webhook_handler.rs] and the policy choice of [main.rs].  A run is a result
    with its effects in order: the request posted to the server and the lines
    given to the local log, whose write errors are dropped.  The HTTP client is that of
    Notifiers.v; the file read, the operator's line and the clock are
    arguments. *)

From S2P Require Import Prelude Text Types External SignedDecision Signers Attestation Approval Registry WalletService Notifiers ApiSchemas ApiHandlers ShareFiles.
#[local] Open Scope string_scope.
#[local] Open Scope list_scope.
#[local] Open Scope Z_scope.

(** ** [wire.rs] *)

Inductive SigningSchemeWire :=
  | WireEd25519 | WireSecp256k1 | WireSecp256k1Recoverable | WireMlDsa44 | WireMlDsa65 | WireMlDsa87.

Definition scheme_of_wire (s : SigningSchemeWire) : SigningScheme :=
  match s with
  | WireEd25519 => Ed25519 | WireSecp256k1 => Secp256k1 | WireSecp256k1Recoverable => Secp256k1Recoverable
  | WireMlDsa44 => MlDsa44 | WireMlDsa65 => MlDsa65 | WireMlDsa87 => MlDsa87
  end.
Definition wire_of_scheme (s : SigningScheme) : SigningSchemeWire :=
  match s with
  | Ed25519 => WireEd25519 | Secp256k1 => WireSecp256k1 | Secp256k1Recoverable => WireSecp256k1Recoverable
  | MlDsa44 => WireMlDsa44 | MlDsa65 => WireMlDsa65 | MlDsa87 => WireMlDsa87
  end.

Inductive ApproverIdentityWire :=
  | WireChain (chain_id : Z) (address_hex public_key_hex : string) (scheme : SigningSchemeWire)
  | WireExternal (id public_key_hex : string) (scheme : SigningSchemeWire)
  | WireHardware (handle public_key_hex : string) (scheme : SigningSchemeWire)
  | WireNestedWallet (wallet_id public_key_hex : string) (scheme : SigningSchemeWire).

Definition wire_public_key_hex (i : ApproverIdentityWire) : string :=
  match i with
  | WireChain _ _ pk _ | WireExternal _ pk _ | WireHardware _ pk _ | WireNestedWallet _ pk _ => pk
  end.
Definition wire_scheme (i : ApproverIdentityWire) : SigningSchemeWire :=
  match i with
  | WireChain _ _ _ s | WireExternal _ _ s | WireHardware _ _ s | WireNestedWallet _ _ s => s
  end.

Record ApprovalRequestWire := {
  arw_request_id : string;
  arw_message_hash : string;
  arw_approver_set : list ApproverIdentityWire;
  arw_threshold : Z;
}.

Record SubmitApprovalWire := {
  saw_approver_id : string;
  saw_approval_id : string;
  saw_decision : string;
  saw_signature_hex : string;
  saw_timestamp_unix_ms : Z;
  saw_message_hash_hex : string;
  saw_identity : ApproverIdentityWire;
}.

(** *** serde, both ends *)

Definition string_of_json (j : Json) : option string := match j with JString s => Some s | _ => None end.
Definition u64_of_json (j : Json) : option Z :=
  match j with JNumber z => if (0 <=? z) && (z <=? u64_max) then Some z else None | _ => None end.

(** The name of a fieldless variant read from buffered content: a string, or a
    map from it to a unit. *)
Definition variant_name (j : Json) : option string :=
  match j with
  | JString s | JObject [(s, JNull)] | JObject [(s, JObject [])] => Some s
  | _ => None
  end.

Definition scheme_named (name : string) : option SigningScheme :=
  if String.eqb name "ed25519" then Some Ed25519
  else if String.eqb name "secp256k1" then Some Secp256k1
  else if String.eqb name "secp256k1_recoverable" then Some Secp256k1Recoverable
  else if String.eqb name "ml_dsa44" then Some MlDsa44
  else if String.eqb name "ml_dsa65" then Some MlDsa65
  else if String.eqb name "ml_dsa87" then Some MlDsa87
  else None.

(** An internally tagged enum: the tag and the rest of the content. *)
Definition tagged (tag : string) (j : Json) : option (string * Json) :=
  match j with
  | JObject fs => t ← json_field tag fs; s ← string_of_json t;
                  Some (s, JObject (List.filter (λ f, negb (String.eqb f.1 tag)) fs))
  | JArray (JString s :: l) => Some (s, JArray l)
  | _ => None
  end.

Definition wire_identity_of_json (j : Json) : option ApproverIdentityWire :=
  '(kind, content) ← tagged "kind" j;
  if String.eqb kind "chain" then
    vs ← struct_values ["chain_id"; "address_hex"; "public_key_hex"; "scheme"] content;
    match vs with
    | [c; a; p; s] => c ← u64_of_json c; a ← string_of_json a; p ← string_of_json p;
                      s ← (n ← variant_name s; scheme_named n); Some (WireChain c a p (wire_of_scheme s))
    | _ => None
    end
  else
    let named field mk :=
      vs ← struct_values [field; "public_key_hex"; "scheme"] content;
      match vs with
      | [i; p; s] => i ← string_of_json i; p ← string_of_json p;
                     s ← (n ← variant_name s; scheme_named n); Some (mk i p (wire_of_scheme s))
      | _ => None
      end in
    if String.eqb kind "external" then named "id" WireExternal
    else if String.eqb kind "hardware" then named "handle" WireHardware
    else if String.eqb kind "nested_wallet" then named "wallet_id" WireNestedWallet
    else None.

Definition request_of_json (j : Json) : option ApprovalRequestWire :=
  vs ← struct_values ["request_id"; "message_hash"; "approver_set"; "threshold"] j;
  match vs with
  | [r; h; JArray l; t] =>
      r ← string_of_json r; h ← string_of_json h; l ← mapM wire_identity_of_json l; t ← u8_of_json t;
      Some {| arw_request_id := r; arw_message_hash := h; arw_approver_set := l; arw_threshold := t |}
  | _ => None
  end.

Definition wire_identity_json (i : ApproverIdentityWire) : Json :=
  match i with
  | WireChain c a p s =>
      JObject [("kind", JString "chain"); ("chain_id", JNumber c); ("address_hex", JString a);
               ("public_key_hex", JString p); ("scheme", scheme_json (scheme_of_wire s))]
  | WireExternal n p s =>
      JObject [("kind", JString "external"); ("id", JString n); ("public_key_hex", JString p);
               ("scheme", scheme_json (scheme_of_wire s))]
  | WireHardware n p s =>
      JObject [("kind", JString "hardware"); ("handle", JString n); ("public_key_hex", JString p);
               ("scheme", scheme_json (scheme_of_wire s))]
  | WireNestedWallet n p s =>
      JObject [("kind", JString "nested_wallet"); ("wallet_id", JString n); ("public_key_hex", JString p);
               ("scheme", scheme_json (scheme_of_wire s))]
  end.

Definition submit_json (w : SubmitApprovalWire) : Json :=
  JObject [("approver_id", JString (saw_approver_id w)); ("approval_id", JString (saw_approval_id w));
           ("decision", JString (saw_decision w)); ("signature_hex", JString (saw_signature_hex w));
           ("timestamp_unix_ms", JNumber (saw_timestamp_unix_ms w));
           ("message_hash_hex", JString (saw_message_hash_hex w));
           ("identity", wire_identity_json (saw_identity w))].

(** The server's side: [ApproverIdentityDto] reads the same shape. *)
Definition dto_of_wire (i : ApproverIdentityWire) : ApproverIdentityDto :=
  match i with
  | WireChain c a p s => DtoChain c a p (dto_of_scheme (scheme_of_wire s))
  | WireExternal n p s => DtoExternal n p (dto_of_scheme (scheme_of_wire s))
  | WireHardware n p s => DtoHardware n p (dto_of_scheme (scheme_of_wire s))
  | WireNestedWallet n p s => DtoNested n p (dto_of_scheme (scheme_of_wire s))
  end.

Definition decision_of_json (j : Json) : option ApprovalDecisionDto :=
  name ← match j with JString s | JObject [(s, JNull)] => Some s | _ => None end;
  if String.eqb name "approve" then Some DtoApprove
  else if String.eqb name "reject" then Some DtoReject else None.

(** [Deserialize] for [SubmitApprovalRequest]. *)
Definition submit_request_of_json (j : Json) : option SubmitApprovalRequest :=
  vs ← struct_values ["approver_id"; "approval_id"; "decision"; "signature_hex"; "timestamp_unix_ms";
                      "message_hash_hex"; "identity"] j;
  match vs with
  | [a; p; d; s; t; h; i] =>
      a ← string_of_json a; p ← string_of_json p; d ← decision_of_json d; s ← string_of_json s;
      t ← i64_of_json t; h ← string_of_json h; i ← wire_identity_of_json i;
      Some {| sar_approver_id := a; sar_approval_id := p; sar_decision := d; sar_signature_hex := s;
              sar_timestamp_unix_ms := t; sar_message_hash_hex := h; sar_identity := dto_of_wire i |}
  | _ => None
  end.

(** ** [signer_loader.rs] *)

Inductive SignerLoadError :=
  | LoadIo (path why : string)
  | LoadLength (path : string) (got : nat)
  | LoadSigner (e : SignerError).

(** [read] is what reading the file gives. *)
Definition load_secret (path : string) (read : result string bytes) : result SignerLoadError bytes :=
  bs ← map_err (LoadIo path) read;
  _ ← ensure (bool_decide (length bs = 32%nat)) (LoadLength path (length bs));
  mret bs.

Record ApproverSigner := { as_secret : bytes; as_scheme : SigningScheme; as_public_key : bytes }.

Section client.
Context `{UlidCrate, UlidParse, HexCrate, JsonCrate, DigestCrate, Ed25519Crate, K256Crate, MlDsaCrate, RlpCrate}.
Context `{HmacCrate, HttpClient, HeaderCrate, ErrorTexts}.

Definition approver_signer (secret : bytes) (s : SigningScheme) : result SignerLoadError ApproverSigner :=
  pk ← map_err LoadSigner (dispatch_signer s (λ sg, Signers.public_key sg secret));
  mret {| as_secret := secret; as_scheme := s; as_public_key := pk |}.

Definition signer_sign (self : ApproverSigner) (preimage : bytes) : result SignerLoadError bytes :=
  let hash_alg :=
    match as_scheme self with
    | Ed25519 | MlDsa44 | MlDsa65 | MlDsa87 => HashNone
    | Secp256k1 | Secp256k1Recoverable => Sha256
    end in
  map_err LoadSigner (dispatch_signer (as_scheme self) (λ sg, Signers.sign sg (as_secret self) preimage hash_alg)).

(** ** [audit.rs] *)

Record AuditRecord := {
  ar_timestamp : string;
  ar_event : string;
  ar_rec_request_id : string;
  ar_approver_id : string;
  ar_message_hash_hex : string;
  ar_decision : string;
  ar_signature_hex : option string;
  ar_server_status : option Z;
  ar_note : option string;
}.

Definition record_json (r : AuditRecord) : Json :=
  JObject [("timestamp", JString (ar_timestamp r)); ("event", JString (ar_event r));
           ("request_id", JString (ar_rec_request_id r)); ("approver_id", JString (ar_approver_id r));
           ("message_hash_hex", JString (ar_message_hash_hex r)); ("decision", JString (ar_decision r));
           ("signature_hex", from_option JString JNull (ar_signature_hex r));
           ("server_status", from_option JNumber JNull (ar_server_status r));
           ("note", from_option JString JNull (ar_note r))].

(** The line [append] writes. *)
Definition audit_line (r : AuditRecord) : bytes := json_to_vec (record_json r) ++ [x0a].

(** ** [prompt.rs]: [line] is what one line of standard input gives. *)

Inductive Decision := DecApprove | DecReject | DecRefuse.
#[export] Instance Decision_eq_dec : EqDecision Decision.
Proof. solve_decision. Defined.

Definition prompt_for_decision (line : option string) : Decision :=
  match line with
  | None => DecRefuse
  | Some line =>
      let answer := to_ascii_lowercase (trim line) in
      if existsb (String.eqb answer) ["y"; "yes"; "approve"] then DecApprove
      else if existsb (String.eqb answer) ["n"; "no"; "reject"] then DecReject
      else DecRefuse
  end.

(** ** [processor.rs] *)

Inductive DecisionPolicy := AutoApprove | AutoReject | Interactive | PolicyRefuse.

Record ProcessorConfig := { pc_server : string; pc_approver_id : string; pc_policy : DecisionPolicy }.

Record Processor := {
  p_signer : ApproverSigner;
  p_config : ProcessorConfig;
  p_identity_override : option ApproverIdentityWire;
}.
Definition processor_new (signer : ApproverSigner) (config : ProcessorConfig) : Processor :=
  {| p_signer := signer; p_config := config; p_identity_override := None |}.
Definition with_identity (p : Processor) (i : ApproverIdentityWire) : Processor :=
  {| p_signer := p_signer p; p_config := p_config p; p_identity_override := Some i |}.

Inductive ProcessorError :=
  | PeBadRequest (why : string)
  | PeSigner (why : string)
  | PeHttp (why : string).

Definition processor_error_text (e : ProcessorError) : string :=
  match e with
  | PeBadRequest why => "bad request: " +:+ why
  | PeSigner why => "signer: " +:+ why
  | PeHttp why => "http: " +:+ why
  end.

Record ProcessOutcome := { po_decision : Decision; po_server_status : option Z; po_approval_id : string }.

(** What one run draws: the operator's line, the approval id, the clock. *)
Record ClientDraws := {
  cd_line : option string;
  cd_approval_id : ApprovalId;
  cd_now_ms : Z;
  cd_timestamp : string;
}.

Inductive Effect :=
  | Posted (p : HttpPost)
  | Logged (line : bytes).

Context (signer_text : SignerLoadError → string).

Definition decide_request (self : Processor) (env : ClientDraws) : Decision :=
  match pc_policy (p_config self) with
  | AutoApprove => DecApprove
  | AutoReject => DecReject
  | PolicyRefuse => DecRefuse
  | Interactive => prompt_for_decision (cd_line env)
  end.

Definition identity_for_wire (self : Processor) : ApproverIdentityWire :=
  match p_identity_override self with
  | Some i => i
  | None => WireExternal (pc_approver_id (p_config self)) (hex_encode (as_public_key (p_signer self)))
              (wire_of_scheme (as_scheme (p_signer self)))
  end.

Definition decode_msg_hash (s : string) : result ProcessorError bytes :=
  bs ← ok_or (hex_decode s) (PeBadRequest ("hex: " +:+ hex_text s));
  _ ← ensure (bool_decide (length bs = 32%nat)) (PeBadRequest "message_hash must be 32 bytes");
  mret bs.

(** The submission of a decision that is not a refusal. *)
Definition prepare (self : Processor) (env : ClientDraws) (approve : bool) (req : ApprovalRequestWire)
    : result ProcessorError SubmitApprovalWire :=
  rid ← ok_or (ulid_from_string (arw_request_id req)) (PeBadRequest (ulid_text (arw_request_id req)));
  message_hash ← decode_msg_hash (arw_message_hash req);
  let preimage := signing_preimage (cd_approval_id env) (RequestId_from_ulid rid) message_hash
                    (if approve then Approve else Reject) (cd_now_ms env) in
  signature ← map_err (λ e, PeSigner (signer_text e)) (signer_sign (p_signer self) preimage);
  mret {| saw_approver_id := pc_approver_id (p_config self);
          saw_approval_id := ulid_to_string (ApprovalId_ulid (cd_approval_id env));
          saw_decision := if approve then "approve" else "reject";
          saw_signature_hex := hex_encode signature;
          saw_timestamp_unix_ms := cd_now_ms env;
          saw_message_hash_hex := arw_message_hash req;
          saw_identity := identity_for_wire self |}.

Definition submission_post (self : Processor) (req : ApprovalRequestWire) (body : SubmitApprovalWire) : HttpPost := {|
  post_url := trim_end_matches (Ascii.ascii_of_nat 47) (pc_server (p_config self))
              +:+ "/requests/" +:+ arw_request_id req +:+ "/approvals";
  post_headers := [("content-type", "application/json")];
  post_body := json_to_vec (submit_json body) |}.

Definition process (self : Processor) (env : ClientDraws) (req : ApprovalRequestWire)
    : result ProcessorError ProcessOutcome * list Effect :=
  let decision := decide_request self env in
  match decision with
  | DecRefuse =>
      (Ok {| po_decision := decision; po_server_status := None; po_approval_id := "" |},
       [Logged (audit_line {|
          ar_timestamp := cd_timestamp env; ar_event := "rejected"; ar_rec_request_id := arw_request_id req;
          ar_approver_id := pc_approver_id (p_config self); ar_message_hash_hex := arw_message_hash req;
          ar_decision := "refused"; ar_signature_hex := None; ar_server_status := None;
          ar_note := Some "operator refused" |})])
  | DecApprove | DecReject =>
      match prepare self env (bool_decide (decision = DecApprove)) req with
      | Err e => (Err e, [])
      | Ok body =>
          let post := submission_post self req body in
          match http_send post with
          | Err e => (Err (PeHttp e), [Posted post])
          | Ok status =>
              (Ok {| po_decision := decision; po_server_status := Some status;
                     po_approval_id := saw_approval_id body |},
               [Posted post;
                Logged (audit_line {|
                  ar_timestamp := cd_timestamp env; ar_event := if is_success status then "posted" else "error";
                  ar_rec_request_id := arw_request_id req; ar_approver_id := pc_approver_id (p_config self);
                  ar_message_hash_hex := arw_message_hash req; ar_decision := saw_decision body;
                  ar_signature_hex := Some (saw_signature_hex body); ar_server_status := Some status;
                  ar_note := None |})])
          end
      end
  end.

(** ** [webhook_handler.rs] *)

Inductive WebhookError :=
  | MissingSignature
  | MalformedSignature (why : string)
  | BadSignature
  | BadBody (why : string)
  | WeProcessor (why : string).

(** The first value of a header; names compare without case. *)
Definition header_get (name : string) (headers : list (string * bytes)) : option bytes :=
  snd <$> List.find (λ h, String.eqb (to_ascii_lowercase h.1) name) headers.

Definition verify_hmac (headers : list (string * bytes)) (secret body : bytes) : result WebhookError () :=
  header ← ok_or (header_get Notifiers.WEBHOOK_SIGNATURE_HEADER headers) MissingSignature;
  header_str ← ok_or (header_to_str header) (MalformedSignature "failed to convert header to a str");
  provided ← ok_or (hex_decode header_str) (MalformedSignature ("hex: " +:+ hex_text header_str));
  _ ← ensure (bool_decide (length provided = 32%nat))
        (MalformedSignature ("expected 32 raw bytes, got " +:+ show_dec (Z.of_nat (length provided))));
  ensure (bool_decide (hmac_sha256 secret body = provided)) BadSignature.

Definition webhook_status (e : WebhookError) : Z :=
  match e with
  | MissingSignature | MalformedSignature _ | BadSignature => 401
  | BadBody _ => 400
  | WeProcessor _ => 500
  end.

Definition handle_webhook (hmac_secret : bytes) (self : Processor) (env : ClientDraws) (json_msg : bytes → string)
    (headers : list (string * bytes)) (body : bytes) : result WebhookError Z * list Effect :=
  match verify_hmac headers hmac_secret body with
  | Err e => (Err e, [])
  | Ok _ =>
      match j ← json_from_slice body; request_of_json j with
      | None => (Err (BadBody ("json: " +:+ json_msg body)), [])
      | Some req =>
          let '(r, effects) := process self env req in
          (_ ← map_err (λ e, WeProcessor (processor_error_text e)) r; mret 200, effects)
      end
  end.

(** The status of the answer. *)
Definition webhook_answer (r : result WebhookError Z) : Z :=
  match r with Ok status => status | Err e => webhook_status e end.

(** ** [main.rs] *)

Definition choose_policy (auto_approve auto_reject interactive : bool) : DecisionPolicy :=
  if auto_approve then AutoApprove
  else if auto_reject then AutoReject
  else if interactive then Interactive else PolicyRefuse.

(** [read] is what reading a named file gives. *)
Definition load_webhook_secret (arg : string) (read : string → result string bytes) : result string bytes :=
  match strip_prefix "@" arg with
  | Some path => read path
  | None => Ok (string_bytes arg)
  end.
End client.
