(* ===== verification/ApproverClientProps.v ===== *)
(** * ApproverClientProps: the daemon against the server

    What the approver daemon signs is what the server verifies; what the server
    sends it and how it answers back do not fit together. *)

From S2P Require Import Prelude Text Types External PolicyTypes SignedDecision Signers Attestation MockEnclave AuditLog Approval ApprovalStore Registry.
From S2P Require Import ShareStore WalletService Notifiers ApiSchemas ApiHandlers ShareFiles ApproverClient.
#[local] Open Scope string_scope.
#[local] Open Scope list_scope.
#[local] Open Scope Z_scope.

(** ** Serialisation *)

Lemma wire_scheme_round_trip s : (n ← variant_name (scheme_json s); scheme_named n) = Some s.
Proof. by destruct s. Qed.

Lemma wire_of_scheme_of s : wire_of_scheme (scheme_of_wire s) = s.
Proof. by destruct s. Qed.
Lemma scheme_of_wire_of s : scheme_of_wire (wire_of_scheme s) = s.
Proof. by destruct s. Qed.
Lemma scheme_of_dto_of s : scheme_of_dto (dto_of_scheme s) = s.
Proof. by destruct s. Qed.

(** The chain id, where there is one, is a [u64]. *)
Definition wire_ok (i : ApproverIdentityWire) : Prop :=
  match i with WireChain c _ _ _ => 0 ≤ c ≤ u64_max | _ => True end.

Lemma wire_identity_round_trip i : wire_ok i → wire_identity_of_json (wire_identity_json i) = Some i.
Proof.
  intros Hok. destruct i as [c a p s|n p s|n p s|n p s]; destruct s;
    unfold wire_identity_of_json; cbn -[u64_of_json]; try done.
  all: cbn in Hok; unfold u64_of_json; rewrite (proj2 (Z.leb_le 0 c)), (proj2 (Z.leb_le c u64_max)) by lia; done.
Qed.

Definition decision_dto_named (s : string) : option ApprovalDecisionDto := decision_of_json (JString s).

Lemma submit_round_trip w d :
  wire_ok (saw_identity w) → is_i64 (saw_timestamp_unix_ms w) → decision_dto_named (saw_decision w) = Some d →
  submit_request_of_json (submit_json w) = Some {|
    sar_approver_id := saw_approver_id w; sar_approval_id := saw_approval_id w; sar_decision := d;
    sar_signature_hex := saw_signature_hex w; sar_timestamp_unix_ms := saw_timestamp_unix_ms w;
    sar_message_hash_hex := saw_message_hash_hex w; sar_identity := dto_of_wire (saw_identity w) |}.
Proof.
  intros Hi Ht Hd. unfold submit_request_of_json, submit_json.
  cbn -[wire_identity_json wire_identity_of_json decision_of_json i64_of_json].
  unfold decision_dto_named in Hd. rewrite Hd. cbn -[wire_identity_json wire_identity_of_json i64_of_json].
  rewrite i64_of_json_ok by done. cbn -[wire_identity_json wire_identity_of_json].
  by rewrite wire_identity_round_trip.
Qed.

(** No identity the server writes is one the daemon reads: it writes raw bytes
    under [public_key], the daemon wants text under [public_key_hex]. *)
Lemma server_identity_unreadable `{UlidCrate} i : wire_identity_of_json (identity_json i) = None.
Proof. destruct i as [c a p s|n p s|[n p s]|w p s]; destruct s; done. Qed.

(** ** The signer *)

Section props.
Context `{UlidCrate, UlidParse, HexCrate, JsonCrate, DigestCrate, Ed25519Crate, K256Crate, MlDsaCrate, RlpCrate}.
Context `{HmacCrate, HttpClient, HeaderCrate, ErrorTexts}.
Context (signer_text : SignerLoadError → string).

#[local] Abbreviation process := (process signer_text).
#[local] Abbreviation prepare := (prepare signer_text).
#[local] Abbreviation handle_webhook := (handle_webhook signer_text).

(** The identity the daemon claims unless told otherwise. *)
Definition default_identity (self : Processor) : ApproverIdentity :=
  Approval.External (pc_approver_id (p_config self)) (as_public_key (p_signer self)) (as_scheme (p_signer self)).

(** The daemon's key was loaded for its scheme. *)
Definition loaded (sg : ApproverSigner) : Prop :=
  approver_signer (as_secret sg) (as_scheme sg) = Ok sg.

(** A request the daemon can read. *)
Definition readable (req : ApprovalRequestWire) (rid : RequestId) (h : bytes) : Prop :=
  ulid_from_string (arw_request_id req) = Some (RequestId_ulid rid)
  ∧ hex_decode (arw_message_hash req) = Some h ∧ length h = 32%nat.

Context `{!UlidLaws, !UlidParseLaws, !HexLaws, !JsonLaws, !HmacLaws, !HeaderLaws}.
Context `{!DigestLaws, !Ed25519Laws, !K256Laws, !MlDsaLaws}.

Lemma signer_sign_ok sg m :
  loaded sg → ∃ sig, signer_sign sg m = Ok sig
    ∧ dispatch_signer (as_scheme sg) (λ s, Signers.verify s (as_public_key sg) m sig (hash_alg_for (as_scheme sg))) = Ok ().
Proof.
  intros Hl. unfold loaded in Hl. destruct sg as [secret s pk]. cbn [as_secret as_scheme as_public_key] in *.
  assert (∃ sgn, signer_for_scheme s = Ok sgn ∧ ∀ T (f : Signer → result SignerError T), dispatch_signer s f = f sgn)
    as (sgn & Hs & Hd) by (destruct s; by eexists).
  unfold approver_signer in Hl. rewrite Hd in Hl.
  destruct (Signers.public_key sgn secret) as [pk'|] eqn:Hpk; [|done]. cbn in Hl. injection Hl as ->.
  destruct (public_signs s sgn secret pk m (hash_alg_for s) Hs Hpk) as (sig & Hsig & Hv); [by destruct s|].
  exists sig. unfold signer_sign.
  cbn [as_secret as_scheme]. rewrite !Hd. split; [|done].
  replace (match s with Ed25519 | MlDsa44 | MlDsa65 | MlDsa87 => HashNone | _ => Sha256 end)
    with (hash_alg_for s) by by destruct s.
  by rewrite Hsig.
Qed.

(** The submission the daemon makes of a readable request. *)
Lemma prepare_ok self env approve req rid h :
  loaded (p_signer self) → readable req rid h →
  ∃ sig, prepare self env approve req = Ok {|
      saw_approver_id := pc_approver_id (p_config self);
      saw_approval_id := ulid_to_string (ApprovalId_ulid (cd_approval_id env));
      saw_decision := if approve then "approve" else "reject"; saw_signature_hex := hex_encode sig;
      saw_timestamp_unix_ms := cd_now_ms env; saw_message_hash_hex := arw_message_hash req;
      saw_identity := identity_for_wire self |}
    ∧ dispatch_signer (as_scheme (p_signer self)) (λ s,
        Signers.verify s (as_public_key (p_signer self))
          (signing_preimage (cd_approval_id env) rid h (if approve then Approve else Reject) (cd_now_ms env))
          sig (hash_alg_for (as_scheme (p_signer self)))) = Ok ().
Proof.
  intros Hl (Hr & Hh & H32). unfold ApproverClient.prepare, decode_msg_hash. rewrite Hr, Hh. cbn [ok_or mbind result_bind].
  rewrite bool_decide_eq_true_2 by done. cbn [ensure mbind result_bind mret result_ret].
  replace (RequestId_from_ulid (RequestId_ulid rid)) with rid by by destruct rid.
  destruct (signer_sign_ok (p_signer self)
    (signing_preimage (cd_approval_id env) rid h (if approve then Approve else Reject) (cd_now_ms env)) Hl)
    as (sig & -> & Hv). by exists sig.
Qed.

(** What the server reads of the daemon's submission. *)
Lemma submission_read self env approve req rid h aid body sig :
  readable req rid h → p_identity_override self = None → is_i64 (cd_now_ms env) →
  is_ulid (ApprovalId_ulid (cd_approval_id env)) →
  ulid_from_string (pc_approver_id (p_config self)) = Some (ApproverId_ulid aid) →
  body = {|
      saw_approver_id := pc_approver_id (p_config self);
      saw_approval_id := ulid_to_string (ApprovalId_ulid (cd_approval_id env));
      saw_decision := if approve : bool then "approve" else "reject"; saw_signature_hex := hex_encode sig;
      saw_timestamp_unix_ms := cd_now_ms env; saw_message_hash_hex := arw_message_hash req;
      saw_identity := identity_for_wire self |} →
  ∃ dto, (j ← json_from_slice (json_to_vec (submit_json body)); submit_request_of_json j) = Some dto
    ∧ into_signed dto rid = Ok ({|
        sa_approval_id := cd_approval_id env; sa_approver := default_identity self; sa_request_id := rid;
        sa_message_hash := h; sa_decision := if approve then Approve else Reject;
        sa_timestamp_unix_ms := cd_now_ms env; sa_signature := sig |}, aid).
Proof.
  intros (Hr & Hh & H32) Hov Ht Hap Haid ->. rewrite json_round_trip. cbn [mbind option_bind].
  eexists. split.
  { apply (submit_round_trip _ (if approve then DtoApprove else DtoReject)); cbn; [|done|by destruct approve].
    unfold identity_for_wire. by rewrite Hov. }
  unfold into_signed, parse_id, decode_hex, hash_array, identity_for_wire. rewrite Hov.
  cbn -[hex_encode]. rewrite Haid. cbn -[hex_encode]. rewrite ulid_parse_to_string by done. cbn -[hex_encode].
  rewrite hex_decode_encode, Hh. cbn -[hex_encode]. rewrite bool_decide_eq_true_2 by done. cbn -[hex_encode].
  unfold decode_hex. rewrite hex_decode_encode. cbn -[hex_encode]. rewrite scheme_of_dto_of, scheme_of_wire_of.
  unfold default_identity. destruct (cd_approval_id env), aid. by destruct approve.
Qed.

(** The posts among the effects of a request, in order. *)
Definition posted (effects : list Effect) : list HttpPost :=
  omap (λ e, match e with Posted p => Some p | Logged _ => None end) effects.

(** C37. The daemon and the server agree on approvals.  A daemon with a loaded key, a
    ULID as its approver id and no identity override posts, for a request it can
    read and under any policy that decides it, one submission, once; the server
    reads from it an approval by the daemon's default identity, with
    the decision taken and the request's hash, whose signature it accepts from
    the time of signing to an hour later. *)
Theorem client_submission_verifies self env req rid h aid now :
  loaded (p_signer self) → readable req rid h → p_identity_override self = None →
  is_i64 (cd_now_ms env) → is_ulid (ApprovalId_ulid (cd_approval_id env)) →
  ulid_from_string (pc_approver_id (p_config self)) = Some (ApproverId_ulid aid) →
  decide_request self env ≠ DecRefuse → cd_now_ms env ≤ now ≤ cd_now_ms env + 3600999 →
  ∃ post dto a, posted (process self env req).2 = [post]
    ∧ (j ← json_from_slice (post_body post); submit_request_of_json j) = Some dto
    ∧ into_signed dto rid = Ok (a, aid)
    ∧ sa_approver a = default_identity self
    ∧ (sa_decision a = Approve ↔ decide_request self env = DecApprove)
    ∧ approval_verify a rid h now = Ok ().
Proof.
  intros Hl Hr Hov Ht Hap Haid Hdec Hnow.
  destruct (prepare_ok self env (bool_decide (decide_request self env = DecApprove)) req rid h Hl Hr)
    as (sig & Hprep & Hv).
  destruct (submission_read self env (bool_decide (decide_request self env = DecApprove)) req rid h aid _ sig
    Hr Hov Ht Hap Haid eq_refl) as (dto & Hdto & Hin).
  set (body := Build_SubmitApprovalWire _ _ _ _ _ _ _) in Hprep, Hdto.
  exists (submission_post self req body), dto. eexists.
  assert (∃ r rest, process self env req = (r, Posted (submission_post self req body) :: rest)
    ∧ posted rest = []) as (r & rest & -> & Hrest).
  { unfold ApproverClient.process. destruct (decide_request self env); [| |done]; rewrite Hprep;
      destruct (http_send _); by eexists _, _. }
  cbn [snd]. split; [unfold posted in *; cbn; by rewrite Hrest|].
  split; [exact Hdto|]. split; [exact Hin|]. split; [done|]. split.
  { cbn [sa_decision]. by case_bool_decide. }
  apply approval_verify_ok. cbn [sa_request_id sa_message_hash sa_timestamp_unix_ms sa_approver sa_signature].
  assert (i64_saturating_sub now (cd_now_ms env) = now - cd_now_ms env) as ->.
  { unfold i64_saturating_sub. unfold i64_min, i64_max. lia. }
  split; [done|]. split; [done|]. split; [lia|]. split; [|exact Hv].
  unfold i64_div, MAX_APPROVAL_AGE_SECS. enough (Z.quot (now - cd_now_ms env) 1000 < 3601) by lia.
  apply Z.quot_lt_upper_bound; lia.
Qed.
(** ** What does not fit *)

(** The headers as they arrive. *)
Definition arrived (p : HttpPost) : list (string * bytes) := prod_map id string_bytes <$> post_headers p.

(** The daemon never presents an API key, so the server refuses every
    submission it makes, whatever the keys, and records nothing. *)
Theorem client_post_unauthorized {P Sh A AS E : Type} `{Policy P, ShareStore Sh, AuditSink A, ApprovalStore AS, Enclave E,
    EventSerde, HashOrder}
    self env req post (st : @AppState E) draws rid dto (w : @World P Sh A AS) :
  Posted post ∈ (process self env req).2 →
  serve st draws (header_get API_KEY_HEADER (arrived post)) (PostApprovals rid dto) w
  = Returns (into_response (Unauthorized "missing X-API-Key header"), w).
Proof.
  intros Hp. assert (∃ body, post = submission_post self req body) as (body & ->).
  { unfold ApproverClient.process in Hp. destruct (decide_request self env); cbn [snd] in Hp.
    3: { by apply list_elem_of_singleton in Hp. }
    all: destruct (prepare _ _ _ _) as [body|]; [|by apply elem_of_nil in Hp]; exists body.
    all: destruct (http_send _); cbn [snd] in Hp.
    all: apply elem_of_cons in Hp as [Hp|Hp]; [by injection Hp|].
    1,3: by apply list_elem_of_singleton in Hp.
    all: by apply elem_of_nil in Hp. }
  reflexivity.
Qed.

(** Nor would its default identity do: the server refuses the approval of an
    approver registered under any other identity, such as an external name. *)
Theorem client_identity_refused {P Sh A AS : Type} `{!ApprovalStore AS} registry_text self env req rid h aid dto a rec now
    (w : @World P Sh A AS) approve body :
  readable req rid h → p_identity_override self = None → is_i64 (cd_now_ms env) →
  is_ulid (ApprovalId_ulid (cd_approval_id env)) →
  ulid_from_string (pc_approver_id (p_config self)) = Some (ApproverId_ulid aid) →
  prepare self env approve req = Ok body →
  (j ← json_from_slice (json_to_vec (submit_json body)); submit_request_of_json j) = Some dto →
  into_signed dto rid = Ok (a, aid) →
  Registry.get_approver aid (w_registry w) = Ok rec → identity rec ≠ default_identity self →
  WalletService.record_approval registry_text now a aid h w
  = Returns (Err (SvcQuorum (UnknownApprover ("external:" +:+ pc_approver_id (p_config self)))), w).
Proof.
  intros Hr Hov Ht Hap Haid Hprep Hdto Hin Hget Hne.
  assert (∃ sig, body = {|
      saw_approver_id := pc_approver_id (p_config self);
      saw_approval_id := ulid_to_string (ApprovalId_ulid (cd_approval_id env));
      saw_decision := if approve : bool then "approve" else "reject"; saw_signature_hex := hex_encode sig;
      saw_timestamp_unix_ms := cd_now_ms env; saw_message_hash_hex := arw_message_hash req;
      saw_identity := identity_for_wire self |}) as (sig & Hb).
  { unfold ApproverClient.prepare in Hprep. apply result_bind_ok in Hprep as (? & _ & Hprep).
    apply result_bind_ok in Hprep as (? & _ & Hprep). apply result_bind_ok in Hprep as (sig & _ & [= <-]).
    by exists sig. }
  destruct (submission_read self env approve req rid h aid body sig Hr Hov Ht Hap Haid Hb) as (dto' & Hdto' & Hin').
  assert (dto' = dto) as -> by congruence. rewrite Hin in Hin'. injection Hin' as ->.
  unfold WalletService.record_approval. rewrite Hget. cbn [sa_approver]. by rewrite bool_decide_eq_false_2.
Qed.

(** ** The webhook *)

Lemma hex_encode_visible bs :
  chars_all (λ c, (32 <=? char_val c) && (char_val c <? 127)) (hex_encode bs) = true.
Proof.
  assert (∀ d, 0 ≤ d < 16 → (32 <=? char_val (hex_char d)) && (char_val (hex_char d) <? 127) = true) as Hd.
  { intros d Hd. unfold hex_char. destruct (Z.ltb_spec d 10); rewrite char_val_of_Z by lia;
      apply andb_true_iff; split; [apply Z.leb_le|apply Z.ltb_lt|apply Z.leb_le|apply Z.ltb_lt]; lia. }
  induction bs as [|b bs IH]; [done|]. cbn [hex_encode chars_all]. pose proof (byte_val_range b).
  rewrite !Hd; [done| |]; [apply Z.mod_pos_bound; lia|].
  split; [apply Z.div_pos|apply Z.div_lt_upper_bound]; lia.
Qed.

Lemma verify_hmac_ok headers secret body :
  verify_hmac headers secret body = Ok () ↔
  ∃ hv s, header_get Notifiers.WEBHOOK_SIGNATURE_HEADER headers = Some hv ∧ header_to_str hv = Some s
    ∧ hex_decode s = Some (hmac_sha256 secret body).
Proof.
  unfold verify_hmac. split.
  - intros (hv & Hhv%ok_or_ok & Hv)%result_bind_ok. apply result_bind_ok in Hv as (s & Hs%ok_or_ok & Hv).
    apply result_bind_ok in Hv as (bs & Hbs%ok_or_ok & Hv). apply ensure_bind_ok in Hv as [_ Hv].
    apply ensure_ok, bool_decide_eq_true in Hv as <-. eauto.
  - intros (hv & s & -> & Hs & Hh). cbn [ok_or mbind result_bind]. rewrite Hs. cbn [ok_or mbind result_bind].
    rewrite Hh. cbn [ok_or mbind result_bind]. apply ensure_bind_ok. rewrite !bool_decide_eq_true.
    split; [apply hmac_sha256_length|]. by rewrite bool_decide_eq_true_2.
Qed.

Lemma webhook_post_verifies endpoint secret req :
  verify_hmac (arrived (webhook_post endpoint secret req)) secret (post_body (webhook_post endpoint secret req)) = Ok ().
Proof.
  apply verify_hmac_ok. eexists _, _. split; [reflexivity|]. split.
  - apply header_to_str_visible, hex_encode_visible.
  - apply hex_decode_encode.
Qed.

(** The webhook is authenticated: a request has an effect only when it carries
    the hexadecimal HMAC of its body under the daemon's secret, and the server's
    own notification carries it when the secrets are the same. *)
Theorem webhook_authenticated secret self env json_msg headers body endpoint req :
  ((∃ hv s, header_get Notifiers.WEBHOOK_SIGNATURE_HEADER headers = Some hv ∧ header_to_str hv = Some s
      ∧ hex_decode s = Some (hmac_sha256 secret body))
   ∨ (∃ e, handle_webhook secret self env json_msg headers body = (Err e, []) ∧ webhook_status e = 401))
  ∧ verify_hmac (arrived (webhook_post endpoint secret req)) secret
      (post_body (webhook_post endpoint secret req)) = Ok ().
Proof.
  split; [|apply webhook_post_verifies]. destruct (verify_hmac headers secret body) as [[]|e] eqn:Hv.
  - left. by apply verify_hmac_ok.
  - right. exists e. unfold ApproverClient.handle_webhook. rewrite Hv. split; [done|].
    revert Hv. unfold verify_hmac, ok_or, ensure, mbind, result_bind.
    repeat (case_match; simplify_eq/=; try done); by intros [= <-].
Qed.

(** C38. The daemon cannot read a request with an approver in it: it answers the
    server's authenticated notification 400 and does nothing, so the
    notification fails, and with it the signing that needs a quorum.  Only a
    request to nobody is read. *)
Theorem server_webhook_unreadable secret self env json_msg endpoint req :
  let post := webhook_post endpoint secret req in
  let r := handle_webhook secret self env json_msg (arrived post) (post_body post) in
  (ar_approver_set req ≠ [] → 0 ≤ ar_threshold req ≤ u8_max →
     (∃ why, r = (Err (BadBody why), [])) ∧ webhook_answer r.1 = 400
     ∧ (http_send post = Ok (webhook_answer r.1) →
        notify (webhook_config endpoint secret) req = Err (Transport ("webhook returned " +:+ status_text 400))))
  ∧ (ar_approver_set req = [] → 0 ≤ ar_threshold req ≤ u8_max →
     ∃ w, (j ← json_from_slice (post_body post); request_of_json j) = Some w ∧ arw_approver_set w = []).
Proof.
  intros post r. split.
  - intros Hne Ht.
    assert ((j ← json_from_slice (post_body post); request_of_json j) = None) as Hnone.
    { subst post. cbn [webhook_post post_body]. rewrite json_round_trip. cbn [mbind option_bind].
      destruct (ar_approver_set req) as [|i l] eqn:Hset; [done|].
      unfold request_of_json, approval_request_json. rewrite Hset.
      cbn -[wire_identity_of_json identity_json hex_encode]. by rewrite server_identity_unreadable. }
    assert (∃ why, r = (Err (BadBody why), [])) as [why Hr].
    { subst r. unfold ApproverClient.handle_webhook. unfold post at 1 2. rewrite webhook_post_verifies, Hnone. by eexists. }
    rewrite Hr. split; [by eexists|]. split; [done|]. intros Hsend. unfold notify. cbn [wh_endpoint wh_hmac_secret webhook_config].
    fold post. by rewrite Hsend.
  - intros Hset Ht. subst post. cbn [webhook_post post_body]. rewrite json_round_trip. cbn [mbind option_bind].
    unfold request_of_json, approval_request_json. rewrite Hset. cbn -[hex_encode u8_of_json].
    rewrite u8_of_json_ok by done. cbn. by eexists.
Qed.

(** The daemon fails closed: started without a policy flag, or answered by
    anything but a clear yes or no, it posts nothing. *)
Theorem client_fails_closed self env req post :
  Posted post ∈ (process self env req).2 →
  match pc_policy (p_config self) with
  | PolicyRefuse => False
  | Interactive => ∃ line, cd_line env = Some line
      ∧ to_ascii_lowercase (trim line) ∈ ["y"; "yes"; "approve"; "n"; "no"; "reject"]
  | _ => True
  end
  ∧ choose_policy false false false = PolicyRefuse.
Proof.
  intros Hp. split; [|done]. assert (decide_request self env ≠ DecRefuse) as Hd.
  { intros Hd. unfold ApproverClient.process in Hp. rewrite Hd in Hp. by apply list_elem_of_singleton in Hp. }
  unfold decide_request in Hd. destruct (pc_policy (p_config self)); try done.
  unfold prompt_for_decision in Hd. destruct (cd_line env) as [line|]; [|done]. exists line. split; [done|].
  destruct (existsb _ ["y"; _; _]) eqn:Hy.
  { apply existsb_exists in Hy as (x & Hx & ->%String.eqb_eq). apply list_elem_of_In.
    destruct Hx as [<-|[<-|[<-|[]]]]; cbn; tauto. }
  destruct (existsb _ ["n"; _; _]) eqn:Hn; [|done].
  apply existsb_exists in Hn as (x & Hx & ->%String.eqb_eq). apply list_elem_of_In.
  destruct Hx as [<-|[<-|[<-|[]]]]; cbn; tauto.
Qed.
End props.

(** ** Witnesses *)

From S2P Require Import Rlp WalletServiceProps ApiProps.

Module ClientWitness.
Import Concrete ConcreteRlp RegistryWitness AuditWitness ServiceWitness ApiWitness.

#[export] Instance hmac_crate : HmacCrate := {| hmac_sha256 k m := toy_digest (k ++ m) |}.
#[export] Instance hmac_laws : HmacLaws.
Proof. split. intros k m. apply length_be_bytes. Qed.
#[export] Instance http_client : HttpClient := {| http_send _ := Ok 400; status_text _ := "400 Bad Request" |}.
Definition sig_text (_ : SignerLoadError) : string := "".

Definition sk : bytes := be_bytes 32 7.
Definition daemon_signer : ApproverSigner :=
  {| as_secret := sk; as_scheme := Ed25519; as_public_key := ed_public sk |}.
Definition daemon (p : DecisionPolicy) : Processor := processor_new daemon_signer
  {| pc_server := "https://wallet.example/"; pc_approver_id := ulid_to_string 21; pc_policy := p |}.
Definition drawn (line : option string) : ClientDraws := {|
  cd_line := line; cd_approval_id := ApprovalId_from_ulid 9; cd_now_ms := 1000; cd_timestamp := "" |}.
Definition msg_hash : bytes := be_bytes 32 5.
Definition wire_req : ApprovalRequestWire := {|
  arw_request_id := ulid_to_string 3; arw_message_hash := hex_encode msg_hash; arw_approver_set := [];
  arw_threshold := 1 |}.
Definition alice : ApproverIdentity := Approval.External "alice@example" (ed_public sk) Ed25519.
Definition req1 : ApprovalRequest := {|
  ar_request_id := RequestId_from_ulid 3; ar_message_hash := msg_hash; ar_approver_set := [alice];
  ar_threshold := 1 |}.

Lemma daemon_loaded p : loaded (p_signer (daemon p)).
Proof. by repeat split. Qed.
Lemma wire_req_readable : readable wire_req (RequestId_from_ulid 3) msg_hash.
Proof. split; [vm_compute; reflexivity|]. split; [apply hex_decode_encode|apply length_be_bytes]. Qed.

Example client_submission_verifies_witness :
  ∃ post dto a, posted (process sig_text (daemon AutoApprove) (drawn None) wire_req).2 = [post]
    ∧ (j ← json_from_slice (post_body post); submit_request_of_json j) = Some dto
    ∧ into_signed dto (RequestId_from_ulid 3) = Ok (a, ApproverId_from_ulid 21)
    ∧ approval_verify a (RequestId_from_ulid 3) msg_hash 2000 = Ok ().
Proof.
  destruct (client_submission_verifies sig_text (daemon AutoApprove) (drawn None) wire_req (RequestId_from_ulid 3)
    msg_hash (ApproverId_from_ulid 21) 2000) as (post & dto & a & Hp & Hd & Hi & _ & _ & Hv).
  - apply daemon_loaded.
  - apply wire_req_readable.
  - reflexivity.
  - split; vm_compute; discriminate.
  - reflexivity.
  - vm_compute. reflexivity.
  - discriminate.
  - cbn. lia.
  - exists post, dto, a. split; [exact Hp|]. split; [exact Hd|]. split; [exact Hi|exact Hv].
Defined.

Example client_post_unauthorized_witness :
  ∃ post dto, Posted post ∈ (process sig_text (daemon AutoApprove) (drawn None) wire_req).2
    ∧ (j ← json_from_slice (post_body post); submit_request_of_json j) = Some dto
    ∧ serve state (draws FileAbsent) (header_get API_KEY_HEADER (arrived post))
        (PostApprovals (ulid_to_string 3) dto) (world allow)
      = Returns (into_response (Unauthorized "missing X-API-Key header"), world allow).
Proof.
  destruct (prepare_ok sig_text (daemon AutoApprove) (drawn None) true wire_req (RequestId_from_ulid 3) msg_hash
    (daemon_loaded _) wire_req_readable) as (sig & Hprep & _).
  destruct (submission_read (daemon AutoApprove) (drawn None) true wire_req (RequestId_from_ulid 3) msg_hash
    (ApproverId_from_ulid 21) _ sig wire_req_readable eq_refl ltac:(split; vm_compute; discriminate) eq_refl
    ltac:(vm_compute; reflexivity) eq_refl) as (dto & Hdto & _).
  set (body := Build_SubmitApprovalWire _ _ _ _ _ _ _) in Hprep, Hdto.
  assert (Posted (submission_post (daemon AutoApprove) wire_req body)
    ∈ (process sig_text (daemon AutoApprove) (drawn None) wire_req).2) as Hp.
  { unfold process. cbn [decide_request pc_policy p_config daemon processor_new bool_decide].
    rewrite bool_decide_eq_true_2 by done. rewrite Hprep. by left. }
  exists (submission_post (daemon AutoApprove) wire_req body), dto. split; [exact Hp|]. split; [exact Hdto|].
  apply (client_post_unauthorized sig_text (daemon AutoApprove) (drawn None) wire_req). exact Hp.
Defined.

Example webhook_authenticated_witness :
  verify_hmac (arrived (webhook_post "https://a" [x01] req1)) [x01] (post_body (webhook_post "https://a" [x01] req1))
  = Ok ()
  ∧ ((∃ hv s, header_get Notifiers.WEBHOOK_SIGNATURE_HEADER [] = Some hv ∧ header_to_str hv = Some s
        ∧ hex_decode s = Some (hmac_sha256 [x01] []))
     ∨ (∃ e, handle_webhook sig_text [x01] (daemon AutoApprove) (drawn None) (λ _, "") [] [] = (Err e, [])
             ∧ webhook_status e = 401)).
Proof.
  destruct (webhook_authenticated sig_text [x01] (daemon AutoApprove) (drawn None) (λ _, "") [] [] "https://a" req1)
    as [Hgate Hpost].
  split; [exact Hpost|exact Hgate].
Defined.

Example server_webhook_unreadable_witness :
  notify (webhook_config "https://a" [x01]) req1 = Err (Transport "webhook returned 400 Bad Request").
Proof.
  destruct (server_webhook_unreadable sig_text [x01] (daemon AutoApprove) (drawn None) (λ _, "") "https://a" req1)
    as [Hne _].
  destruct Hne as (_ & Hans & Hnotify); [discriminate|split; vm_compute; discriminate|].
  apply Hnotify. rewrite Hans. reflexivity.
Defined.
End ClientWitness.
