(* ===== verification/Daemon.v ===== *)
(** * Daemon: start-up of the approver daemon ([clients/approver-rs/src/main.rs])

    From the command line to the state behind its one route.  The file system,
    the home directory, the HTTP client and the socket are arguments. *)

From S2P Require Import Prelude Text Types External PolicyTypes SignedDecision Signers Attestation MockEnclave AuditLog Approval ApprovalStore Registry.
From S2P Require Import ShareStore WalletService Notifiers ApiSchemas ApiHandlers ShareFiles Rlp ApproverClient ApproverClientProps WalletServiceProps ApiProps.
#[local] Open Scope string_scope.
#[local] Open Scope list_scope.
#[local] Open Scope Z_scope.

Inductive SchemeArg := ArgEd25519 | ArgSecp256k1.
Definition scheme_of_arg (a : SchemeArg) : SigningScheme :=
  match a with ArgEd25519 => Ed25519 | ArgSecp256k1 => Secp256k1 end.

Record Cli := {
  cli_listen : string;
  cli_server : string;
  cli_approver_id : string;
  cli_secret_file : string;
  cli_scheme : SchemeArg;
  cli_webhook_secret : string;
  cli_auto_approve : bool;
  cli_auto_reject : bool;
  cli_interactive : bool;
  cli_audit_path : option string;
}.

(** [conflicts_with_all] of the three policy flags: the command line is refused
    when two of them are given. *)
Definition cli_accepted (c : Cli) : bool :=
  negb (cli_auto_approve c && cli_auto_reject c) && negb (cli_auto_approve c && cli_interactive c)
  && negb (cli_auto_reject c && cli_interactive c).

Inductive DaemonError :=
  | CliRefused
  | WebhookSecretIo (why : string)
  | SignerFailed (e : SignerLoadError)
  | ClientFailed (why : string)
  | ListenFailed (why : string).

(** [AppState] and the path of the local log. *)
Record Daemon := { d_hmac_secret : bytes; d_processor : Processor; d_audit_path : string }.

(** What the process finds: files, the home directory, whether the HTTP client
    builds and the address binds. *)
Record Host := {
  host_read : string → result string bytes;
  host_home : option string;
  host_client : result string ();
  host_bind : string → result string ();
}.

(** [audit::default_path]; [join] puts a separator where there is none. *)
Definition path_join (a b : string) : string :=
  if String.eqb a "" then b
  else if bool_decide (strip_suffix "/" a ≠ None) then a +:+ b else a +:+ "/" +:+ b.
Definition default_path (home : option string) : option string :=
  h ← home; Some (path_join (path_join h ".qfc-approver") "audit.log").

Section daemon.
Context `{UlidCrate, UlidParse, HexCrate, JsonCrate, DigestCrate, Ed25519Crate, K256Crate, MlDsaCrate, RlpCrate}.
Context `{HmacCrate, HttpClient, HeaderCrate, ErrorTexts}.

Definition daemon_start (c : Cli) (h : Host) : result DaemonError Daemon :=
  _ ← ensure (cli_accepted c) CliRefused;
  let policy := choose_policy (cli_auto_approve c) (cli_auto_reject c) (cli_interactive c) in
  webhook_secret ← map_err WebhookSecretIo (load_webhook_secret (cli_webhook_secret c) (host_read h));
  secret ← map_err SignerFailed (load_secret (cli_secret_file c) (host_read h (cli_secret_file c)));
  signer ← map_err SignerFailed (approver_signer secret (scheme_of_arg (cli_scheme c)));
  let audit_path := default "./qfc-approver-audit.log"
                      (match cli_audit_path c with Some p => Some p | None => default_path (host_home h) end) in
  _ ← map_err ClientFailed (host_client h);
  let processor := processor_new signer {|
    pc_server := cli_server c; pc_approver_id := cli_approver_id c; pc_policy := policy |} in
  _ ← map_err ListenFailed (host_bind h (cli_listen c));
  mret {| d_hmac_secret := webhook_secret; d_processor := processor; d_audit_path := audit_path |}.

(** The route of the daemon. *)
Definition daemon_webhook (signer_text : SignerLoadError → string) (d : Daemon) (env : ClientDraws)
    (json_msg : bytes → string) (headers : list (string * bytes)) (body : bytes) : result WebhookError Z * list Effect :=
  handle_webhook signer_text (d_hmac_secret d) (d_processor d) env json_msg headers body.

Lemma daemon_started c h d :
  daemon_start c h = Ok d → cli_accepted c = true
  ∧ load_webhook_secret (cli_webhook_secret c) (host_read h) = Ok (d_hmac_secret d)
  ∧ ∃ secret, host_read h (cli_secret_file c) = Ok secret ∧ length secret = 32%nat
    ∧ approver_signer secret (scheme_of_arg (cli_scheme c)) = Ok (p_signer (d_processor d))
    ∧ pc_policy (p_config (d_processor d)) = choose_policy (cli_auto_approve c) (cli_auto_reject c) (cli_interactive c).
Proof.
  unfold daemon_start. intros [Hc Hd]%ensure_bind_ok. split; [done|].
  apply result_bind_ok in Hd as (ws & Hws%map_err_ok & Hd). apply result_bind_ok in Hd as (sec & Hsec%map_err_ok & Hd).
  apply result_bind_ok in Hd as (sg & Hsg%map_err_ok & Hd). apply result_bind_ok in Hd as (u & _ & Hd).
  apply result_bind_ok in Hd as (u' & _ & [= <-]). cbn. split; [done|]. exists sec. unfold load_secret in Hsec.
  apply result_bind_ok in Hsec as (bs & Hbs%map_err_ok & Hlen). apply ensure_bind_ok in Hlen as [Hlen [= <-]].
  apply bool_decide_eq_true in Hlen. done.
Qed.

Context `{!HmacLaws}.

(** The daemon signs only as told.  Whatever reaches its port, it posts a decision
    only when the request carries the HMAC of its body under the configured
    secret and the operator chose exactly one policy on the command line; one
    started without a policy flag posts nothing, and an interactive one posts
    only on a clear answer.  Its key is the whole 32-byte secret file, for the
    scheme asked for. *)
Theorem daemon_signs_as_told signer_text c h d env json_msg headers body post :
  daemon_start c h = Ok d →
  Posted post ∈ (daemon_webhook signer_text d env json_msg headers body).2 →
  (∃ hv s, header_get Notifiers.WEBHOOK_SIGNATURE_HEADER headers = Some hv ∧ header_to_str hv = Some s
     ∧ hex_decode s = Some (hmac_sha256 (d_hmac_secret d) body))
  ∧ (cli_auto_approve c, cli_auto_reject c, cli_interactive c)
      ∈ [(true, false, false); (false, true, false); (false, false, true)]
  ∧ (cli_interactive c = true → ∃ line, cd_line env = Some line
      ∧ to_ascii_lowercase (trim line) ∈ ["y"; "yes"; "approve"; "n"; "no"; "reject"])
  ∧ ∃ secret, host_read h (cli_secret_file c) = Ok secret ∧ length secret = 32%nat
      ∧ as_scheme (p_signer (d_processor d)) = scheme_of_arg (cli_scheme c)
      ∧ as_secret (p_signer (d_processor d)) = secret.
Proof.
  intros (Hc & _ & secret & Hread & Hlen & Hsg & Hpol)%daemon_started. unfold daemon_webhook, handle_webhook.
  destruct (verify_hmac headers (d_hmac_secret d) body) as [[]|] eqn:Hv; [|by intros Hp%elem_of_nil].
  apply verify_hmac_ok in Hv as Hmac. destruct (json_from_slice body ≫= request_of_json) as [req|]; [|by intros Hp%elem_of_nil].
  destruct (process _ _ _ _) as [r effects] eqn:Hproc. cbn [snd]. intros Hp.
  destruct (client_fails_closed signer_text (d_processor d) env req post) as [Hclosed _]; [by rewrite Hproc|].
  rewrite Hpol in Hclosed. split; [done|]. unfold cli_accepted in Hc.
  assert (as_scheme (p_signer (d_processor d)) = scheme_of_arg (cli_scheme c)
          ∧ as_secret (p_signer (d_processor d)) = secret) as [Hs1 Hs2].
  { unfold approver_signer in Hsg. apply result_bind_ok in Hsg as (pk & _ & [= <-]). done. }
  split; [|split; [|by exists secret]].
  - apply list_elem_of_In. destruct (cli_auto_approve c), (cli_auto_reject c), (cli_interactive c); cbn in *; tauto || done.
  - intros Hi. rewrite Hi in *. destruct (cli_auto_approve c), (cli_auto_reject c); done.
Qed.
End daemon.

(** ** Witnesses *)

Module DaemonWitness.
Import Concrete ConcreteRlp RegistryWitness AuditWitness ServiceWitness ApiWitness ClientWitness.

Definition cli : Cli := {|
  cli_listen := "0.0.0.0:7000"; cli_server := "https://wallet.example/"; cli_approver_id := ulid_to_string 21;
  cli_secret_file := "/key"; cli_scheme := ArgEd25519; cli_webhook_secret := "hook"; cli_auto_approve := true;
  cli_auto_reject := false; cli_interactive := false; cli_audit_path := None |}.
Definition host : Host := {|
  host_read _ := Ok sk; host_home := Some "/home/op"; host_client := Ok (); host_bind _ := Ok () |}.
Definition started : Daemon := {|
  d_hmac_secret := string_bytes "hook"; d_processor := ClientWitness.daemon AutoApprove;
  d_audit_path := "/home/op/.qfc-approver/audit.log" |}.
Lemma starts : daemon_start cli host = Ok started.
Proof. reflexivity. Qed.

(** A request to nobody, as the server posts it. *)
Definition notice : HttpPost := webhook_post "https://a" (string_bytes "hook") {|
  ar_request_id := RequestId_from_ulid 3; ar_message_hash := msg_hash; ar_approver_set := []; ar_threshold := 1 |}.
Lemma head_posts (l : list Effect) : match l with Posted _ :: _ => True | _ => False end → ∃ post, Posted post ∈ l.
Proof. destruct l as [|[post|] l]; [done| |done]. intros _. exists post. by left. Qed.
Lemma posts : ∃ post, Posted post ∈
  (daemon_webhook sig_text started (drawn None) (λ _, "") (arrived notice) (post_body notice)).2.
Proof.
  apply head_posts. vm_compute. exact I.
Qed.

Example daemon_signs_as_told_witness : ∃ secret, host_read host (cli_secret_file cli) = Ok secret
  ∧ as_secret (p_signer (d_processor started)) = secret.
Proof.
  destruct posts as [post Hpost].
  destruct (daemon_signs_as_told sig_text cli host started (drawn None) (λ _, "") (arrived notice) (post_body notice) post
              starts Hpost) as (_ & _ & _ & secret & Hread & _ & _ & Hsec).
  exists secret. split; [exact Hread|exact Hsec].
Defined.
End DaemonWitness.
