(* ===== verification/RegistryPostgres.v ===== *)
(** * RegistryPostgres: the approver registry on Postgres ([registry/postgres.rs])

    The three tables of the migration under their keys, and every operation as
    the statements it runs, in order; a transaction that fails leaves the tables
    as they were.  Which statement the database fails is an argument ([Db]), and
    so are the texts of its errors.  The database refuses a statement that binds
    text with a zero byte ([text_ok]), whatever else it answers.  A [JSONB]
    column keeps the fields of an object, which the decoder reads by name.  The
    order of rows a query leaves open is that of [HashOrder], as for the hash
    maps.  The in-memory registry of Registry.v is the specification. *)

From S2P Require Import Prelude Text Types External SignedDecision Attestation Approval Registry WalletService Notifiers ApproverClient.
#[local] Open Scope string_scope.
#[local] Open Scope list_scope.
#[local] Open Scope Z_scope.

Definition i16_max : Z := 2 ^ 15 - 1.
Definition i32_max : Z := 2 ^ 31 - 1.

(** ** Rows *)

(** A row of [approvers], without its key. *)
Record ApproverRow := {
  arow_identity : Json;
  arow_scheme : Z;
  arow_public_key : bytes;
  arow_label : string;
  arow_owner : string;
  arow_webhook : option string;
  arow_status : Z;
  arow_added_at : Z;
}.

(** A row of [approver_sets], without its key. *)
Record SetRow := {
  srow_name : string;
  srow_owner : string;
  srow_threshold : Z;
  srow_total : Z;
  srow_timeout : option Z;
  srow_created_at : Z;
}.

(** [approver_set_members] is unique on the set and the position, and on the set
    and the approver. *)
Record Tables := {
  t_approvers : gmap string ApproverRow;
  t_sets : gmap string SetRow;
  t_members : gmap (string * Z) string;
}.

Definition tables_new : Tables := {| t_approvers := ∅; t_sets := ∅; t_members := ∅ |}.

Definition scheme_byte (s : SigningScheme) : Z :=
  match s with
  | Ed25519 => 1 | Secp256k1 => 2 | Secp256k1Recoverable => 3 | MlDsa44 => 4 | MlDsa65 => 5 | MlDsa87 => 6
  end.
Definition scheme_from_byte (b : Z) : result RegistryError SigningScheme :=
  match b with
  | 1 => Ok Ed25519 | 2 => Ok Secp256k1 | 3 => Ok Secp256k1Recoverable
  | 4 => Ok MlDsa44 | 5 => Ok MlDsa65 | 6 => Ok MlDsa87
  | other => Err (RegIo ("unknown scheme byte: " +:+ show_dec other))
  end.
Definition status_byte (s : ApproverStatus) : Z := match s with Active => 1 | Revoked => 2 end.
Definition status_from_byte (b : Z) : result RegistryError ApproverStatus :=
  match b with
  | 1 => Ok Active | 2 => Ok Revoked
  | other => Err (RegIo ("unknown status byte: " +:+ show_dec other))
  end.
Definition show_int (z : Z) : string := if z <? 0 then "-" +:+ show_dec (- z) else show_dec z.
Definition u8_from_smallint (i : Z) : result RegistryError Z :=
  if (0 <=? i) && (i <=? u8_max) then Ok i else Err (RegIo ("smallint out of u8 range: " +:+ show_int i)).

(** [Deserialize] for [ApproverIdentity]. *)
Definition identity_of_json `{UlidParse} (j : Json) : option ApproverIdentity :=
  '(kind, content) ← tagged "kind" j;
  let scheme s := n ← variant_name s; scheme_named n in
  if String.eqb kind "chain" then
    vs ← struct_values ["chain_id"; "address"; "public_key"; "scheme"] content;
    match vs with
    | [c; a; p; s] => c ← u64_of_json c; a ← bytes_of_json a; p ← bytes_of_json p; s ← scheme s;
                      Some (Chain c a p s)
    | _ => None
    end
  else if String.eqb kind "external" then
    vs ← struct_values ["id"; "public_key"; "scheme"] content;
    match vs with
    | [i; p; s] => i ← string_of_json i; p ← bytes_of_json p; s ← scheme s; Some (Approval.External i p s)
    | _ => None
    end
  else if String.eqb kind "hardware" then
    vs ← struct_values ["handle"; "public_key"; "scheme"] content;
    match vs with
    | [i; p; s] => i ← string_of_json i; p ← bytes_of_json p; s ← scheme s;
                   Some (Hardware {| handle := i; hw_public_key := p; hw_scheme := s |})
    | _ => None
    end
  else if String.eqb kind "nested_wallet" then
    vs ← struct_values ["wallet_id"; "public_key"; "scheme"] content;
    match vs with
    | [w; p; s] => w ← string_of_json w; w ← ulid_from_string w; p ← bytes_of_json p; s ← scheme s;
                   Some (Approval.NestedWallet (WalletId_from_ulid w) p s)
    | _ => None
    end
  else None.

(** ** Tables that hold a map under text keys *)

(** [m'] holds the entries of [m], each under [f] of its key and as [g] of its
    value; the keys satisfy [P]. *)
Definition keyed {K K' A B} `{Countable K, Countable K'} (P : K → Prop) (f : K → K') (g : A → B)
    (m' : gmap K' B) (m : gmap K A) : Prop :=
  (∀ i a, m !! i = Some a → P i) ∧ ∀ k b, m' !! k = Some b ↔ ∃ i a, m !! i = Some a ∧ k = f i ∧ b = g a.

Section keyed.
Context {K K' A B : Type} `{Countable K, Countable K'} (P : K → Prop) (f : K → K') (g : A → B).
Hypothesis f_inj : ∀ i j, P i → P j → f i = f j → i = j.
#[local] Abbreviation holds := (keyed P f g).

Lemma keyed_lookup m' m i : holds m' m → P i → m' !! f i = g <$> m !! i.
Proof.
  intros [Hp Hm] Hi. destruct (m !! i) as [a|] eqn:Ha; cbn; [apply Hm; eauto|].
  apply eq_None_not_Some. intros [b (j & a & Ha' & Hf & _)%Hm].
  rewrite (f_inj i j) in Ha; [congruence|done|by eapply Hp|done].
Qed.

Lemma keyed_insert m' m i a : holds m' m → P i → holds (<[f i := g a]> m') (<[i := a]> m).
Proof.
  intros [Hp Hm] Hi. split.
  { intros j b [[<- _]|[_ Hb]]%lookup_insert_Some; [done|by eapply Hp]. }
  intros k b. rewrite lookup_insert_Some. split.
  - intros [[<- <-]|[Hne (j & x & Hx & -> & ->)%Hm]].
    + exists i, a. by rewrite lookup_insert_eq.
    + exists j, x. rewrite lookup_insert_ne by congruence. done.
  - intros (j & x & [[<- <-]|[Hne Hx]]%lookup_insert_Some & -> & ->); [by left|]. right.
    split; [|apply Hm; eauto]. intros Hf. apply Hne, f_inj; [done|by eapply Hp|done].
Qed.

Lemma keyed_perm m' m :
  holds m' m → map_to_list m' ≡ₚ (λ ia, (f ia.1, g ia.2)) <$> map_to_list m.
Proof.
  intros [Hp Hm]. apply NoDup_Permutation; [apply NoDup_map_to_list| |].
  - apply (NoDup_fmap_2_strong (λ ia : K * A, (f ia.1, g ia.2))); [|apply NoDup_map_to_list].
    intros [i a] [j b] Ha%elem_of_map_to_list Hb%elem_of_map_to_list [= Hf _].
    assert (i = j) as -> by (apply f_inj; [by eapply Hp|by eapply Hp|done]). congruence.
  - intros [k b]. rewrite elem_of_map_to_list, list_elem_of_fmap, Hm. split.
    + intros (i & a & Ha & -> & ->). exists (i, a). by rewrite elem_of_map_to_list.
    + intros ([i a] & [= -> ->] & Ha%elem_of_map_to_list). eauto.
Qed.
End keyed.

Lemma omap_nodup {X Y} (h : X → option Y) l :
  (∀ x x' y, h x = Some y → h x' = Some y → x = x') → NoDup l → NoDup (omap h l).
Proof.
  intros Hinj. induction 1 as [|x l Hx _ IH]; cbn; [constructor|]. destruct (h x) as [y|] eqn:Hy; [|done].
  constructor; [|done]. intros (x' & Hx' & Hy')%list_elem_of_omap. by rewrite (Hinj x x' y) in Hx.
Qed.

Lemma filter_perm {X} (P : X → bool) l l' : l ≡ₚ l' → List.filter P l ≡ₚ List.filter P l'.
Proof.
  induction 1 as [|x l l' _ IH|x y l|l1 l2 l3 _ IH1 _ IH2]; cbn; [done| | |by rewrite IH1].
  - by destruct (P x); rewrite IH.
  - destruct (P x), (P y); done || constructor.
Qed.

Lemma filter_fmap {X Y} (h : X → Y) (P : Y → bool) (Q : X → bool) l :
  (∀ x, x ∈ l → P (h x) = Q x) → List.filter P (h <$> l) = h <$> List.filter Q l.
Proof.
  induction l as [|x l IH]; intros HP; cbn; [done|]. rewrite (HP x) by left.
  rewrite IH by (intros; apply HP; by right). by destruct (Q x).
Qed.

Lemma map_result_fmap {E X Y W} (F : Y → result E W) (h : X → Y) (q : X → W) l :
  (∀ x, x ∈ l → F (h x) = Ok (q x)) → map_result F (h <$> l) = Ok (q <$> l).
Proof.
  intros HF. apply map_result_ok. induction l as [|x l IH]; cbn; constructor; [apply HF; left|].
  apply IH. intros; apply HF; by right.
Qed.

(** What the database answers to the [n]-th statement under a label: [None], or the
    text of its error. *)
Definition Db : Type := string → nat → option string.
Definition db_up : Db := λ _ _, None.

(** What a [TEXT] or [JSONB] value may hold: any text without U+0000. *)
Definition text_ok (s : string) : bool := negb (contains (string_bytes s) x00).

(** The texts inside the JSON of an identity. *)
Definition identity_texts (i : ApproverIdentity) : list string :=
  match i with
  | Approval.External id _ _ => [id]
  | Hardware h => [handle h]
  | Chain _ _ _ _ | Approval.NestedWallet _ _ _ => []
  end.

(** The texts [add_approver] and [create_approver_set] bind. *)
Definition add_texts (create : ApproverCreate) : list string :=
  ac_label create :: OwnerId_as_str (ac_owner_id create) :: option_list (ac_webhook_url create)
  ++ identity_texts (ac_identity create).
Definition set_texts (name : string) (owner : OwnerId) : list string := [name; OwnerId_as_str owner].

Section registry.
Context `{UlidCrate, UlidParse, HashOrder}.
(** The texts of a malformed identity, of a malformed identifier, of a key
    violation and of text with a zero byte. *)
Context (serde_text : Json → string) (ulid_msg : string → string) (duplicate_key nul_text : string).

#[local] Abbreviation approver_key id := (ulid_to_string (ApproverId_ulid id)).
#[local] Abbreviation set_key id := (ulid_to_string (ApproverSetId_ulid id)).

(** [.map_err(|e| RegistryError::Io(format!("<label>: {e}")))?]. *)
Definition sql_at (db : Db) (label : string) (n : nat) : result RegistryError () :=
  match db label n with
  | Some e => Err (RegIo (label +:+ ": " +:+ e))
  | None => Ok ()
  end.
#[local] Abbreviation sql db label := (sql_at db label 0).

(** A statement that binds texts of the caller. *)
Definition sql_texts (db : Db) (label : string) (texts : list string) : result RegistryError () :=
  _ ← sql db label; ensure (forallb text_ok texts) (RegIo (label +:+ ": " +:+ nul_text)).

Definition parse_approver_id (what s : string) : result RegistryError ApproverId :=
  u ← ok_or (ulid_from_string s) (RegIo (what +:+ " parse: " +:+ ulid_msg s)); mret (ApproverId_from_ulid u).
Definition parse_set_id (s : string) : result RegistryError ApproverSetId :=
  u ← ok_or (ulid_from_string s) (RegIo ("set id parse: " +:+ ulid_msg s)); mret (ApproverSetId_from_ulid u).

Definition row_to_approver (key : string) (row : ApproverRow) : result RegistryError ApproverRecord :=
  identity ← ok_or (identity_of_json (arow_identity row)) (RegIo ("identity decode: " +:+ serde_text (arow_identity row)));
  id ← parse_approver_id "approver id" key;
  scheme_b ← u8_from_smallint (arow_scheme row);
  scheme ← scheme_from_byte scheme_b;
  status_b ← u8_from_smallint (arow_status row);
  status ← status_from_byte status_b;
  mret {| rec_approver_id := id; identity := identity; rec_scheme := scheme; rec_label := arow_label row;
          rec_owner_id := OwnerId_new (arow_owner row); webhook_url := arow_webhook row; status := status;
          added_at_unix_ms := arow_added_at row |}.

(** [timeout_i.and_then(|v| u32::try_from(v).ok())]. *)
Definition timeout_of_column (t : option Z) : option Z :=
  v ← t; if 0 <=? v then Some v else None.
(** [create.quorum_timeout_secs.and_then(|v| i32::try_from(v).ok())]. *)
Definition timeout_to_column (t : option Z) : option Z :=
  v ← t; if v <=? i32_max then Some v else None.

Definition row_to_set (key : string) (row : SetRow) (members : list ApproverId) : result RegistryError ApproverSet :=
  id ← parse_set_id key;
  threshold ← u8_from_smallint (srow_threshold row);
  total ← u8_from_smallint (srow_total row);
  mret {| set_id := id; set_name := srow_name row; set_owner_id := OwnerId_new (srow_owner row);
          members := members; set_threshold := threshold; set_total := total;
          quorum_timeout_secs := timeout_of_column (srow_timeout row);
          created_at_unix_ms := srow_created_at row |}.

(** ** Operations *)

Definition with_approvers (t : Tables) (m : gmap string ApproverRow) : Tables :=
  {| t_approvers := m; t_sets := t_sets t; t_members := t_members t |}.

(** The columns of a record. *)
Definition approver_row (r : ApproverRecord) : ApproverRow := {|
  arow_identity := identity_json (identity r); arow_scheme := scheme_byte (rec_scheme r);
  arow_public_key := identity_public_key (identity r); arow_label := rec_label r;
  arow_owner := OwnerId_as_str (rec_owner_id r); arow_webhook := webhook_url r;
  arow_status := status_byte (status r); arow_added_at := added_at_unix_ms r |}.

Definition pg_add_approver (db : Db) (fresh : ApproverId) (now : Z) (create : ApproverCreate) (t : Tables)
    : result RegistryError ApproverRecord * Tables :=
  let record := {|
    rec_approver_id := fresh; identity := ac_identity create;
    rec_scheme := identity_scheme (ac_identity create); rec_label := ac_label create;
    rec_owner_id := ac_owner_id create; webhook_url := ac_webhook_url create;
    status := Active; added_at_unix_ms := now |} in
  match _ ← sql_texts db "insert approver" (add_texts create);
        ensure (bool_decide (t_approvers t !! approver_key fresh = None))
          (RegIo ("insert approver: " +:+ duplicate_key)) with
  | Err e => (Err e, t)
  | Ok _ => (Ok record, with_approvers t (<[approver_key fresh := approver_row record]> (t_approvers t)))
  end.

Definition row_with_status (row : ApproverRow) (s : Z) : ApproverRow := {|
  arow_identity := arow_identity row; arow_scheme := arow_scheme row; arow_public_key := arow_public_key row;
  arow_label := arow_label row; arow_owner := arow_owner row; arow_webhook := arow_webhook row; arow_status := s;
  arow_added_at := arow_added_at row |}.

Definition pg_revoke_approver (db : Db) (id : ApproverId) (t : Tables) : result RegistryError () * Tables :=
  match sql db "revoke approver", t_approvers t !! approver_key id with
  | Err e, _ => (Err e, t)
  | Ok _, None => (Err (ApproverNotFound id), t)
  | Ok _, Some row =>
      (Ok (), with_approvers t (<[approver_key id := row_with_status row (status_byte Revoked)]> (t_approvers t)))
  end.

Definition pg_get_approver (db : Db) (id : ApproverId) (t : Tables) : result RegistryError ApproverRecord :=
  _ ← sql db "select approver";
  row ← ok_or (t_approvers t !! approver_key id) (ApproverNotFound id);
  row_to_approver (approver_key id) row.

Definition added_row_before (a b : string * ApproverRow) : Prop := arow_added_at a.2 ≤ arow_added_at b.2.
#[local] Instance added_row_before_dec a b : base.Decision (added_row_before a b) := Z_le_dec _ _.

Definition pg_list_approvers_by_owner (db : Db) (owner : OwnerId) (include_revoked : bool) (t : Tables)
    : result RegistryError (list ApproverRecord) :=
  _ ← sql_texts db "list approvers" [OwnerId_as_str owner];
  let rows := List.filter (λ kr : string * ApproverRow, String.eqb (arow_owner kr.2) (OwnerId_as_str owner)
                 && (include_revoked || (arow_status kr.2 =? status_byte Active)))
                (hash_order (map_to_list (t_approvers t))) in
  map_result (λ kr, row_to_approver kr.1 kr.2) (merge_sort added_row_before rows).

Definition position_before (a b : Z * string) : Prop := a.1 ≤ b.1.
#[local] Instance position_before_dec a b : base.Decision (position_before a b) := Z_le_dec _ _.

(** The rows of a set, by position. *)
Definition member_rows (key : string) (t : Tables) : list (Z * string) :=
  omap (λ kv : string * Z * string, if String.eqb kv.1.1 key then Some (kv.1.2, kv.2) else None)
    (hash_order (map_to_list (t_members t))).

Definition fetch_set_members (db : Db) (n : nat) (id : ApproverSetId) (t : Tables)
    : result RegistryError (list ApproverId) :=
  _ ← sql_at db "set members" n;
  map_result (λ r, parse_approver_id "set member" r.2) (merge_sort position_before (member_rows (set_key id) t)).

Definition pg_get_approver_set (db : Db) (id : ApproverSetId) (t : Tables) : result RegistryError ApproverSet :=
  _ ← sql db "select set";
  row ← ok_or (t_sets t !! set_key id) (ApproverSetNotFound id);
  _ ← sql db "get_set tx";
  ms ← fetch_set_members db 0 id t;
  row_to_set (set_key id) row ms.

Definition created_row_before (a b : string * SetRow) : Prop := srow_created_at a.2 ≤ srow_created_at b.2.
#[local] Instance created_row_before_dec a b : base.Decision (created_row_before a b) := Z_le_dec _ _.

(** One row of a scan of the sets: its id is parsed, then its members are
    fetched; [begin] is the transaction [list_approver_sets] opens for it. *)
Definition load_set (db : Db) (begin : result RegistryError ()) (n : nat) (t : Tables) (kr : string * SetRow)
    : result RegistryError ApproverSet :=
  id ← parse_set_id kr.1;
  _ ← begin;
  ms ← fetch_set_members db n id t;
  row_to_set kr.1 kr.2 ms.

Fixpoint load_rows (db : Db) (begin : nat → result RegistryError ()) (n : nat) (t : Tables)
    (rows : list (string * SetRow)) : result RegistryError (list ApproverSet) :=
  match rows with
  | [] => Ok []
  | kr :: rows => s ← load_set db (begin n) n t kr; ss ← load_rows db begin (S n) t rows; mret (s :: ss)
  end.

Definition pg_list_approver_sets (db : Db) (owner : OwnerId) (t : Tables)
    : result RegistryError (list ApproverSet) :=
  _ ← sql_texts db "list sets" [OwnerId_as_str owner];
  let rows := List.filter (λ kr : string * SetRow, String.eqb (srow_owner kr.2) (OwnerId_as_str owner))
                (hash_order (map_to_list (t_sets t))) in
  load_rows db (sql_at db "list tx") 0 t (merge_sort created_row_before rows).

(** *** [create_approver_set] *)

(** The members, in order, with their records. *)
Fixpoint load_members (db : Db) (n : nat) (t : Tables) (ms : list ApproverId) (aps : gmap ApproverId ApproverRecord)
    : result RegistryError (gmap ApproverId ApproverRecord) :=
  match ms with
  | [] => Ok aps
  | m :: ms =>
      _ ← sql_at db "select member" n;
      row ← ok_or (t_approvers t !! approver_key m) (UnknownMember m);
      rec ← row_to_approver (approver_key m) row;
      _ ← ensure (bool_decide (status rec = Active)) (RevokedMember m);
      load_members db (S n) t ms (<[rec_approver_id rec := rec]> aps)
  end.

(** [sets_map]. *)
Definition load_sets (db : Db) (t : Tables) : result RegistryError (gmap ApproverSetId ApproverSet) :=
  _ ← sql db "scan sets";
  ss ← load_rows db (λ _, Ok ()) 0 t (hash_order (map_to_list (t_sets t)));
  mret (foldl (λ sm s, <[set_id s := s]> sm) ∅ ss).

(** The members of the existing sets no record was loaded of. *)
Definition needed (sm : gmap ApproverSetId ApproverSet) (aps : gmap ApproverId ApproverRecord) : gset ApproverId :=
  list_to_set (List.filter (λ m, bool_decide (aps !! m = None)) (flat_map members (values sm))).

Fixpoint load_needed (db : Db) (n : nat) (t : Tables) (ns : list ApproverId) (aps : gmap ApproverId ApproverRecord)
    : result RegistryError (gmap ApproverId ApproverRecord) :=
  match ns with
  | [] => Ok aps
  | m :: ns =>
      _ ← sql_at db "select walk approver" n;
      match t_approvers t !! approver_key m with
      | None => load_needed db (S n) t ns aps
      | Some row => rec ← row_to_approver (approver_key m) row; load_needed db (S n) t ns (<[rec_approver_id rec := rec]> aps)
      end
  end.

(** The records and the sets the walk runs on. *)
Definition load_graph (db : Db) (create : ApproverSetCreate) (t : Tables)
    : result RegistryError (gmap ApproverId ApproverRecord * gmap ApproverSetId ApproverSet) :=
  _ ← sql db "begin tx";
  aps ← load_members db 0 t (sc_members create) ∅;
  sm ← load_sets db t;
  aps ← load_needed db 0 t (hash_order (elements (needed sm aps))) aps;
  mret (aps, sm).

Fixpoint insert_members (db : Db) (key : string) (pos : nat) (ms : list ApproverId) (rows : gmap (string * Z) string)
    : result RegistryError (gmap (string * Z) string) :=
  match ms with
  | [] => Ok rows
  | m :: ms =>
      _ ← ensure (Z.of_nat pos <=? i16_max) (RegIo "position overflow (more than 32k members?)");
      _ ← sql_at db "insert set member" pos;
      insert_members db key (S pos) ms (<[(key, Z.of_nat pos) := approver_key m]> rows)
  end.

(** The columns of a set. *)
Definition set_row (s : ApproverSet) : SetRow := {|
  srow_name := set_name s; srow_owner := OwnerId_as_str (set_owner_id s); srow_threshold := set_threshold s;
  srow_total := set_total s; srow_timeout := timeout_to_column (quorum_timeout_secs s);
  srow_created_at := created_at_unix_ms s |}.

Definition insert_set (db : Db) (s : ApproverSet) (t : Tables) : result RegistryError Tables :=
  _ ← sql_texts db "insert set" (set_texts (set_name s) (set_owner_id s));
  _ ← ensure (bool_decide (t_sets t !! set_key (set_id s) = None)) (RegIo ("insert set: " +:+ duplicate_key));
  rows ← insert_members db (set_key (set_id s)) 0 (members s) (t_members t);
  _ ← sql db "commit set";
  mret {| t_approvers := t_approvers t; t_sets := <[set_key (set_id s) := set_row s]> (t_sets t); t_members := rows |}.

Definition pg_create_approver_set (db : Db) (fresh : ApproverSetId) (now : Z) (create : ApproverSetCreate)
    (t : Tables) : option (result RegistryError ApproverSet * Tables) :=
  match _ ← validate_set_shape create; load_graph db create t with
  | Err e => Some (Err e, t)
  | Ok (aps, sm) =>
      r ← walk_all (values sm) aps (omap (nested_of aps) (sc_members create));
      match _ ← r; insert_set db (new_set fresh now create) t with
      | Err e => Some (Err e, t)
      | Ok t' => Some (Ok (new_set fresh now create), t')
      end
  end.

(** ** What the tables represent *)

Definition identity_ok (i : ApproverIdentity) : Prop :=
  match i with
  | Chain c _ _ _ => 0 ≤ c ≤ u64_max
  | Approval.NestedWallet w _ _ => is_ulid (WalletId_ulid w)
  | _ => True
  end.

(** What the columns hold of a stored record or set: the widths of its types. *)
Definition record_storable (r : ApproverRecord) : Prop := identity_ok (identity r).
Definition set_storable (s : ApproverSet) : Prop :=
  0 ≤ set_threshold s ≤ u8_max ∧ 0 ≤ set_total s ≤ u8_max
  ∧ match quorum_timeout_secs s with Some v => 0 ≤ v ≤ u32_max | None => True end
  ∧ Forall (λ m, is_ulid (ApproverId_ulid m)) (members s).

(** A set as it is read back: a timeout that is not an [i32] was stored as NULL. *)
Definition kept (s : ApproverSet) : ApproverSet := {|
  set_id := set_id s; set_name := set_name s; set_owner_id := set_owner_id s; members := members s;
  set_threshold := set_threshold s; set_total := set_total s;
  quorum_timeout_secs := timeout_to_column (quorum_timeout_secs s); created_at_unix_ms := created_at_unix_ms s |}.

Record represents (t : Tables) (st : Inner) : Prop := {
  rep_approvers : keyed (λ id, is_ulid (ApproverId_ulid id)) (λ id, approver_key id) approver_row
                    (t_approvers t) (approvers st);
  rep_sets : keyed (λ id, is_ulid (ApproverSetId_ulid id)) (λ id, set_key id) set_row (t_sets t) (sets st);
  rep_members : ∀ k p v, t_members t !! (k, p) = Some v ↔
    ∃ id s i m, sets st !! id = Some s ∧ k = set_key id ∧ p = Z.of_nat i ∧ members s !! i = Some m
      ∧ v = approver_key m;
  rep_ok : registry_ok st;
  rep_records : map_Forall (λ _, record_storable) (approvers st);
  rep_storable : map_Forall (λ _, set_storable) (sets st);
}.

Context `{!UlidLaws, !UlidParseLaws, !HashOrderLaws}.

Lemma sql_texts_ok label texts : forallb text_ok texts = true → sql_texts db_up label texts = Ok ().
Proof. intros Ht. unfold sql_texts. cbn [sql_at db_up mbind result_bind]. by rewrite Ht. Qed.

Lemma approver_key_inj i j :
  is_ulid (ApproverId_ulid i) → is_ulid (ApproverId_ulid j) → approver_key i = approver_key j → i = j.
Proof. intros Hi Hj Heq. destruct i, j. cbn in *. f_equal. by apply ulid_inj. Qed.
Lemma set_key_inj i j :
  is_ulid (ApproverSetId_ulid i) → is_ulid (ApproverSetId_ulid j) → set_key i = set_key j → i = j.
Proof. intros Hi Hj Heq. destruct i, j. cbn in *. f_equal. by apply ulid_inj. Qed.

Lemma represents_new : represents tables_new registry_new.
Proof.
  split; cbn; try apply map_Forall_empty.
  - split; [done|]. intros k b. rewrite lookup_empty. split; [done|]. by intros (? & ? & ? & _).
  - split; [done|]. intros k b. rewrite lookup_empty. split; [done|]. by intros (? & ? & ? & _).
  - intros k p v. rewrite lookup_empty. split; [done|]. by intros (? & ? & ? & ? & ? & _).
  - split; apply map_Forall_empty.
Qed.

(** *** Decoding *)

Lemma u8_smallint i : 0 ≤ i ≤ u8_max → u8_from_smallint i = Ok i.
Proof. intros Hi. unfold u8_from_smallint. by rewrite (proj2 (Z.leb_le 0 i)), (proj2 (Z.leb_le i u8_max)) by lia. Qed.

Lemma identity_round_trip i : identity_ok i → identity_of_json (identity_json i) = Some i.
Proof.
  intros Hok. destruct i as [c a p s|n p s|[n p s]|[w] p s]; cbn in Hok;
    unfold identity_of_json; cbn -[u64_of_json bytes_of_json json_bytes variant_name scheme_json].
  1: unfold u64_of_json; rewrite (proj2 (Z.leb_le 0 c)), (proj2 (Z.leb_le c u64_max)) by lia; cbn -[bytes_of_json json_bytes].
  4: rewrite ulid_parse_to_string by done; cbn -[bytes_of_json json_bytes].
  all: rewrite !bytes_of_json_bytes; by destruct s.
Qed.

Lemma parse_approver_key what id : is_ulid (ApproverId_ulid id) → parse_approver_id what (approver_key id) = Ok id.
Proof. intros Hid. unfold parse_approver_id. rewrite ulid_parse_to_string by done. by destruct id. Qed.
Lemma parse_set_key id : is_ulid (ApproverSetId_ulid id) → parse_set_id (set_key id) = Ok id.
Proof. intros Hid. unfold parse_set_id. rewrite ulid_parse_to_string by done. by destruct id. Qed.

Lemma row_to_approver_row id r :
  is_ulid (ApproverId_ulid id) → record_ok id r → record_storable r →
  row_to_approver (approver_key id) (approver_row r) = Ok r.
Proof.
  intros Hid [Hrid Hs] Hok. unfold row_to_approver. cbn [arow_identity approver_row].
  rewrite identity_round_trip by done. cbn [ok_or mbind result_bind].
  rewrite parse_approver_key by done. cbn [mbind result_bind approver_row arow_scheme arow_status].
  destruct r as [rid i s l [o] w stt a]. cbn in Hrid |- *. subst rid. by destruct s, stt.
Qed.

Lemma timeout_kept t :
  match t with Some v => 0 ≤ v ≤ u32_max | None => True end →
  timeout_of_column (timeout_to_column t) = timeout_to_column t.
Proof.
  destruct t as [v|]; [|done]. intros Hv. unfold timeout_of_column, timeout_to_column. cbn.
  destruct (Z.leb_spec v i32_max); [|done]. cbn. by rewrite (proj2 (Z.leb_le 0 v)) by lia.
Qed.

Lemma row_to_set_row id s :
  is_ulid (ApproverSetId_ulid id) → set_id s = id → set_storable s →
  row_to_set (set_key id) (set_row s) (members s) = Ok (kept s).
Proof.
  intros Hid Hs (Ht & Htt & Hto & _). unfold row_to_set. rewrite parse_set_key by done.
  cbn [mbind result_bind set_row srow_threshold srow_total]. rewrite !u8_smallint by done. cbn.
  rewrite timeout_kept by done. unfold kept. rewrite Hs. by destruct s as [? ? [] ? ? ? ? ?].
Qed.

Lemma represents_lookup t st id :
  represents t st → is_ulid (ApproverId_ulid id) →
  t_approvers t !! approver_key id = approver_row <$> approvers st !! id.
Proof. intros Hr Hid. by eapply (keyed_lookup _ _ _ approver_key_inj), Hid; apply Hr. Qed.
Lemma represents_lookup_set t st id :
  represents t st → is_ulid (ApproverSetId_ulid id) →
  t_sets t !! set_key id = set_row <$> sets st !! id.
Proof. intros Hr Hid. by eapply (keyed_lookup _ _ _ set_key_inj), Hid; apply Hr. Qed.

Lemma row_of_stored t st id r :
  represents t st → approvers st !! id = Some r → row_to_approver (approver_key id) (approver_row r) = Ok r.
Proof.
  intros Hr Hid. apply row_to_approver_row.
  - by eapply (proj1 (rep_approvers _ _ Hr)).
  - by apply (proj1 (rep_ok _ _ Hr)).
  - by apply (rep_records _ _ Hr id).
Qed.

(** *** Members *)

Definition member_row (i : nat) (m : ApproverId) : Z * string := (Z.of_nat i, approver_key m).

Lemma member_rows_sorted (l : list ApproverId) k :
  StronglySorted position_before (imap (λ i m, member_row (k + i) m) l).
Proof.
  revert k. induction l as [|m l IH]; intros k; cbn; [constructor|]. constructor.
  - rewrite (imap_ext _ (λ i, member_row (S k + i))); [apply IH|]. intros i x _. cbn. f_equal. lia.
  - apply Forall_forall. intros x Hx. apply elem_of_lookup_imap in Hx as (i & y & -> & _).
    unfold position_before. cbn. lia.
Qed.

Lemma member_rows_perm t st id s :
  represents t st → sets st !! id = Some s →
  member_rows (set_key id) t ≡ₚ imap member_row (members s).
Proof.
  intros Hr Hs. unfold member_rows. rewrite (hash_order_perm _ (map_to_list (t_members t))).
  apply NoDup_Permutation.
  - apply omap_nodup; [|apply NoDup_map_to_list].
    intros [[k p] v] [[k' p'] v'] [q w]. cbn. destruct (String.eqb_spec k (set_key id)) as [->|]; [|done].
    destruct (String.eqb_spec k' (set_key id)) as [->|]; [|done]. congruence.
  - apply NoDup_alt. intros i j [p v]. rewrite !list_lookup_imap, !fmap_Some.
    intros (x & _ & [= -> _]) (y & _ & [= Hij _]). lia.
  - intros [p v]. rewrite list_elem_of_omap. split.
    + intros ([[k p'] v'] & Hl%elem_of_map_to_list & Heq). cbn in Heq.
      destruct (String.eqb_spec k (set_key id)) as [->|]; [|done]. injection Heq as -> ->.
      apply (rep_members _ _ Hr) in Hl as (id' & s' & i & m & Hs' & Hk & -> & Hm & ->).
      apply set_key_inj in Hk as <-; [|by eapply (proj1 (rep_sets _ _ Hr))..].
      apply elem_of_lookup_imap. exists i, m. split; [done|]. congruence.
    + intros (i & m & [= -> ->] & Hm)%elem_of_lookup_imap. exists (set_key id, Z.of_nat i, approver_key m).
      rewrite elem_of_map_to_list, (rep_members _ _ Hr). split; [|cbn; by rewrite String.eqb_refl].
      exists id, s, i, m. done.
Qed.

Lemma fetch_set_members_ok t st id s n :
  represents t st → sets st !! id = Some s → fetch_set_members db_up n id t = Ok (members s).
Proof.
  intros Hr Hs. unfold fetch_set_members. cbn [sql_at db_up mbind result_bind].
  assert (merge_sort position_before (member_rows (set_key id) t) = imap member_row (members s)) as ->.
  { apply (StronglySorted_unique_strong position_before).
    - intros [p v] [q w] Hp Hq. unfold position_before. cbn. intros ??. assert (p = q) as <- by lia.
      rewrite merge_sort_Permutation, (member_rows_perm _ _ _ _ Hr Hs) in Hp.
      apply elem_of_lookup_imap in Hp as (i & m & [= -> ->] & Hm).
      apply elem_of_lookup_imap in Hq as (j & m' & [= Hij ->] & Hm'). assert (i = j) as <- by lia. congruence.
    - apply StronglySorted_merge_sort; [intros [??] [??] [??]|intros [??] [??]]; unfold position_before; cbn; lia.
    - apply (member_rows_sorted (members s) 0).
    - rewrite merge_sort_Permutation. by apply member_rows_perm with st. }
  apply map_result_ok. apply Forall2_same_length_lookup_2; [apply length_imap|].
  intros i r m Hi Hm. rewrite list_lookup_imap, Hm in Hi. injection Hi as <-. cbn.
  apply parse_approver_key. destruct (rep_storable _ _ Hr id s Hs) as (_ & _ & _ & Hall).
  rewrite Forall_forall in Hall. eapply Hall, list_elem_of_lookup_2, Hm.
Qed.

Lemma load_set_ok t st id s n :
  represents t st → sets st !! id = Some s → load_set db_up (Ok ()) n t (set_key id, set_row s) = Ok (kept s).
Proof.
  intros Hr Hs. assert (is_ulid (ApproverSetId_ulid id)) as Hu by by eapply (proj1 (rep_sets _ _ Hr)).
  unfold load_set. cbn [fst snd]. rewrite parse_set_key by done. cbn [mbind result_bind].
  rewrite (fetch_set_members_ok _ _ _ _ _ Hr Hs). cbn [mbind result_bind].
  apply row_to_set_row; [done|by apply (proj2 (rep_ok _ _ Hr))|by apply (rep_storable _ _ Hr id)].
Qed.

Definition set_entry (e : ApproverSetId * ApproverSet) : string * SetRow := (set_key e.1, set_row e.2).
Definition approver_entry (e : ApproverId * ApproverRecord) : string * ApproverRow :=
  (approver_key e.1, approver_row e.2).

Lemma load_rows_ok t st l begin n :
  represents t st → (∀ i, begin i = Ok ()) → Forall (λ e, sets st !! e.1 = Some e.2) l →
  load_rows db_up begin n t (set_entry <$> l) = Ok ((λ e, kept e.2) <$> l).
Proof.
  intros Hr Hb. revert n. induction l as [|[id s] l IH]; intros n; [done|].
  intros [Hs Hl]%Forall_cons. cbn [fmap list_fmap load_rows set_entry]. rewrite Hb.
  rewrite (load_set_ok _ _ _ _ _ Hr Hs). cbn [mbind result_bind]. by rewrite IH.
Qed.

Lemma sets_perm t st : represents t st → hash_order (map_to_list (t_sets t)) ≡ₚ set_entry <$> map_to_list (sets st).
Proof. intros Hr. rewrite hash_order_perm. eapply (keyed_perm _ _ _ set_key_inj), Hr. Qed.
Lemma approvers_perm t st :
  represents t st → hash_order (map_to_list (t_approvers t)) ≡ₚ approver_entry <$> map_to_list (approvers st).
Proof. intros Hr. rewrite hash_order_perm. eapply (keyed_perm _ _ _ approver_key_inj), Hr. Qed.

(** *** Reads *)

Lemma get_approver_refines t st id :
  represents t st → is_ulid (ApproverId_ulid id) → pg_get_approver db_up id t = Registry.get_approver id st.
Proof.
  intros Hr Hid. unfold pg_get_approver, Registry.get_approver. cbn [sql_at db_up mbind result_bind].
  rewrite (represents_lookup _ _ _ Hr Hid). destruct (approvers st !! id) as [r|] eqn:Hl; cbn; [|done].
  by apply row_of_stored with t st.
Qed.

Lemma get_set_refines t st id :
  represents t st → is_ulid (ApproverSetId_ulid id) →
  pg_get_approver_set db_up id t = (s ← Registry.get_approver_set id st; mret (kept s)).
Proof.
  intros Hr Hid. unfold pg_get_approver_set, Registry.get_approver_set. cbn [sql_at db_up mbind result_bind].
  rewrite (represents_lookup_set _ _ _ Hr Hid).
  destruct (sets st !! id) as [s|] eqn:Hl; cbn [fmap option_fmap option_map ok_or mbind result_bind]; [|done].
  rewrite (fetch_set_members_ok _ _ _ _ _ Hr Hl). cbn [mbind result_bind].
  apply row_to_set_row; [done|by apply (proj2 (rep_ok _ _ Hr))|by apply (rep_storable _ _ Hr id)].
Qed.

(** A query's rows, filtered and sorted, are those of the map it holds. *)
Lemma query_rows {X Y} (entry : X → Y) (rows : list Y) (l : list X) (P : Y → bool) (Q : X → bool)
    (R : relation Y) `{∀ a b, base.Decision (R a b)} :
  rows ≡ₚ entry <$> l → (∀ x, x ∈ l → P (entry x) = Q x) → Total R → Transitive R →
  ∃ l', merge_sort R (List.filter P rows) = entry <$> l' ∧ l' ≡ₚ List.filter Q l ∧ StronglySorted R (entry <$> l').
Proof.
  intros Hperm HP ??.
  assert (merge_sort R (List.filter P rows) ≡ₚ entry <$> List.filter Q l) as Hm.
  { rewrite merge_sort_Permutation. rewrite (filter_perm P _ _ Hperm). by rewrite (filter_fmap entry P Q). }
  apply Permutation_map_inv in Hm as (l' & Hl' & Hp). exists l'. split; [exact Hl'|].
  split; [by symmetry|]. change (entry <$> l') with (map entry l'). rewrite <-Hl'. by apply StronglySorted_merge_sort.
Qed.

Lemma sorted_fmap {X Y W} (f : X → Y) (g : X → W) (R : relation Y) (R' : relation W) l :
  (∀ x y, R (f x) (f y) → R' (g x) (g y)) → StronglySorted R (f <$> l) → StronglySorted R' (g <$> l).
Proof.
  intros HR. induction l as [|x l IH]; [constructor|]. rewrite !fmap_cons.
  inversion 1 as [|?? Hs Hall]; subst. constructor; [by apply IH|].
  apply Forall_fmap. eapply Forall_impl; [exact (proj1 (Forall_fmap f _ l) Hall)|]. intros y. apply HR.
Qed.

Lemma filter_twice {X} (P Q : X → bool) l : List.filter P (List.filter Q l) = List.filter (λ x, Q x && P x) l.
Proof. induction l as [|x l IH]; cbn; [done|]. destruct (Q x); cbn; by rewrite IH. Qed.

Lemma filter_snd {X Y} (P : Y → bool) (l : list (X * Y)) :
  List.filter P l.*2 = (List.filter (λ e, P e.2) l).*2.
Proof. induction l as [|[x y] l IH]; cbn; [done|]. rewrite IH. by destruct (P y). Qed.

Lemma elem_of_filter_list {X} (P : X → bool) l x : x ∈ List.filter P l → x ∈ l.
Proof. rewrite !list_elem_of_In. by intros [? _]%filter_In. Qed.

Lemma list_approvers_refines t st owner inc :
  represents t st → text_ok (OwnerId_as_str owner) = true →
  ∃ l, pg_list_approvers_by_owner db_up owner inc t = Ok l ∧ l ≡ₚ list_approvers_by_owner owner inc st
    ∧ StronglySorted added_before l.
Proof.
  intros Hr Ho. unfold pg_list_approvers_by_owner.
  rewrite sql_texts_ok by (cbn; by rewrite Ho). cbn [mbind result_bind].
  destruct (query_rows approver_entry _ _
    (λ kr, String.eqb (arow_owner kr.2) (OwnerId_as_str owner) && (inc || (arow_status kr.2 =? status_byte Active)))
    (λ e, bool_decide (rec_owner_id e.2 = owner) && (inc || bool_decide (status e.2 = Active)))
    added_row_before (approvers_perm _ _ Hr)) as (l & Hl & Hp & Hs).
  - intros [id r] _. cbn. f_equal.
    + apply Bool.eq_iff_eq_true. rewrite String.eqb_eq, bool_decide_eq_true. destruct (rec_owner_id r), owner.
      cbn. naive_solver.
    + f_equal. by destruct (status r).
  - intros [? []] [? []]; unfold added_row_before; cbn; lia.
  - intros [? []] [? []] [? []]; unfold added_row_before; cbn; lia.
  - exists l.*2. split; [|split].
    + rewrite Hl. apply map_result_fmap. intros [id r] Hin. cbn. apply row_of_stored with t st; [done|].
      apply elem_of_map_to_list. rewrite Hp in Hin. by apply elem_of_filter_list in Hin.
    + unfold list_approvers_by_owner, values. rewrite merge_sort_Permutation, filter_twice.
      rewrite (filter_perm _ _ _ (hash_order_perm _ (map_to_list (approvers st)).*2)), filter_snd. by rewrite Hp.
    + by apply (sorted_fmap approver_entry snd added_row_before).
Qed.

Lemma list_sets_refines t st owner :
  represents t st → text_ok (OwnerId_as_str owner) = true →
  ∃ l, pg_list_approver_sets db_up owner t = Ok l ∧ l ≡ₚ kept <$> list_approver_sets owner st
    ∧ StronglySorted created_before l.
Proof.
  intros Hr Ho. unfold pg_list_approver_sets.
  rewrite sql_texts_ok by (cbn; by rewrite Ho). cbn [mbind result_bind].
  destruct (query_rows set_entry _ _ (λ kr, String.eqb (srow_owner kr.2) (OwnerId_as_str owner))
    (λ e, bool_decide (set_owner_id e.2 = owner)) created_row_before (sets_perm _ _ Hr)) as (l & Hl & Hp & Hs).
  - intros [id s] _. cbn. apply Bool.eq_iff_eq_true. rewrite String.eqb_eq, bool_decide_eq_true.
    destruct (set_owner_id s), owner. cbn. naive_solver.
  - intros [? []] [? []]; unfold created_row_before; cbn; lia.
  - intros [? []] [? []] [? []]; unfold created_row_before; cbn; lia.
  - exists ((λ e, kept e.2) <$> l). split; [|split].
    + rewrite Hl. apply load_rows_ok with st; [done..|]. apply Forall_forall. intros [id s] Hin. cbn.
      apply elem_of_map_to_list. rewrite Hp in Hin. by apply elem_of_filter_list in Hin.
    + unfold list_approver_sets, values. rewrite merge_sort_Permutation.
      rewrite (filter_perm _ _ _ (hash_order_perm _ (map_to_list (sets st)).*2)), filter_snd, Hp.
      by rewrite <-list_fmap_compose.
    + by apply (sorted_fmap set_entry (λ e, kept e.2) created_row_before).
Qed.

(** *** Writes *)

Lemma add_refines t st fresh now create :
  represents t st → is_ulid (ApproverId_ulid fresh) → approvers st !! fresh = None →
  identity_ok (ac_identity create) → forallb text_ok (add_texts create) = true →
  (pg_add_approver db_up fresh now create t).1 = (add_approver fresh now create st).1
  ∧ represents (pg_add_approver db_up fresh now create t).2 (add_approver fresh now create st).2.
Proof.
  intros Hr Hu Hf Hi Hx. unfold pg_add_approver. rewrite sql_texts_ok by done. cbn [mbind result_bind].
  rewrite (represents_lookup _ _ _ Hr Hu), Hf. rewrite bool_decide_eq_true_2 by done.
  cbn [ensure fst snd add_approver]. split; [done|].
  assert (reg_step st (add_approver fresh now create st).2) as Hstep by by eapply step_add.
  pose proof (proj1 (reg_step_ok _ _ Hstep (rep_ok _ _ Hr))) as Hok. destruct Hr. split; cbn; try done.
  - by apply (keyed_insert _ _ _ approver_key_inj).
  - by apply map_Forall_insert_2.
Qed.

Lemma revoke_refines t st id :
  represents t st → is_ulid (ApproverId_ulid id) →
  (pg_revoke_approver db_up id t).1 = (revoke_approver id st).1
  ∧ represents (pg_revoke_approver db_up id t).2 (revoke_approver id st).2.
Proof.
  intros Hr Hu. unfold pg_revoke_approver, revoke_approver. cbn [sql_at db_up].
  rewrite (represents_lookup _ _ _ Hr Hu). destruct (approvers st !! id) as [r|] eqn:Hl; cbn; [|done].
  split; [done|].
  assert (reg_step st (revoke_approver id st).2) as Hstep by by eapply step_revoke, surjective_pairing.
  pose proof (proj1 (reg_step_ok _ _ Hstep (rep_ok _ _ Hr))) as Hok.
  unfold revoke_approver in Hok. rewrite Hl in Hok. destruct Hr. split; cbn; try done.
  - by apply (keyed_insert _ _ approver_row approver_key_inj _ _ _ (with_status r Revoked)).
  - apply map_Forall_insert_2; [|done]. exact (rep_records0 id r Hl).
Qed.

Lemma insert_grows {K A} `{Countable K} (m m' big : gmap K A) i a :
  m ⊆ big → big !! i = Some a → <[i := a]> m ⊆ m' → m ⊆ m' ∧ m' !! i = Some a.
Proof.
  intros Hb Hi Hm. assert (m' !! i = Some a) as Ha by (eapply lookup_weaken; [apply lookup_insert_eq|done]).
  split; [|done]. apply map_subseteq_spec. intros j x Hj. destruct (decide (j = i)) as [->|Hne].
  - rewrite Ha. eapply lookup_weaken in Hj; [|exact Hb]. congruence.
  - eapply lookup_weaken; [|exact Hm]. by rewrite lookup_insert_ne.
Qed.

Lemma load_members_ok t st ms n aps :
  represents t st → Forall (λ m, is_ulid (ApproverId_ulid m)) ms → aps ⊆ approvers st →
  match resolve_members (approvers st) ms with
  | Err e => load_members db_up n t ms aps = Err e
  | Ok _ => ∃ aps', load_members db_up n t ms aps = Ok aps' ∧ aps ⊆ aps' ∧ aps' ⊆ approvers st
              ∧ ∀ m, m ∈ ms → is_Some (aps' !! m)
  end.
Proof.
  intros Hr. revert n aps. induction ms as [|m ms IH]; intros n aps; cbn [resolve_members load_members].
  { intros _ Hs. exists aps. do 3 (split; [done|]). by intros ? []%elem_of_nil. }
  intros [Hu Hus]%Forall_cons Hs. cbn [sql_at db_up mbind result_bind].
  rewrite (represents_lookup _ _ _ Hr Hu).
  destruct (approvers st !! m) as [r|] eqn:Hl; cbn [fmap option_fmap option_map ok_or mbind result_bind]; [|done].
  rewrite (row_of_stored _ _ _ _ Hr Hl). cbn [mbind result_bind].
  case_bool_decide; cbn [ensure mbind result_bind]; [|done].
  assert (rec_approver_id r = m) as -> by by apply (proj1 (rep_ok _ _ Hr)).
  assert (<[m := r]> aps ⊆ approvers st) as Hs' by by apply insert_subseteq_l.
  specialize (IH (S n) _ Hus Hs'). destruct (resolve_members (approvers st) ms) as [ws|e];
    cbn [mbind result_bind]; [|done].
  destruct IH as (aps' & -> & Hle & Hsub & Hall). exists aps'. split; [done|].
  destruct (insert_grows _ _ _ _ _ Hs Hl Hle) as [Hle' Hm]. do 2 (split; [done|]).
  intros x [->|Hx]%elem_of_cons; [by eexists|by apply Hall].
Qed.

Lemma load_needed_ok t st ns n aps :
  represents t st → Forall (λ m, is_ulid (ApproverId_ulid m)) ns → aps ⊆ approvers st →
  ∃ aps', load_needed db_up n t ns aps = Ok aps' ∧ aps ⊆ aps' ∧ aps' ⊆ approvers st
    ∧ ∀ m, m ∈ ns → is_Some (approvers st !! m) → is_Some (aps' !! m).
Proof.
  intros Hr. revert n aps. induction ns as [|m ns IH]; intros n aps; cbn [load_needed].
  { intros _ Hs. exists aps. do 3 (split; [done|]). by intros ? []%elem_of_nil. }
  intros [Hu Hus]%Forall_cons Hs. cbn [sql_at db_up mbind result_bind].
  rewrite (represents_lookup _ _ _ Hr Hu).
  destruct (approvers st !! m) as [r|] eqn:Hl; cbn [fmap option_fmap option_map]; last first.
  { destruct (IH (S n) aps Hus Hs) as (aps' & -> & Hle & Hsub & Hall). exists aps'. do 3 (split; [done|]).
    intros x [->|Hx]%elem_of_cons; [rewrite Hl; by intros [? ?]|by apply Hall]. }
  rewrite (row_of_stored _ _ _ _ Hr Hl). cbn [mbind result_bind].
  assert (rec_approver_id r = m) as -> by by apply (proj1 (rep_ok _ _ Hr)).
  assert (<[m := r]> aps ⊆ approvers st) as Hs' by by apply insert_subseteq_l.
  destruct (IH (S n) _ Hus Hs') as (aps' & -> & Hle & Hsub & Hall). exists aps'. split; [done|].
  destruct (insert_grows _ _ _ _ _ Hs Hl Hle) as [Hle' Hm]. do 2 (split; [done|]).
  intros x [->|Hx]%elem_of_cons; [by eexists|by apply Hall].
Qed.

Lemma fold_sets (l : list (ApproverSetId * ApproverSet)) (sm : gmap ApproverSetId ApproverSet) :
  NoDup l.*1 → Forall (λ e, set_id e.2 = e.1) l →
  foldl (λ sm s, <[set_id s := s]> sm) sm ((λ e, kept e.2) <$> l)
  = list_to_map ((λ e, (e.1, kept e.2)) <$> l) ∪ sm.
Proof.
  revert sm. induction l as [|[id s] l IH]; intros sm; cbn [fmap list_fmap foldl fst snd].
  { intros _ _. by rewrite left_id_L by apply _. }
  intros [Hni Hnd]%NoDup_cons [Hid Hall]%Forall_cons. rewrite IH by done.
  cbn [list_to_map foldr fst snd set_id kept uncurry]. cbn in Hid. rewrite Hid.
  rewrite <-insert_union_l, <-insert_union_r; [done|].
  apply not_elem_of_list_to_map_1. by rewrite <-list_fmap_compose.
Qed.

Lemma load_sets_ok t st : represents t st → load_sets db_up t = Ok (kept <$> sets st).
Proof.
  intros Hr. unfold load_sets. cbn [sql_at db_up mbind result_bind].
  pose proof (sets_perm _ _ Hr) as Hp. apply Permutation_map_inv in Hp as (l & -> & Hl).
  assert (Forall (λ e, sets st !! e.1 = Some e.2) l) as Hall.
  { apply Forall_forall. intros [id s] Hin. rewrite <-Hl in Hin. by apply elem_of_map_to_list. }
  change (map set_entry l) with (set_entry <$> l).
  rewrite (load_rows_ok _ _ _ _ _ Hr) by done. cbn [mbind result_bind mret result_ret]. f_equal.
  assert (NoDup l.*1) as Hnd by (rewrite <-Hl; apply NoDup_fst_map_to_list).
  rewrite fold_sets; [|done|].
  - rewrite (right_id_L ∅ (∪)). apply map_eq. intros i. rewrite lookup_fmap.
    transitivity ((kept <$> (list_to_map l : gmap ApproverSetId ApproverSet)) !! i).
    + rewrite <-list_to_map_fmap. done.
    + rewrite lookup_fmap. f_equal. rewrite <-(list_to_map_proper _ _ (NoDup_fst_map_to_list _) Hl).
      by rewrite list_to_map_to_list.
  - eapply Forall_impl; [exact Hall|]. intros [id s] Hs. cbn in *. by apply (proj2 (rep_ok _ _ Hr)).
Qed.

(** What [create_approver_set] may be asked to store, by the types. *)
Definition create_storable (create : ApproverSetCreate) : Prop := ∀ fresh now, set_storable (new_set fresh now create).

(** The results of creating a set: the same set, or the same error, where the walk
    over nested wallets may report another cycle (or the depth) for the order it
    takes the sets in. *)
Definition nesting_error (e : RegistryError) : Prop :=
  match e with NestingCycle _ | NestingTooDeep _ => True | _ => False end.
Definition answers_alike (r r' : result RegistryError ApproverSet) : Prop :=
  match r, r' with
  | Ok s, Ok s' => s = s'
  | Err e, Err e' => e = e' ∨ nesting_error e ∧ nesting_error e'
  | _, _ => False
  end.

Lemma walk_loop_err fuel ss aps visited stack e : walk_loop fuel ss aps visited stack = Some (Err e) → nesting_error e.
Proof.
  revert visited stack. induction fuel as [|fuel IH]; intros visited stack; [done|]. cbn [walk_loop].
  destruct stack as [|[w d] stack]; [done|]. destruct (_ <? _); [by intros [= <-]|].
  destruct (bool_decide _); [by intros [= <-]|]. apply IH.
Qed.
Lemma walk_all_err ss aps ws e : walk_all ss aps ws = Some (Err e) → nesting_error e.
Proof.
  induction ws as [|w ws IH]; cbn [walk_all]; [done|]. unfold walk_nested.
  destruct (walk_loop _ _ _ _ _) as [[[]|e']|] eqn:Hw; cbn [mbind option_bind]; [done| |done].
  intros [= <-]. by eapply walk_loop_err.
Qed.

(** The member checks refuse first. *)
Lemma create_err fresh now create st e st' :
  create_approver_set fresh now create st = Some (Err e, st') →
  (∃ u, validate_set_shape create = Ok u) → (∃ ws, resolve_members (approvers st) (sc_members create) = Ok ws) →
  nesting_error e.
Proof.
  unfold create_approver_set. intros Hc [u Hu] [ws Hws]. rewrite Hu, Hws in Hc.
  destruct (walk_all _ _ _) as [[[]|e']|] eqn:Hw; cbn [mbind option_bind] in Hc; [done| |done].
  injection Hc as <- <-. by eapply walk_all_err.
Qed.

Lemma elem_of_needed sm aps m :
  m ∈ needed sm aps ↔ aps !! m = None ∧ ∃ id s, sm !! id = Some s ∧ m ∈ members s.
Proof.
  unfold needed, values. rewrite elem_of_list_to_set, list_elem_of_In, filter_In, bool_decide_eq_true, in_flat_map.
  setoid_rewrite <-list_elem_of_In. setoid_rewrite (hash_order_perm _ (map_to_list sm).*2). split.
  - intros [(s & ([id s'] & -> & Hs%elem_of_map_to_list)%list_elem_of_fmap & Hm) Hn]. eauto.
  - intros (Hn & id & s & Hs & Hm). split; [|done]. exists s. split; [|done].
    apply list_elem_of_fmap. exists (id, s). by rewrite elem_of_map_to_list.
Qed.

(** The graph that is loaded has the members of the new set and of every stored
    set, with the records the registry holds of them. *)
Lemma load_graph_ok t st create :
  represents t st → create_storable create →
  match resolve_members (approvers st) (sc_members create) with
  | Err e => load_graph db_up create t = Err e
  | Ok _ => ∃ aps, load_graph db_up create t = Ok (aps, kept <$> sets st) ∧ aps ⊆ approvers st
      ∧ (∀ m, m ∈ sc_members create → is_Some (aps !! m))
      ∧ ∀ id s m, sets st !! id = Some s → m ∈ members s → is_Some (aps !! m)
  end.
Proof.
  intros Hr Hc. destruct (Hc (ApproverSetId_from_ulid 0) 0) as (_ & _ & _ & Hu). cbn in Hu.
  pose proof (load_members_ok t st (sc_members create) 0 ∅ Hr Hu (map_empty_subseteq _)) as Hm.
  unfold load_graph. cbn [sql_at db_up mbind result_bind].
  destruct (resolve_members _ _) as [ws|e]; [|by rewrite Hm].
  destruct Hm as (aps & -> & _ & Hsub & Hall). cbn [mbind result_bind]. rewrite (load_sets_ok _ _ Hr).
  cbn [mbind result_bind].
  destruct (load_needed_ok t st (hash_order (elements (needed (kept <$> sets st) aps))) 0 aps Hr)
    as (aps' & -> & Hle & Hsub' & Hall'); [|done|].
  { apply Forall_forall. intros m. rewrite (hash_order_perm _ (elements _)), elem_of_elements, elem_of_needed.
    intros (_ & id & s & Hs & Hm). rewrite lookup_fmap, fmap_Some in Hs. destruct Hs as (s' & Hs & ->).
    destruct (rep_storable _ _ Hr id s' Hs) as (_ & _ & _ & Hf). rewrite Forall_forall in Hf. by apply Hf. }
  exists aps'. split; [done|]. split; [done|]. split.
  - intros m Hm. eapply lookup_weaken_is_Some; [by apply Hall|done].
  - intros id s m Hs Hm. destruct (aps !! m) as [r|] eqn:Ha.
    { exists r. by eapply lookup_weaken. }
    apply Hall'; [|by eapply (proj2 (rep_ok _ _ Hr) id s Hs)].
    rewrite (hash_order_perm _ (elements _)), elem_of_elements, elem_of_needed. split; [done|].
    exists id, (kept s). by rewrite lookup_fmap, Hs.
Qed.

Lemma nested_of_weaken aps big m : aps ⊆ big → is_Some (aps !! m) → nested_of aps m = nested_of big m.
Proof. intros Hs [r Hm]. unfold nested_of. by rewrite Hm, (lookup_weaken _ _ _ _ Hm Hs). Qed.

Lemma alone_loaded aps st w :
  aps ⊆ approvers st → (∀ id s m, sets st !! id = Some s → m ∈ members s → is_Some (aps !! m)) →
  alone aps (values (kept <$> sets st)) w ↔ alone (approvers st) (map_to_list (sets st)).*2 w.
Proof.
  intros Hs Hall.
  assert (∀ id s x, sets st !! id = Some s → nested_in aps (kept s) x ↔ nested_in (approvers st) s x) as Hin.
  { intros id s x Hl. unfold nested_in. cbn [kept members]. split; intros (m & Hm & Hx); exists m; split; try done;
      [rewrite <-(nested_of_weaken aps)|rewrite (nested_of_weaken aps (approvers st))]; eauto. }
  assert (∀ s, s ∈ values (kept <$> sets st) ↔ ∃ id s', sets st !! id = Some s' ∧ s = kept s') as Hv.
  { intros s. unfold values. rewrite (hash_order_perm _ (map_to_list (kept <$> sets st)).*2), list_elem_of_fmap. split.
    - intros ([id s'] & -> & He%elem_of_map_to_list). rewrite lookup_fmap, fmap_Some in He. naive_solver.
    - intros (id & s' & Hl & ->). exists (id, kept s'). by rewrite elem_of_map_to_list, lookup_fmap, Hl. }
  unfold alone. split.
  - intros Ha s x ([id s'] & -> & Hl%elem_of_map_to_list)%list_elem_of_fmap Hw Hx. cbn in *.
    apply (Ha (kept s')); [apply Hv; eauto|by eapply Hin..].
  - intros Ha s x (id & s' & Hl & ->)%Hv Hw Hx. apply (Ha s' x); [|by eapply Hin..].
    apply list_elem_of_fmap. exists (id, s'). by rewrite elem_of_map_to_list.
Qed.

Lemma insert_members_ok key ms pos rows :
  Z.of_nat (pos + length ms) ≤ i16_max → (∀ p, Z.of_nat pos ≤ p → rows !! (key, p) = None) →
  ∃ rows', insert_members db_up key pos ms rows = Ok rows'
    ∧ ∀ k p v, rows' !! (k, p) = Some v ↔
        rows !! (k, p) = Some v
        ∨ k = key ∧ ∃ i m, p = Z.of_nat (pos + i) ∧ ms !! i = Some m ∧ v = approver_key m.
Proof.
  revert pos rows. induction ms as [|m ms IH]; intros pos rows Hlen Hfree; cbn [insert_members].
  { exists rows. split; [done|]. intros k p v. split; [by left|]. by intros [?|(_ & ? & ? & _ & ? & _)]. }
  cbn [length] in Hlen. rewrite (proj2 (Z.leb_le (Z.of_nat pos) i16_max)) by lia.
  cbn [ensure sql_at db_up mbind result_bind].
  destruct (IH (S pos) (<[(key, Z.of_nat pos) := approver_key m]> rows)) as (rows' & -> & Hrows); [lia| |].
  { intros p Hp. rewrite lookup_insert_ne by (intros [= ?]; lia). apply Hfree. lia. }
  exists rows'. split; [done|]. intros k p v. rewrite Hrows, lookup_insert_Some. split.
  - intros [[[[= <- <-] <-]|[_ Hl]]|(-> & i & x & -> & Hx & ->)]; [|by left|].
    + right. split; [done|]. exists 0%nat, m. rewrite Nat.add_0_r. done.
    + right. split; [done|]. exists (S i), x. rewrite Nat.add_succ_r. done.
  - intros [Hl|(-> & [|i] & x & -> & Hx & ->)].
    + left. right. split; [|done]. intros [= <- <-]. by rewrite Hfree in Hl by lia.
    + left. left. rewrite Nat.add_0_r. cbn in Hx. by injection Hx as ->.
    + right. split; [done|]. exists i, x. rewrite Nat.add_succ_r. done.
Qed.

Lemma insert_set_ok t st fresh now create :
  represents t st → is_ulid (ApproverSetId_ulid fresh) → sets st !! fresh = None → create_storable create →
  forallb text_ok (set_texts (sc_name create) (sc_owner_id create)) = true → shape_ok create → Forall (member_active (approvers st)) (sc_members create) →
  ∃ t', insert_set db_up (new_set fresh now create) t = Ok t'
    ∧ represents t' {| approvers := approvers st; sets := <[fresh := new_set fresh now create]> (sets st) |}.
Proof.
  intros Hr Hu Hf Hc Hx (Ht & Htt & Hlen & Hnd) Hact. specialize (Hc fresh now).
  unfold insert_set. rewrite sql_texts_ok by done. cbn [mbind result_bind].
  change (set_id (new_set fresh now create)) with fresh.
  change (members (new_set fresh now create)) with (sc_members create).
  rewrite (represents_lookup_set _ _ _ Hr Hu), Hf. rewrite bool_decide_eq_true_2 by done.
  cbn [ensure mbind result_bind].
  assert (∀ p, t_members t !! (set_key fresh, p) = None) as Hfree.
  { intros p. apply eq_None_not_Some. intros [v (id & s & i & m & Hs & Hk & _)%(rep_members _ _ Hr)].
    apply set_key_inj in Hk as ->; [congruence|done|by eapply (proj1 (rep_sets _ _ Hr))]. }
  destruct (insert_members_ok (set_key fresh) (sc_members create) 0 (t_members t)) as (rows & -> & Hrows); [|done|].
  { destruct Hc as (_ & Htot & _). cbn in Htot. unfold u8_max in Htot. unfold i16_max. lia. }
  cbn [mbind result_bind mret result_ret]. eexists. split; [done|]. destruct Hr as [Ha Hs Hm [Hok1 Hok2] Hrs Hst].
  split; cbn; [done| | |split; [done|]|done|by apply map_Forall_insert_2].
  - by apply (keyed_insert _ _ set_row set_key_inj _ _ _ (new_set fresh now create)).
  - intros k p v. rewrite Hrows, Hm. split.
    + intros [(id & s & i & m & Hl & Hrest)|(-> & i & m & -> & Hi & ->)].
      * exists id, s, i, m. rewrite lookup_insert_ne by congruence. done.
      * exists fresh, (new_set fresh now create), i, m. rewrite lookup_insert_eq. done.
    + intros (id & s & i & m & [[<- <-]|[Hne Hl]]%lookup_insert_Some & -> & -> & Hi & ->); [right|left; eauto 10].
      split; [done|]. exists i, m. done.
  - apply map_Forall_insert_2; [|done]. do 5 (split; [done|]). intros m Hin. rewrite Forall_forall in Hact.
    destruct (Hact m Hin) as (r & Hl & _). by eexists.
Qed.

Lemma create_refines t st fresh now create :
  represents t st → is_ulid (ApproverSetId_ulid fresh) → sets st !! fresh = None → create_storable create →
  forallb text_ok (set_texts (sc_name create) (sc_owner_id create)) = true →
  ∃ r t' r' st', pg_create_approver_set db_up fresh now create t = Some (r, t')
    ∧ create_approver_set fresh now create st = Some (r', st') ∧ answers_alike r r' ∧ represents t' st'.
Proof.
  intros Hr Hu Hf Hc Hx. destruct (create_approver_set_cases fresh now create st) as (r' & Hmem & Hnew & Hiff).
  unfold pg_create_approver_set. pose proof (validate_set_shape_ok create) as Hshape.
  destruct (validate_set_shape create) as [[]|e] eqn:Hval; cbn [mbind result_bind]; last first.
  { unfold create_approver_set. rewrite Hval. eexists _, _, _, _. do 2 (split; [done|]). split; [by left|done]. }
  pose proof (load_graph_ok t st create Hr Hc) as Hg.
  destruct (resolve_members (approvers st) (sc_members create)) as [ws|e] eqn:Hres; last first.
  { rewrite Hg. unfold create_approver_set. rewrite Hval, Hres. eexists _, _, _, _. do 2 (split; [done|]).
    split; [by left|done]. }
  pose proof Hres as [Hact _]%resolve_members_ok. destruct Hg as (aps & -> & Hsub & Hms & Hss).
  destruct (walk_all_decides (values (kept <$> sets st)) aps (omap (nested_of aps) (sc_members create)))
    as (q & Hwalk & Hq). rewrite Hwalk. cbn [mbind option_bind].
  assert (q = Ok () ↔ ∃ s, r' = Ok s) as Hqr.
  { rewrite Hq, Hiff, Forall_forall. setoid_rewrite (alone_loaded aps st _ Hsub Hss).
    setoid_rewrite list_elem_of_omap. split.
    - intros Ha. split; [by apply Hshape|]. split; [done|]. intros m w Hm Hw. apply Ha. exists m.
      by rewrite (nested_of_weaken _ _ _ Hsub (Hms m Hm)).
    - intros (_ & _ & Ha) w (m & Hm & Hw). apply (Ha m w Hm).
      by rewrite <-(nested_of_weaken _ _ _ Hsub (Hms m Hm)). }
  destruct q as [[]|e]; cbn [mbind result_bind].
  - destruct (proj1 Hqr eq_refl) as [s ->]. specialize (Hnew s eq_refl) as ->.
    destruct (insert_set_ok t st fresh now create) as (t' & -> & Hr'); [done..|by apply Hshape|done|].
    eexists _, _, _, _. split; [done|]. split; [exact Hmem|]. split; [done|]. done.
  - destruct r' as [s|e']; [by discriminate (proj2 Hqr (ex_intro _ s eq_refl))|].
    eexists _, _, _, _. split; [done|]. split; [exact Hmem|]. split; [|done]. right.
    split; [by eapply walk_all_err|]. eapply create_err; [exact Hmem|by eexists..].
Qed.

Lemma add_refused t fresh now create :
  forallb text_ok (add_texts create) = false →
  pg_add_approver db_up fresh now create t = (Err (RegIo ("insert approver: " +:+ nul_text)), t).
Proof. intros Hx. unfold pg_add_approver, sql_texts. cbn [sql_at db_up mbind result_bind]. by rewrite Hx. Qed.

Lemma create_refused t fresh now create :
  forallb text_ok (set_texts (sc_name create) (sc_owner_id create)) = false →
  ∃ e, pg_create_approver_set db_up fresh now create t = Some (Err e, t).
Proof.
  intros Hx. unfold pg_create_approver_set.
  destruct (validate_set_shape create) as [[]|e]; cbn [mbind result_bind]; [|by eexists].
  destruct (load_graph db_up create t) as [[aps sm]|e]; [|by eexists].
  destruct (walk_all_decides (values sm) aps (omap (nested_of aps) (sc_members create))) as ([[]|e] & -> & _);
    cbn [mbind option_bind result_bind]; [|by eexists].
  unfold insert_set, sql_texts. cbn [sql_at db_up mbind result_bind set_name set_owner_id new_set]. rewrite Hx.
  by eexists.
Qed.

(** ** Properties *)

(** C36. The Postgres registry implements the in-memory one: on tables that represent a
    registry, and while no statement fails, a lookup returns the same record or
    error; a set is returned as stored but for a timeout over [i32::MAX]
    ([kept]); a listing has the same rows, oldest first; adding and revoking
    answer alike; creating a set (ids being fresh in both) returns the same set or the same error, where
    only the cycle or depth that the walk over nested wallets reports may differ
    with the order of rows and hash maps; and the tables represent the registry
    afterwards, so that a sequence of operations keeps agreeing.  Texts with a
    zero byte, which Postgres cannot hold, are refused and change nothing. *)
Theorem postgres_registry_refines t st :
  represents t st →
  (∀ id, is_ulid (ApproverId_ulid id) → pg_get_approver db_up id t = Registry.get_approver id st)
  ∧ (∀ id, is_ulid (ApproverSetId_ulid id) →
       pg_get_approver_set db_up id t = (s ← Registry.get_approver_set id st; mret (kept s)))
  ∧ (∀ owner inc, text_ok (OwnerId_as_str owner) = true →
       ∃ l, pg_list_approvers_by_owner db_up owner inc t = Ok l
         ∧ l ≡ₚ list_approvers_by_owner owner inc st ∧ StronglySorted added_before l)
  ∧ (∀ owner, text_ok (OwnerId_as_str owner) = true →
       ∃ l, pg_list_approver_sets db_up owner t = Ok l
         ∧ l ≡ₚ kept <$> list_approver_sets owner st ∧ StronglySorted created_before l)
  ∧ (∀ fresh now create, is_ulid (ApproverId_ulid fresh) → approvers st !! fresh = None →
       identity_ok (ac_identity create) →
       if forallb text_ok (add_texts create) then
         (pg_add_approver db_up fresh now create t).1 = (add_approver fresh now create st).1
         ∧ represents (pg_add_approver db_up fresh now create t).2 (add_approver fresh now create st).2
       else pg_add_approver db_up fresh now create t = (Err (RegIo ("insert approver: " +:+ nul_text)), t))
  ∧ (∀ id, is_ulid (ApproverId_ulid id) →
       (pg_revoke_approver db_up id t).1 = (revoke_approver id st).1
       ∧ represents (pg_revoke_approver db_up id t).2 (revoke_approver id st).2)
  ∧ ∀ fresh now create, is_ulid (ApproverSetId_ulid fresh) → sets st !! fresh = None → create_storable create →
      if forallb text_ok (set_texts (sc_name create) (sc_owner_id create)) then
        ∃ r t' r' st', pg_create_approver_set db_up fresh now create t = Some (r, t')
          ∧ create_approver_set fresh now create st = Some (r', st') ∧ answers_alike r r' ∧ represents t' st'
      else ∃ e, pg_create_approver_set db_up fresh now create t = Some (Err e, t).
Proof.
  intros Hr.
  split; [intros id; by apply get_approver_refines|]. split; [intros id; by apply get_set_refines|].
  split; [intros owner inc; by apply list_approvers_refines|]. split; [intros owner; by apply list_sets_refines|].
  split; [|split; [intros id; by apply revoke_refines|]]; intros fresh now create Hu Hf Hc;
    (destruct (forallb _ _) eqn:Hx; [|by apply add_refused || by apply create_refused]).
  - by apply add_refines.
  - by apply create_refines.
Qed.

(** A quorum timeout over [i32::MAX] seconds is accepted and returned, and stored
    as NULL: the set read back afterwards has no timeout. *)
Theorem long_timeout_lost t st fresh now create s t' v :
  represents t st → is_ulid (ApproverSetId_ulid fresh) → sets st !! fresh = None → create_storable create →
  forallb text_ok (set_texts (sc_name create) (sc_owner_id create)) = true →
  sc_quorum_timeout_secs create = Some v → i32_max < v →
  pg_create_approver_set db_up fresh now create t = Some (Ok s, t') →
  quorum_timeout_secs s = Some v
  ∧ ∃ s', pg_get_approver_set db_up fresh t' = Ok s' ∧ quorum_timeout_secs s' = None.
Proof.
  intros Hr Hu Hf Hc Hx Hv Hbig Hpg.
  destruct (create_refines t st fresh now create Hr Hu Hf Hc Hx) as (r & t1 & r' & st' & Hpg' & Hmem & Halike & Hr').
  rewrite Hpg in Hpg'. injection Hpg' as <- <-. destruct r' as [s1|]; [|done]. cbn in Halike. subst s1.
  destruct (create_approver_set_cases fresh now create st) as (q & Hq & Hnew & _). rewrite Hmem in Hq.
  injection Hq as <- ->. specialize (Hnew s eq_refl) as ->. split; [done|].
  rewrite (get_set_refines _ _ _ Hr' Hu). unfold Registry.get_approver_set. cbn [sets].
  rewrite lookup_insert_eq. eexists. split; [done|]. unfold kept. cbn [quorum_timeout_secs].
  unfold new_set. cbn [quorum_timeout_secs]. rewrite Hv. unfold timeout_to_column. cbn [mbind option_bind].
  by rewrite (proj2 (Z.leb_gt v i32_max)).
Qed.

End registry.

Module PostgresRegistryWitness.
Import Concrete RegistryWitness.

Definition serde_text (_ : Json) : string := "unknown variant".
Definition ulid_msg (_ : string) : string := "invalid length".
Definition duplicate_key : string := "duplicate key value violates unique constraint".
Definition nul_text : string := "invalid byte sequence for encoding UTF8: 0x00".

#[local] Abbreviation pg_create := (pg_create_approver_set serde_text ulid_msg duplicate_key nul_text db_up).

Definition t1 : Tables :=
  (pg_add_approver duplicate_key nul_text db_up (ApproverId_from_ulid 1) 0 (nested 11) tables_new).2.
Definition r1 : Inner := (add_approver (ApproverId_from_ulid 1) 0 (nested 11) registry_new).2.
Lemma t1_represents : represents t1 r1.
Proof. eapply add_refines; try apply _; [apply represents_new|done..]. Qed.

(** A timeout of 2^31 seconds. *)
Definition slow : ApproverSetCreate := {|
  sc_name := "slow"; sc_owner_id := OwnerId_new "o"; sc_members := [ApproverId_from_ulid 1];
  sc_threshold := 1; sc_total := 1; sc_quorum_timeout_secs := Some (2 ^ 31) |}.
Lemma slow_storable : create_storable slow.
Proof. intros fresh now. split; [done|]. split; [done|]. split; [done|]. by constructor. Qed.

Example postgres_registry_refines_witness :
  ∃ r t' r' st', pg_create (ApproverSetId_from_ulid 5) 7 slow t1 = Some (r, t')
    ∧ create_approver_set (ApproverSetId_from_ulid 5) 7 slow r1 = Some (r', st')
    ∧ answers_alike r r' ∧ represents t' st'.
Proof.
  destruct (postgres_registry_refines serde_text ulid_msg duplicate_key nul_text t1 r1 t1_represents)
    as (_ & _ & _ & _ & _ & _ & Hcreate).
  apply (Hcreate (ApproverSetId_from_ulid 5) 7 slow); [done|done|exact slow_storable].
Defined.

Definition slow_set : ApproverSet := new_set (ApproverSetId_from_ulid 5) 7 slow.
Definition t2 : Tables :=
  match pg_create (ApproverSetId_from_ulid 5) 7 slow t1 with Some (_, t) => t | None => t1 end.

Example long_timeout_lost_witness :
  quorum_timeout_secs slow_set = Some (2 ^ 31)
  ∧ ∃ s', pg_get_approver_set ulid_msg db_up (ApproverSetId_from_ulid 5) t2 = Ok s' ∧ quorum_timeout_secs s' = None.
Proof.
  apply (long_timeout_lost serde_text ulid_msg duplicate_key nul_text t1 r1 (ApproverSetId_from_ulid 5) 7 slow slow_set t2 (2 ^ 31));
    [exact t1_represents|done|done|exact slow_storable|done|done|done|vm_compute; reflexivity].
Defined.

End PostgresRegistryWitness.
