(* ===== verification/StorePostgres.v ===== *)
(** * StorePostgres: the approval store on Postgres ([store/postgres.rs])

    The [approvals] table under its primary key.  [record_approval] first looks
    for the approver's row and then inserts; nothing locks the slot in between,
    so the two statements are separate definitions and concurrent submissions
    are interleavings of them ([pg_step]).  An insert is checked against the
    primary key and against the constraint [(request_id, approver_id)]. *)

From S2P Require Import Prelude Text Types External SignedDecision Attestation Approval Registry.
From S2P Require Import WalletService Notifiers ApproverClient RegistryPostgres ApprovalStore.
#[local] Open Scope string_scope.
#[local] Open Scope list_scope.
#[local] Open Scope Z_scope.

(** A row, without its [approval_id]. *)
Record ApprovalRow := {
  prow_request_id : string;
  prow_approver_id : string;
  prow_approver_key : string;
  prow_identity : Json;
  prow_message_hash : bytes;
  prow_decision : Z;
  prow_signature : bytes;
  prow_timestamp : Z;
  prow_received_at : Z;
}.

Abbreviation Approvals := (gmap string ApprovalRow).

Definition decision_byte (d : ApprovalDecision) : Z := match d with Approve => 1 | Reject => 0 end.
Definition decision_from_byte (b : Z) : result StoreError ApprovalDecision :=
  match b with
  | 1 => Ok Approve
  | 0 => Ok Reject
  | other => Err (StoreIo ("unknown decision byte: " +:+ show_dec other))
  end.

Section store.
Context `{UlidCrate, UlidParse, HashOrder}.
(** The texts of a malformed identity, of a malformed identifier, of the violation
    of a unique constraint, and of text with a zero byte. *)
Context (serde_text : Json → string) (ulid_msg : string → string) (violation nul_text : string).

#[local] Abbreviation approval_key ap := (ulid_to_string (ApprovalId_ulid (sa_approval_id ap))).
#[local] Abbreviation request_key r := (ulid_to_string (RequestId_ulid r)).
#[local] Abbreviation approver_key a := (ulid_to_string (ApproverId_ulid a)).

Definition store_sql (db : Db) (label : string) : result StoreError () :=
  match db label 0%nat with
  | Some e => Err (StoreIo (label +:+ ": " +:+ e))
  | None => Ok ()
  end.

Definition parse_approval_id (s : string) : result StoreError ApprovalId :=
  u ← ok_or (ulid_from_string s) (StoreIo ("approval_id parse: " +:+ ulid_msg s)); mret (ApprovalId_from_ulid u).

(** ** [record_approval] *)

Definition same_slot (r a : string) (row : ApprovalRow) : bool :=
  String.eqb (prow_request_id row) r && String.eqb (prow_approver_id row) a.

(** [SELECT approval_id FROM approvals WHERE request_id = $1 AND approver_id = $2]. *)
Definition select_existing (r a : string) (t : Approvals) : option string :=
  fst <$> List.find (λ kr : string * ApprovalRow, same_slot r a kr.2) (hash_order (map_to_list t)).

(** Up to the decision to insert: [None], or the answer. *)
Definition record_check (db : Db) (approval : SignedApproval) (approver_id : ApproverId) (t : Approvals)
    : option (result StoreError RecordOutcome) :=
  match _ ← store_sql db "begin tx"; store_sql db "check duplicate" with
  | Err e => Some (Err e)
  | Ok _ =>
      match select_existing (request_key (sa_request_id approval)) (approver_key approver_id) t with
      | None => None
      | Some prev_s =>
          Some (prev ← parse_approval_id prev_s;
                if bool_decide (prev = sa_approval_id approval) then Ok AlreadyRecorded
                else Err (DuplicateApproval approver_id (sa_request_id approval)))
      end
  end.

Definition approval_row (now : Z) (approval : SignedApproval) (approver_id : ApproverId) : ApprovalRow := {|
  prow_request_id := request_key (sa_request_id approval); prow_approver_id := approver_key approver_id;
  prow_approver_key := identity_key (sa_approver approval); prow_identity := identity_json (sa_approver approval);
  prow_message_hash := sa_message_hash approval; prow_decision := decision_byte (sa_decision approval);
  prow_signature := sa_signature approval; prow_timestamp := sa_timestamp_unix_ms approval;
  prow_received_at := now |}.

(** What the database answers to the insert. *)
Definition insert_fails (db : Db) (approval : SignedApproval) (approver_id : ApproverId) (t : Approvals)
    : option string :=
  match db "insert approval" 0%nat with
  | Some e => Some e
  | None =>
      if negb (forallb text_ok (identity_texts (sa_approver approval))) then Some nul_text
      else if bool_decide (is_Some (t !! approval_key approval))
         || bool_decide (is_Some (select_existing (request_key (sa_request_id approval)) (approver_key approver_id) t))
      then Some violation else None
  end.

Definition insert_error (approval : SignedApproval) (approver_id : ApproverId) (s : string) : StoreError :=
  if str_contains "approvals_request_id_approver_id_key" s || str_contains "duplicate key" s
  then DuplicateApproval approver_id (sa_request_id approval)
  else StoreIo ("insert approval: " +:+ s).

Definition record_insert (db : Db) (now : Z) (approval : SignedApproval) (approver_id : ApproverId) (t : Approvals)
    : result StoreError RecordOutcome * Approvals :=
  match insert_fails db approval approver_id t with
  | Some s => (Err (insert_error approval approver_id s), t)
  | None =>
      match store_sql db "commit approval" with
      | Err e => (Err e, t)
      | Ok _ => (Ok Inserted, <[approval_key approval := approval_row now approval approver_id]> t)
      end
  end.

Definition pg_record_approval (db : Db) (now : Z) (approval : SignedApproval) (approver_id : ApproverId) (t : Approvals)
    : result StoreError RecordOutcome * Approvals :=
  match record_check db approval approver_id t with
  | Some r => (r, t)
  | None => record_insert db now approval approver_id t
  end.

(** ** [list_for_request] *)

Definition row_to_approval (request_id : RequestId) (key : string) (row : ApprovalRow)
    : result StoreError SignedApproval :=
  identity ← ok_or (identity_of_json (prow_identity row))
               (StoreIo ("identity decode: " +:+ serde_text (prow_identity row)));
  _ ← ensure (Nat.eqb (length (prow_message_hash row)) 32)
        (StoreIo ("message_hash must be 32 bytes, got " +:+ show_dec (Z.of_nat (length (prow_message_hash row)))));
  id ← parse_approval_id key;
  _ ← ensure ((0 <=? prow_decision row) && (prow_decision row <=? u8_max))
        (StoreIo ("decision out of u8: " +:+ show_int (prow_decision row)));
  decision ← decision_from_byte (prow_decision row);
  mret {| sa_approval_id := id; sa_approver := identity; sa_request_id := request_id;
          sa_message_hash := prow_message_hash row; sa_decision := decision;
          sa_timestamp_unix_ms := prow_timestamp row; sa_signature := prow_signature row |}.

(** [ORDER BY received_at_unix_ms ASC, approval_id ASC]. *)
Definition received_before (a b : string * ApprovalRow) : Prop :=
  prow_received_at a.2 < prow_received_at b.2
  ∨ prow_received_at a.2 = prow_received_at b.2 ∧ String.leb a.1 b.1 = true.
#[local] Instance received_before_dec a b : base.Decision (received_before a b).
Proof. unfold received_before. apply _. Defined.

Definition rows_for (request_id : RequestId) (t : Approvals) : list (string * ApprovalRow) :=
  merge_sort received_before
    (List.filter (λ kr, String.eqb (prow_request_id kr.2) (request_key request_id)) (hash_order (map_to_list t))).

Definition pg_list_for_request (db : Db) (request_id : RequestId) (t : Approvals)
    : result StoreError (list SignedApproval) :=
  _ ← store_sql db "list approvals";
  map_result (λ kr, row_to_approval request_id kr.1 kr.2) (rows_for request_id t).

(** ** Concurrent submissions *)

(** The table, and the submissions that found no row and have not inserted. *)
Definition PgSys : Type := Approvals * list (SignedApproval * ApproverId).

(** What the types of an approval allow. *)
Definition approval_storable (ap : SignedApproval) (a : ApproverId) : Prop :=
  is_ulid (ApprovalId_ulid (sa_approval_id ap)) ∧ is_ulid (RequestId_ulid (sa_request_id ap))
  ∧ is_ulid (ApproverId_ulid a) ∧ identity_ok (sa_approver ap) ∧ length (sa_message_hash ap) = 32%nat
  ∧ forallb text_ok (identity_texts (sa_approver ap)) = true.

Inductive pg_step : PgSys → PgSys → Prop :=
  | step_check db approval a t pend :
      approval_storable approval a → record_check db approval a t = None →
      pg_step (t, pend) (t, (approval, a) :: pend)
  | step_answered db approval a t pend r :
      record_check db approval a t = Some r → pg_step (t, pend) (t, pend)
  | step_insert db now approval a t p1 p2 r t' :
      record_insert db now approval a t = (r, t') →
      pg_step (t, p1 ++ (approval, a) :: p2) (t', p1 ++ p2).

(** Approval [ap] of approver [a] is on record. *)
Definition on_record (t : Approvals) (r : RequestId) (a : ApproverId) (ap : SignedApproval) : Prop :=
  sa_request_id ap = r ∧ approval_storable ap a ∧ ∃ now, t !! approval_key ap = Some (approval_row now ap a).

(** The approval a reader finds for a slot. *)
Definition pg_recorded (t : Approvals) (r : RequestId) (a : ApproverId) : option SignedApproval :=
  k ← select_existing (request_key r) (approver_key a) t;
  row ← t !! k;
  match row_to_approval r k row with Ok ap => Some ap | Err _ => None end.

(** Every row is that of an approval, and the unique constraint holds. *)
Definition table_ok (t : Approvals) : Prop :=
  (∀ k row, t !! k = Some row → ∃ ap a now, k = approval_key ap ∧ row = approval_row now ap a ∧ approval_storable ap a)
  ∧ ∀ k k' row row', t !! k = Some row → t !! k' = Some row' →
      prow_request_id row = prow_request_id row' → prow_approver_id row = prow_approver_id row' → k = k'.

Definition pg_sys_ok (s : PgSys) : Prop :=
  table_ok s.1 ∧ Forall (λ p, approval_storable p.1 p.2) s.2.

Context `{!UlidLaws, !UlidParseLaws, !HashOrderLaws}.

Lemma same_slot_true r a row : same_slot r a row = true ↔ prow_request_id row = r ∧ prow_approver_id row = a.
Proof. unfold same_slot. by rewrite andb_true_iff, !String.eqb_eq. Qed.

Lemma elem_of_rows (t : Approvals) k row : In (k, row) (hash_order (map_to_list t)) ↔ t !! k = Some row.
Proof. by rewrite <-list_elem_of_In, (hash_order_perm _ (map_to_list t)), elem_of_map_to_list. Qed.

Lemma select_some t r a k :
  table_ok t → select_existing r a t = Some k ↔
  ∃ row, t !! k = Some row ∧ prow_request_id row = r ∧ prow_approver_id row = a.
Proof.
  intros [_ Huniq]. unfold select_existing. rewrite fmap_Some. split.
  - intros ([k' row] & Hf & ->). apply find_some in Hf as [Hin Hs]. exists row.
    by rewrite <-elem_of_rows, <-same_slot_true.
  - intros (row & Hl & Hs). destruct (List.find _ _) as [[k' row']|] eqn:Hf.
    + exists (k', row'). split; [done|]. apply find_some in Hf as [Hin Hs']. cbn in *.
      apply elem_of_rows in Hin. apply same_slot_true in Hs' as [??]. apply (Huniq k k' row row'); naive_solver.
    + apply elem_of_rows in Hl. pose proof (find_none _ _ Hf _ Hl) as Hn. cbn in Hn.
      apply same_slot_true in Hs. congruence.
Qed.

Lemma select_none t r a :
  table_ok t → select_existing r a t = None →
  ∀ k row, t !! k = Some row → prow_request_id row = r → prow_approver_id row = a → False.
Proof. intros Ht Hn k row Hl Hr Ha. assert (select_existing r a t = Some k) by (apply select_some; eauto). congruence. Qed.

Lemma on_record_select t r a ap :
  table_ok t → on_record t r a ap → select_existing (request_key r) (approver_key a) t = Some (approval_key ap).
Proof. intros Ht (<- & _ & now & Hl). apply select_some; [done|]. by exists (approval_row now ap a). Qed.

Definition with_request (r : RequestId) (ap : SignedApproval) : SignedApproval := {|
  sa_approval_id := sa_approval_id ap; sa_approver := sa_approver ap; sa_request_id := r;
  sa_message_hash := sa_message_hash ap; sa_decision := sa_decision ap;
  sa_timestamp_unix_ms := sa_timestamp_unix_ms ap; sa_signature := sa_signature ap |}.

Lemma row_to_approval_any r now ap a :
  approval_storable ap a → row_to_approval r (approval_key ap) (approval_row now ap a) = Ok (with_request r ap).
Proof.
  intros (Hi & Hr & Ha & Hid & Hlen & _). unfold row_to_approval. cbn [prow_identity approval_row].
  rewrite identity_round_trip by done. cbn [ok_or mbind result_bind prow_message_hash approval_row].
  rewrite Hlen. cbn [Nat.eqb ensure mbind result_bind]. unfold parse_approval_id.
  rewrite ulid_parse_to_string by done. cbn. destruct ap as [[i] ? ? ? d ? ?]. by destruct d.
Qed.

Lemma row_to_approval_row now ap a :
  approval_storable ap a → row_to_approval (sa_request_id ap) (approval_key ap) (approval_row now ap a) = Ok ap.
Proof. intros Hs. rewrite row_to_approval_any by done. by destruct ap. Qed.

Lemma row_inj now now' ap ap' a a' :
  approval_storable ap a → approval_storable ap' a' → approval_key ap = approval_key ap' →
  approval_row now ap a = approval_row now' ap' a' → ap = ap' ∧ a = a'.
Proof.
  intros H1' H2' Hk Hrow. pose proof (row_to_approval_row now ap a H1') as Hd.
  pose proof (row_to_approval_row now' ap' a' H2') as Hd'.
  assert (sa_request_id ap = sa_request_id ap') as Hreq.
  { injection Hrow as Hreq _. destruct (sa_request_id ap) eqn:E, (sa_request_id ap') eqn:E'. f_equal.
    destruct H1' as (_ & Hu & _), H2' as (_ & Hu' & _). rewrite E in Hu. rewrite E' in Hu'. by apply ulid_inj. }
  rewrite <-Hk, <-Hrow, <-Hreq, Hd in Hd'. injection Hd' as <-. split; [done|].
  injection Hrow as Ha _. destruct a, a'. cbn in Ha. f_equal.
  destruct H1' as (_ & _ & Hu & _), H2' as (_ & _ & Hu' & _). by apply ulid_inj.
Qed.

Lemma on_record_fun t r a ap ap' : table_ok t → on_record t r a ap → on_record t r a ap' → ap = ap'.
Proof.
  intros Ht Hr Hr'. pose proof (on_record_select _ _ _ _ Ht Hr) as Hk.
  rewrite (on_record_select _ _ _ _ Ht Hr') in Hk. injection Hk as Hk.
  destruct Hr as (_ & Hs & now & Hl), Hr' as (_ & Hs' & now' & Hl'). rewrite Hk, Hl in Hl'. apply (inj Some) in Hl' as Hrow.
  by destruct (row_inj now now' ap ap' a a Hs Hs' (eq_sym Hk) Hrow).
Qed.
(** *** Steps *)

Lemma record_insert_inv db now ap a t r t' :
  record_insert db now ap a t = (r, t') →
  (r = Ok Inserted ∧ t' = <[approval_key ap := approval_row now ap a]> t ∧ t !! approval_key ap = None
   ∧ select_existing (request_key (sa_request_id ap)) (approver_key a) t = None)
  ∨ (r ≠ Ok Inserted ∧ t' = t).
Proof.
  unfold record_insert. destruct (insert_fails db ap a t) as [s|] eqn:Hf.
  { intros [= <- <-]. by right. }
  destruct (store_sql db "commit approval") as [u|e]; intros [= <- <-]; [left|by right].
  unfold insert_fails in Hf. destruct (db _ _); [done|]. destruct (negb _); [done|].
  destruct (bool_decide (is_Some (t !! _))) eqn:H1'; [done|].
  destruct (bool_decide (is_Some (select_existing _ _ t))) eqn:H2'; [done|].
  apply bool_decide_eq_false, eq_None_not_Some in H1'. by apply bool_decide_eq_false, eq_None_not_Some in H2'.
Qed.

Lemma insert_keeps_ok now ap a t :
  table_ok t → approval_storable ap a → t !! approval_key ap = None →
  select_existing (request_key (sa_request_id ap)) (approver_key a) t = None →
  table_ok (<[approval_key ap := approval_row now ap a]> t).
Proof.
  intros Ht Hs Hfree Hnone. pose proof (select_none t _ _ Ht Hnone) as Hno. destruct Ht as [Hrows Huniq]. split.
  - intros k row [[<- <-]|[_ Hl]]%lookup_insert_Some; [|by apply Hrows]. by exists ap, a, now.
  - intros k k' row row' [[<- <-]|[_ Hl]]%lookup_insert_Some [[<- <-]|[_ Hl']]%lookup_insert_Some Hr Ha;
      [done| | |by apply (Huniq k k' row row')].
    + destruct (Hno k' row'); done.
    + destruct (Hno k row); done.
Qed.

Lemma pg_step_ok s s' : pg_step s s' → pg_sys_ok s → pg_sys_ok s' ∧ s.1 ⊆ s'.1.
Proof.
  intros Hstep [Ht Hp].
  destruct Hstep as [db ap a t pend Hs _|db ap a t pend r _|db now ap a t p1 p2 r t' Hi]; cbn in *.
  - split; [split; [done|by constructor]|done].
  - done.
  - apply Forall_app in Hp as [Hp1 [Hs Hp2]%Forall_cons]. cbn in Hs.
    apply record_insert_inv in Hi as [(_ & -> & Hfree & Hnone)|[_ ->]].
    + split; [split; [by apply insert_keeps_ok|by apply Forall_app]|]. by apply insert_subseteq.
    + split; [split; [done|by apply Forall_app]|done].
Qed.

Lemma pg_steps_ok s s' : rtc pg_step s s' → pg_sys_ok s → pg_sys_ok s' ∧ s.1 ⊆ s'.1.
Proof.
  induction 1 as [|a b c Hab _ IH]; intros Hok; [done|]. destruct (pg_step_ok _ _ Hab Hok) as [Hb Hle].
  destruct (IH Hb) as [Hc Hle']. split; [done|]. by trans b.1.
Qed.

Lemma pg_new_ok : pg_sys_ok (∅, []).
Proof. split; [|constructor]. cbn. split; [by intros k row ?%lookup_empty_Some|by intros k k' row row' ?%lookup_empty_Some]. Qed.

Lemma on_record_weaken t t' r a ap : t ⊆ t' → on_record t r a ap → on_record t' r a ap.
Proof. intros Hle (Hr & Hs & now & Hl). split; [done|]. split; [done|]. exists now. by eapply lookup_weaken. Qed.

(** *** Answers *)

Lemma parse_approval_key ap :
  is_ulid (ApprovalId_ulid (sa_approval_id ap)) → parse_approval_id (approval_key ap) = Ok (sa_approval_id ap).
Proof. intros Hu. unfold parse_approval_id. rewrite ulid_parse_to_string by done. cbn. by destruct (sa_approval_id ap). Qed.

Lemma record_on_record t a ap ap' now :
  table_ok t → on_record t (sa_request_id ap') a ap →
  pg_record_approval db_up now ap' a t
  = (if bool_decide (sa_approval_id ap' = sa_approval_id ap) then Ok AlreadyRecorded
     else Err (DuplicateApproval a (sa_request_id ap')), t).
Proof.
  intros Ht Hr. unfold pg_record_approval, record_check. cbn [store_sql db_up mbind result_bind].
  rewrite (on_record_select _ _ _ _ Ht Hr). destruct Hr as (_ & (Hu & _) & _).
  rewrite parse_approval_key by done. cbn [mbind result_bind].
  by rewrite (bool_decide_ext (sa_approval_id ap = sa_approval_id ap') (sa_approval_id ap' = sa_approval_id ap)).
Qed.

(** *** Listings *)

Lemma pg_recorded_row t r a k row ap :
  table_ok t → t !! k = Some row → prow_request_id row = request_key r → prow_approver_id row = approver_key a →
  row_to_approval r k row = Ok ap → pg_recorded t r a = Some ap.
Proof.
  intros Ht Hl Hr Ha Hd. unfold pg_recorded. rewrite (proj2 (select_some t _ _ k Ht)) by eauto. cbn. rewrite Hl. cbn.
  by rewrite Hd.
Qed.

Lemma on_record_recorded t r a ap : table_ok t → on_record t r a ap → pg_recorded t r a = Some ap.
Proof. intros Ht (<- & Hs & now & Hl). eapply pg_recorded_row; try done. by apply row_to_approval_row. Qed.

Lemma recorded_on_record t r a ap :
  table_ok t → is_ulid (RequestId_ulid r) → is_ulid (ApproverId_ulid a) → pg_recorded t r a = Some ap → on_record t r a ap.
Proof.
  intros Ht Hur Hua. unfold pg_recorded. rewrite bind_Some. intros (k & Hk & Hrest).
  apply (select_some t _ _ k Ht) in Hk as (row & Hl & Hr & Ha). rewrite Hl in Hrest. cbn in Hrest.
  destruct (proj1 Ht k row Hl) as (ap' & a' & now & -> & -> & Hs). cbn in Hr, Ha.
  assert (sa_request_id ap' = r) as <-.
  { destruct Hs as (_ & Hu & _). destruct (sa_request_id ap'), r. f_equal. by apply ulid_inj. }
  assert (a' = a) as ->.
  { destruct Hs as (_ & _ & Hu & _). destruct a', a. f_equal. by apply ulid_inj. }
  rewrite row_to_approval_row in Hrest by done. injection Hrest as ->. split; [done|]. split; [done|]. by exists now.
Qed.

Lemma decode_rows t r rows :
  table_ok t → NoDup rows.*1 →
  Forall (λ kr, t !! kr.1 = Some kr.2 ∧ prow_request_id kr.2 = request_key r) rows →
  ∃ ids l, map_result (λ kr, row_to_approval r kr.1 kr.2) rows = Ok l ∧ NoDup ids
    ∧ Forall2 (λ a ap, pg_recorded t r a = Some ap ∧ sa_request_id ap = r) ids l
    ∧ Forall2 (λ kr a, prow_approver_id kr.2 = approver_key a ∧ is_ulid (ApproverId_ulid a)) rows ids.
Proof.
  intros Ht. induction rows as [|[k row] rows IH]; cbn [map_result].
  { intros _ _. exists [], []. repeat split; constructor. }
  rewrite fmap_cons, NoDup_cons. intros [Hni Hnd] [[Hl Hreq] Hall]%Forall_cons. cbn in Hl, Hreq, Hni.
  destruct (IH Hnd Hall) as (ids & l & Hd & Hids & Hrec & Hap).
  destruct (proj1 Ht k row Hl) as (ap & a & now & -> & -> & Hs).
  pose proof (row_to_approval_any r now ap a Hs) as Hap'.
  exists (a :: ids), (with_request r ap :: l). cbn [fst snd]. rewrite Hap'. cbn [mbind result_bind].
  rewrite Hd. split; [done|]. split.
  - constructor; [|done]. intros Hin. apply list_elem_of_lookup_1 in Hin as [i Hi].
    destruct (Forall2_lookup_r _ _ _ _ _ Hap Hi) as ([k' row'] & Hrow & Heq & _). cbn in Heq.
    apply list_elem_of_lookup_2 in Hrow. rewrite Forall_forall in Hall.
    destruct (Hall _ Hrow) as [Hl' Hreq']. cbn in Hl', Hreq'. cbn in Hreq.
    rewrite (proj2 Ht _ _ _ _ Hl Hl') in Hni by (cbn; congruence). apply Hni, list_elem_of_fmap. by exists (k', row').
  - split; constructor; try done; [|by destruct Hs as (_ & _ & Hu & _)].
    split; [|done]. by eapply pg_recorded_row.
Qed.

Lemma elem_of_rows_for t r k row :
  (k, row) ∈ rows_for r t ↔ t !! k = Some row ∧ prow_request_id row = request_key r.
Proof.
  unfold rows_for. rewrite merge_sort_Permutation, list_elem_of_In, filter_In, elem_of_rows. cbn.
  by rewrite String.eqb_eq.
Qed.

Lemma rows_for_nodup t r : NoDup (rows_for r t).*1.
Proof.
  unfold rows_for. rewrite merge_sort_Permutation.
  rewrite (filter_perm _ _ _ (hash_order_perm _ (map_to_list t))).
  eapply sublist_NoDup; [apply (NoDup_fst_map_to_list t)|]. apply fmap_sublist.
  induction (map_to_list t) as [|x l IH]; cbn; [done|]. destruct (String.eqb _ _); by constructor.
Qed.

Lemma pg_list_decodes t r :
  table_ok t →
  ∃ ids l, pg_list_for_request db_up r t = Ok l ∧ NoDup ids
    ∧ Forall2 (λ a ap, pg_recorded t r a = Some ap ∧ sa_request_id ap = r) ids l
    ∧ Forall2 (λ kr a, prow_approver_id kr.2 = approver_key a ∧ is_ulid (ApproverId_ulid a)) (rows_for r t) ids.
Proof.
  intros Ht. apply decode_rows; [done|apply rows_for_nodup|].
  apply Forall_forall. intros [k row]. by rewrite elem_of_rows_for.
Qed.

Lemma pg_list_ok t r :
  table_ok t → is_ulid (RequestId_ulid r) →
  ∃ ids l, pg_list_for_request db_up r t = Ok l ∧ NoDup ids ∧ Forall2 (on_record t r) ids l
    ∧ ∀ a ap, on_record t r a ap → a ∈ ids.
Proof.
  intros Ht Hu. destruct (pg_list_decodes t r Ht) as (ids & l & Hd & Hnd & Hrec & Hap).
  exists ids, l. do 2 (split; [done|]). split.
  - apply Forall2_same_length_lookup_2; [by eapply Forall2_length|]. intros i a ap Ha Hl.
    destruct (Forall2_lookup_lr _ _ _ _ _ _ Hrec Ha Hl) as [Hr _].
    destruct (Forall2_lookup_r _ _ _ _ _ Hap Ha) as (kr & _ & _ & Hua). by apply recorded_on_record.
  - intros a ap (<- & Hs & now & Hl).
    assert ((approval_key ap, approval_row now ap a) ∈ rows_for (sa_request_id ap) t) as Hin by by apply elem_of_rows_for.
    apply list_elem_of_lookup_1 in Hin as [i Hi]. destruct (Forall2_lookup_l _ _ _ _ _ Hap Hi) as (b & Hb & Heq & Hub).
    cbn in Heq. assert (a = b) as ->; [|by eapply list_elem_of_lookup_2].
    destruct a, b. f_equal. destruct Hs as (_ & _ & Hua & _). by apply ulid_inj.
Qed.

(** ** The trait *)

(** At a fixed reading of the clock. *)
Definition postgres_store (now : Z) : ApprovalStore Approvals := {|
  store_record := pg_record_approval db_up now; store_list := pg_list_for_request db_up |}.

#[export] Program Instance postgres_store_laws now : @ApprovalStoreLaws Approvals (postgres_store now) := {|
  good := table_ok; recorded := pg_recorded |}.
Next Obligation.
  intros now t r l Ht Hl. destruct (pg_list_decodes t r Ht) as (ids & l' & Hd & Hnd & Hrec & _).
  change (pg_list_for_request db_up r t = Ok l) in Hl. rewrite Hd in Hl. injection Hl as ->. exists ids. split; [done|]. split.
  - eapply Forall2_impl; [exact Hrec|]. by intros a ap [? _].
  - apply Forall_forall. intros ap Hap. apply list_elem_of_lookup_1 in Hap as [i Hi].
    by destruct (Forall2_lookup_r _ _ _ _ _ Hrec Hi) as (a & _ & _ & ?).
Qed.

(** ** Against the in-memory store *)

Definition store_represents (t : Approvals) (st : MemoryApprovalStore) : Prop :=
  table_ok t ∧ sys_ok (st, [])
  ∧ ∀ r a ap, on_record t r a ap ↔ inner st !! (r, a) = Some (sa_approval_id ap, ap).

Lemma store_represents_new : store_represents ∅ store_new.
Proof.
  split; [apply pg_new_ok|]. split; [apply store_new_ok|]. intros r a ap. split; [|done].
  by intros (_ & _ & now & ?%lookup_empty_Some).
Qed.

Lemma list_as_omap {A B} (f : A → option B) ids l : Forall2 (λ a b, f a = Some b) ids l → l = omap f ids.
Proof. induction 1 as [|a b ids l Hab _ IH]; cbn; [done|]. by rewrite Hab, IH. Qed.

Lemma list_refines t st r :
  store_represents t st → is_ulid (RequestId_ulid r) →
  ∃ l l', pg_list_for_request db_up r t = Ok l ∧ list_for_request r st = Ok l' ∧ l ≡ₚ l'.
Proof.
  intros (Ht & Hst & Hrep) Hu. destruct (pg_list_ok t r Ht Hu) as (ids & l & Hl & Hnd & Hrec & Hall).
  destruct (list_for_request_ok (st, []) r Hst) as (l' & Hl' & Hrec'). cbn in Hl', Hrec'.
  exists l, l'. do 2 (split; [done|]).
  assert (l = omap (λ a, snd <$> inner st !! (r, a)) ids) as ->.
  { apply list_as_omap. eapply Forall2_impl; [exact Hrec|]. intros a ap Hon%Hrep. by rewrite Hon. }
  assert (l' = omap (λ a, snd <$> inner st !! (r, a)) (indexed st r)) as ->.
  { apply list_as_omap. eapply Forall2_impl; [exact Hrec'|]. intros a ap Hin. by rewrite Hin. }
  apply omap_Permutation, NoDup_Permutation; [done| |].
  - destruct Hst as [_ Hst]. by destruct (Hst r) as [[? _]%NoDup_app _].
  - intros a. destruct Hst as [Hslot Hst]. destruct (Hst r) as [_ Hel]. cbn in Hel, Hslot.
    specialize (Hel a). rewrite app_nil_r in Hel. rewrite Hel. split.
    + intros [i Hi]%list_elem_of_lookup_1. destruct (Forall2_lookup_l _ _ _ _ _ Hrec Hi) as (ap & _ & Hon%Hrep). eauto.
    + intros [[i ap] Hin]. destruct (Hslot _ _ _ _ Hin) as [_ <-]. by eapply Hall, Hrep.
Qed.

Lemma on_record_insert t ap a now r b ap' :
  table_ok t → approval_storable ap a → t !! approval_key ap = None →
  on_record (<[approval_key ap := approval_row now ap a]> t) r b ap'
  ↔ (r = sa_request_id ap ∧ b = a ∧ ap' = ap) ∨ on_record t r b ap'.
Proof.
  intros Ht Hs Hfree. split.
  - intros (<- & Hs' & now' & [[Hk Hrow]|[_ Hl]]%lookup_insert_Some).
    + left. by destruct (row_inj now now' ap ap' a b Hs Hs' Hk Hrow) as [<- <-].
    + right. split; [done|]. split; [done|]. by exists now'.
  - intros [(-> & -> & ->)|(<- & Hs' & now' & Hl)].
    + split; [done|]. split; [done|]. exists now. by rewrite lookup_insert_eq.
    + split; [done|]. split; [done|]. exists now'. rewrite lookup_insert_ne; [done|]. intros Heq. congruence.
Qed.

Lemma record_refines t st now ap a :
  store_represents t st → approval_storable ap a →
  (inner st !! (sa_request_id ap, a) = None → t !! approval_key ap = None) →
  (pg_record_approval db_up now ap a t).1 = (record_approval ap a st).1
  ∧ store_represents (pg_record_approval db_up now ap a t).2 (record_approval ap a st).2.
Proof.
  intros (Ht & Hst & Hrep) Hs Hid. destruct (inner st !! (sa_request_id ap, a)) as [[i ap0]|] eqn:Hslot.
  - destruct (proj1 Hst _ _ _ _ Hslot) as [Hreq <-].
    rewrite (record_on_record t a ap0 ap now Ht) by by apply Hrep.
    rewrite (record_approval_slot _ _ _ _ _ Hslot). by split.
  - specialize (Hid eq_refl).
    assert (select_existing (request_key (sa_request_id ap)) (approver_key a) t = None) as Hnone.
    { apply eq_None_not_Some. intros [k Hk]. apply (select_some t _ _ k Ht) in Hk as (row & Hl & Hr & Ha).
      destruct (proj1 Ht k row Hl) as (ap' & a' & now' & -> & -> & Hs').
      assert (on_record t (sa_request_id ap) a ap') as Hon%Hrep; [|congruence].
      cbn in Hr, Ha. assert (a' = a) as ->.
      { destruct Hs as (_ & _ & Hu & _), Hs' as (_ & _ & Hu' & _), a', a. f_equal. by apply ulid_inj. }
      split; [|split; [done|by exists now']].
      destruct Hs as (_ & Hu & _), Hs' as (_ & Hu' & _). destruct (sa_request_id ap'), (sa_request_id ap).
      f_equal. by apply ulid_inj. }
    assert (pg_record_approval db_up now ap a t = (Ok Inserted, <[approval_key ap := approval_row now ap a]> t)) as ->.
    { unfold pg_record_approval, record_check, record_insert, insert_fails.
      destruct Hs as (_ & _ & _ & _ & _ & Htext). rewrite Htext.
      cbn [store_sql db_up mbind result_bind negb]. rewrite Hnone, Hid.
      by rewrite !bool_decide_eq_false_2 by by intros [? ?]. }
    assert (record_approval ap a st = (Ok Inserted, record_index ap a (record_claim ap a st).2)
            ∧ record_claim ap a st = (Ok Inserted, (record_claim ap a st).2)) as [-> Hclaim].
    { unfold record_approval, record_claim. by rewrite Hslot. }
    split; [done|]. split; [by apply insert_keeps_ok|]. split.
    + eapply (step_preserves_ok (_, [(ap, a)])); [by apply (step_index ap a _ [] [])|].
      eapply step_preserves_ok; [by eapply step_claim|done].
    + intros r b ap'. rewrite (on_record_insert t ap a now r b ap' Ht Hs Hid). cbn [snd].
      assert (inner (record_index ap a (record_claim ap a st).2)
              = <[(sa_request_id ap, a) := (sa_approval_id ap, ap)]> (inner st)) as ->.
      { unfold record_claim. by rewrite Hslot. }
      rewrite lookup_insert_Some. split.
      * intros [(-> & -> & ->)|Hon%Hrep]; [by left|]. right. split; [|done]. intros [= <- <-]. congruence.
      * intros [[[= <- <-] [= _ <-]]|[_ Hin]]; [by left|]. right. by apply Hrep.
Qed.

(** ** Properties *)

(** Used by one client at a time, the Postgres store implements the in-memory one:
    on a table that represents a store, a submission whose approval id is not
    already used elsewhere gets the same answer, a listing has the same
    approvals (in the order received), and the table represents the store
    afterwards. *)
Theorem postgres_store_refines t st :
  store_represents t st →
  (∀ r, is_ulid (RequestId_ulid r) →
     ∃ l l', pg_list_for_request db_up r t = Ok l ∧ list_for_request r st = Ok l' ∧ l ≡ₚ l')
  ∧ ∀ now ap a, approval_storable ap a →
      (inner st !! (sa_request_id ap, a) = None → t !! approval_key ap = None) →
      (pg_record_approval db_up now ap a t).1 = (record_approval ap a st).1
      ∧ store_represents (pg_record_approval db_up now ap a t).2 (record_approval ap a st).2.
Proof.
  intros Hr. split; [intros r; by apply list_refines|]. intros now ap a. by apply record_refines.
Qed.

(** However submissions interleave and whichever statements the database fails: an
    approval on record stays on record; a listing has exactly the approvals on
    record for its request, one per approver; and a later submission by an
    approver on record is answered [AlreadyRecorded] under the same approval id
    and refused under another one, without a change. *)
Theorem postgres_replay_protected s s' r a ap ap' now :
  rtc pg_step (∅, []) s → rtc pg_step s s' → on_record s.1 r a ap →
  sa_request_id ap' = r →
  on_record s'.1 r a ap
  ∧ pg_record_approval db_up now ap' a s'.1
    = (if bool_decide (sa_approval_id ap' = sa_approval_id ap) then Ok AlreadyRecorded
       else Err (DuplicateApproval a r), s'.1)
  ∧ ∃ ids l, pg_list_for_request db_up r s'.1 = Ok l ∧ NoDup ids ∧ Forall2 (on_record s'.1 r) ids l
      ∧ ∀ b bp, on_record s'.1 r b bp → b ∈ ids.
Proof.
  intros Hinit Hlater Hon <-. destruct (pg_steps_ok _ _ Hinit pg_new_ok) as [Hok _].
  destruct (pg_steps_ok _ _ Hlater Hok) as [[Ht _] Hle].
  pose proof (on_record_weaken _ _ _ _ _ Hle Hon) as Hon'. split; [done|]. split; [by apply record_on_record|].
  apply pg_list_ok; [done|]. by destruct Hon as (<- & (_ & Hu & _) & _).
Qed.

(** Two concurrent submissions of the same approval: both find no row, the first
    inserts, and the second is refused as a duplicate, although the same
    submission made after the first has returned is answered [AlreadyRecorded]. *)
Theorem concurrent_resubmission_refused t ap a now now' t1 :
  str_contains "duplicate key" violation = true → table_ok t → approval_storable ap a →
  record_check db_up ap a t = None → record_insert db_up now ap a t = (Ok Inserted, t1) →
  record_insert db_up now' ap a t1 = (Err (DuplicateApproval a (sa_request_id ap)), t1)
  ∧ pg_record_approval db_up now' ap a t1 = (Ok AlreadyRecorded, t1).
Proof.
  intros Hv Ht Hs _ Hi. apply record_insert_inv in Hi as [(_ & -> & Hfree & Hnone)|[? _]]; [|done].
  split.
  - unfold record_insert, insert_fails. destruct Hs as (_ & _ & _ & _ & _ & Htext). rewrite Htext.
    cbn [db_up negb]. rewrite lookup_insert_eq.
    rewrite (bool_decide_eq_true_2 (is_Some (Some _))) by done. cbn [orb].
    unfold insert_error. by rewrite Hv, orb_true_r.
  - rewrite (record_on_record _ a ap ap now').
    + by rewrite bool_decide_eq_true_2.
    + by apply insert_keeps_ok.
    + apply on_record_insert; [done..|]. by left.
Qed.

(** An approval id is unique over all requests here: an approver's first approval
    of a request is refused as a duplicate when its id was used for any other
    slot, where the in-memory store, keyed by the slot alone, records it. *)
Theorem approval_id_reuse_refused t st ap a ap' a' now :
  str_contains "duplicate key" violation = true → store_represents t st →
  on_record t (sa_request_id ap) a ap → sa_approval_id ap' = sa_approval_id ap →
  forallb text_ok (identity_texts (sa_approver ap')) = true →
  select_existing (request_key (sa_request_id ap')) (approver_key a') t = None →
  inner st !! (sa_request_id ap', a') = None →
  pg_record_approval db_up now ap' a' t = (Err (DuplicateApproval a' (sa_request_id ap')), t)
  ∧ (record_approval ap' a' st).1 = Ok Inserted.
Proof.
  intros Hv (Ht & _ & _) (_ & _ & now0 & Hl) Hid Htext Hnone Hmem. split.
  - unfold pg_record_approval, record_check, record_insert, insert_fails.
    cbn [store_sql db_up mbind result_bind]. rewrite Htext, Hnone, Hid, Hl. cbn [negb].
    rewrite (bool_decide_eq_true_2 (is_Some (Some _))) by done. cbn [orb].
    unfold insert_error. by rewrite Hv, orb_true_r.
  - unfold record_approval, record_claim. by rewrite Hmem.
Qed.

End store.

Module PostgresStoreWitness.
Import Concrete RegistryWitness ApprovalWitness StoreWitness PostgresRegistryWitness.

Lemma unsigned_storable : approval_storable unsigned alice.
Proof. done. Qed.

#[local] Abbreviation insert0 := (record_insert duplicate_key nul_text db_up 5 unsigned alice).
Definition table1 : Approvals := (insert0 ∅).2.

Lemma table1_reachable : rtc (pg_step ulid_msg duplicate_key nul_text) (∅, []) (table1, []).
Proof.
  eapply rtc_l; [eapply (step_check _ _ _ db_up unsigned alice ∅ []); [exact unsigned_storable|reflexivity]|].
  eapply rtc_l; [|apply rtc_refl].
  eapply (step_insert _ _ _ db_up 5 unsigned alice ∅ [] []). vm_compute. reflexivity.
Qed.

Lemma unsigned_on_record : on_record table1 (RequestId_from_ulid 3) alice unsigned.
Proof. split; [done|]. split; [exact unsigned_storable|]. exists 5. vm_compute. reflexivity. Qed.

Example postgres_replay_protected_witness :
  on_record table1 (RequestId_from_ulid 3) alice unsigned
  ∧ pg_record_approval ulid_msg duplicate_key nul_text db_up 9 unsigned alice table1 = (Ok AlreadyRecorded, table1).
Proof.
  destruct (postgres_replay_protected serde_text ulid_msg duplicate_key nul_text (table1, []) (table1, [])
              (RequestId_from_ulid 3) alice unsigned unsigned 9) as (H1 & H2 & _);
    [exact table1_reachable|apply rtc_refl|exact unsigned_on_record|reflexivity|].
  split; [exact H1|exact H2].
Defined.

Example postgres_store_refines_witness :
  (pg_record_approval ulid_msg duplicate_key nul_text db_up 5 unsigned alice ∅).1 = Ok Inserted
  ∧ store_represents (pg_record_approval ulid_msg duplicate_key nul_text db_up 5 unsigned alice ∅).2 st1.
Proof.
  destruct (postgres_store_refines serde_text ulid_msg duplicate_key nul_text ∅ store_new store_represents_new) as [_ Hrec].
  apply (Hrec 5 unsigned alice); [exact unsigned_storable|reflexivity].
Defined.

Example concurrent_resubmission_refused_witness :
  record_insert duplicate_key nul_text db_up 6 unsigned alice table1
    = (Err (DuplicateApproval alice (RequestId_from_ulid 3)), table1)
  ∧ pg_record_approval ulid_msg duplicate_key nul_text db_up 6 unsigned alice table1 = (Ok AlreadyRecorded, table1).
Proof.
  apply (concurrent_resubmission_refused serde_text ulid_msg duplicate_key nul_text ∅ unsigned alice 5 6 table1);
    [reflexivity|apply pg_new_ok|exact unsigned_storable|reflexivity|vm_compute; reflexivity].
Defined.

Lemma table1_represents : store_represents table1 st1.
Proof.
  exact (proj2 (record_refines serde_text ulid_msg duplicate_key nul_text ∅ store_new 5 unsigned alice store_represents_new
                 unsigned_storable (λ _, eq_refl))).
Qed.

Example approval_id_reuse_refused_witness :
  pg_record_approval ulid_msg duplicate_key nul_text db_up 6 unsigned bob table1
    = (Err (DuplicateApproval bob (RequestId_from_ulid 3)), table1)
  ∧ (record_approval unsigned bob st1).1 = Ok Inserted.
Proof.
  apply (approval_id_reuse_refused ulid_msg duplicate_key nul_text table1 st1 unsigned alice unsigned bob 6);
    [reflexivity|exact table1_represents|exact unsigned_on_record|reflexivity|vm_compute; reflexivity|vm_compute; reflexivity|vm_compute; reflexivity].
Defined.

End PostgresStoreWitness.
