(* ===== verification/Observability.v ===== *)
(** * Observability: metrics and their set-up ([observability.rs], and the
    measurements in [service.rs])

    [create_wallet] and [sign] with the samples they record, in order, next to
    the state of the service.  A histogram's value, a reading of the clock, is
    left out of its sample.  [init] acts on the two process-wide slots it fills,
    the tracing subscriber and the metrics recorder. *)

From S2P Require Import Prelude Text Types External PolicyTypes StaticPolicy PolicySpec SignedDecision Rlp Signers.
From S2P Require Import Attestation HybridVerifier MockEnclave AuditLog Approval Registry ApprovalStore ShareStore Orchestrating WalletService WalletServiceProps.
#[local] Open Scope string_scope.
#[local] Open Scope list_scope.
#[local] Open Scope Z_scope.

(** ** Metrics *)

Inductive SignResult := SignSuccess | SignDenied | SignFailed.

Definition sign_result_str (r : SignResult) : string :=
  match r with SignSuccess => "success" | SignDenied => "denied" | SignFailed => "failed" end.

(** A metric's name and its labels. *)
Record Sample := { metric : string; labels : list (string * string) }.

Definition record_sign_outcome (scheme : string) (r : SignResult) : Sample := {|
  metric := "qfc_server_wallet_signs_total"; labels := [("scheme", scheme); ("result", sign_result_str r)] |}.
Definition record_wallet_created (scheme : string) : Sample := {|
  metric := "qfc_server_wallet_wallets_created_total"; labels := [("scheme", scheme)] |}.
Definition record_audit_event (kind : string) : Sample := {|
  metric := "qfc_server_wallet_audit_events_total"; labels := [("kind", kind)] |}.
Definition record_sign_duration (scheme : string) : Sample := {|
  metric := "qfc_server_wallet_sign_duration_seconds"; labels := [("scheme", scheme)] |}.
Definition record_policy_evaluation : Sample := {|
  metric := "qfc_server_wallet_policy_evaluation_seconds"; labels := [] |}.
Definition record_quorum_collect : Sample := {|
  metric := "qfc_server_wallet_quorum_collect_seconds"; labels := [] |}.

Definition scheme_label (s : SigningScheme) : string :=
  match s with
  | Ed25519 => "ed25519" | Secp256k1 => "secp256k1" | Secp256k1Recoverable => "secp256k1_recoverable"
  | MlDsa44 => "ml_dsa_44" | MlDsa65 => "ml_dsa_65" | MlDsa87 => "ml_dsa_87"
  end.

(** The described metrics. *)
Definition metric_descriptions : list string :=
  ["qfc_server_wallet_signs_total"; "qfc_server_wallet_wallets_created_total";
   "qfc_server_wallet_audit_events_total"; "qfc_server_wallet_sign_duration_seconds";
   "qfc_server_wallet_policy_evaluation_seconds"; "qfc_server_wallet_quorum_collect_seconds"].

(** ** The service, measured *)

Definition record {W} (s : Sample) : Svc (W * list Sample) () := λ '(w, l), Returns (Ok (), (w, l ++ [s])).
Definition unmeasured {W A} (m : Svc W A) : Svc (W * list Sample) A := λ '(w, l),
  match m w with
  | Panics why => Panics why
  | Returns (r, w') => Returns (r, (w', l))
  end.

(** What a measured computation does to the service. *)
Definition erase {W A} (m : Svc (W * list Sample) A) : Svc W A := λ w,
  match m (w, []) with
  | Panics why => Panics why
  | Returns (r, (w', _)) => Returns (r, w')
  end.

(** [m] does to the service what [n] does, whatever was recorded before. *)
Definition measures {W A} (m : Svc (W * list Sample) A) (n : Svc W A) : Prop := ∀ w l,
  match m (w, l) with
  | Panics why => n w = Panics why
  | Returns (r, (w', l')) => n w = Returns (r, w') ∧ l `prefix_of` l'
  end.

Create HintDb measured.

Lemma measures_unmeasured {W A} (m : Svc W A) : measures (unmeasured m) m.
Proof. intros w l. unfold unmeasured. by destruct (m w) as [[r w']|why]. Qed.
Lemma measures_ret {W A} (a : A) : measures (mret a) (mret a : Svc W A).
Proof. by intros w l. Qed.
Lemma measures_fail {W A} e : measures (svc_fail e) (svc_fail e : Svc W A).
Proof. by intros w l. Qed.
Lemma measures_bind {W A B} (m : Svc (W * list Sample) A) n (f : A → Svc (W * list Sample) B) g :
  measures m n → (∀ a, measures (f a) (g a)) → measures (m ≫= f) (n ≫= g).
Proof.
  intros Hm Hf w l. specialize (Hm w l). unfold mbind, svc_bind. destruct (m (w, l)) as [[[a|e] [w1 l1]]|why].
  - destruct Hm as [-> Hl]. specialize (Hf a w1 l1). destruct (f a (w1, l1)) as [[r [w2 l2]]|]; [|done].
    destruct Hf as [-> Hl2]. split; [done|]. by trans l1.
  - by destruct Hm as [-> Hl].
  - by rewrite Hm.
Qed.
Lemma measures_record {W B} s (f : () → Svc (W * list Sample) B) n :
  measures (f ()) n → measures (record s ≫= f) n.
Proof.
  intros Hf w l. specialize (Hf w (l ++ [s])). unfold mbind, svc_bind, record.
  destruct (f () _) as [[r [w1 l1]]|]; [|done]. destruct Hf as [-> Hl]. split; [done|].
  trans (l ++ [s]); [by apply prefix_app_r|done].
Qed.
#[export] Hint Resolve measures_unmeasured measures_ret measures_fail measures_bind measures_record : measured.

Section measured.
Context `{UlidCrate, JsonCrate, DigestCrate, Ed25519Crate, K256Crate, MlDsaCrate, RlpCrate}.
Context {P Sh A AS E : Type} `{Policy P, ShareStore Sh, AuditSink A, ApprovalStore AS, Enclave E}.
Variable deny_text : DenyReason → string.
Variable registry_text : RegistryError → string.
Variable enclave_text : EnclaveError → string.
Variable signer_text : PolicyServiceSignerError → string.
Variable overflow_text : string.

#[local] Abbreviation W := (@World P Sh A AS).
#[local] Abbreviation MW := (W * list Sample)%type.
#[local] Abbreviation Svc_ := (@WalletService.WalletService E).

Definition measured_create_wallet (self : Svc_) (env : Draws) (config : WalletConfig) (owner_actor : Actor)
    : Svc MW WalletRecord :=
  rec ← unmeasured (create_wallet self env config owner_actor);
  _ ← record (record_wallet_created (scheme_label (cfg_scheme config)));
  mret rec.

(** [record_sign_outcome(scheme, r); record_sign_duration(scheme, ..)]. *)
Definition measure_outcome (scheme : string) (r : SignResult) : Svc MW () :=
  _ ← record (record_sign_outcome scheme r);
  record (record_sign_duration scheme).

(** The [RequireQuorum] arm. *)
Definition measured_quorum (self : Svc_) (scheme : string) (wallet_id : WalletId) (request_id : RequestId)
    (message_hash : bytes) (threshold : Z) (approver_set : ApproverSetId) : Svc MW () :=
  set ← unmeasured ((λ w, Returns (Ok (result_ok (get_approver_set approver_set (w_registry w))), w))
        : Svc W (option ApproverSet));
  identities ← unmeasured (resolve_identities registry_text set);
  _ ← unmeasured (svc_of (map_err SvcQuorum (q_request (svc_quorum self) {|
        ar_request_id := request_id; ar_message_hash := message_hash;
        ar_approver_set := identities; ar_threshold := threshold |})));
  _ ← unmeasured (emit (draft_for ActorSystem QuorumNotified request_id wallet_id
              (JObject [("approver_set", JString (ulid_to_string (ApproverSetId_ulid approver_set)));
                        ("threshold", JNumber threshold)])));
  let collect_timeout := match set ≫= quorum_timeout_secs with
                         | Some s => s * 1000000000
                         | None => svc_quorum_timeout self
                         end in
  let collect_result := q_collect (svc_quorum self) request_id threshold collect_timeout in
  _ ← record record_quorum_collect;
  approvals ← match collect_result with
    | Ok a => mret a
    | Err (Timeout d) =>
        _ ← unmeasured (emit (draft_for ActorSystem QuorumTimedOut request_id wallet_id
                    (JObject [("timeout_ms", JNumber (d / 1000000))])));
        _ ← measure_outcome scheme SignDenied;
        svc_fail (SvcQuorum (Timeout d))
    | Err e => svc_fail (SvcQuorum e)
    end;
  _ ← unmeasured (svc_iter (λ a, emit (approval_audit wallet_id request_id a)) approvals);
  _ ← match find (λ a, bool_decide (sa_decision a = Reject)) approvals with
      | Some reject =>
          _ ← measure_outcome scheme SignDenied;
          svc_fail (PolicyDenied ("quorum rejected by " +:+ identity_key (sa_approver reject)))
      | None => mret ()
      end;
  unmeasured (emit (draft_for ActorSystem QuorumThresholdReached request_id wallet_id
          (JObject [("collected", JNumber (Z.of_nat (length approvals))); ("threshold", JNumber threshold)]))).

Definition measured_decided (self : Svc_) (env : Draws) (wallet : WalletRecord)
    (wallet_id : WalletId) (request_id : RequestId) (payload : SigningPayload)
    (hd_path : option HdPath.HdPath) (context : SigningContext) (hash_alg : HashAlg)
    (decision : PolicyDecision) : Svc MW EnclaveSignResponse :=
  let message := canonical_message_bytes payload in
  let scheme := scheme_label (cfg_scheme (wr_config wallet)) in
  let audit actor kind details := unmeasured (emit (draft_for actor kind request_id wallet_id details)) in
  _ ← match decision with
      | Deny _ _ reason _ =>
          _ ← measure_outcome scheme SignDenied;
          svc_fail (PolicyDenied (deny_text reason))
      | RequireQuorum _ _ threshold _ approver_set _ =>
          measured_quorum self scheme wallet_id request_id (message_hash_for message) threshold approver_set
      | Allow _ _ _ => mret ()
      end;
  signed ← unmeasured (sign_policy_decision signer_text overflow_text self env wallet_id request_id decision);
  stored ← unmeasured (fetch_shares wallet (cfg_threshold (wr_config wallet)));
  _ ← audit ActorSystem SigningAttempted (JObject []);
  resp ← unmeasured (call_enclave self {|
    esr_request_id := request_id; esr_wallet_id := wallet_id; esr_shares := stored_share <$> stored;
    esr_scheme := cfg_scheme (wr_config wallet); esr_hd_path := hd_path; esr_message := message;
    esr_hash_alg := hash_alg; esr_context := context; esr_policy_decision := signed;
    esr_approvals := []; esr_wallet_ceilings := Some (ceilings_of wallet_id (wr_config wallet));
    esr_policy_signing_payload := Some payload |});
  match resp with
  | Ok r =>
      _ ← audit ActorEnclave SigningSucceeded
            (JObject [("signature_hash_hex", JString (hex_encode (sha256 (resp_signature r))))]);
      _ ← measure_outcome scheme SignSuccess;
      mret r
  | Err e =>
      _ ← audit ActorEnclave SigningFailed (JObject [("error", JString (enclave_text e))]);
      _ ← measure_outcome scheme SignFailed;
      svc_fail (SvcEnclave e)
  end.

Definition measured_sign (self : Svc_) (env : Draws) (wallet_id : WalletId) (payload : SigningPayload)
    (requester : Requester) (hd_path : option HdPath.HdPath) (context : SigningContext)
    (hash_alg : HashAlg) : Svc MW EnclaveSignResponse :=
  wallet ← unmeasured (get_wallet wallet_id);
  if bool_decide (wr_status wallet = WalletStatusRevoked) then
    _ ← record (record_sign_outcome (scheme_label (cfg_scheme (wr_config wallet))) SignDenied);
    svc_fail (WalletNotFound wallet_id)
  else
    let request_id := fresh_request env in
    let message_hash := message_hash_for (canonical_message_bytes payload) in
    _ ← unmeasured (emit (draft_for (requester_to_actor requester) SigningRequested request_id wallet_id
                (JObject [("hd_path", from_option (λ p, JString (HdPath.to_string p)) JNull hd_path);
                          ("message_hash_hex", JString (hex_encode message_hash))])));
    decision ← unmeasured (evaluate_policy env {|
      request_id := request_id; wallet_id := wallet_id; requester := requester; payload := payload;
      hd_path := hd_path; received_at_unix_ms := now_ms env |});
    _ ← record record_policy_evaluation;
    _ ← unmeasured (emit (draft_for ActorSystem SigningEvaluated request_id wallet_id
                (JObject [("decision", json_value (decision_json decision))])));
    measured_decided self env wallet wallet_id request_id payload hd_path context hash_alg decision.
(** ** Measuring changes nothing *)

Lemma measure_outcome_then {B} scheme r (f : () → Svc MW B) n :
  measures (f ()) n → measures (measure_outcome scheme r ≫= f) n.
Proof.
  intros Hf w l. unfold measure_outcome, mbind, svc_bind, record.
  specialize (Hf w ((l ++ [record_sign_outcome scheme r]) ++ [record_sign_duration scheme])).
  destruct (f () _) as [[q [w1 l1]]|]; [|done]. destruct Hf as [-> Hl]. split; [done|].
  rewrite <-app_assoc in Hl. eapply prefix_app_l. exact Hl.
Qed.
#[local] Hint Resolve measure_outcome_then : measured.

Ltac measures_step :=
  match goal with
  | |- measures (record _ ≫= _) _ => apply measures_record
  | |- measures (measure_outcome _ _ ≫= _) _ => apply measure_outcome_then
  | |- measures (_ ≫= _) (_ ≫= _) => apply measures_bind; [|intros ?]
  | |- measures (match ?x with _ => _ end) _ => destruct x
  | |- _ => solve [eauto with measured nocore]
  end.

Lemma measured_quorum_erases self scheme wallet_id request_id mh threshold set :
  measures (measured_quorum self scheme wallet_id request_id mh threshold set)
    (run_quorum registry_text self wallet_id request_id mh threshold set).
Proof. unfold measured_quorum, run_quorum. repeat measures_step. Qed.

Lemma measured_decided_erases self env wallet wallet_id request_id payload hd_path context hash_alg decision :
  measures (measured_decided self env wallet wallet_id request_id payload hd_path context hash_alg decision)
    (sign_decided deny_text registry_text enclave_text signer_text overflow_text self env wallet wallet_id request_id
       payload hd_path context hash_alg decision).
Proof.
  pose proof measured_quorum_erases. unfold measured_decided, sign_decided. repeat measures_step.
Qed.

Lemma measured_sign_erases self env wallet_id payload requester hd_path context hash_alg :
  measures (measured_sign self env wallet_id payload requester hd_path context hash_alg)
    (sign deny_text registry_text enclave_text signer_text overflow_text self env wallet_id payload requester hd_path
       context hash_alg).
Proof.
  pose proof measured_decided_erases. unfold measured_sign, sign. repeat measures_step.
Qed.

Lemma measured_create_erases self env config owner :
  measures (measured_create_wallet self env config owner) (create_wallet self env config owner).
Proof.
  intros w l. unfold measured_create_wallet, unmeasured, record, mbind, svc_bind, mret, svc_ret.
  destruct (create_wallet self env config owner w) as [[[rec|e] w1]|why]; [|done..]. split; [done|]. by apply prefix_app_r.
Qed.

(** ** What is counted *)

(** The samples of [qfc_server_wallet_signs_total], as the value of their label
    [result]. *)
Definition outcomes (l : list Sample) : list string :=
  omap (λ s, if String.eqb (metric s) "qfc_server_wallet_signs_total" then snd <$> last (labels s) else None) l.

(** The outcome a result is counted under.  A revoked wallet and an unknown one
    give the same error, and a timeout can come from the notification. *)
Definition counted {B} (r : result ServiceError B) (o : list string) : Prop :=
  match r with
  | Ok _ => o = ["success"]
  | Err (PolicyDenied _) => o = ["denied"]
  | Err (SvcEnclave _) => o = ["failed"]
  | Err (WalletNotFound _) | Err (SvcQuorum (Timeout _)) => o = [] ∨ o = ["denied"]
  | Err _ => o = []
  end.

(** Errors that may leave the request uncounted. *)
Definition quiet (e : ServiceError) : Prop :=
  match e with PolicyDenied _ | SvcEnclave _ => False | _ => True end.

(** Of a computation that ends with [r], [Q r] holds of the outcomes it recorded. *)
Definition records {B} (m : Svc MW B) (Q : result ServiceError B → list string → Prop) : Prop :=
  ∀ w l r w' l', m (w, l) = Returns (r, (w', l')) → ∃ o, l' = l ++ o ∧ Q r (outcomes o).

(** [m] is a step that records no outcome and fails only with quiet errors. *)
Definition quiet_step {B} (m : Svc W B) : Prop := ∀ w e w', m w = Returns (Err e, w') → quiet e.

Lemma quiet_counted {B} (e : ServiceError) : quiet e → counted (Err e : result ServiceError B) [].
Proof. destruct e as [| |[]| | | | | |]; cbn; intros; tauto. Qed.

Lemma records_step {B C} (m : Svc W B) (f : B → Svc MW C) Q :
  (∀ e, quiet e → Q (Err e) []) → quiet_step m → (∀ a, records (f a) Q) → records (unmeasured m ≫= f) Q.
Proof.
  intros HQ Hm Hf w l r w' l'. unfold unmeasured, mbind, svc_bind.
  destruct (m w) as [[[a|e] w1]|] eqn:Hw; [by apply Hf| |done].
  intros [= <- <- <-]. exists []. rewrite app_nil_r. split; [done|]. eapply HQ, Hm, Hw.
Qed.

Lemma records_sample {C} s (f : () → Svc MW C) Q :
  metric s ≠ "qfc_server_wallet_signs_total" → records (f ()) Q → records (record s ≫= f) Q.
Proof.
  intros Hs Hf w l r w' l'. unfold record, mbind, svc_bind. intros (o & -> & Ho)%Hf. exists (s :: o).
  rewrite <-app_assoc. split; [done|]. cbn. by rewrite (proj2 (String.eqb_neq _ _) Hs).
Qed.

Lemma records_outcome {C} scheme q (f : () → Svc MW C) Q :
  records (f ()) (λ r o, Q r (sign_result_str q :: o)) → records (measure_outcome scheme q ≫= f) Q.
Proof.
  intros Hf w l r w' l'. unfold measure_outcome, record, mbind, svc_bind. intros (o & -> & Ho)%Hf.
  eexists (_ :: _ :: o). rewrite <-!app_assoc. split; [done|]. exact Ho.
Qed.

Lemma records_fail {C} e Q : Q (Err e) [] → records (svc_fail e : Svc MW C) Q.
Proof. intros HQ w l r w' l' [= <- <- <-]. exists []. by rewrite app_nil_r. Qed.
Lemma records_ret {C} (a : C) Q : Q (Ok a) [] → records (mret a : Svc MW C) Q.
Proof. intros HQ w l r w' l' [= <- <- <-]. exists []. by rewrite app_nil_r. Qed.

(** A part that counts its own failures, followed by the rest. *)
Definition counted_unless_ok {B} (r : result ServiceError B) (o : list string) : Prop :=
  match r with Ok _ => o = [] | Err e => counted (Err e : result ServiceError B) o end.

Lemma records_part {B C} (m : Svc MW B) (f : B → Svc MW C) Q :
  (∀ e o, counted (Err e : result ServiceError B) o → Q (Err e) o) →
  records m counted_unless_ok → (∀ a, records (f a) Q) → records (m ≫= f) Q.
Proof.
  intros HQ Hm Hf w l r w' l'. unfold mbind, svc_bind.
  destruct (m (w, l)) as [[[a|e] [w1 l1]]|] eqn:Hw; [| |done].
  - destruct (Hm _ _ _ _ _ Hw) as (o & -> & Ho). intros (o' & -> & Ho')%Hf. exists (o ++ o').
    rewrite app_assoc. split; [done|]. unfold outcomes in *. rewrite omap_app, Ho. done.
  - intros [= <- <- <-]. destruct (Hm _ _ _ _ _ Hw) as (o & -> & Ho). exists o. split; [done|]. by apply HQ.
Qed.

Lemma records_last {B} (m : Svc W B) Q :
  (∀ e, quiet e → Q (Err e) []) → (∀ a, Q (Ok a) []) → quiet_step m → records (unmeasured m) Q.
Proof.
  intros HQ HQ' Hm w l r w' l'. unfold unmeasured. destruct (m w) as [[[a|e] w1]|] eqn:Hw; [| |done];
    intros [= <- <- <-]; exists []; rewrite app_nil_r; (split; [done|]); [apply HQ'|eapply HQ, Hm, Hw].
Qed.

(** *** Steps of the service *)

Lemma emit_quiet d : quiet_step (emit d : Svc W ()).
Proof. intros w e w'. unfold emit. destruct (sink_emit d (w_audit w)) as [[]]; by intros [= <- <-]. Qed.
Lemma get_wallet_quiet id : quiet_step (get_wallet id : Svc W _).
Proof. intros w e w'. unfold get_wallet. destruct (w_wallets w !! id); by intros [= <- <-]. Qed.
Lemma evaluate_quiet env req : quiet_step (evaluate_policy env req : Svc W _).
Proof. intros w e w'. unfold evaluate_policy. destruct (policy_evaluate _ _ _ _) as [[]]; by intros [= <- <-]. Qed.
Lemma iter_quiet {B} (f : B → Svc W ()) l : (∀ b, quiet_step (f b)) → quiet_step (svc_iter f l).
Proof.
  intros Hf. induction l as [|b l IH]; intros w e w'; cbn [svc_iter]; [done|]. unfold mbind, svc_bind.
  destruct (f b w) as [[[u|e'] w1]|] eqn:Hb; [apply IH| |done]. intros [= <- <-]. by eapply Hf.
Qed.
Lemma fetch_quiet wallet t : quiet_step (fetch_shares wallet t : Svc W _).
Proof.
  intros w e w'. unfold fetch_shares. destruct (share_list _ _) as [ids|]; [|by intros [= <- <-]].
  destruct (_ <? _); [by intros [= <- <-]|]. intros [= Hr <-].
  induction (take (Z.to_nat t) ids) as [|i rest IH]; cbn [map_result] in Hr; [done|].
  destruct (share_get i (w_shares w)); cbn in Hr; [|by injection Hr as <-].
  destruct (map_result _ rest); cbn in Hr; [done|]. injection Hr as ->. by apply IH.
Qed.
Lemma resolve_quiet set : quiet_step (resolve_identities registry_text set : Svc W _).
Proof.
  intros w e w'. unfold resolve_identities. destruct set as [s|]; [|done]. intros [= Hr <-].
  induction (members s) as [|m ms IH]; cbn [map_result] in Hr; [done|].
  destruct (Registry.get_approver m (w_registry w)); cbn in Hr; [|by injection Hr as <-].
  destruct (map_result _ ms); cbn in Hr; [done|]. injection Hr as ->. by apply IH.
Qed.
Lemma policy_signed_quiet (self : Svc_) env w r d :
  quiet_step (sign_policy_decision signer_text overflow_text self env w r d : Svc W _).
Proof.
  intros v e v'. unfold sign_policy_decision. destruct (policy_service_signer self); [|done].
  unfold mbind, svc_bind, svc_of. destruct (sign_decision _ _ _ _ _ _ _) as [b|]; cbn; [|by intros [= <- <-]].
  match goal with |- context [emit ?d v] => pose proof (emit_quiet d v) as He; destruct (emit d v) as [[[]]|] end;
    [done| |done]. intros [= <- <-]. by eapply He.
Qed.
Lemma enclave_quiet (self : Svc_) req : quiet_step (call_enclave self req : Svc W _).
Proof. intros w e w'. unfold call_enclave. by destruct (enclave_sign _ _). Qed.
Lemma pure_quiet {B} (f : W → B) : quiet_step ((λ w, Returns (Ok (f w), w)) : Svc W B).
Proof. by intros w e w'. Qed.
Lemma request_quiet {B} (r : result QuorumError B) : quiet_step (svc_of (map_err SvcQuorum r) : Svc W B).
Proof. intros w e w'. unfold svc_of. destruct r; by intros [= <- <-]. Qed.
#[local] Hint Resolve emit_quiet get_wallet_quiet evaluate_quiet iter_quiet fetch_quiet resolve_quiet
  policy_signed_quiet enclave_quiet pure_quiet request_quiet : measured.

Ltac records_next :=
  match goal with
  | |- records (unmeasured _ ≫= _) _ =>
      apply records_step; [intros ? ?; by apply quiet_counted|eauto with measured nocore|intros ?]
  | |- records (measure_outcome _ _ ≫= _) _ => apply records_outcome
  | |- records (record _ ≫= _) _ => apply records_sample; [done|]
  | |- records (unmeasured _) _ =>
      apply records_last; [intros ? ?; by apply quiet_counted|done|eauto with measured nocore]
  | |- records (svc_fail _) _ => apply records_fail; cbn; tauto
  | |- records (mret _) _ => apply records_ret; cbn; tauto
  | |- records (match ?x with _ => _ end) _ => destruct x
  end.

Lemma measured_quorum_records self scheme wallet_id request_id mh threshold set :
  records (measured_quorum self scheme wallet_id request_id mh threshold set) counted_unless_ok.
Proof.
  unfold measured_quorum. do 5 records_next. cbv zeta.
  apply records_part; [by intros [| |[]| | | | | |] ?|by repeat records_next|intros approvals]. records_next.
  apply records_part; [by intros [| |[]| | | | | |] ?|by repeat records_next|intros ?]. records_next.
Qed.

Lemma measured_decided_records self env wallet wallet_id request_id payload hd_path context hash_alg decision :
  records (measured_decided self env wallet wallet_id request_id payload hd_path context hash_alg decision) counted.
Proof.
  pose proof measured_quorum_records as Hq. unfold measured_decided. cbv zeta.
  apply records_part; [by intros [| |[]| | | | | |] ?|destruct decision; first [by repeat records_next|exact (Hq _ _ _ _ _ _ _)]|].
  intros ?. by repeat records_next.
Qed.

(** ** Properties *)

(** C33. The metrics tell the truth about [sign]: recording them changes neither its
    result nor its effects; a request is counted at most once; a signature
    returned counts as a success, a policy denial or quorum rejection as denied,
    an enclave error as failed; and a request that ends in a share-store, share
    count, audit, policy-engine or signer error is not counted at all. *)
Theorem sign_outcome_counted self env wallet_id payload requester hd_path context hash_alg w l r w' l' :
  measured_sign self env wallet_id payload requester hd_path context hash_alg (w, l) = Returns (r, (w', l')) →
  sign deny_text registry_text enclave_text signer_text overflow_text self env wallet_id payload requester hd_path
    context hash_alg w = Returns (r, w')
  ∧ ∃ o, l' = l ++ o ∧ counted r (outcomes o).
Proof.
  intros Hm. split.
  - pose proof (measured_sign_erases self env wallet_id payload requester hd_path context hash_alg w l) as He.
    rewrite Hm in He. by destruct He.
  - revert w l r w' l' Hm. change (records (measured_sign self env wallet_id payload requester hd_path context hash_alg) counted).
    pose proof measured_decided_records as Hd. unfold measured_sign. records_next. destruct (bool_decide _).
    + intros w l r w' l'. unfold record, svc_fail, mbind, svc_bind. intros [= <- <- <-].
      eexists. split; [done|]. by right.
    + cbv zeta. do 4 records_next. apply Hd.
Qed.
End measured.

(** ** Set-up *)

Definition is_ok {E A} (r : result E A) : bool := match r with Ok _ => true | Err _ => false end.

Record ObservabilityConfig := {
  service_name : string;
  otlp_endpoint : option string;
  prometheus_listen_addr : option string;
  log_filter : string;
  json_logs : bool;
}.

Definition ObservabilityConfig_default : ObservabilityConfig := {|
  service_name := "qfc-server-wallet"; otlp_endpoint := None; prometheus_listen_addr := None;
  log_filter := "info"; json_logs := false |}.

Inductive ObservabilityError :=
  InvalidFilter (why : string) | Otlp (why : string) | Prometheus (why : string) | Subscribed (why : string).

(** [SdkTracerProvider], by the endpoint and the resource it was built with. *)
Record TracerProvider := { exporter_endpoint : string; resource_service_name : string }.

(** The subscriber: its filter, its OpenTelemetry layer, and how it prints. *)
Record Subscriber := { sub_filter : string; sub_otel : option TracerProvider; sub_json : bool }.

(** The process-wide state: the two slots, and the listeners and descriptions
    of the recorder. *)
Record Process := {
  subscriber : option Subscriber;
  recorder : option (option string);
  exporters : list string;
  described : list string;
}.

(** The crates behind [init]: [EnvFilter], the variable [RUST_LOG], the OTLP
    exporter, [try_init] of a subscriber on the slot, and the Prometheus
    builder, which binds the listener; [set_global_recorder] fails with
    [recorder_text]. *)
Class TracingCrates := {
  env_filter : string → result string ();
  rust_log : option string;
  span_exporter : string → result string ();
  try_init : Subscriber → option Subscriber → result string () * option Subscriber;
  http_listener : string → result string ();
  recorder_text : string;
}.
(** A subscriber is installed once per process, and stays. *)
Class TracingLaws `{TracingCrates} : Prop := {
  try_init_once : ∀ s t, is_ok (try_init s (Some t)).1 = false ∧ (try_init s (Some t)).2 = Some t;
  try_init_sets : ∀ s slot, is_ok (try_init s slot).1 = true → (try_init s slot).2 = Some s;
}.

Record ObservabilityHandle := { tracer_provider : option TracerProvider; prom_handle : option string }.

Section init.
Context `{TracingCrates}.

Definition build_tracer_provider (endpoint name : string) : result ObservabilityError TracerProvider :=
  _ ← map_err Otlp (span_exporter endpoint);
  Ok {| exporter_endpoint := endpoint; resource_service_name := name |}.

(** The directives in force: those of [RUST_LOG] when it is set and parses. *)
Definition chosen_filter (cfg : ObservabilityConfig) : string :=
  match rust_log with
  | Some v => if is_ok (env_filter v) then v else log_filter cfg
  | None => log_filter cfg
  end.

(** [metrics::set_global_recorder]. *)
Definition set_global_recorder (listener : option string) (p : Process) : result ObservabilityError Process :=
  match recorder p with
  | Some _ => Err (Prometheus recorder_text)
  | None => Ok {| subscriber := subscriber p; recorder := Some listener;
                  exporters := exporters p ++ option_list listener; described := described p |}
  end.

(** Steps 1 to 3, up to the subscriber; step 4, the recorder; step 5. *)
Definition init_tracing (cfg : ObservabilityConfig) : result ObservabilityError (option TracerProvider) :=
  _ ← map_err InvalidFilter (env_filter (log_filter cfg));
  match otlp_endpoint cfg with
  | Some endpoint => p ← build_tracer_provider endpoint (service_name cfg); Ok (Some p)
  | None => Ok None
  end.
Definition init_recorder (cfg : ObservabilityConfig) (p : Process) : result ObservabilityError Process :=
  match prometheus_listen_addr cfg with
  | Some addr => _ ← map_err Prometheus (http_listener addr); set_global_recorder (Some addr) p
  | None => set_global_recorder None p
  end.
Definition register_metric_descriptions (p : Process) : Process := {|
  subscriber := subscriber p; recorder := recorder p; exporters := exporters p;
  described := described p ++ metric_descriptions |}.

Definition init (cfg : ObservabilityConfig) (p : Process)
    : result ObservabilityError ObservabilityHandle * Process :=
  match init_tracing cfg with
  | Err e => (Err e, p)
  | Ok provider =>
      let '(r, slot) := try_init {| sub_filter := chosen_filter cfg; sub_otel := provider; sub_json := json_logs cfg |}
                          (subscriber p) in
      let p := {| subscriber := slot; recorder := recorder p; exporters := exporters p; described := described p |} in
      match r with
      | Err why => (Err (Subscribed why), p)
      | Ok _ =>
          match init_recorder cfg p with
          | Err e => (Err e, p)
          | Ok p => (Ok {| tracer_provider := provider; prom_handle := prometheus_listen_addr cfg |},
                     register_metric_descriptions p)
          end
      end
  end.

Context `{!TracingLaws}.

(** Once a subscriber is installed no [init] succeeds, and none changes it. *)
Lemma init_after_subscriber cfg p t :
  subscriber p = Some t → is_ok (init cfg p).1 = false ∧ subscriber (init cfg p).2 = Some t.
Proof.
  intros Ht. unfold init. destruct (init_tracing cfg) as [provider|e]; [|done]. rewrite Ht.
  destruct (try_init_once {| sub_filter := chosen_filter cfg; sub_otel := provider; sub_json := json_logs cfg |} t)
    as [Hr Hs]. by destruct (try_init _ _) as [[] slot].
Qed.

Lemma init_recorder_subscriber cfg p p' :
  init_recorder cfg p = Ok p' →
  subscriber p' = subscriber p ∧ recorder p' = Some (prometheus_listen_addr cfg)
  ∧ exporters p' = exporters p ++ option_list (prometheus_listen_addr cfg) ∧ described p' = described p.
Proof.
  unfold init_recorder, set_global_recorder. destruct (prometheus_listen_addr cfg) as [a|];
    [destruct (http_listener a); [|done]; cbn|]; destruct (recorder p); try done; by intros [= <-].
Qed.

(** A set-up that succeeds fills both slots with what the configuration asks
    for, describes every metric, and is the last that succeeds. *)
Theorem init_succeeds_once cfg p h p' :
  init cfg p = (Ok h, p') →
  subscriber p' = Some {| sub_filter := chosen_filter cfg; sub_otel := tracer_provider h; sub_json := json_logs cfg |}
  ∧ recorder p' = Some (prometheus_listen_addr cfg) ∧ (metric_descriptions ⊆ described p')
  ∧ ∀ cfg', is_ok (init cfg' p').1 = false ∧ subscriber (init cfg' p').2 = subscriber p'.
Proof.
  intros Hi. assert (subscriber p' = Some {| sub_filter := chosen_filter cfg; sub_otel := tracer_provider h;
    sub_json := json_logs cfg |} ∧ recorder p' = Some (prometheus_listen_addr cfg) ∧ metric_descriptions ⊆ described p')
    as (Hs & Hr & Hd).
  - revert Hi. unfold init. destruct (init_tracing cfg) as [provider|e]; [|done].
    pose proof (try_init_sets {| sub_filter := chosen_filter cfg; sub_otel := provider; sub_json := json_logs cfg |}
                  (subscriber p)) as Ht. destruct (try_init _ _) as [[u|] slot]; [|done].
    destruct (init_recorder _ _) as [p1|] eqn:Hp; [|done]. intros [= <- <-].
    destruct (init_recorder_subscriber _ _ _ Hp) as (Hs & Hr & _). cbn in *. rewrite Hs, Ht by done.
    split_and!; [done|done|]. intros x Hx. apply list_elem_of_In, in_or_app. right. by apply list_elem_of_In.
  - split_and!; try done. intros cfg'. rewrite Hs. by apply init_after_subscriber.
Qed.

(** A set-up that fails at the recorder has installed its subscriber: no later
    call in the same process succeeds, whatever its configuration. *)
Theorem init_not_retriable cfg p why p' :
  init cfg p = (Err (Prometheus why), p') → ∀ cfg', is_ok (init cfg' p').1 = false.
Proof.
  intros Hi cfg'. assert (∃ t, subscriber p' = Some t) as [t Ht]; [|by apply (init_after_subscriber cfg' p' t)].
  revert Hi. unfold init. destruct (init_tracing cfg) as [provider|e] eqn:Htr.
  - pose proof (try_init_sets {| sub_filter := chosen_filter cfg; sub_otel := provider; sub_json := json_logs cfg |}
                  (subscriber p)) as Ht. destruct (try_init _ _) as [[u|] slot]; [|done].
    destruct (init_recorder _ _) as [p1|]; [done|]. intros [= _ <-]. cbn in *. eexists. by apply Ht.
  - intros [= -> _]. revert Htr. unfold init_tracing, build_tracer_provider.
    destruct (env_filter _); [|done]. cbn. destruct (otlp_endpoint cfg); [|done]. by destruct (span_exporter _).
Qed.
End init.

(** ** Witnesses *)

Module ObservabilityWitness.
Import Concrete ConcreteRlp RegistryWitness ServiceWitness.

Definition denied_wallet : WalletRecord := {| wr_wallet_id := wid; wr_config := config;
  wr_master_public_key := []; wr_status := WalletActive; wr_created_at_unix_ms := 0 |}.
Definition one_wallet : World := with_wallets (world deny) {[wid := denied_wallet]}.

(** A denied request is counted once, as denied. *)
Example sign_outcome_counted_witness :
  match measured_sign text text text text "" service env wid (Raw []) (ApiKey "k") None ctx HashNone (one_wallet, []) with
  | Returns (Err (PolicyDenied _), (_, l)) => outcomes l = ["denied"]
  | _ => False
  end.
Proof.
  destruct (measured_sign text text text text "" service env wid (Raw []) (ApiKey "k") None ctx HashNone (one_wallet, []))
    as [[r [w' l']]|] eqn:Hm.
  - destruct (sign_outcome_counted text text text text "" service env wid (Raw []) (ApiKey "k") None ctx HashNone
                one_wallet [] r w' l' Hm) as [Hs (o & Ho & Hc)].
    assert (∃ s, r = Err (PolicyDenied s)) as [s ->].
    { assert (match sign text text text text "" service env wid (Raw []) (ApiKey "k") None ctx HashNone one_wallet with
              | Returns (Err (PolicyDenied _), _) => true | _ => false end = true) as Hd by reflexivity.
      rewrite Hs in Hd. destruct r as [|[]]; try discriminate. by eexists. }
    cbn in Ho. subst. exact Hc.
  - exfalso. revert Hm. discriminate.
Defined.

#[local] Instance crates : TracingCrates := {|
  env_filter s := if String.eqb s "" then Err "empty" else Ok (); rust_log := None;
  span_exporter _ := Ok (); http_listener a := if String.eqb a ":1" then Err "in use" else Ok ();
  try_init s slot := match slot with Some t => (Err "set", Some t) | None => (Ok (), Some s) end;
  recorder_text := "set" |}.
#[local] Instance crates_laws : TracingLaws.
Proof. split; [done|by intros s [t|]]. Qed.
Definition fresh : Process := {| subscriber := None; recorder := None; exporters := []; described := [] |}.

Example init_succeeds_once_witness :
  is_ok (init ObservabilityConfig_default fresh).1 = true
  ∧ is_ok (init ObservabilityConfig_default (init ObservabilityConfig_default fresh).2).1 = false.
Proof.
  split; [reflexivity|].
  destruct (init_succeeds_once ObservabilityConfig_default fresh {| tracer_provider := None; prom_handle := None |}
              (init ObservabilityConfig_default fresh).2) as (_ & _ & _ & Hn); [vm_compute; reflexivity|]. apply Hn.
Defined.

Example init_not_retriable_witness :
  let cfg := {| service_name := "s"; otlp_endpoint := None; prometheus_listen_addr := Some ":1";
                log_filter := "info"; json_logs := true |} in
  is_ok (init ObservabilityConfig_default (init cfg fresh).2).1 = false.
Proof.
  apply (init_not_retriable {| service_name := "s"; otlp_endpoint := None; prometheus_listen_addr := Some ":1";
    log_filter := "info"; json_logs := true |} fresh "in use"). reflexivity.
Defined.
End ObservabilityWitness.
