(* ===== verification/Surfaces.v ===== *)
(** * Surfaces: the two surfaces as a transition system

    A step is one request, over HTTP or gRPC, handled to its response.  [preserved]
    lists what an invariant of the service's state must survive, one clause per
    effect of the service; every request then keeps it ([served_keeps]). *)

From S2P Require Import Prelude Text Types External PolicyTypes SignedDecision Derivation Signers Attestation Rlp EvmDecoder HybridVerifier MockEnclave AuditLog Approval Registry ApprovalStore ShareStore WalletService ApiSchemas ApiHandlers GrpcConvert GrpcHandlers.
#[local] Open Scope string_scope.
#[local] Open Scope list_scope.
#[local] Open Scope Z_scope.

(** ** Keeping an invariant *)

(** [I] holds after [m] whenever it holds before and [m] returns. *)
Definition keeps {W X} (I : W → Prop) (m : W → panics (X * W)) : Prop :=
  ∀ w r w', I w → m w = Returns (r, w') → I w'.

Create HintDb keeps.

Section keeps.
Context {W : Type} (I : W → Prop).

Lemma keeps_svc_bind {X Y} (m : Svc W X) (f : X → Svc W Y) :
  keeps I m → (∀ x, keeps I (f x)) → keeps I (@mbind _ (svc_bind W) _ _ f m).
Proof.
  intros Hm Hf w r w' Hw. unfold mbind, svc_bind. destruct (m w) as [[[x|e] w1]|] eqn:Hx; [| |done].
  - apply Hf. by apply (Hm _ _ _ Hw Hx).
  - intros [= <- <-]. by apply (Hm _ _ _ Hw Hx).
Qed.
Lemma keeps_call_bind {Er X Y} (m : Call Er W X) (f : X → Call Er W Y) :
  keeps I m → (∀ x, keeps I (f x)) → keeps I (m ≫= f).
Proof.
  intros Hm Hf w r w' Hw. unfold mbind, call_bind. destruct (m w) as [[[x|e] w1]|] eqn:Hx; [| |done].
  - apply Hf. by apply (Hm _ _ _ Hw Hx).
  - intros [= <- <-]. by apply (Hm _ _ _ Hw Hx).
Qed.
(** A step that only looks. *)
Lemma keeps_pure {X} (r : W → X) : keeps I (λ w, Returns (r w, w)).
Proof. by intros w q w' Hw [= <- <-]. Qed.
Lemma keeps_svc_ret {X} (x : X) : keeps I (@mret _ (svc_ret W) _ x).
Proof. apply (keeps_pure (λ _, Ok x)). Qed.
Lemma keeps_call_ret {Er X} (x : X) : keeps I (mret x : Call Er W X).
Proof. apply (keeps_pure (λ _, Ok x)). Qed.
Lemma keeps_svc_of {X} r : keeps I (svc_of r : Svc W X).
Proof. apply (keeps_pure (λ _, r)). Qed.
Lemma keeps_svc_fail {X} e : keeps I (svc_fail e : Svc W X).
Proof. apply (keeps_pure (λ _, Err e)). Qed.
Lemma keeps_call_of {Er X} r : keeps I (call_of r : Call Er W X).
Proof. apply (keeps_pure (λ _, r)). Qed.
Lemma keeps_call_svc {Er X} (f : ServiceError → Er) (m : Svc W X) : keeps I m → keeps I (call_svc f m).
Proof.
  intros Hm w r w' Hw. unfold call_svc. destruct (m w) as [[q w1]|] eqn:Hx; [|done].
  intros [= <- <-]. by apply (Hm _ _ _ Hw Hx).
Qed.
Lemma keeps_iter {X} (f : X → Svc W ()) l : (∀ x, keeps I (f x)) → keeps I (svc_iter f l).
Proof. intros Hf. induction l; cbn [svc_iter]; [apply keeps_svc_ret|by apply keeps_svc_bind]. Qed.
Lemma keeps_respond (m : Call ApiError W HttpResponse) : keeps I m → keeps I (λ w, respond (m w)).
Proof.
  intros Hm w r w' Hw. destruct (m w) as [[[x|e] w1]|] eqn:Hx; cbn; [| |done];
    intros [= <- <-]; by apply (Hm _ _ _ Hw Hx).
Qed.
End keeps.
#[export] Hint Resolve keeps_svc_ret keeps_call_ret keeps_svc_of keeps_svc_fail
  keeps_call_of keeps_call_svc keeps_iter keeps_respond : keeps.

Ltac keep_step :=
  match goal with
  | |- keeps _ (match ?x with _ => _ end) => destruct x
  | |- keeps _ (_ ≫= _) => first [apply keeps_svc_bind | apply keeps_call_bind]; [|intros ?]
  | |- keeps _ (λ w, Returns (_, w)) => apply keeps_pure
  | |- keeps _ _ => solve [eauto 5 with keeps nocore]
  end.

(** The identifiers of a draft are ULIDs. *)
Definition draft_ok (d : AuditEventDraft) : Prop :=
  from_option (λ r, is_ulid (RequestId_ulid r)) True (draft_request_id d)
  ∧ from_option (λ w, is_ulid (WalletId_ulid w)) True (draft_wallet_id d).

Section surfaces.
Context `{UlidCrate, UlidParse, HexCrate, JsonCrate, DigestCrate, Ed25519Crate, K256Crate, MlDsaCrate, RlpCrate}.
Context `{EventSerde, HashOrder, HeaderCrate, ErrorTexts}.
Context {P Sh A AS E : Type} `{Policy P, ShareStore Sh, AuditSink A, ApprovalStore AS, Enclave E}.

#[local] Abbreviation W := (@World P Sh A AS).
Implicit Types st : @AppState E.
Implicit Types self : @WalletService.WalletService E.

(** ** Requests *)

(** What a request may draw: ULIDs for its wallet and its id, and an approver id
    that [fresh] allows in the state it meets. *)
Definition request_draws_ok (fresh : ApproverId → W → Prop) (env : ApiDraws) (w : W) : Prop :=
  is_ulid (WalletId_ulid (fresh_wallet (svc_draws env))) ∧ is_ulid (RequestId_ulid (fresh_request (svc_draws env)))
  ∧ fresh (fresh_approver env) w.

(** One request on either surface, handled to its response; the states [sts] of
    the server differ in what its enclave draws. *)
Inductive served (sts : @AppState E → Prop) (fresh : ApproverId → W → Prop) : W → W → Prop :=
  | served_http st env header req w resp w' :
      sts st → request_draws_ok fresh env w → serve st env header req w = Returns (resp, w') → served sts fresh w w'
  | served_rpc st R env metadata (req : Rpc R) w resp w' :
      sts st → request_draws_ok fresh env w → rpc_serve st env metadata req w = Returns (resp, w') →
      served sts fresh w w'.

(** ** Invariants *)

(** Registering an approver. *)
Definition is_add (req : HttpRequest) : bool := match req with PostApprovers _ => true | _ => false end.
Definition rpc_is_add {R} (req : Rpc R) : bool := match req with RpcRegisterApprover _ => true | _ => false end.

Record preserved (fresh : ApproverId → W → Prop) (I : W → Prop) : Prop := {
  pres_wallet_ulid w : I w → map_Forall (λ id _, is_ulid (WalletId_ulid id)) (w_wallets w);
  pres_emit d : draft_ok d → keeps I (WalletService.emit d : Svc W ());
  pres_put s : keeps I (put_share s : Svc W ());
  pres_evaluate env req : keeps I (evaluate_policy env req : Svc W _);
  pres_wallets w id rec : is_ulid (WalletId_ulid id) → I w → I (with_wallets w (<[id := rec]> (w_wallets w)));
  pres_record text now a id h : keeps I (WalletService.record_approval text now a id h : Svc W _);
  pres_add w id now c : fresh id w → I w → I (with_registry w (Registry.add_approver id now c (w_registry w)).2);
  pres_revoke w id : I w → I (with_registry w (Registry.revoke_approver id (w_registry w)).2);
  pres_set w id now c r reg : I w → Registry.create_approver_set id now c (w_registry w) = Some (r, reg) →
    I (with_registry w reg);
}.

Section inv.
Variables (fresh : ApproverId → W → Prop) (I : W → Prop).
Hypothesis HI : preserved fresh I.

Lemma keeps_fetch wallet t : keeps I (fetch_shares wallet t : Svc W _).
Proof. intros w r w' Hw. unfold fetch_shares. destruct (share_list _ _); [destruct (_ <? _)|]; by intros [= <- <-]. Qed.
Lemma keeps_enclave self req : keeps I (call_enclave self req : Svc W _).
Proof. intros w r w' Hw. unfold call_enclave. destruct (enclave_sign _ _); by intros [= <- <-]. Qed.
Lemma keeps_query {Er B} (f : RegistryError → Er) op : keeps I (query_registry f op : Call Er W B).
Proof. by intros w r w' Hw [= <- <-]. Qed.
Lemma keeps_get id : keeps I (WalletService.get_wallet id : Svc W _).
Proof. by intros w r w' Hw [= <- <-]. Qed.
Lemma keeps_set {Er} (f : RegistryError → Er) env c : keeps I (call_create_set f env c : Call Er W _).
Proof.
  intros w r w' Hw. unfold call_create_set. destruct (Registry.create_approver_set _ _ _ _) as [[q reg]|] eqn:Hc; [|done].
  intros [= _ <-]. by eapply (pres_set _ _ HI).
Qed.
Lemma keeps_revoke {Er} (f : RegistryError → Er) id : keeps I (call_registry f (Registry.revoke_approver id) : Call Er W _).
Proof.
  intros w r w' Hw. unfold call_registry. pose proof (pres_revoke _ _ HI w id Hw) as Hp.
  destruct (Registry.revoke_approver _ _) as [q reg]. intros [= _ <-]. exact Hp.
Qed.
(** The one effect whose freshness depends on the state it meets. *)
Lemma add_keeps {Er} (f : RegistryError → Er) id now c w r w' :
  fresh id w → I w → call_registry f (Registry.add_approver id now c) w = Returns (r, w') → I w'.
Proof. intros Hf Hw [= _ <-]. by apply (pres_add _ _ HI w id now c). Qed.
Lemma keeps_wallets id rec :
  is_ulid (WalletId_ulid id) →
  keeps I ((λ w, Returns (Ok (), with_wallets w (<[id := rec]> (w_wallets w)))) : Svc W ()).
Proof. intros Hid w r w' Hw [= <- <-]. by apply (pres_wallets _ _ HI). Qed.
Lemma draft_for_ok actor kind r i details :
  is_ulid (RequestId_ulid r) → is_ulid (WalletId_ulid i) → draft_ok (draft_for actor kind r i details).
Proof. done. Qed.
Lemma keeps_emit d : draft_ok d → keeps I (WalletService.emit d : Svc W ()).
Proof. apply (pres_emit _ _ HI). Qed.
Lemma keeps_put s : keeps I (put_share s : Svc W ()).
Proof. apply (pres_put _ _ HI). Qed.
Lemma keeps_evaluate env req : keeps I (evaluate_policy env req : Svc W _).
Proof. apply (pres_evaluate _ _ HI). Qed.
Lemma keeps_record text now a id h : keeps I (WalletService.record_approval text now a id h : Svc W _).
Proof. apply (pres_record _ _ HI). Qed.
#[local] Hint Resolve keeps_emit keeps_put keeps_evaluate keeps_record keeps_fetch keeps_enclave keeps_query keeps_get
  keeps_set keeps_revoke draft_for_ok : keeps.

Lemma keeps_create_wallet self env config owner :
  is_ulid (WalletId_ulid (fresh_wallet env)) → keeps I (WalletService.create_wallet self env config owner : Svc W _).
Proof.
  intros Hid. unfold WalletService.create_wallet. keep_step.
  { intros w r w' Hw. destruct (enclave_generate _ _); by intros [= <- <-]. }
  repeat keep_step; [by apply keeps_wallets|by apply keeps_emit].
Qed.

Lemma keeps_quorum text self wid rid mh t set :
  is_ulid (RequestId_ulid rid) → is_ulid (WalletId_ulid wid) →
  keeps I (run_quorum text self wid rid mh t set : Svc W _).
Proof.
  intros Hr Hi. unfold run_quorum, resolve_identities, approval_audit. repeat keep_step.
Qed.

Lemma keeps_policy_signed t t' self env wid rid d :
  is_ulid (RequestId_ulid rid) → is_ulid (WalletId_ulid wid) →
  keeps I (sign_policy_decision t t' self env wid rid d : Svc W _).
Proof. intros Hr Hi. unfold sign_policy_decision. repeat keep_step. Qed.

Lemma keeps_decided t1 t2 t3 t4 t5 self env wallet wid rid payload path ctx h d :
  is_ulid (RequestId_ulid rid) → is_ulid (WalletId_ulid wid) →
  keeps I (sign_decided t1 t2 t3 t4 t5 self env wallet wid rid payload path ctx h d : Svc W _).
Proof.
  intros Hr Hi. pose proof keeps_quorum. pose proof keeps_policy_signed. unfold sign_decided. repeat keep_step.
Qed.

(** A request that gets past the look-up names a wallet the server made. *)
Lemma keeps_sign t1 t2 t3 t4 t5 self env wid payload r path ctx h :
  is_ulid (RequestId_ulid (fresh_request env)) →
  keeps I (WalletService.sign t1 t2 t3 t4 t5 self env wid payload r path ctx h : Svc W _).
Proof.
  intros Hr w q w' Hw. unfold WalletService.sign. unfold WalletService.get_wallet, mbind at 1, svc_bind at 1.
  destruct (w_wallets w !! wid) as [wallet|] eqn:Hl; cbn [ok_or]; [|by intros [= <- <-]].
  assert (is_ulid (WalletId_ulid wid)) as Hi by exact (pres_wallet_ulid _ _ HI w Hw _ _ Hl).
  pose proof keeps_decided. match goal with |- ?m w = _ → _ => assert (keeps I m) as Hm; [|by apply (Hm w q w' Hw)] end.
  repeat keep_step.
Qed.

Lemma serve_keeps st env header req w resp w' :
  request_draws_ok fresh env w → I w → serve st env header req w = Returns (resp, w') → I w'.
Proof.
  intros (Hi & Hr & Hf) Hw. pose proof keeps_create_wallet. pose proof keeps_sign. destruct (decide (is_add req)) as [Hadd|Hadd].
  - destruct req; try done. unfold serve. cbn [is_public handle]. rewrite call_bind_of.
    destruct (require_api_key_inner _ _); [|by intros [= <- <-]]. unfold create_approver. rewrite call_bind_of.
    destruct (identity_into_domain _); [|by intros [= <- <-]]. unfold respond, mbind, call_bind.
    destruct (call_registry _ _ w) as [[q w1]|] eqn:Hq; [|done].
    apply (add_keeps _ _ _ _ _ _ _ Hf Hw) in Hq. by destruct q; intros [= <- <-].
  - assert (keeps I (handle st env req)) as Hh.
    { destruct req; try done; cbn [handle]; [unfold create_wallet|unfold get_wallet|unfold sign|unfold list_audit_events|
        unfold list_approvers|unfold get_approver|unfold revoke_approver|
        unfold create_approver_set|unfold list_approver_sets|unfold get_approver_set|unfold submit_approval|
        unfold list_approvals|..]; repeat keep_step. }
    revert w resp w' Hw Hf. intros w resp w' Hw _. apply (keeps_respond I); [|done]. repeat keep_step.
Qed.

Lemma rpc_keeps {R} st env metadata (req : Rpc R) w resp w' :
  request_draws_ok fresh env w → I w → rpc_serve st env metadata req w = Returns (resp, w') → I w'.
Proof.
  intros (Hi & Hr & Hf) Hw. pose proof keeps_create_wallet. pose proof keeps_sign. unfold rpc_serve.
  rewrite call_bind_of. destruct (interceptor_check _ _); [|by intros [= <- <-]].
  destruct (decide (rpc_is_add req)) as [Hadd|Hadd].
  - destruct req; try done. cbn [rpc_handle]. unfold rpc_register_approver. rewrite call_bind_of.
    match goal with |- context [match ?x with Ok _ => _ | Err _ => _ end] => destruct x end; [|by intros [= <- <-]].
    unfold mbind, call_bind. destruct (call_registry _ _ w) as [[q w1]|] eqn:Hq; [|done].
    apply (add_keeps _ _ _ _ _ _ _ Hf Hw) in Hq. by destruct q; intros [= <- <-].
  - assert (keeps I (rpc_handle st env req)) as Hh; [|by apply Hh].
    destruct req; try done; cbn [rpc_handle]; [unfold rpc_create_wallet|unfold rpc_get_wallet|unfold rpc_sign|
      unfold rpc_get_audit_events|unfold rpc_revoke_approver|unfold rpc_get_approver|unfold rpc_list_approvers|
      unfold rpc_create_approver_set|unfold rpc_get_approver_set|unfold rpc_list_approver_sets|
      unfold rpc_submit_approval|unfold rpc_list_approvals]; repeat keep_step.
Qed.

Lemma served_keeps sts w w' : rtc (served sts fresh) w w' → I w → I w'.
Proof.
  induction 1 as [|w1 w2 w3 Hs _ IH]; [done|]. intros Hw. apply IH.
  destruct Hs as [st env header req w resp w' _ Hd Hs|st R env metadata req w resp w' _ Hd Hs].
  - by eapply serve_keeps.
  - by eapply rpc_keeps.
Qed.
End inv.
End surfaces.
