(* ===== verification/ServerLog.v ===== *)
(** * ServerLog: the server's surfaces over the audit file

    [FileAuditSink] of [audit/file.rs] as the sink behind the wallet service.  The
    file is a log after any requests on either surface, whatever they asked. *)

From S2P Require Import Prelude Text Types External PolicyTypes SignedDecision Derivation Signers Attestation Rlp EvmDecoder HybridVerifier MockEnclave AuditLog Approval Registry ApprovalStore ShareStore WalletService ApiSchemas ApiHandlers GrpcConvert GrpcHandlers Surfaces.
#[local] Open Scope string_scope.
#[local] Open Scope list_scope.
#[local] Open Scope Z_scope.

(** ** The file sink *)

(** What one [emit] draws from the system. *)
Record SinkDraw := { sd_id : EventId; sd_at : Z; sd_io : IoOutcome }.

(** The sink with the content of its file; [fs_calls] counts the emissions and
    [fs_accepted] lists the drafts that were accepted. *)
Record FileAuditSink := {
  fs_server_key : bytes;
  fs_state : ChainState;
  fs_file : bytes;
  fs_draws : nat → SinkDraw;
  fs_calls : nat;
  fs_accepted : list AuditEventDraft;
}.

Definition draft_of (e : AuditEvent) : AuditEventDraft := {|
  draft_actor := event_actor e; draft_kind := event_kind e; draft_request_id := event_request_id e;
  draft_wallet_id := event_wallet_id e; draft_details := event_details e |}.

Section sink.
Context `{UlidCrate, JsonCrate, DigestCrate, Ed25519Crate}.

Definition file_emit (d : AuditEventDraft) (a : FileAuditSink) : result AuditError AuditEvent * FileAuditSink :=
  let dr := fs_draws a (fs_calls a) in
  let '(r, st, file) := AuditLog.emit (fs_server_key a) (sd_id dr) (sd_at dr) (sd_io dr) d (fs_state a) (fs_file a) in
  (r, {| fs_server_key := fs_server_key a; fs_state := st; fs_file := file; fs_draws := fs_draws a;
         fs_calls := S (fs_calls a);
         fs_accepted := match r with Ok _ => fs_accepted a ++ [d] | Err _ => fs_accepted a end |}).

#[export] Program Instance file_sink : AuditSink FileAuditSink :=
  {| sink_emit := file_emit; sink_trace := fs_accepted |}.
Next Obligation. intros d a e a'. unfold file_emit. by destruct (AuditLog.emit _ _ _ _ _ _ _) as [[[]]]; intros [= <- <-]. Qed.
Next Obligation. intros d a e a'. unfold file_emit. by destruct (AuditLog.emit _ _ _ _ _ _ _) as [[[]]]; intros [= <- <-]. Qed.

(** The identifiers drawn are ULIDs and no write fails once the file is open. *)
Definition draw_ok (d : SinkDraw) : Prop :=
  is_ulid (EventId_ulid (sd_id d)) ∧ is_i64 (sd_at d)
  ∧ match sd_io d with IoOk | IoOpenErr _ => True | IoWriteErr _ _ | IoSyncErr _ => False end.

(** The file holds the events [old] and then one event per accepted draft,
    chained and signed with the sink's key, and the sink knows its head. *)
Definition log_of (old : list AuditEvent) (a : FileAuditSink) (es : list AuditEvent) : Prop :=
  fs_file a = log_content (old ++ es) ∧ chained genesis_hash (old ++ es) ∧ Forall event_ok (old ++ es)
  ∧ Forall (λ e, server_signature e = ed_sign (fs_server_key a) (event_preimage e)) es
  ∧ fs_state a = {| head_hash := chain_head genesis_hash (old ++ es); written := u64_wrap (Z.of_nat (length (old ++ es))) |}
  ∧ draft_of <$> es = fs_accepted a.

Context `{EventSerde, !UlidLaws, !JsonLaws, !DigestLaws, !Ed25519Laws, !EventSerdeLaws}.

Lemma file_emit_log old d a es r a' :
  draw_ok (fs_draws a (fs_calls a)) → draft_ok d → log_of old a es → file_emit d a = (r, a') →
  (∃ es', log_of old a' es') ∧ fs_server_key a' = fs_server_key a ∧ fs_draws a' = fs_draws a.
Proof.
  intros (Hid & Hat & Hio) [Hr Hw] (Hf & Hc & Hok & Hs & Hst & Hd). unfold file_emit.
  destruct (sd_io _); [|intros [= <- <-]; split; [by exists es|done]|done..]. cbn. intros [= <- <-].
  split; [|done]. eexists (es ++ [_]). unfold log_of. cbn [fs_file fs_server_key fs_state fs_accepted].
  rewrite !app_assoc, Hf, Hst, log_content_snoc. split; [reflexivity|].
  split; [by apply chained_snoc|].
  split; [apply Forall_app_2; [done|]; constructor; [|done]; repeat split; try done; try apply Hat;
    apply chain_head_length|].
  split; [apply Forall_app_2; [done|by constructor]|].
  split; [|by rewrite fmap_app, Hd; destruct d].
  rewrite chain_head_snoc. cbn [written]. f_equal. rewrite u64_wrap_add, !length_app. f_equal. cbn. lia.
Qed.

(** An event of a run that a key verifies carries a signature the key accepts. *)
Lemma signed_and_verified key vk es :
  es ≠ [] → Forall (λ e, server_signature e = ed_sign key (event_preimage e)) es →
  Forall (λ e, verify_event e vk = Ok true) es → ∃ m, ed_verify vk m (ed_sign key m) = true.
Proof.
  destruct es as [|e es]; [done|]. intros _ [Hs _]%Forall_cons [Hv _]%Forall_cons.
  exists (event_preimage e). revert Hv. unfold verify_event. rewrite Hs.
  destruct (bool_decide (length vk = _)); [|done]. destruct (ed_key_valid vk); [|done].
  destruct (bool_decide _); [|done]. cbn. by intros [= ->].
Qed.
End sink.


(** ** The server's invariant *)

Section server.
Context `{UlidCrate, UlidParse, HexCrate, JsonCrate, DigestCrate, Ed25519Crate, K256Crate, MlDsaCrate, RlpCrate}.
Context `{EventSerde, HashOrder, HeaderCrate, ErrorTexts}.
Context {P Sh AS : Type} `{Policy P, ShareStore Sh, ApprovalStore AS}.
Context `{!UlidLaws, !JsonLaws, !DigestLaws, !Ed25519Laws, !EventSerdeLaws}.

#[local] Abbreviation W := (@World P Sh FileAuditSink AS).

(** No condition on the approver ids drawn. *)
Definition any_approver (_ : ApproverId) (_ : W) : Prop := True.

(** The file is a log, and the wallets the server knows were given ULIDs. *)
Definition log_inv (key : bytes) (draws : nat → SinkDraw) (old : list AuditEvent) (w : W) : Prop :=
  (∃ es, log_of old (w_audit w) es) ∧ fs_server_key (w_audit w) = key ∧ fs_draws (w_audit w) = draws
  ∧ map_Forall (λ id _, is_ulid (WalletId_ulid id)) (w_wallets w).

Lemma log_inv_emit key draws old d :
  (∀ n, draw_ok (draws n)) → draft_ok d → keeps (log_inv key draws old) (WalletService.emit d : Svc W ()).
Proof.
  intros Hok Hd w r w' ([es Hl] & Hk & Hdr & Hw). unfold WalletService.emit. cbn.
  destruct (file_emit d (w_audit w)) as [q a] eqn:He.
  destruct (file_emit_log old d (w_audit w) es q a) as (Hes & Hk' & Hd'); try done; [by rewrite Hdr|].
  destruct q; intros [= <- <-]; (split; [done|]); split; [by rewrite <-Hk|split; [by rewrite <-Hdr|done]|
    by rewrite <-Hk|split; [by rewrite <-Hdr|done]].
Qed.

Lemma log_preserved key draws old : (∀ n, draw_ok (draws n)) → preserved any_approver (log_inv key draws old).
Proof.
  intros Hok. split.
  - by intros w (_ & _ & _ & Hw).
  - intros d. by apply log_inv_emit.
  - intros s w r w' Hw. unfold put_share. destruct (share_put _ _) as [[]]; by intros [= <- <-].
  - intros env req w r w' Hw. unfold evaluate_policy. destruct (policy_evaluate _ _ _ _) as [[]]; by intros [= <- <-].
  - intros w id rec Hid (Hl & Hk & Hd & Hw). split_and!; [done..|]. by apply map_Forall_insert_2.
  - intros text now a id h w r w' Hw. unfold WalletService.record_approval. repeat case_match; by intros [= <- <-].
  - by intros w id now c _ Hw.
  - by intros w id Hw.
  - by intros w id now c r reg Hw _.
Qed.
End server.
