(* ===== verification/Server.v ===== *)
(** * Server: the server binary ([main.rs])

    Start-up from the environment to the serving state, the anchor job it may
    spawn, and the wait for its two servers.  A variable is what
    [std::env::var(name).ok()] gives.  An error is the list of the messages the
    program attaches to it, outermost first; the causes other crates report are
    left out.  Signals, TLS and the sockets themselves are not modelled: binding
    the HTTP address is an outcome of the system. *)

From S2P Require Import Prelude Text Types External PolicyTypes PolicySpec StaticPolicy SignedDecision Derivation Shamir Signers Attestation Rlp EvmDecoder HybridVerifier MockEnclave AuditLog AuditPostgres ChainAnchor AuditAnchors Approval Registry ApprovalStore ShareStore Notifiers Orchestrating WalletService WalletServiceProps ApiSchemas ApiHandlers GrpcConvert GrpcHandlers ApiProps Surfaces ServerLog.
#[local] Open Scope string_scope.
#[local] Open Scope list_scope.
#[local] Open Scope Z_scope.

Definition Env : Type := string → option string.
Definition Anyhow : Type := list string.

Definition with_context {A} (msg : string) (r : result Anyhow A) : result Anyhow A := map_err (cons msg) r.

(** ** Reading the environment *)

Definition blank (v : string) : bool := String.eqb (trim v) "".

Definition env_flag (env : Env) (name : string) : bool :=
  match env name with Some v => negb (blank v) | None => false end.

(** [parse_hex_env::<N>]. *)
Definition parse_hex_env `{HexCrate} (n : nat) (env : Env) (name : string) : result Anyhow bytes :=
  raw ← ok_or (env name) [name +:+ " is required"];
  let raw := default (trim raw) (strip_prefix "0x" (trim raw)) in
  bs ← ok_or (hex_decode raw) [name +:+ " must be valid hex"];
  if bool_decide (length bs = n) then mret bs
  else Err [name +:+ " must be exactly " +:+ show_dec (Z.of_nat n) +:+ " bytes"].

(** The [u64] variables of the anchor: blank or unset is none. *)
Definition env_u64 (env : Env) (name : string) : result Anyhow (option Z) :=
  match env name with
  | Some v =>
      if blank v then mret None
      else z ← ok_or (parse_uint u64_max (trim v)) [name +:+ " must be a u64"]; mret (Some z)
  | None => mret None
  end.

(** [SocketAddr::from_str]; an address is the text it is displayed as. *)
Class SocketAddrs := { parse_addr : string → option string }.

Definition http_addr `{SocketAddrs} (env : Env) : result Anyhow string :=
  ok_or (parse_addr (default "127.0.0.1:8088"
           (match env "QFC_SERVER_WALLET_HTTP_BIND" with
            | Some v => Some v
            | None => env "QFC_SERVER_WALLET_BIND"
            end)))
    ["QFC_SERVER_WALLET_HTTP_BIND must be a valid socket address"].
Definition grpc_addr `{SocketAddrs} (env : Env) : result Anyhow string :=
  ok_or (parse_addr (default "127.0.0.1:9090" (env "QFC_SERVER_WALLET_GRPC_BIND")))
    ["QFC_SERVER_WALLET_GRPC_BIND must be a valid socket address"].

Definition required_api_keys (env : Env) : result Anyhow (gset string) :=
  raw ← ok_or (env "QFC_SERVER_WALLET_API_KEYS")
          ["QFC_SERVER_WALLET_API_KEYS env var is required (comma-separated allow-list)"];
  let keys := load_api_keys raw in
  if bool_decide (keys = ∅) then Err ["QFC_SERVER_WALLET_API_KEYS must contain at least one non-empty key"]
  else mret keys.

(** ** Waiting for the servers *)

(** How a server's task ended. *)
Inductive TaskEnd := TaskOk | TaskErr (e : Anyhow) | TaskPanicked (why : string).

Definition task_error (t : TaskEnd) : option Anyhow :=
  match t with
  | TaskOk => None
  | TaskErr e => Some e
  | TaskPanicked why => Some ["server task panicked: " +:+ why]
  end.

(** The handles are awaited in order; [None] is a task still running, and the
    whole is [None] while [main] waits. *)
Fixpoint await_servers (first_err : option Anyhow) (handles : list (option TaskEnd)) : option (result Anyhow ()) :=
  match handles with
  | [] => Some (match first_err with Some e => Err e | None => Ok () end)
  | None :: _ => None
  | Some t :: handles =>
      await_servers (match first_err with Some e => Some e | None => task_error t end) handles
  end.

Lemma await_servers_spec first_err handles :
  await_servers first_err handles =
  ts ← mapM id handles;
  Some (match first_err with
        | Some e => Err e
        | None => from_option Err (Ok ()) (head (omap task_error ts))
        end).
Proof.
  revert first_err. induction handles as [|[t|] hs IH]; intros fe; cbn [await_servers mapM]; [|rewrite IH|done].
  - by destruct fe.
  - cbn. destruct (mapM id hs) as [ts|]; [|done]. cbn. destruct fe; [done|]. by destruct (task_error t).
Qed.

(** ** Start-up *)

Section server.
Context `{UlidCrate, UlidParse, HexCrate, JsonCrate, DigestCrate, Ed25519Crate, K256Crate, MlDsaCrate, RlpCrate}.
Context `{Bip32Crate, VsssCrate, !K256Point}.
Context `{EventSerde, HashOrder, HeaderCrate, ErrorTexts, SocketAddrs}.

(** *** The wallet service *)

Definition WalletService_new {E} (enclave : E) (quorum : Quorum) : @WalletService.WalletService E := {|
  svc_enclave := enclave; svc_quorum := quorum; svc_quorum_timeout := 120 * 1000000000;
  policy_service_signer := None |}.
(** The state [WalletService::new] creates or is given. *)
Definition World_new {P Sh A} (shares : Sh) (policy : P) (audit : A) : @World P Sh A MemoryApprovalStore := {|
  w_shares := shares; w_policy := policy; w_audit := audit; w_registry := registry_new;
  w_approvals := store_new; w_wallets := ∅ |}.
Definition with_policy_service_signer {E} (signer : LocalPolicyServiceSigner) (s : @WalletService.WalletService E)
    : @WalletService.WalletService E := {|
  svc_enclave := svc_enclave s; svc_quorum := svc_quorum s; svc_quorum_timeout := svc_quorum_timeout s;
  policy_service_signer := Some signer |}.
Definition with_quorum_timeout {E} (timeout : Z) (s : @WalletService.WalletService E)
    : @WalletService.WalletService E := {|
  svc_enclave := svc_enclave s; svc_quorum := svc_quorum s; svc_quorum_timeout := timeout;
  policy_service_signer := policy_service_signer s |}.

(** [MockQuorumApprover::new()], to which nothing is submitted: the loop ends at
    the timeout. *)
Definition idle_quorum : Quorum := {|
  q_request req := (mock_request req mock_quorum_new).1;
  q_collect r threshold timeout :=
    default (Err (Timeout timeout)) (mock_poll r threshold timeout mock_quorum_new timeout) |}.

Definition allow_all (id : PolicyId) : StaticAllowDenyPolicy := {|
  static_policy_id := id; allowed_chains := None; denied_chains := ∅; allowed_requesters := None;
  denied_requesters := ∅; wallet_inactive := false; static_default := DefaultAllow |}.

(** *** The anchor job *)

Record AnchorJob := { job_rpc_url : string; job_anchor : ChainAnchor; job_interval_secs : Z }.

Definition anchor_to (env : Env) : result Anyhow (option bytes) :=
  match env "QFC_ANCHOR_TO" with
  | Some v => if blank v then mret None else to ← parse_hex_env 20 env "QFC_ANCHOR_TO"; mret (Some to)
  | None => mret None
  end.

(** [maybe_spawn_anchor_job]: the job it spawns. *)
Definition maybe_spawn_anchor_job (env : Env) : result Anyhow (option AnchorJob) :=
  match env "QFC_ANCHOR_RPC_URL" with
  | None => mret None
  | Some rpc_url =>
      if blank rpc_url then mret None
      else
        operator_key ← parse_hex_env 32 env "QFC_ANCHOR_OPERATOR_KEY";
        to ← anchor_to env;
        chain_id ← env_u64 env "QFC_ANCHOR_CHAIN_ID";
        gas_limit ← env_u64 env "QFC_ANCHOR_GAS_LIMIT";
        interval_secs ← env_u64 env "QFC_ANCHOR_INTERVAL_SECS";
        anchor ← map_err (λ e, ["ChainAnchor init: " +:+ audit_text e])
                   (ChainAnchor_new operator_key to chain_id (default DEFAULT_ANCHOR_GAS_LIMIT gas_limit) None);
        mret (Some {| job_rpc_url := rpc_url; job_anchor := anchor;
                      job_interval_secs := default (24 * 60 * 60) interval_secs |})
  end.

(** The spawned task over its first ticks: the date and the sink's state at each. *)
Definition run_anchor_job (node : string → EvmRpc) (job : AnchorJob) (ticks : list (string * ChainState))
    : panics (list (Tick (result AuditError ()))) :=
  daily_anchor_commit_job_with_reader (job_interval_secs job)
    (λ p, _ ← ChainAnchor.submit hex_text (job_anchor job) (node (job_rpc_url job)) p; Ok ())
    ((λ t, Ok (current_anchor_payload t.1 t.2)) <$> ticks).

(** *** [main] *)

(** What start-up draws from the system: the environment, keys and identifiers,
    the audit file as it is read, the later draws of the sink, and how binding
    the HTTP address ends. *)
Record Boot := {
  boot_env : Env;
  boot_attestation_key : MockAttestationKey;
  boot_policy_id : PolicyId;
  boot_audit_key : bytes;
  boot_log : result string (option bytes);
  boot_draws : nat → SinkDraw;
  boot_http_bind : result string ();
}.

#[local] Abbreviation W := (@World StaticAllowDenyPolicy MockShareStore FileAuditSink MemoryApprovalStore).

(** The serving process: what [AppState] holds, the state behind it, and the
    tasks it runs. *)
Record Server := {
  srv_api_keys : gset string;
  srv_audit_path : string;
  srv_enclave : MockEnclave;
  srv_world : W;
  srv_anchor : option AnchorJob;
  srv_http : option string;
  srv_grpc : option (string * bool);
}.

(** [AppState], with what one enclave call draws. *)
Definition app_state (srv : Server) (ent : Entropy) : @AppState (MockEnclave * Entropy) := {|
  ApiHandlers.service := WalletService_new (srv_enclave srv, ent) idle_quorum; api_keys := srv_api_keys srv |}.

(** From [FileAuditSink::open] on. *)
Definition open_audit (b : Boot) : panics (result Anyhow FileAuditSink) :=
  match open_sink (boot_log b) with
  | Panics why => Panics why
  | Returns (Err _) => Returns (Err ["failed to open audit sink"])
  | Returns (Ok st) =>
      Returns (Ok {| fs_server_key := boot_audit_key b; fs_state := st;
                     fs_file := match boot_log b with Ok (Some content) => content | _ => [] end;
                     fs_draws := boot_draws b; fs_calls := 0; fs_accepted := [] |})
  end.

Definition start_with_sink (b : Boot) (http_bind grpc_bind : string) (keys : gset string) (enclave : MockEnclave)
    (sink : FileAuditSink) : result Anyhow Server :=
  let env := boot_env b in
  let disable_http := env_flag env "QFC_SERVER_WALLET_DISABLE_HTTP" in
  anchor ← with_context "on-chain audit anchor configuration invalid" (maybe_spawn_anchor_job env);
  _ ← if disable_http then mret () else map_err (λ _, ["HTTP bind " +:+ http_bind]) (boot_http_bind b);
  mret {| srv_api_keys := keys;
          srv_audit_path := default "./audit.ndjson" (env "QFC_SERVER_WALLET_AUDIT_PATH");
          srv_enclave := enclave;
          srv_world := World_new mock_store_new (allow_all (boot_policy_id b)) sink;
          srv_anchor := anchor;
          srv_http := if disable_http then None else Some http_bind;
          srv_grpc := if env_flag env "QFC_SERVER_WALLET_DISABLE_GRPC" then None
                      else Some (grpc_bind, negb (env_flag env "QFC_SERVER_WALLET_DISABLE_REFLECTION")) |}.

(** What precedes the audit file: addresses, keys and the enclave. *)
Definition start_config (b : Boot) : result Anyhow (string * string * gset string * MockEnclave) :=
  let env := boot_env b in
  http_bind ← http_addr env;
  grpc_bind ← grpc_addr env;
  _ ← if env_flag env "QFC_SERVER_WALLET_DISABLE_HTTP" && env_flag env "QFC_SERVER_WALLET_DISABLE_GRPC"
      then Err ["both HTTP and gRPC servers disabled — nothing to serve"] else Ok ();
  keys ← required_api_keys env;
  enclave ← map_err (λ _, ["MockEnclave init failed — set QFC_ALLOW_MOCK_ENCLAVE=yes-i-know for dev runs"])
              (MockEnclave_new (env "QFC_ALLOW_MOCK_ENCLAVE") (boot_attestation_key b));
  mret (http_bind, grpc_bind, keys, enclave).

Definition start (b : Boot) : panics (result Anyhow Server) :=
  match start_config b with
  | Err e => Returns (Err e)
  | Ok (http_bind, grpc_bind, keys, enclave) =>
      match open_audit b with
      | Panics why => Panics why
      | Returns (Err e) => Returns (Err e)
      | Returns (Ok sink) => Returns (start_with_sink b http_bind grpc_bind keys enclave sink)
      end
  end.

(** ** Lemmas *)

Lemma start_ok b srv :
  start b = Returns (Ok srv) → ∃ http_bind grpc_bind keys enclave sink,
  start_config b = Ok (http_bind, grpc_bind, keys, enclave) ∧ open_audit b = Returns (Ok sink)
  ∧ start_with_sink b http_bind grpc_bind keys enclave sink = Ok srv.
Proof.
  unfold start. destruct (start_config b) as [[[[h g] ks] e]|]; [|done].
  destruct (open_audit b) as [[sink|]|]; [|done..]. intros [= Hs]. by exists h, g, ks, e, sink.
Qed.

(** What a serving process was configured with. *)
Lemma started b srv :
  start b = Returns (Ok srv) → ∃ raw sink,
  boot_env b "QFC_SERVER_WALLET_API_KEYS" = Some raw ∧ srv_api_keys srv = load_api_keys raw ∧ srv_api_keys srv ≠ ∅
  ∧ boot_env b "QFC_ALLOW_MOCK_ENCLAVE" = Some MOCK_ENABLE_VALUE
  ∧ (is_Some (srv_http srv) ∨ is_Some (srv_grpc srv))
  ∧ open_audit b = Returns (Ok sink) ∧ srv_world srv = World_new mock_store_new (allow_all (boot_policy_id b)) sink
  ∧ maybe_spawn_anchor_job (boot_env b) = Ok (srv_anchor srv).
Proof.
  intros (h & g & ks & e & sink & Hc & Ho & Hs)%start_ok. revert Hc Hs.
  unfold start_config, start_with_sink. destruct (http_addr _) as [h'|]; [|done]. cbn.
  destruct (grpc_addr _) as [g'|]; [|done]. cbn. destruct (env_flag _ _ && env_flag _ _) eqn:Hd; [done|]. cbn.
  unfold required_api_keys. destruct (boot_env b "QFC_SERVER_WALLET_API_KEYS") as [raw|]; [|done]. cbn.
  case_bool_decide as Hne; [done|]. cbn. unfold MockEnclave_new, env_gate_open. case_bool_decide as Hg; [|done].
  cbn. intros [= <- <- <- <-]. destruct (maybe_spawn_anchor_job _) as [anchor|]; [|done]. cbn.
  destruct (env_flag _ "QFC_SERVER_WALLET_DISABLE_HTTP"); cbn in *.
  - intros [= <-]. exists raw, sink. cbn. rewrite Hd. split_and!; try done. right. by eexists.
  - destruct (boot_http_bind b); [|done]. intros [= <-]. exists raw, sink. cbn. split_and!; try done. left. by eexists.
Qed.

(** What the spawned job does. *)
Lemma run_anchor_job_spec node job ticks :
  if decide (job_interval_secs job = 0) then ∃ why, run_anchor_job node job ticks = Panics why
  else ∃ rs, run_anchor_job node job ticks =
         Returns (zip_with (λ t r, Submitted (current_anchor_payload t.1 t.2) r) ticks rs)
       ∧ length rs = length ticks.
Proof.
  unfold run_anchor_job, daily_anchor_commit_job_with_reader. destruct (decide _) as [->|Hne]; [by eexists|].
  rewrite (proj2 (Z.eqb_neq _ _) Hne).
  exists ((λ t, _ ← ChainAnchor.submit hex_text (job_anchor job) (node (job_rpc_url job)) (current_anchor_payload t.1 t.2);
                Ok ()) <$> ticks).
  split; [f_equal|apply length_fmap]. induction ticks as [|t ts IH]; [done|]. cbn. by f_equal.
Qed.

Context `{!UlidLaws, !JsonLaws, !DigestLaws, !Ed25519Laws, !EventSerdeLaws}.

(** The requests a server may serve. *)
Definition running (srv : Server) : W → Prop :=
  rtc (served (λ st, ∃ ent, st = app_state srv ent) any_approver) (srv_world srv).

(** A sink opened on a log holds it. *)
Lemma opened_log b sink es :
  open_audit b = Returns (Ok sink) → Forall event_ok es → chained genesis_hash es →
  boot_log b = Ok (Some (log_content es)) ∨ boot_log b = Ok None ∧ es = [] →
  log_of es sink [] ∧ fs_server_key sink = boot_audit_key b ∧ fs_draws sink = boot_draws b.
Proof.
  intros Ho Hok Hc Hr. assert (open_sink (boot_log b) = Returns (Ok {| head_hash := chain_head genesis_hash es;
    written := u64_wrap (Z.of_nat (length es)) |})) as Hopen.
  { destruct Hr as [->|[-> ->]]; [by apply open_log|done]. }
  revert Ho. unfold open_audit. rewrite Hopen. intros [= <-]. split; [|done].
  unfold log_of. cbn. rewrite app_nil_r. split_and!; try done. by destruct Hr as [->|[-> ->]].
Qed.

(** The log of a run that began on the log [old]. *)
Lemma run_log b srv old w :
  start b = Returns (Ok srv) → (∀ n, draw_ok (boot_draws b n)) → Forall event_ok old → chained genesis_hash old →
  boot_log b = Ok (Some (log_content old)) ∨ boot_log b = Ok None ∧ old = [] → running srv w →
  ∃ es, fs_file (w_audit w) = log_content (old ++ es) ∧ draft_of <$> es = sink_trace (w_audit w)
    ∧ Forall event_ok (old ++ es) ∧ chained genesis_hash (old ++ es)
    ∧ Forall (λ e, server_signature e = ed_sign (boot_audit_key b) (event_preimage e)) es.
Proof.
  intros (raw & sink & _ & _ & _ & _ & _ & Ho & Hw & _)%started Hd Hok Hc Hr Hs.
  destruct (opened_log b sink old Ho Hok Hc Hr) as (Hl & Hk & Hdr). unfold running in Hs. rewrite Hw in Hs.
  destruct (served_keeps _ _ (log_preserved (boot_audit_key b) (boot_draws b) old Hd) _ _ _ Hs) as ([es (Hf & Hc' & Hok' & Hsig & _ & Htr)] & Hk' & _).
  - split; [by exists []|]. split; [done|]. split; [done|]. apply map_Forall_empty.
  - exists es. rewrite Hk' in Hsig. done.
Qed.

(** ** Properties *)


(** C17. The log of a server's life: started on an absent or empty file, after any
    requests on either surface, in any order and with any outcome, the audit file
    replays under the server's key, with one event for each draft the service's
    calls got accepted, in their order — provided no write failed half-way. *)
Theorem server_log_replays b srv w :
  start b = Returns (Ok srv) → boot_log b = Ok None ∨ boot_log b = Ok (Some []) →
  (∀ n, draw_ok (boot_draws b n)) → running srv w →
  let file := fs_file (w_audit w) in let accepted := sink_trace (w_audit w) in
  replay_verify (Ok file) (server_public_key (boot_audit_key b)) = Ok (u64_wrap (Z.of_nat (length accepted)))
  ∧ ∃ es, file = log_content es ∧ draft_of <$> es = accepted.
Proof.
  intros Hs Hr Hd Hw. destruct (run_log b srv [] w Hs Hd) as (es & Hf & Ht & Hok & Hc & Hsig); try done.
  { destruct Hr as [->| ->]; [by right|by left]. }
  cbv zeta. rewrite <-Ht, length_fmap, Hf. split; [|by exists es].
  apply replay_verify_log; [done|]. split_and!; [done..|].
  eapply Forall_impl; [exact Hsig|]. intros e He. by apply signed_verifies.
Qed.

(** A restart draws a new audit key.  The second run extends the first one's log
    and its hash chain, but a key under which the whole file replays must accept
    signatures made with the keys of both runs: neither server's public key does,
    unless it verifies the other's signatures. *)
Theorem restarted_log_needs_both_keys b1 srv1 w1 b2 srv2 w2 vk n :
  start b1 = Returns (Ok srv1) → boot_log b1 = Ok None → (∀ n, draw_ok (boot_draws b1 n)) → running srv1 w1 →
  start b2 = Returns (Ok srv2) → boot_log b2 = Ok (Some (fs_file (w_audit w1))) → (∀ n, draw_ok (boot_draws b2 n)) →
  running srv2 w2 → sink_trace (w_audit w1) ≠ [] → sink_trace (w_audit w2) ≠ [] →
  replay_verify (Ok (fs_file (w_audit w2))) vk = Ok n →
  n = u64_wrap (Z.of_nat (length (sink_trace (w_audit w1)) + length (sink_trace (w_audit w2))))
  ∧ (∃ m, ed_verify vk m (ed_sign (boot_audit_key b1) m) = true)
  ∧ (∃ m, ed_verify vk m (ed_sign (boot_audit_key b2) m) = true).
Proof.
  intros Hs1 Hr1 Hd1 Hw1 Hs2 Hr2 Hd2 Hw2 Hn1 Hn2 Hv.
  destruct (run_log b1 srv1 [] w1 Hs1 Hd1) as (es1 & Hf1 & Ht1 & Hok1 & Hc1 & Hsig1); try done; [by right|].
  destruct (run_log b2 srv2 es1 w2 Hs2 Hd2) as (es2 & Hf2 & Ht2 & Hok2 & Hc2 & Hsig2); try done; [left; by rewrite Hr2, Hf1|].
  rewrite Hf2 in Hv. apply replay_verify_log in Hv as (-> & _ & [Hv1 Hv2]%Forall_app); [|done].
  rewrite <-Ht1, <-Ht2, !length_fmap, length_app in *.
  split; [done|]. split; eapply signed_and_verified; try done; by intros ->.
Qed.

(** The anchor: unset or blank, the URL disables it; set, every other variable
    must parse and the operator key is required, or the server does not start.
    The job of a positive interval submits, at every tick, the state of the log;
    an interval of zero is accepted and its job dies before the first tick. *)
Theorem anchor_configured b srv :
  start b = Returns (Ok srv) →
  (srv_anchor srv = None ↔ from_option blank true (boot_env b "QFC_ANCHOR_RPC_URL") = true)
  ∧ ∀ job, srv_anchor srv = Some job →
      boot_env b "QFC_ANCHOR_RPC_URL" = Some (job_rpc_url job)
      ∧ (∃ key sk, parse_hex_env 32 (boot_env b) "QFC_ANCHOR_OPERATOR_KEY" = Ok key
           ∧ k256_signing_key key = Ok sk ∧ ca_signing_key (job_anchor job) = sk)
      ∧ (∃ secs, env_u64 (boot_env b) "QFC_ANCHOR_INTERVAL_SECS" = Ok secs
           ∧ job_interval_secs job = default 86400 secs)
      ∧ ∀ node ticks, if decide (job_interval_secs job = 0)
          then ∃ why, run_anchor_job node job ticks = Panics why
          else ∃ rs, run_anchor_job node job ticks =
                 Returns (zip_with (λ t r, Submitted (current_anchor_payload t.1 t.2) r) ticks rs)
               ∧ length rs = length ticks.
Proof.
  intros (raw & sink & _ & _ & _ & _ & _ & _ & _ & Ha)%started. revert Ha. unfold maybe_spawn_anchor_job.
  destruct (boot_env b "QFC_ANCHOR_RPC_URL") as [url|]; cbn; [|by intros [= <-]].
  destruct (blank url); [by intros [= <-]|].
  destruct (parse_hex_env 32 _ _) as [key|]; [|done]. cbn. destruct (anchor_to _) as [to|]; [|done]. cbn.
  destruct (env_u64 _ "QFC_ANCHOR_CHAIN_ID") as [c|]; [|done]. cbn.
  destruct (env_u64 _ "QFC_ANCHOR_GAS_LIMIT") as [g|]; [|done]. cbn.
  destruct (env_u64 _ "QFC_ANCHOR_INTERVAL_SECS") as [i|]; [|done]. cbn. unfold ChainAnchor_new.
  destruct (k256_signing_key key) as [sk|] eqn:Hsk; [|done]. cbn. intros [= <-]. split; [done|].
  intros job [= <-]. split_and!; [done|by eexists _, _|by eexists|]. intros node ticks. apply run_anchor_job_spec.
Qed.
End server.

(** ** Witnesses *)

Module ServerWitness.
Import Concrete ConcreteRlp RegistryWitness AuditWitness ChainAnchorWitness ServiceWitness ApiWitness.

#[local] Instance addrs : SocketAddrs := {| parse_addr s := Some s |}.

Definition vars (interval : string) : Env := λ name,
  list_to_map (M := gmap string string)
    [("QFC_SERVER_WALLET_API_KEYS", " alpha ,beta"); ("QFC_ALLOW_MOCK_ENCLAVE", "yes-i-know");
     ("QFC_ANCHOR_RPC_URL", "http://localhost:8545"); ("QFC_ANCHOR_INTERVAL_SECS", interval);
     ("QFC_ANCHOR_OPERATOR_KEY", "0x" +:+ hex_encode (replicate 32 x01))] !! name.
Definition boot (interval : string) (key : byte) (log : option bytes) : Boot := {|
  boot_env := vars interval; boot_attestation_key := from_seed [x01]; boot_policy_id := PolicyId_from_ulid 2;
  boot_audit_key := replicate 32 key; boot_log := Ok log;
  boot_draws n := {| sd_id := EventId_from_ulid 1; sd_at := 0; sd_io := IoOk |}; boot_http_bind := Ok () |}.

Lemma boot_draws_ok i k l n : draw_ok (boot_draws (boot i k l) n).
Proof. split; [done|]. split; [split; vm_compute; congruence|done]. Qed.

(** Start-up succeeds when the audit file opens. *)
Lemma boots i k l sink anchor :
  open_audit (boot i k l) = Returns (Ok sink) → maybe_spawn_anchor_job (vars i) = Ok anchor →
  ∃ srv, start (boot i k l) = Returns (Ok srv) ∧ srv_enclave srv = EnclaveWitness.enclave
    ∧ srv_api_keys srv = load_api_keys " alpha ,beta"
    ∧ srv_world srv = World_new mock_store_new (allow_all (PolicyId_from_ulid 2)) sink ∧ srv_anchor srv = anchor.
Proof.
  intros Ho Ha. unfold start. replace (start_config (boot i k l)) with
    (Ok ("127.0.0.1:8088", "127.0.0.1:9090", load_api_keys " alpha ,beta", EnclaveWitness.enclave) : result Anyhow _)
    by reflexivity.
  rewrite Ho. unfold start_with_sink. cbn [boot_env boot]. rewrite Ha. eexists. split; [reflexivity|]. split; [reflexivity|].
  split; [reflexivity|]. split; reflexivity.
Qed.

Lemma shares_put (f : ShamirShare → StoredShare) l
    (w : @World StaticAllowDenyPolicy MockShareStore FileAuditSink MemoryApprovalStore) :
  ∃ w', svc_iter (λ s, put_share (f s)) l w = Returns (Ok (), w') ∧ w_audit w' = w_audit w.
Proof.
  revert w. induction l as [|s l IH]; intros w; [by eexists|].
  destruct (IH (with_shares w (mock_put (f s) (w_shares w)).2)) as (w' & Hw' & Hp). by exists w'.
Qed.

(** A wallet created over HTTP on a server whose next write succeeds. *)
Lemma creates srv sink :
  srv_enclave srv = EnclaveWitness.enclave → srv_api_keys srv = load_api_keys " alpha ,beta" →
  srv_world srv = World_new mock_store_new (allow_all (PolicyId_from_ulid 2)) sink →
  (∀ n, sd_io (fs_draws sink n) = IoOk) → fs_accepted sink = [] →
  ∃ w, running srv w ∧ sink_trace (w_audit w) ≠ [].
Proof.
  intros He Hk Hw Hio Ht.
  destruct (shares_put (λ s, {| stored_id := ShareId_new wid (index s); stored_at_unix_ms := 1000; stored_share := s |})
    (gen_shares EnclaveWitness.wallet) (srv_world srv)) as (w1 & Hputs & Ha1).
  set (rec := {| wr_wallet_id := wid; wr_config := config;
      wr_master_public_key := gen_master_public_key EnclaveWitness.wallet; wr_status := WalletActive;
      wr_created_at_unix_ms := 1000 |}).
  set (d := {| draft_actor := ActorSystem; draft_kind := WalletCreated; draft_request_id := None;
               draft_wallet_id := Some wid; draft_details := created_details config EnclaveWitness.wallet |}).
  set (w2 := with_wallets w1 (<[wid := rec]> (w_wallets w1))).
  assert (w_audit w2 = sink) as Ha2 by (change (w_audit w1 = sink); by rewrite Ha1, Hw).
  assert (∃ e, (sink_emit d sink).1 = Ok e ∧ sink_trace (sink_emit d sink).2 = [d]) as (e & Hok & Htr).
  { cbn. unfold file_emit, AuditLog.emit. rewrite Hio. eexists. split; [done|]. cbn. by rewrite Ht. }
  destruct (sink_emit d sink) as [q sink'] eqn:Hemit. cbn in Hok, Htr. subst q.
  exists (with_audit w2 sink'). split; [|by cbn; rewrite Htr]. apply rtc_once.
  eapply (served_http _ _ (app_state srv EnclaveWitness.ent) (draws FileAbsent) (Some (string_bytes "alpha")) (PostWallets body)
            _ (201, BWallet (wallet_view rec))); [by eexists|done|].
  assert (WalletService.create_wallet (WalletService_new (srv_enclave srv, EnclaveWitness.ent) idle_quorum) env config
            ActorSystem (srv_world srv) = Returns (Ok rec, with_audit w2 sink')) as Hc.
  - unfold WalletService.create_wallet. rewrite He.
    change (enclave_generate _ _) with
      (generate_wallet EnclaveWitness.enclave EnclaveWitness.ent EnclaveWitness.gen).
    replace (generate_wallet EnclaveWitness.enclave EnclaveWitness.ent EnclaveWitness.gen)
      with (Returns (Ok EnclaveWitness.wallet : result EnclaveError _)) by reflexivity.
    unfold mbind at 1, svc_bind at 1. cbn [map_err]. eapply svc_run; [exact Hputs|].
    eapply (svc_run _ _ _ () w2); [reflexivity|]. eapply (svc_run _ _ _ () (with_audit w2 sink')); [|reflexivity].
    change (WalletService.emit d w2 = Returns (Ok (), with_audit w2 sink')). unfold WalletService.emit.
    by rewrite Ha2, Hemit.
  - destruct (admitted state _ _ alpha_admitted) as (Hadm & _ & _). unfold serve. cbn [is_public handle].
    change (api_keys (app_state srv EnclaveWitness.ent)) with (srv_api_keys srv). rewrite Hk.
    change (load_api_keys " alpha ,beta") with (api_keys state). rewrite call_bind_of, Hadm.
    unfold ApiHandlers.create_wallet. rewrite call_bind_of.
    change (into_config _ _) with (Ok (E := ApiError) config). cbv iota beta. rewrite call_svc_through.
    change (ApiHandlers.service (app_state srv EnclaveWitness.ent)) with
      (WalletService_new (srv_enclave srv, EnclaveWitness.ent) idle_quorum).
    cbn [draws svc_draws]. by rewrite Hc.
Qed.

Definition sink0 (k : byte) : FileAuditSink := {|
  fs_server_key := replicate 32 k; fs_state := st0; fs_file := []; fs_draws := boot_draws (boot "60" k None);
  fs_calls := 0; fs_accepted := [] |}.

(** A first run that writes, on an absent file. *)
Lemma booted_run i anchor : maybe_spawn_anchor_job (vars i) = Ok anchor → ∃ srv w,
  start (boot i x0b None) = Returns (Ok srv) ∧ srv_anchor srv = anchor
  ∧ running srv w ∧ sink_trace (w_audit w) ≠ [].
Proof.
  intros Ha. destruct (boots i x0b None (sink0 x0b) anchor eq_refl Ha) as (srv & Hs & He & Hk & Hw & Han).
  destruct (creates srv (sink0 x0b) He Hk Hw) as (w & Hrun & Ht); [done..|]. exists srv, w.
  split; [exact Hs|]. split; [exact Han|]. split; [exact Hrun|exact Ht].
Qed.

Definition job (i : Z) : option AnchorJob :=
  match maybe_spawn_anchor_job (vars (show_dec i)) with Ok (Some j) => Some j | _ => None end.
Lemma spawned i : i = 0 ∨ i = 60 → maybe_spawn_anchor_job (vars (show_dec i)) = Ok (job i) ∧ job_interval_secs <$> job i = Some i.
Proof. by intros [->| ->]. Qed.


Example server_log_replays_witness : ∃ srv w, start (boot "60" x0b None) = Returns (Ok srv) ∧ running srv w
  ∧ sink_trace (w_audit w) ≠ []
  ∧ replay_verify (Ok (fs_file (w_audit w))) (server_public_key (replicate 32 x0b))
    = Ok (u64_wrap (Z.of_nat (length (sink_trace (w_audit w))))).
Proof.
  destruct (booted_run "60" _ (proj1 (spawned 60 (or_intror eq_refl)))) as (srv & w & Hs & _ & Hrun & Ht). exists srv, w.
  split; [exact Hs|]. split; [exact Hrun|]. split; [exact Ht|].
  apply (server_log_replays (boot "60" x0b None) srv w Hs (or_introl eq_refl) (boot_draws_ok _ _ _) Hrun).
Defined.

(** The second server's key does not replay the log. *)
Example restarted_log_needs_both_keys_witness : ∃ srv1 w1 srv2 w2,
  start (boot "60" x0b None) = Returns (Ok srv1) ∧ running srv1 w1
  ∧ start (boot "60" x0c (Some (fs_file (w_audit w1)))) = Returns (Ok srv2) ∧ running srv2 w2
  ∧ ∀ n, replay_verify (Ok (fs_file (w_audit w2))) (server_public_key (replicate 32 x0c)) ≠ Ok n.
Proof.
  pose proof (proj1 (spawned 60 (or_intror eq_refl))) as Hj.
  destruct (booted_run "60" _ Hj) as (srv1 & w1 & Hs1 & _ & Hr1 & Ht1). exists srv1, w1.
  destruct (run_log (boot "60" x0b None) srv1 [] w1 Hs1 (boot_draws_ok _ _ _) (List.Forall_nil _) I
              (or_intror (conj eq_refl eq_refl)) Hr1) as (es & Hf & _ & Hok & _).
  assert (∃ sink, open_audit (boot "60" x0c (Some (fs_file (w_audit w1)))) = Returns (Ok sink)
    ∧ (∀ n, sd_io (fs_draws sink n) = IoOk) ∧ fs_accepted sink = []) as (sink & Ho & Hio & Hacc).
  { unfold open_audit. cbn [boot_log boot]. rewrite Hf, open_log by exact Hok. eexists.
    split; [reflexivity|]. split; [intros n; reflexivity|reflexivity]. }
  destruct (boots "60" x0c _ sink _ Ho Hj) as (srv2 & Hs2 & He & Hk & Hw & _).
  destruct (creates srv2 sink He Hk Hw Hio Hacc) as (w2 & Hr2 & Ht2). exists srv2, w2.
  split; [exact Hs1|]. split; [exact Hr1|]. split; [exact Hs2|]. split; [exact Hr2|]. intros n Hv.
  destruct (restarted_log_needs_both_keys (boot "60" x0b None) srv1 w1 (boot "60" x0c (Some (fs_file (w_audit w1))))
    srv2 w2 (server_public_key (replicate 32 x0c)) n Hs1 eq_refl (boot_draws_ok _ _ _) Hr1 Hs2 eq_refl
    (boot_draws_ok _ _ _) Hr2 Ht1 Ht2 Hv) as (_ & [m Hm] & _).
  revert Hm. cbn. case_bool_decide; naive_solver.
Defined.

(** The interval of zero. *)
Example anchor_configured_witness : ∃ srv job, start (boot "0" x0b None) = Returns (Ok srv)
  ∧ srv_anchor srv = Some job ∧ ∀ node ticks, ∃ why, run_anchor_job node job ticks = Panics why.
Proof.
  destruct (spawned 0 (or_introl eq_refl)) as [Hj Hi].
  destruct (booted_run "0" _ Hj) as (srv & w & Hs & Ha & _).
  destruct (ServerWitness.job 0) as [j|] eqn:Hjob; [|discriminate Hi]. injection Hi as Hi. exists srv, j.
  split; [exact Hs|]. split; [exact Ha|].
  destruct (anchor_configured (boot "0" x0b None) srv Hs) as [_ Hc]. destruct (Hc j Ha) as (_ & _ & _ & Hrun).
  intros node ticks. specialize (Hrun node ticks). rewrite Hi in Hrun. exact Hrun.
Defined.
End ServerWitness.
