(* ===== verification/QuorumFlow.v ===== *)
(** * QuorumFlow: a quorum from submission to signature

    The [OrchestratingApprover] of [approvers/orchestrating.rs] behind the wallet
    service, over the approval store the submission endpoints write to.  While
    [sign] waits, other requests run on either surface; the collector sees the
    store as they leave it.  What it counts was checked when it was submitted. *)

From S2P Require Import Prelude Text Types External PolicyTypes SignedDecision Derivation Signers Attestation Rlp EvmDecoder HybridVerifier MockEnclave AuditLog Approval Registry ApprovalStore ShareStore Orchestrating WalletService WalletServiceProps ApiSchemas ApiHandlers GrpcConvert GrpcHandlers Surfaces.
#[local] Open Scope string_scope.
#[local] Open Scope list_scope.
#[local] Open Scope Z_scope.

(** ** The builder *)

Record OrchestratingApproverBuilder (S : Type) := {
  bld_notifiers : list Notifier;
  bld_store : option S;
  bld_poll_backoff : Z;
}.
Arguments Build_OrchestratingApproverBuilder {S}.
Arguments bld_notifiers {S}.
Arguments bld_store {S}.
Arguments bld_poll_backoff {S}.

(** The approver; durations are in nanoseconds. *)
Record OrchestratingApprover (S : Type) := {
  oa_notifiers : list Notifier;
  oa_store : S;
  oa_poll_backoff : Z;
}.
Arguments Build_OrchestratingApprover {S}.
Arguments oa_notifiers {S}.
Arguments oa_store {S}.
Arguments oa_poll_backoff {S}.

Section builder.
Context {S : Type}.
Definition builder_default : OrchestratingApproverBuilder S := {|
  bld_notifiers := []; bld_store := None; bld_poll_backoff := 50 * 1000000 |}.
Definition with_notifier (n : Notifier) (b : OrchestratingApproverBuilder S) : OrchestratingApproverBuilder S := {|
  bld_notifiers := bld_notifiers b ++ [n]; bld_store := bld_store b; bld_poll_backoff := bld_poll_backoff b |}.
Definition with_store (s : S) (b : OrchestratingApproverBuilder S) : OrchestratingApproverBuilder S := {|
  bld_notifiers := bld_notifiers b; bld_store := Some s; bld_poll_backoff := bld_poll_backoff b |}.
Definition with_poll_backoff (d : Z) (b : OrchestratingApproverBuilder S) : OrchestratingApproverBuilder S := {|
  bld_notifiers := bld_notifiers b; bld_store := bld_store b; bld_poll_backoff := d |}.
Definition build (b : OrchestratingApproverBuilder S) : panics (OrchestratingApprover S) :=
  match bld_store b with
  | None => Panics "OrchestratingApprover requires an ApprovalStore"
  | Some s => Returns {| oa_notifiers := bld_notifiers b; oa_store := s; oa_poll_backoff := bld_poll_backoff b |}
  end.
End builder.

(** How long one iteration sleeps. *)
Definition poll_wait {S} (oa : OrchestratingApprover S) (timeout elapsed : Z) : Z :=
  Z.min (Z.max 0 (timeout - elapsed)) (oa_poll_backoff oa).

(** ** The approver behind the service *)

Section quorum.
Context {S : Type} `{UlidCrate, ApprovalStore S}.

(** The approver's answers in one run: the store and the time passed at each
    iteration, and the iteration by which a timeout has passed. *)
Record CollectRun := { run_store : nat → S; run_elapsed : nat → Z; run_deadline : Z → nat }.

Definition orchestrated (notifiers : list Notifier) (run : CollectRun) : Quorum := {|
  q_request := request_approval notifiers;
  q_collect rid threshold timeout :=
    default (Err (Timeout timeout))
      (collect_approvals (Datatypes.S (run_deadline run timeout)) rid threshold timeout (run_store run) (run_elapsed run)) |}.
End quorum.
Arguments CollectRun S : clear implicits.

(** A store keeps what it has and gains at most the approval it is given. *)
Class StoreRecordLaws (S : Type) `{ApprovalStoreLaws S} : Prop := {
  store_record_law s a aid r s' : good s → store_record a aid s = (r, s') →
    good s' ∧ ∀ rid b ap, recorded s' rid b = Some ap →
      recorded s rid b = Some ap ∨ (rid = sa_request_id a ∧ b = aid ∧ ap = a);
}.

#[export] Instance memory_record_laws : StoreRecordLaws MemoryApprovalStore.
Proof.
  split. intros st a aid r st' [pend Hok] Hr. cbn in Hr. unfold ApprovalStore.record_approval in Hr.
  destruct (record_claim a aid st) as [q st1] eqn:Hc.
  destruct (record_claim_inv _ _ _ _ _ Hc) as [(-> & Hfree & Hin & Hby)|(Hq & -> & _)].
  - injection Hr as <- <-. split.
    + exists pend. apply (step_preserves_ok (st1, [] ++ (a, aid) :: pend)); [apply step_index|].
      by apply (step_preserves_ok (st, pend)); [apply step_claim|].
    + intros rid b ap. cbn. rewrite Hin. destruct (decide ((sa_request_id a, aid) = (rid, b))) as [[= <- <-]|Hne].
      * rewrite lookup_insert_eq. intros [= <-]. by right.
      * rewrite lookup_insert_ne by done. by left.
  - assert (st' = st) as -> by (destruct q as [[]|]; by injection Hr as _ <-).
    split; [by exists pend|]. intros rid b ap Hrec. by left.
Qed.

(** ** Submissions are vouched for *)

Section flow.
Context `{UlidCrate, UlidParse, HexCrate, JsonCrate, DigestCrate, Ed25519Crate, K256Crate, MlDsaCrate, RlpCrate}.
Context `{EventSerde, HashOrder, !HashOrderLaws, HeaderCrate, ErrorTexts}.
Context {P Sh A AS E : Type} `{Policy P, ShareStore Sh, AuditSink A, StoreRecordLaws AS, Enclave E}.

#[local] Abbreviation W := (@World P Sh A AS).

(** An approver id that no approver has. *)
Definition unused (id : ApproverId) (w : W) : Prop := approvers (w_registry w) !! id = None.

(** The approval was signed with the key of the approver registered under [aid],
    for this request, and was fresh at some time. *)
Definition vouched_for (w : W) (rid : RequestId) (aid : ApproverId) (ap : SignedApproval) : Prop :=
  ∃ rec now, Registry.get_approver aid (w_registry w) = Ok rec ∧ identity rec = sa_approver ap
    ∧ approval_verify ap rid (sa_message_hash ap) now = Ok ().

(** The invariant: every approval on record is vouched for. *)
Definition vouched (w : W) : Prop :=
  good (w_approvals w) ∧ map_Forall (λ id _, is_ulid (WalletId_ulid id)) (w_wallets w)
  ∧ ∀ rid aid ap, recorded (w_approvals w) rid aid = Some ap → vouched_for w rid aid ap.

(** Approvers only change status. *)
Definition registry_grows (r r' : Inner) : Prop := ∀ aid rec, Registry.get_approver aid r = Ok rec →
  ∃ rec', Registry.get_approver aid r' = Ok rec' ∧ identity rec' = identity rec.

Lemma vouched_registry w reg : registry_grows (w_registry w) reg → vouched w → vouched (with_registry w reg).
Proof.
  intros Hg (Hgood & Hw & Hv). split; [done|]. split; [done|]. intros rid aid ap Hr.
  destruct (Hv rid aid ap Hr) as (rec & now & Hrec & Hid & Hver).
  destruct (Hg aid rec Hrec) as (rec' & Hrec' & Hid'). exists rec', now. split; [done|]. by rewrite Hid'.
Qed.

Lemma add_grows w id now c : unused id w → registry_grows (w_registry w) (Registry.add_approver id now c (w_registry w)).2.
Proof.
  intros Hu aid rec Hrec. exists rec. split; [|done]. unfold Registry.get_approver in *. cbn.
  destruct (decide (id = aid)) as [->|Hne]; [by rewrite Hu in Hrec|]. by rewrite lookup_insert_ne.
Qed.
Lemma revoke_grows id r : registry_grows r (Registry.revoke_approver id r).2.
Proof.
  intros aid rec Hrec. unfold Registry.get_approver, Registry.revoke_approver in *. destruct (approvers r !! id) as [old|] eqn:Ho; cbn.
  - destruct (decide (id = aid)) as [->|Hne].
    + rewrite Ho in Hrec. injection Hrec as ->. rewrite lookup_insert_eq. by eexists.
    + rewrite lookup_insert_ne by done. by exists rec.
  - by exists rec.
Qed.
Lemma set_grows id now c r q r' : Registry.create_approver_set id now c r = Some (q, r') → registry_grows r r'.
Proof.
  intros Hc. assert (approvers r' = approvers r) as Ha.
  - destruct (create_approver_set_cases id now c r) as (q' & Hq & _). rewrite Hq in Hc. injection Hc as <- <-. by destruct q'.
  - intros aid rec Hrec. exists rec. unfold Registry.get_approver in *. by rewrite Ha.
Qed.

Lemma vouched_record text now a aid h : keeps vouched (WalletService.record_approval text now a aid h : Svc W _).
Proof.
  intros w r w' Hv. unfold WalletService.record_approval.
  destruct (Registry.get_approver aid (w_registry w)) as [rec|] eqn:Hrec; [|by intros [= <- <-]].
  case_bool_decide as Hid; cbn [negb]; [|by intros [= <- <-]]. case_bool_decide as Hst; [by intros [= <- <-]|].
  destruct (approval_verify a _ h now) as [[]|] eqn:Hver; [|by intros [= <- <-]].
  destruct (store_record a aid (w_approvals w)) as [q st] eqn:Hr.
  assert (vouched (with_approvals w st)) as Hv'; [|destruct q as [|[]]; by intros [= <- <-]].
  destruct Hv as (Hg & Hw & Hv). destruct (store_record_law _ _ _ _ _ Hg Hr) as [Hg' Hnew].
  split; [done|]. split; [done|]. intros rid b ap Hrec'. cbn in Hrec'.
  destruct (Hnew rid b ap Hrec') as [Hold|(-> & -> & ->)]; [exact (Hv rid b ap Hold)|].
  pose proof (proj1 (approval_verify_ok _ _ _ _) Hver) as (_ & Hm & _). exists rec, now. rewrite Hm. done.
Qed.

Lemma vouched_preserved : preserved unused vouched.
Proof.
  split.
  - by intros w (_ & Hw & _).
  - intros d _ w r w' Hv. unfold WalletService.emit. destruct (sink_emit _ _) as [[]]; by intros [= <- <-].
  - intros s w r w' Hv. unfold put_share. destruct (share_put _ _) as [[]]; by intros [= <- <-].
  - intros env req w r w' Hv. unfold evaluate_policy. destruct (policy_evaluate _ _ _ _) as [[]]; by intros [= <- <-].
  - intros w id rec Hid (Hg & Hw & Hv). split_and!; [done| |done]. by apply map_Forall_insert_2.
  - apply vouched_record.
  - intros w id now c Hu. by apply vouched_registry, add_grows.
  - intros w id. apply vouched_registry, revoke_grows.
  - intros w id now c r reg Hv Hc. by eapply vouched_registry, Hv; eapply set_grows.
Qed.

Lemma sign_collected t1 t2 t3 t4 t5 (self : @WalletService.WalletService E) env wid payload r hd ctx h (w : W) resp w'
    i pid t n set rat p :
  WalletService.sign t1 t2 t3 t4 t5 self env wid payload r hd ctx h w = Returns (Ok resp, w') →
  policy_evaluate (w_policy w) (limiter_clock env) (fresh_decision env) (policy_request env wid payload r hd)
    = (Ok (RequireQuorum i pid t n set rat), p) →
  ∃ approvals timeout, q_collect (svc_quorum self) (fresh_request env) t timeout = Ok approvals
    ∧ Forall (λ a, sa_decision a = Approve) approvals.
Proof.
  intros (wallet & d & p' & w1 & ds & _ & _ & Hev & _ & _ & _ & Hd)%sign_ok Hq. rewrite Hq in Hev. injection Hev as <- <-.
  apply sign_decided_ok in Hd as (kinds & signed & stored & ids & ds' & (approvals & timeout & Hc & Hall & _) & _). eauto.
Qed.

(** ** Properties *)

(** C22. From submission to signature.  A server on which only vouched approvals are on
    record (a new one is such) serves any requests on either surface while [sign]
    waits for its quorum.  If the policy asks for [t] approvals and [sign]
    returns a signature, then at some poll at least [t] approvals of this request
    were on record, all [Approve], from as many different registered approvers,
    each signed with the key of the approver's registered identity and fresh when
    it was submitted.  (The message hash each of them signed is the one it
    carries; nothing compares it with the message of the request.) *)
Theorem quorum_signature_vouched t1 t2 t3 t4 t5 (self : @WalletService.WalletService E) env wid payload r hd ctx h
    (w : W) resp w' i pid t n set rat p notifiers run sts (ws : nat → W) :
  svc_quorum self = orchestrated notifiers run → (∀ k, run_store run k = w_approvals (ws k)) →
  vouched w → (∀ k, rtc (served (E := E) sts unused) w (ws k)) →
  policy_evaluate (w_policy w) (limiter_clock env) (fresh_decision env) (policy_request env wid payload r hd)
    = (Ok (RequireQuorum i pid t n set rat), p) →
  WalletService.sign t1 t2 t3 t4 t5 self env wid payload r hd ctx h w = Returns (Ok resp, w') →
  ∃ k ids approvals, t ≤ Z.of_nat (length approvals) ∧ NoDup ids
    ∧ Forall2 (λ aid ap, recorded (w_approvals (ws k)) (fresh_request env) aid = Some ap ∧ sa_decision ap = Approve
                         ∧ vouched_for (ws k) (fresh_request env) aid ap) ids approvals.
Proof.
  intros Hsq Hrun Hv Hws Hev Hsign.
  destruct (sign_collected _ _ _ _ _ _ _ _ _ _ _ _ _ _ _ _ _ _ _ _ _ _ _ Hsign Hev) as (l & timeout & Hc & Hall).
  assert (∀ k, vouched (ws k)) as Hvk by (intros k; by apply (served_keeps _ _ vouched_preserved _ _ _ (Hws k))).
  rewrite Hsq in Hc. cbn [orchestrated q_collect] in Hc.
  destruct (collect_approvals (Datatypes.S _) _ _ _ (run_store run) _) as [q|] eqn:Hcol; [|done]. cbn in Hc. subst q.
  apply collect_from_first in Hcol as (k & _ & Hp & _). rewrite Nat.add_0_l, Hrun in Hp.
  destruct (Hvk k) as (Hg & _ & Hrec). apply poll_ok in Hp as [(rej & a & -> & Hrej & _)|(Ht & ids & Hnd & Hids)]; [| |done].
  - apply Forall_cons in Hall as [Hall _]. congruence.
  - exists k, ids, l. split; [done|]. split; [done|]. eapply Forall2_impl; [exact Hids|].
    intros aid ap (Ha & Hd & Hr). split; [done|]. split; [done|]. by apply Hrec.
Qed.

(** A new server, whose store is empty, is vouched for. *)
Lemma new_server_vouched (w : W) :
  good (w_approvals w) → (∀ rid aid, recorded (w_approvals w) rid aid = None) → w_wallets w = ∅ → vouched w.
Proof.
  intros Hg Hn Hw. split; [done|]. split; [rewrite Hw; apply map_Forall_empty|]. intros rid aid ap Hr.
  by rewrite Hn in Hr.
Qed.

(** Without a store there is no approver: [build] panics exactly then, and
    otherwise returns what was configured. *)
Theorem build_needs_store (b : OrchestratingApproverBuilder AS) :
  (bld_store b = None ↔ ∃ why, build b = Panics why)
  ∧ ∀ oa, build b = Returns oa → bld_store b = Some (oa_store oa) ∧ oa_notifiers oa = bld_notifiers b
      ∧ ∀ timeout elapsed, poll_wait oa timeout elapsed ≤ bld_poll_backoff b.
Proof.
  unfold build. destruct (bld_store b) as [s|].
  - split; [split; [done|by intros []]|]. intros oa [= <-]. split; [done|]. split; [done|].
    intros. unfold poll_wait. cbn. lia.
  - split; [split; [by eexists|done]|done].
Qed.
End flow.

(** ** Witnesses *)

Module QuorumWitness.
Import Concrete ConcreteRlp RegistryWitness ServiceWitness.

#[local] Instance serde : EventSerde := {| event_from_slice _ := Err "none" |}.
#[local] Instance headers : HeaderCrate := {| header_to_str _ := None |}.
#[local] Instance hex : HexCrate := {| hex_decode _ := None |}.
#[local] Instance texts : ErrorTexts := {|
  ulid_text _ := ""; hex_text _ := ""; hd_path_text _ := ""; quorum_text _ := ""; verify_text _ := "";
  enclave_error_text _ := ""; audit_text _ := ""; share_text _ := ""; policy_text _ := ""; json_text _ := "";
  store_text _ := ""; deny_reason_text _ := ""; signer_error_text _ := ""; overflow_error_text := "" |}.

Definition one_of_one : PolicyDecision :=
  RequireQuorum (DecisionId_from_ulid 1) (PolicyId_from_ulid 2) 1 1 (ApproverSetId_from_ulid 6) [].

(** Alice is registered; her approval arrives. *)
Definition before : @World FixedPolicy MockShareStore ListSink MemoryApprovalStore := {|
  w_shares := w_shares stocked; w_policy := {| fixed := one_of_one |}; w_audit := {| kept := [] |};
  w_registry := w_registry registered; w_approvals := store_new; w_wallets := w_wallets stocked |}.
Definition after : @World FixedPolicy MockShareStore ListSink MemoryApprovalStore :=
  with_approvals before (ApprovalStore.record_approval approval alice store_new).2.

Lemma submitted : WalletService.record_approval text 3000 approval alice (sa_message_hash approval) before
  = Returns (Ok Inserted, after).
Proof.
  destruct approval_recorded as (w' & Hw'). revert Hw'.
  unfold WalletService.record_approval. change (w_registry before) with (w_registry registered).
  change (w_approvals before) with (w_approvals registered).
  destruct (Registry.get_approver _ _) as [rec|]; [|discriminate]. destruct (negb _); [discriminate|].
  destruct (bool_decide _); [discriminate|]. destruct (approval_verify _ _ _ _); [|discriminate]. intros _. reflexivity.
Qed.

Lemma before_vouched : vouched before.
Proof.
  split; [exists []; apply store_new_ok|]. split; [|by intros rid aid ap]. by apply map_Forall_singleton.
Qed.
Lemma after_vouched : vouched after.
Proof. exact (vouched_record text 3000 approval alice (sa_message_hash approval) before _ _ before_vouched submitted). Qed.

Definition run : CollectRun MemoryApprovalStore := {|
  run_store _ := w_approvals after; run_elapsed _ := 0; run_deadline _ := O |}.
Definition collecting : @WalletService.WalletService YesEnclave := {|
  svc_enclave := svc_enclave approving; svc_quorum := orchestrated [] run; svc_quorum_timeout := 0;
  policy_service_signer := None |}.
Definition call := WalletService.sign text text text text "" collecting env wid (Raw [x01]) (ApiKey "k") None ctx HashNone after.
Lemma call_signs : ∃ resp w', call = Returns (Ok resp, w').
Proof.
  assert (match call with Returns (Ok _, _) => true | _ => false end = true) as Hq by reflexivity.
  destruct call as [[[resp|] w']|]; [by eexists _, _|done..].
Qed.

Example quorum_signature_vouched_witness : ∃ ids approvals, 1 ≤ Z.of_nat (length approvals) ∧ NoDup ids
  ∧ Forall2 (λ aid ap, recorded (w_approvals after) (RequestId_from_ulid 3) aid = Some ap ∧ sa_decision ap = Approve
                       ∧ vouched_for after (RequestId_from_ulid 3) aid ap) ids approvals.
Proof.
  destruct call_signs as (resp & w' & Hs).
  destruct (quorum_signature_vouched text text text text "" collecting env wid (Raw [x01]) (ApiKey "k") None ctx HashNone
    after resp w' (DecisionId_from_ulid 1) (PolicyId_from_ulid 2) 1 1 (ApproverSetId_from_ulid 6) [] {| fixed := one_of_one |}
    [] run (λ _, True) (λ _, after)) as (k & ids & aps & Ht & Hn & Hf).
  - reflexivity.
  - intros k. reflexivity.
  - exact after_vouched.
  - intros k. apply rtc_refl.
  - reflexivity.
  - exact Hs.
  - exists ids, aps. split; [exact Ht|]. split; [exact Hn|exact Hf].
Defined.
End QuorumWitness.
