(* ===== verification/Life.v ===== *)
(** * Life: what a server releases between its start and its end

    The requests of a server's life, each with the signature its answer carries.
    Three components meet here: the rule set and its rate limits (the policy),
    the orchestration (the service), and the surfaces.  The theorems count and
    classify the signatures that leave the process, whatever else is asked of it
    in between. *)

From S2P Require Import Prelude Text Types External PolicyTypes PolicySpec StaticPolicy F64 RateLimit RuleSetPolicy RuleSetProofs SignedDecision Derivation Signers Attestation Rlp EvmDecoder HybridVerifier MockEnclave AuditLog Approval Registry ApprovalStore ShareStore WalletService WalletServiceProps ApiSchemas ApiHandlers GrpcConvert GrpcHandlers Surfaces ApiProps.
#[local] Open Scope string_scope.
#[local] Open Scope list_scope.
#[local] Open Scope Z_scope.

Lemma call_bind_inv {Er W X Y} (m : Call Er W X) (f : X → Call Er W Y) w y w' :
  (m ≫= f) w = Returns (Ok y, w') ↔ ∃ x w1, m w = Returns (Ok x, w1) ∧ f x w1 = Returns (Ok y, w').
Proof. unfold mbind, call_bind. destruct (m w) as [[[]]|]; naive_solver. Qed.

Lemma call_of_inv {Er W X} (r : result Er X) (w : W) x w' :
  call_of r w = Returns (Ok x, w') ↔ r = Ok x ∧ w = w'.
Proof. unfold call_of. naive_solver. Qed.

Lemma call_svc_inv {Er W X} (f : ServiceError → Er) (m : Svc W X) w x w' :
  call_svc f m w = Returns (Ok x, w') ↔ m w = Returns (Ok x, w').
Proof. unfold call_svc. destruct (m w) as [[[]]|]; naive_solver. Qed.

(** Only a handler's own answer carries a signature. *)
Lemma respond_signed {W} (m : panics (result ApiError HttpResponse * W)) code r w :
  respond m = Returns ((code, BSign r), w) → m = Returns (Ok (code, BSign r), w).
Proof.
  destruct m as [[[resp|e] w1]|]; cbn; [by intros [= -> ->]| |done].
  unfold into_response. by destruct (api_parts e) as [[? ?] ?].
Qed.

(** Compute a chain of parses whose results are known. *)
Ltac read_back H :=
  repeat match goal with
         | Hr : _ = Ok _ |- _ => rewrite Hr in H; clear Hr; cbn [mbind result_bind] in H
         end; injection H as <-.

Section life.
Context `{UlidCrate, UlidParse, HexCrate, JsonCrate, DigestCrate, Ed25519Crate, K256Crate, MlDsaCrate, RlpCrate}.
Context `{EventSerde, HashOrder, HeaderCrate, ErrorTexts}.
Context {P Sh A AS E : Type} `{Policy P, ShareStore Sh, AuditSink A, ApprovalStore AS, Enclave E}.

#[local] Abbreviation W := (@World P Sh A AS).
#[local] Abbreviation svc_sign := (WalletService.sign deny_reason_text registry_error_text
  enclave_error_text signer_error_text overflow_error_text).
Implicit Types st : @AppState E.

(** ** Released signatures *)

(** The request to the policy behind a signature in an answer, if the answer
    carries one. *)
Definition http_released (env : ApiDraws) (req : HttpRequest) (resp : HttpResponse) : option SigningRequest :=
  match req, resp.2 with
  | PostSign id body, BSign _ =>
      result_ok (wallet_id ← parse_id WalletId_from_ulid "wallet_id" id;
                 hd_path ← hd_path_parsed body;
                 requester ← requester_into_domain (sr_requester body);
                 payload ← payload_into_domain (sr_payload body);
                 mret (policy_request (svc_draws env) wallet_id payload requester hd_path))
  | _, _ => None
  end.

Definition rpc_released {R} (env : ApiDraws) (req : Rpc R) (resp : result Status R) : option SigningRequest :=
  match req, resp with
  | RpcSign req, Ok _ =>
      result_ok (wallet_id ← parse_ulid WalletId_from_ulid "wallet_id" (Proto.ps_wallet_id req);
                 payload ← (p ← require_field "payload" (Proto.ps_payload req); lower_payload p);
                 requester ← (r ← require_field "requester" (Proto.ps_requester req); lower_requester r);
                 hd_path ← lower_hd_path (Proto.ps_hd_path req);
                 mret (policy_request (svc_draws env) wallet_id payload requester hd_path))
  | _, _ => None
  end.

(** One request, handled to its answer. *)
Inductive answers (sts : @AppState E → Prop) (fresh : ApproverId → W → Prop) : W → option SigningRequest → W → Prop :=
  | answers_http st env header req w resp w' :
      sts st → request_draws_ok fresh env w → serve st env header req w = Returns (resp, w') →
      answers sts fresh w (http_released env req resp) w'
  | answers_rpc st R env metadata (req : Rpc R) w resp w' :
      sts st → request_draws_ok fresh env w → rpc_serve st env metadata req w = Returns (resp, w') →
      answers sts fresh w (rpc_released env req resp) w'.

(** Any number of requests, with the signatures released, in order. *)
Inductive life (sts : @AppState E → Prop) (fresh : ApproverId → W → Prop) : W → list SigningRequest → W → Prop :=
  | life_nil w : life sts fresh w [] w
  | life_step w o w1 l w' :
      answers sts fresh w o w1 → life sts fresh w1 l w' → life sts fresh w (option_list o ++ l) w'.

Lemma answers_served sts fresh w o w' : answers sts fresh w o w' → served sts fresh w w'.
Proof. intros []; [by eapply served_http|by eapply served_rpc]. Qed.

(** A released signature is the result of the service's [sign] on that request. *)
Lemma released_signed sts fresh w q w' :
  answers sts fresh w (Some q) w' →
  ∃ st env ctx h resp, sts st ∧ q = policy_request env (wallet_id q) (payload q) (requester q) (hd_path q)
    ∧ svc_sign (service st) env (wallet_id q) (payload q) (requester q) (hd_path q) ctx h w = Returns (Ok resp, w').
Proof.
  intros Ha. remember (Some q) as o eqn:Ho.
  destruct Ha as [st env header req w resp w' Hst _ Hs|st R env md req w resp w' Hst _ Hs].
  - unfold http_released in Ho. destruct req; try done. destruct resp as [code []]; try done. cbn [snd] in Ho.
    unfold serve in Hs. cbn [is_public handle] in Hs. apply respond_signed in Hs.
    apply call_bind_inv in Hs as (? & ? & [_ <-]%call_of_inv & Hs). unfold sign in Hs.
    apply call_bind_inv in Hs as (wid & ? & [Hwid <-]%call_of_inv & Hs).
    apply call_bind_inv in Hs as (hd & ? & [Hhd <-]%call_of_inv & Hs).
    apply call_bind_inv in Hs as (rq & ? & [Hr <-]%call_of_inv & Hs).
    apply call_bind_inv in Hs as (p & ? & [Hp <-]%call_of_inv & Hs).
    apply call_bind_inv in Hs as (res & w1 & Hsign%call_svc_inv & [= _ _ <-]).
    read_back Ho. eexists st, (svc_draws env), _, _, res. by split; [|split; [|exact Hsign]].
  - unfold rpc_released in Ho. destruct req; try done. destruct resp as [res|]; [|done].
    unfold rpc_serve in Hs. rewrite call_bind_of in Hs. destruct (interceptor_check _ _); [|done].
    cbn [rpc_handle] in Hs. unfold rpc_sign in Hs.
    apply call_bind_inv in Hs as (wid & ? & [Hwid <-]%call_of_inv & Hs).
    apply call_bind_inv in Hs as (p & ? & [Hp <-]%call_of_inv & Hs).
    apply call_bind_inv in Hs as (r & ? & [Hr <-]%call_of_inv & Hs).
    apply call_bind_inv in Hs as (hd & ? & [Hhd <-]%call_of_inv & Hs).
    apply call_bind_inv in Hs as (h & ? & [_ <-]%call_of_inv & Hs).
    apply call_bind_inv in Hs as (ctx & ? & [_ <-]%call_of_inv & Hs).
    apply call_bind_inv in Hs as (resp & w1 & Hsign%call_svc_inv & [= _ <-]).
    read_back Ho.
    by exists st, (svc_draws env), ctx, h, resp.
Qed.

(** ** The log *)

Definition succeeded (ds : list AuditEventDraft) : list (option RequestId * option WalletId) :=
  (λ d, (draft_request_id d, draft_wallet_id d)) <$> filter (λ d, draft_kind d = SigningSucceeded) ds.

(** The accepted drafts only grow; the wallets known were given ULIDs. *)
Definition grown (ds : list AuditEventDraft) (w : W) : Prop :=
  ds `prefix_of` sink_trace (w_audit w) ∧ map_Forall (λ id _, is_ulid (WalletId_ulid id)) (w_wallets w).

Lemma emit_grows ds d w r w' : grown ds w → WalletService.emit d w = Returns (r, w') → grown ds w'.
Proof.
  intros [Hp Hw]. unfold WalletService.emit. destruct (sink_emit _ _) as [[e|e] a] eqn:He; intros [= _ <-]; split; try done.
  - apply sink_emit_ok in He. cbn. rewrite He. by apply prefix_app_r.
  - apply sink_emit_err in He. cbn. by rewrite He.
Qed.

Lemma grown_preserved fresh ds : preserved fresh (grown ds).
Proof.
  split.
  - by intros w [_ Hw].
  - intros d _ w r w'. apply emit_grows.
  - intros s w r w' [Hp Hw]. unfold put_share. destruct (share_put _ _) as [[] sh]; by intros [= _ <-].
  - intros env req w r w' [Hp Hw]. unfold evaluate_policy. destruct (policy_evaluate _ _ _ _) as [q p]. by intros [= _ <-].
  - intros w id rec Hid [Hp Hw]. split; [done|]. by apply map_Forall_insert_2.
  - intros text now a id h w r w' Hw. unfold WalletService.record_approval. repeat case_match; by intros [= <- <-].
  - done.
  - done.
  - done.
Qed.

(** A signing that returns has its success on the trail, under its own ids. *)
Lemma sign_succeeded self env wid payload r hd ctx h (w : W) resp w' :
  svc_sign self env wid payload r hd ctx h w = Returns (Ok resp, w') →
  ∃ ds, sink_trace (w_audit w') = sink_trace (w_audit w) ++ ds ∧ (Some (fresh_request env), Some wid) ∈ succeeded ds.
Proof.
  intros (wallet & d & p & w1 & ds1 & _ & _ & _ & Ha & Hab & _ & Hd)%sign_ok.
  apply sign_decided_ok in Hd as (kinds & signed & stored & ids & ds & _ & _ & _ & _ & _ & _ & Ha' & Hab' & Hk).
  exists (ds1 ++ ds). split; [by destruct (audited_trans _ _ _ _ _ Ha Ha') as [_ ->]|].
  assert (∃ e, e ∈ ds ∧ draft_kind e = SigningSucceeded) as (e & He & Hek).
  { assert (SigningSucceeded ∈ draft_kind <$> ds) as (e & -> & He)%list_elem_of_fmap; [|by exists e].
    rewrite Hk, !elem_of_app. do 2 right. set_solver. }
  unfold succeeded. apply list_elem_of_fmap. exists e. split.
  - rewrite Forall_forall in Hab'. by destruct (Hab' e He) as [-> ->].
  - apply list_elem_of_filter. split; [done|]. apply elem_of_app. by right.
Qed.

Lemma released_logged sts fresh w o w' :
  map_Forall (λ id _, is_ulid (WalletId_ulid id)) (w_wallets w) → answers sts fresh w o w' →
  ∃ ds, sink_trace (w_audit w') = sink_trace (w_audit w) ++ ds
    ∧ (λ q, (Some (request_id q), Some (wallet_id q))) <$> option_list o `sublist_of` succeeded ds.
Proof.
  intros Hw Ha. destruct o as [q|].
  - apply released_signed in Ha as (st & env & ctx & h & resp & _ & Hq & Hs).
    apply sign_succeeded in Hs as (ds & Ht & Hin). exists ds. split; [done|]. cbn.
    rewrite Hq. by apply singleton_sublist_l.
  - assert (grown (sink_trace (w_audit w)) w') as [[ds Hds] _].
    { apply (served_keeps _ _ (grown_preserved fresh _) sts w); [|by split].
      by eapply rtc_once, answers_served. }
    exists ds. split; [done|]. apply sublist_nil_l.
Qed.

(** C5. No signature leaves unrecorded.  Over any life of a server, whatever requests
    of either surface come in between and whatever sink, policy, enclave and
    stores are behind it, the accepted audit drafts only grow, and the signatures
    released are, in order, among the [SigningSucceeded] drafts they grew by,
    each under its own request and wallet. *)
Theorem signatures_logged sts fresh w l w' :
  map_Forall (λ id _, is_ulid (WalletId_ulid id)) (w_wallets w) → life sts fresh w l w' →
  ∃ ds, sink_trace (w_audit w') = sink_trace (w_audit w) ++ ds
    ∧ (λ q, (Some (request_id q), Some (wallet_id q))) <$> l `sublist_of` succeeded ds.
Proof.
  intros Hw Hl. induction Hl as [w|w o w1 l w' Ha _ IH].
  - exists []. by rewrite app_nil_r.
  - destruct (released_logged _ _ _ _ _ Hw Ha) as (ds1 & Ht1 & Hs1).
    destruct IH as (ds2 & Ht2 & Hs2).
    { apply (served_keeps _ _ (grown_preserved fresh []) sts w); [by eapply rtc_once, answers_served|].
      split; [apply prefix_nil|done]. }
    exists (ds1 ++ ds2). split; [by rewrite Ht2, Ht1, app_assoc|].
    unfold succeeded. rewrite filter_app, !fmap_app. by apply sublist_app.
Qed.
End life.

(** ** The policy's side *)

Section rules.
Context `{UlidCrate, HexCrate, TimeCrate, U256Crate}.

(** What the rule set says of a request that may be signed: none of its denials
    applies, every filter that exists lets it through, its decoded value, gas
    and selector respect the caps and shapes, it arrived in every time window,
    and either requests are allowed by default or a quorum rule fired. *)
Definition obeys (rs : RuleSet) (dec : option VmDecoder) (q : SigningRequest) : Prop :=
  let x := make_ctx {| rsp_rules := rs; rsp_limiter := TokenBucketLimiter_new; rsp_decoder := dec |}
             (DecisionId_from_ulid 0) q in
  ¬ chain_denied x ∧ ¬ contract_denied x ∧ ¬ chain_not_allowed x ∧ ¬ contract_not_allowed x
  ∧ ¬ method_not_allowed x ∧ ¬ value_capped x ∧ ¬ outside_window x ∧ ¬ shape_violated x
  ∧ (default_outcome rs = DefaultAllow ∨ quorum_required x).

Lemma evaluate_obeys self clock fresh q d p :
  validate (rsp_rules self) = Ok () → evaluate self clock fresh q = (Ok d, p) →
  (∀ why, verdict_of d ≠ VDeny why) →
  obeys (rsp_rules self) (rsp_decoder self) q
  ∧ (acquire_all q clock 0 (rsp_limiter self) (rules (rsp_rules self))).1 = true
  ∧ rsp_limiter p = (acquire_all q clock 0 (rsp_limiter self) (rules (rsp_rules self))).2.
Proof.
  intros Hv He Hd. destruct (evaluate_meets self clock fresh q Hv) as (d' & Hd' & Hh & _).
  pose proof (evaluate_state self clock fresh q) as Hst. rewrite He in Hd', Hst. injection Hd' as <-. cbn [snd] in Hst.
  assert (Forall (λ row, ¬ row.1) (precedence (make_ctx self fresh q) (negb (acquire_all q clock 0
            (rsp_limiter self) (rules (rsp_rules self))).1))) as Hno.
  { eapply first_holds_none; [exact Hh|]. repeat constructor; by intros ?%symmetry%Hd. }
  assert (quorum_or_default (make_ctx self fresh q) (default_outcome (rsp_rules self)) (verdict_of d)) as Hq.
  { eapply first_holds_last; [exact Hh|]. repeat constructor; by intros ?%symmetry%Hd. }
  cbn [precedence table_stateless app] in Hno. rewrite !Forall_cons in Hno. cbn [fst] in Hno.
  destruct Hno as (H1' & H2' & H3' & H4' & H5' & H6' & H7' & Hlim & H8' & _).
  split; [|split].
  - do 8 (split; [assumption|]). destruct Hq as [(pre & t & n & s & trig & post & Hr & Hf & _)|[_ Hv']].
    + right. exists t, n, s, trig. split; [|exact Hf]. cbn in Hr |- *. rewrite Hr. set_solver.
    + left. destruct (default_outcome _); [done|]. by destruct (Hd _ Hv').
  - by destruct (acquire_all _ _ _ _ _) as [[] ?].
  - destruct (stateless_gates _) as [r|e] eqn:Hg; [by rewrite Hst|].
    apply stateless_early in Hg; [|by apply validate_rules]. exfalso. revert Hg.
    apply Forall_not_Exists. by repeat constructor.
Qed.

(** ** Budgets *)

#[local] Instance RateLimitScope_eq_dec : EqDecision RateLimitScope.
Proof. solve_decision. Defined.

Definition limits (scope : RateLimitScope) (r : Rule) : bool :=
  match r with RateLimit _ _ s => bool_decide (s = scope) | _ => false end.

(** Buckets of different scopes have different keys. *)
Lemma rate_limit_key_scope s1 s2 q1 q2 : rate_limit_key s1 q1 = rate_limit_key s2 q2 → s1 = s2.
Proof. unfold rate_limit_key. destruct s1, s2; intros Heq; try done; rewrite !append_cons in Heq; discriminate Heq. Qed.

(** [n] whole tokens of [cap] are left in the bucket [k]. *)
Definition tokens_left (cap : Z) (k : string) (st : TokenBucketLimiter) (n : Z) : Prop :=
  0 ≤ n ≤ cap ∧ ((n = cap ∧ st !! k = None)
    ∨ ∃ t, st !! k = Some {| tokens := f64_of_Z n; last_refill_unix_ms := t |}).

Lemma tokens_left_lookup cap k st st' n : st' !! k = st !! k → tokens_left cap k st n → tokens_left cap k st' n.
Proof. unfold tokens_left. by intros ->. Qed.

Lemma acquire_spares k q clock n st rs :
  (∀ t r s, RateLimit t r s ∈ rs → rate_limit_key s q ≠ k) → (acquire_all q clock n st rs).2 !! k = st !! k.
Proof.
  revert n st. induction rs as [|r rs IH]; intros n st Hr; [done|].
  assert (∀ t r s, RateLimit t r s ∈ rs → rate_limit_key s q ≠ k) as Hrs by (intros ???; set_solver).
  destruct r; cbn [acquire_all]; try by apply IH.
  pose proof (try_acquire_other (clock n) st (rate_limit_key scope q) tokens refill_per_secs k) as Ho.
  specialize (Ho ltac:(intros Heq; by eapply Hr; [apply list_elem_of_here|])).
  destruct (try_acquire _ _ _ _ _) as [[] st']; cbn [snd] in Ho |- *; [|done]. by rewrite IH.
Qed.

(** A request on another bucket leaves this one alone. *)
Lemma acquire_elsewhere scope k q q0 clock n st rs :
  rate_limit_key scope q ≠ k → rate_limit_key scope q0 = k → (acquire_all q clock n st rs).2 !! k = st !! k.
Proof.
  intros Hne Hk. apply acquire_spares. intros t r s _ Heq. rewrite <-Hk in Heq.
  pose proof (rate_limit_key_scope _ _ _ _ Heq) as ->. congruence.
Qed.

Section budget.
Variables (scope : RateLimitScope) (cap : Z) (k : string).
Hypothesis Hcap : 0 ≤ cap ≤ u32_max.

(** A request on this bucket takes a token when it passes and never adds one. *)
Lemma acquire_charges q clock n st rs m :
  List.filter (limits scope) rs = [RateLimit cap 0 scope] → rate_limit_key scope q = k → tokens_left cap k st m →
  let r := acquire_all q clock n st rs in
  ∃ m', tokens_left cap k r.2 m' ∧ m' ≤ m ∧ (r.1 = true → m' < m).
Proof.
  intros Hf Hk. revert n st. induction rs as [|r rs IH]; intros n st Hm; [done|].
  destruct r; cbn [acquire_all]; try by apply IH. cbn [List.filter limits] in Hf.
  case_bool_decide as Hs.
  - subst scope0. injection Hf as -> -> Hf. rewrite Hk.
    assert (∀ st', (acquire_all q clock (S n) st' rs).2 !! k = st' !! k) as Hrest.
    { intros st'. apply acquire_spares. intros t r s Hin Heq. rewrite <-Hk in Heq. apply rate_limit_key_scope in Heq as ->.
      assert (RateLimit t r scope ∈ List.filter (limits scope) rs) as Hin'; [|by rewrite Hf in Hin'; set_solver].
      apply list_elem_of_In, filter_In. split; [by apply list_elem_of_In|]. cbn. by rewrite bool_decide_eq_true. }
    destruct (decide (cap = 0)) as [->|Hne]; [by exists m|]. destruct Hm as [Hm Hst].
    pose proof (try_acquire_whole (clock n) st k cap 0 m ltac:(lia) ltac:(unfold u32_max; lia) Hm
      ltac:(naive_solver)) as Ht.
    destruct (try_acquire _ _ _ _ _) as [ok st']. cbn [fst snd] in Ht. destruct Ht as (-> & t & Ht & _).
    exists (Z.max 0 (m - 1)). assert (tokens_left cap k st' (Z.max 0 (m - 1))) as Hl by (split; [lia|eauto]).
    destruct (Z.leb_spec 1 m); cbn [fst snd]; [|split; [done|]; split; [lia|done]].
    split; [by apply (tokens_left_lookup cap k st')|lia].
  - pose proof (try_acquire_other (clock n) st (rate_limit_key scope0 q) tokens refill_per_secs k) as Ho.
    specialize (Ho ltac:(rewrite <-Hk; by intros ?%symmetry%rate_limit_key_scope)).
    destruct (try_acquire _ _ _ _ _) as [[] st']; cbn [fst snd] in Ho |- *.
    + apply IH; [done|]. by apply (tokens_left_lookup cap k st).
    + exists m. split; [by apply (tokens_left_lookup cap k st)|done].
Qed.

End budget.
End rules.

(** ** A server under a rule set *)

Section system.
Context `{UlidCrate, UlidParse, HexCrate, JsonCrate, DigestCrate, Ed25519Crate, K256Crate, MlDsaCrate, RlpCrate}.
Context `{EventSerde, HashOrder, HeaderCrate, ErrorTexts, TimeCrate, U256Crate}.
Context {Sh A AS E : Type} `{ShareStore Sh, AuditSink A, ApprovalStore AS, Enclave E}.

#[local] Abbreviation W := (@World RuleSetPolicy Sh A AS).

(** The policy keeps its rules and decoder, and its buckets satisfy [Q]. *)
Definition ruled (rs : RuleSet) (dec : option VmDecoder) (Q : TokenBucketLimiter → Prop) (w : W) : Prop :=
  rsp_rules (w_policy w) = rs ∧ rsp_decoder (w_policy w) = dec ∧ Q (rsp_limiter (w_policy w))
  ∧ map_Forall (λ id _, is_ulid (WalletId_ulid id)) (w_wallets w).

Lemma ruled_preserved rs dec (Q : TokenBucketLimiter → Prop) fresh :
  (∀ q clock st, Q st → Q (acquire_all q clock 0 st (rules rs)).2) → preserved fresh (ruled rs dec Q).
Proof.
  intros HQ. split; try done.
  - by intros w (_ & _ & _ & Hw).
  - intros d _ w r w' Hw. unfold WalletService.emit. destruct (sink_emit _ _) as [[] a]; by intros [= _ <-].
  - intros s w r w' Hw. unfold put_share. destruct (share_put _ _) as [[] sh]; by intros [= _ <-].
  - intros env req w r w' (Hr & Hd & Hq & Hw). unfold evaluate_policy. cbn [policy_evaluate rule_set_policy].
    pose proof (evaluate_state (w_policy w) (limiter_clock env) (fresh_decision env) req) as Hst.
    destruct (evaluate _ _ _ _) as [res p]. cbn [snd] in Hst. intros [= _ <-]. unfold ruled. cbn [w_policy w_wallets with_policy].
    rewrite Hst. destruct (stateless_gates _); [|done]. split; [done|]. split; [done|]. split; [|done].
    cbn [rsp_limiter]. rewrite Hr. by apply HQ.
  - intros w id rec Hid (Hr & Hd & Hq & Hw). do 3 (split; [done|]). by apply map_Forall_insert_2.
  - intros text now a id h w r w' Hw. unfold WalletService.record_approval. repeat case_match; by intros [= <- <-].
Qed.

(** A released signature: the request obeyed the rules, and was charged. *)
Lemma released_obeys rs dec Q sts fresh (w : W) q w' :
  validate rs = Ok () → ruled rs dec Q w → answers (E := E) sts fresh w (Some q) w' →
  obeys rs dec q ∧ ∃ clock,
    acquire_all q clock 0 (rsp_limiter (w_policy w)) (rules rs) = (true, rsp_limiter (w_policy w')).
Proof.
  intros Hv (Hr & Hd & _ & _) Ha. apply released_signed in Ha as (st & env & ctx & h & resp & _ & Hq & Hs).
  apply sign_ok in Hs as (wallet & d & p & w1 & ds1 & _ & _ & Hev & Hau & _ & _ & Hdec).
  apply sign_decided_ok in Hdec as (kinds & signed & stored & ids & ds & Hp & _ & _ & _ & _ & _ & Hau' & _).
  assert (w_policy w' = p) as -> by (destruct (audited_trans _ _ _ _ _ Hau Hau') as [-> _]; done).
  rewrite <-Hq in Hev. subst rs dec.
  destruct (evaluate_obeys (w_policy w) (limiter_clock env) (fresh_decision env) q d p Hv Hev) as (Ho & H1' & H2').
  { intros why Hy. by destruct d. }
  split; [done|]. exists (limiter_clock env). destruct (acquire_all _ _ _ _ _). cbn in *. by subst.
Qed.

Lemma answers_ruled rs dec (Q : TokenBucketLimiter → Prop) sts fresh (w : W) o w' :
  (∀ q clock st, Q st → Q (acquire_all q clock 0 st (rules rs)).2) → answers (E := E) sts fresh w o w' →
  ruled rs dec Q w → ruled rs dec Q w'.
Proof.
  intros HQ Ha. apply (served_keeps _ _ (ruled_preserved rs dec Q fresh HQ) sts). by eapply rtc_once, answers_served.
Qed.

Lemma life_obeys rs dec sts fresh (w : W) l w' :
  validate rs = Ok () → ruled rs dec (λ _, True) w → life (E := E) sts fresh w l w' → Forall (obeys rs dec) l.
Proof.
  intros Hv Hw Hl. induction Hl as [|w o w1 l w' Ha _ IH]; [constructor|].
  apply Forall_app_2; [|by apply IH; eapply answers_ruled].
  destruct o as [q|]; [|constructor]. constructor; [|constructor]. by eapply released_obeys.
Qed.

Section budget.
Variables (rs : RuleSet) (dec : option VmDecoder) (scope : RateLimitScope) (cap : Z) (q0 : SigningRequest).
Hypothesis Hv : validate rs = Ok ().
Hypothesis Hcap : 0 ≤ cap ≤ u32_max.
Hypothesis Hone : List.filter (limits scope) (rules rs) = [RateLimit cap 0 scope].
#[local] Abbreviation k := (rate_limit_key scope q0).

Definition at_most (n : Z) (st : TokenBucketLimiter) : Prop := ∃ m, tokens_left cap k st m ∧ m ≤ n.

Lemma acquire_at_most n q clock st : at_most n st → at_most n (acquire_all q clock 0 st (rules rs)).2.
Proof.
  intros (m & Hm & Hn). destruct (decide (rate_limit_key scope q = k)) as [Heq|Hne].
  - destruct (acquire_charges scope cap k Hcap q clock 0 st (rules rs) m Hone Heq Hm) as (m' & Hm' & Hle & _).
    exists m'. split; [done|lia].
  - exists m. split; [|done]. eapply tokens_left_lookup; [|exact Hm]. by apply (acquire_elsewhere scope k q q0).
Qed.

Lemma life_budget sts fresh (w : W) l w' n :
  ruled rs dec (at_most n) w → life (E := E) sts fresh w l w' →
  Z.of_nat (length (filter (λ q, rate_limit_key scope q = k) l)) ≤ n.
Proof.
  intros Hw Hl. revert n Hw. induction Hl as [|w o w1 l w' Ha _ IH]; intros n Hw.
  - destruct Hw as (_ & _ & (m & [Hm _] & Hn) & _). cbn. lia.
  - pose proof (answers_ruled rs dec (at_most n) sts fresh w o w1 (acquire_at_most n) Ha Hw) as Hw1.
    rewrite filter_app, length_app. specialize (IH n Hw1) as IHn. destruct o as [q|]; [|cbn; lia].
    destruct (decide (rate_limit_key scope q = k)) as [Heq|Hne].
    2: { change (option_list (Some q)) with [q]. rewrite filter_cons_False by done. cbn. lia. }
    change (option_list (Some q)) with [q]. rewrite filter_cons_True by done. rewrite filter_nil. cbn [length].
    destruct (released_obeys rs dec _ sts fresh w q w1 Hv Hw Ha) as (_ & clock & Hacq).
    destruct Hw as (_ & _ & (m & Hm & Hn) & _).
    destruct (acquire_charges scope cap k Hcap q clock 0 _ (rules rs) m Hone Heq Hm) as (m' & Hm' & _ & Hlt).
    rewrite Hacq in Hm', Hlt. cbn [fst snd] in Hm', Hlt. specialize (Hlt eq_refl).
    assert (ruled rs dec (at_most (n - 1)) w1) as Hw1'.
    { destruct Hw1 as (? & ? & _ & ?). repeat (split; [done|]). split; [|done]. exists m'. split; [done|lia]. }
    specialize (IH _ Hw1'). lia.
Qed.
End budget.

(** ** Properties *)

(** C4. The rules hold of every signature that leaves.  A server whose policy was
    built from a rule set serves any requests on either surface; each signature
    it releases is for a request that no denial of the rule set covers, that
    every filter lets through, whose decoded transaction respects every cap and
    shape, that arrived in every time window, and that the default allows or
    a quorum rule covers. *)
Theorem signatures_obey_rules rs limiter dec sts fresh (w : W) l w' :
  with_components rs limiter dec = Ok (w_policy w) →
  map_Forall (λ id _, is_ulid (WalletId_ulid id)) (w_wallets w) →
  life (E := E) sts fresh w l w' → Forall (obeys rs dec) l.
Proof.
  unfold with_components. intros ([] & Hv & [= Hp])%result_bind_ok Hw.
  apply life_obeys; [done|]. unfold ruled. by rewrite <-Hp.
Qed.

(** C6. A budget without refill is for life.  If the rule set has one rate limit of a
    scope, [cap] tokens that never refill, then whatever is asked of the server,
    on either surface and in any order, at most [cap] signatures are ever
    released on one subject of that scope (wallet, requester or both), provided
    its bucket was untouched at the start. *)
Theorem signatures_within_budget rs limiter dec scope cap q0 sts fresh (w : W) l w' :
  with_components rs limiter dec = Ok (w_policy w) → 0 ≤ cap ≤ u32_max →
  List.filter (limits scope) (rules rs) = [RateLimit cap 0 scope] → limiter !! rate_limit_key scope q0 = None →
  map_Forall (λ id _, is_ulid (WalletId_ulid id)) (w_wallets w) → life (E := E) sts fresh w l w' →
  Z.of_nat (length (filter (λ q, rate_limit_key scope q = rate_limit_key scope q0) l)) ≤ cap.
Proof.
  unfold with_components. intros ([] & Hv & [= Hp])%result_bind_ok Hcap Hone Hn Hw.
  apply (life_budget rs dec scope cap q0 Hv Hcap Hone). unfold ruled. rewrite <-Hp. repeat (split; [done|]).
  split; [|done]. exists cap. split; [|lia]. split; [lia|]. by left.
Qed.
End system.

(** ** Witnesses *)

Module LifeWitness.
Import Concrete ConcreteRlp RegistryWitness AuditWitness ServiceWitness ApiWitness.

(** One wallet, two signatures for life; a request for the first of them. *)
Definition rs : RuleSet := {|
  version := 1; PolicyTypes.policy_id := PolicyId_from_ulid 1;
  rules := [DenyChain [13]; RateLimit 2 0 PerWallet; RateLimit 5 60 PerRequester]; default_outcome := DefaultAllow |}.
Definition pol : RuleSetPolicy := {| rsp_rules := rs; rsp_limiter := TokenBucketLimiter_new; rsp_decoder := None |}.
Definition start : @World RuleSetPolicy MockShareStore ListSink MemoryApprovalStore := {|
  w_shares := w_shares stocked; w_policy := pol; w_audit := {| kept := [] |}; w_registry := registry_new;
  w_approvals := store_new; w_wallets := w_wallets stocked |}.
Definition app : @AppState YesEnclave := {| ApiHandlers.service := approving; api_keys := load_api_keys "alpha" |}.
Definition q : SigningRequest := policy_request env wid (Raw [x01]) (ApiKey "k") None.
Definition call := serve app (draws FileAbsent) (Some (string_bytes "alpha"))
  (PostSign (ulid_to_string 4) (http_sign (Raw [x01]) (ApiKey "k") None ctx HashNone)) start.

Lemma call_answered : ∃ code r w', call = Returns ((code, BSign r), w').
Proof.
  assert (match call with Returns ((_, BSign _), _) => true | _ => false end = true) as Hq by reflexivity.
  destruct call as [[[code []] w']|]; try discriminate Hq. by eexists _, _, _.
Qed.

Lemma one_signature : ∃ w', life (λ st, st = app) (λ _ _, True) start [q] w'.
Proof.
  destruct call_answered as (code & r & w' & Hc). exists w'.
  change [q] with (option_list (Some q) ++ []). eapply life_step; [|apply life_nil].
  replace (Some q) with (http_released (draws FileAbsent) (PostSign (ulid_to_string 4)
    (http_sign (Raw [x01]) (ApiKey "k") None ctx HashNone)) (code, BSign r)) by reflexivity.
  eapply answers_http; [reflexivity|repeat split|exact Hc].
Qed.

Lemma start_wallets : map_Forall (λ id _, is_ulid (WalletId_ulid id)) (w_wallets start).
Proof. by apply map_Forall_singleton. Qed.

Example signatures_logged_witness : ∃ w' ds,
  life (λ st, st = app) (λ _ _, True) start [q] w' ∧ sink_trace (w_audit w') = ds
  ∧ [(Some (request_id q), Some (wallet_id q))] `sublist_of` succeeded ds.
Proof.
  destruct one_signature as (w' & Hl). exists w'.
  destruct (signatures_logged (λ st, st = app) (λ _ _, True) start [q] w' start_wallets Hl) as (ds & Ht & Hs).
  exists ds. split; [exact Hl|]. split; [exact Ht|exact Hs].
Defined.

Example signatures_obey_rules_witness : Forall (obeys rs None) [q].
Proof.
  destruct one_signature as (w' & Hl).
  apply (signatures_obey_rules rs TokenBucketLimiter_new None (λ st, st = app) (λ _ _, True) start [q] w');
    [reflexivity|exact start_wallets|exact Hl].
Defined.

Example signatures_within_budget_witness : Z.of_nat (length (filter (λ q', rate_limit_key PerWallet q' = rate_limit_key PerWallet q) [q])) ≤ 2.
Proof.
  destruct one_signature as (w' & Hl).
  apply (signatures_within_budget rs TokenBucketLimiter_new None PerWallet 2 q (λ st, st = app) (λ _ _, True) start [q] w');
    [reflexivity|split; discriminate|reflexivity|reflexivity|exact start_wallets|exact Hl].
Defined.
End LifeWitness.
